(** * Scanner engine: a shallow embedding of [scanner/engine.cpp]

    The development follows the source file:
    - the work structs ([VideoWorkItem], [LoadWorkEntry], [EvalWorkEntry]);
    - [find_keyframe_indices] and what [load_video_thread] reads and pushes
      for a load entry;
    - the body of [evaluate_thread] for one entry (configure/reset tracking,
      the batched pass, device migration, warmup trimming) and its loop;
    - the buffer release of [save_thread];
    - the work planner of [run_job] for the [All] and [SequenceGather]
      sampling modes;
    - the intake loops of [run_job] (master and worker nodes), as a
      transition system in which the save workers retire items concurrently;
    - small scenarios on which the workers are run;
    - the planner for the [Strided] and [Gather] sampling modes, the factory
      groups, the loops of the load worker and of the save worker with the
      files it writes, and the stages of a node run one after the other;
    - the batches of an entry as the evaluators publish them, against which
      the trimming and the resets of the worker are stated.
    The second part states and proves the properties.

    Conventions.  C++ integers are [Z]; where the source narrows or changes
    signedness the conversion is written out ([to_i32], [to_u64]).  Vector
    indices ([size_t]) are [nat].  Undefined behaviour (out-of-range vector
    access), failed [assert]s and [LOG(FATAL)] are explicit error results.
    Fields that the source leaves unset are 0 or empty.  Evaluators, the
    memory interface, the storage backend and the globals [WORK_ITEM_SIZE],
    [PUS_PER_NODE] and [TASKS_IN_QUEUE_PER_PU] are defined outside this
    source file and are parameters here.  The memory calls are recorded in
    program order; the record does not tell whether a buffer handed to
    [delete_buffer] is still allocated. *)

From Stdlib Require Import String ZArith List Lia Bool Permutation.
Import ListNotations.
Open Scope Z_scope.

(** ** Machine integers *)

Module MachineInt.

Definition i32_min : Z := - 2 ^ 31.
Definition i32_max : Z := 2 ^ 31 - 1.

Definition in_i32 (x : Z) : Prop := i32_min <= x <= i32_max.

(** Conversion of a wider integer to [i32]: reduction modulo 2^32 into the
    signed range. *)
Definition to_i32 (x : Z) : Z := (x + 2 ^ 31) mod 2 ^ 32 - 2 ^ 31.

(** [static_cast<u64>] of an [i64]. *)
Definition to_u64 (x : Z) : Z := x mod 2 ^ 64.

(** Subtraction of two [u64] values. *)
Definition u64_sub (a b : Z) : Z := (a - b) mod 2 ^ 64.

End MachineInt.
Import MachineInt.

(** ** Results of code that can fail *)

Inductive Failure : Type :=
| OutOfBounds      (* a vector is indexed or sliced outside its size *)
| AssertFailed     (* an [assert] of the source does not hold *)
| Fatal            (* a [LOG(FATAL)] / [LOG_IF(FATAL, ...)] fires *)
| OutOfFuel.       (* the loop did not finish within the given fuel *)

Inductive Result (A : Type) : Type :=
| Ok (a : A)
| Err (f : Failure).
Arguments Ok {A} a.
Arguments Err {A} f.

Definition bind {A B : Type} (r : Result A) (k : A -> Result B) : Result B :=
  match r with
  | Ok a => k a
  | Err f => Err f
  end.

Notation "x <- r ;; k" := (bind r (fun x => k))
  (at level 61, r at next level, right associativity).
Notation "' p <- r ;; k" := (bind r (fun p => k))
  (at level 61, p pattern, r at next level, right associativity).

Definition guard (b : bool) (f : Failure) : Result unit :=
  if b then Ok tt else Err f.

(** [v[i]] on a [std::vector]. *)
Definition vec_get {A : Type} (v : list A) (i : nat) : Result A :=
  match nth_error v i with
  | Some a => Ok a
  | None => Err OutOfBounds
  end.

(** The range [v.begin() + first, v.begin() + last)]: defined only when
    [first <= last <= v.size()]. *)
Definition vec_range {A : Type} (v : list A) (first last : Z) : Result (list A) :=
  if (0 <=? first) && (first <=? last) && (last <=? Z.of_nat (length v))
  then Ok (firstn (Z.to_nat (last - first)) (skipn (Z.to_nat first) v))
  else Err OutOfBounds.

(** ** Work structs *)

Record Interval : Type := mkInterval {
  ival_start : Z;   (* i32 *)
  ival_end : Z      (* i32 *)
}.

Record VideoWorkItem : Type := mkVideoWorkItem {
  video_index : Z;      (* i32 *)
  item_id : Z;          (* i64 *)
  next_item_id : Z;     (* i64 *)
  rows_from_start : Z   (* i32 *)
}.

Inductive Sampling : Type := All | Strided | Gather | SequenceGather.

Record LoadWorkEntry : Type := mkLoadWorkEntry {
  lw_work_item_index : Z;
  lw_interval : Interval;
  lw_strided_interval : Interval;
  lw_strided_stride : Z;
  lw_gather_points : list Z;
  lw_gather_sequences : list Interval
}.

(** ** The keyframe bracket search *)

Module Keyframes.

(** First loop of [find_keyframe_indices], entered at index [i] with the
    positions from index [i] on: the first position greater than
    [start_frame] yields [i - 1]; [None] stands for the initial
    [numeric_limits<size_t>::max()]. *)
Fixpoint find_start (start_frame : Z) (kps : list Z) (i : nat) : option nat :=
  match kps with
  | [] => None
  | k :: rest =>
      if start_frame <? k then Some (i - 1)%nat
      else find_start start_frame rest (S i)
  end.

(** Second loop, entered at index [i]; [0] when no position reaches
    [end_frame]. *)
Fixpoint find_end (end_frame : Z) (kps : list Z) (i : nat) : nat :=
  match kps with
  | [] => 0%nat
  | k :: rest =>
      if end_frame <=? k then i else find_end end_frame rest (S i)
  end.

(** The two [assert]s are taken as enabled: where one fails the search has
    no result. *)
Definition find_keyframe_indices (start_frame end_frame : Z)
    (keyframe_positions : list Z) : Result (nat * nat) :=
  match find_start start_frame (skipn 1 keyframe_positions) 1 with
  | None => Err AssertFailed
  | Some start_keyframe_index =>
      let end_keyframe_index :=
        find_end end_frame (skipn start_keyframe_index keyframe_positions)
                 start_keyframe_index in
      if Nat.eqb end_keyframe_index 0 then Err AssertFailed
      else Ok (start_keyframe_index, end_keyframe_index)
  end.

(** What [load_video_thread] does for one interval: the position and size
    passed to [read], and the keyframe positions written to the decode
    arguments. *)
Record ReadRequest : Type := mkReadRequest {
  read_pos : Z;
  read_size : Z
}.

Record IntervalLoad : Type := mkIntervalLoad {
  il_request : ReadRequest;
  il_start_keyframe : Z;
  il_end_keyframe : Z
}.

Definition read_interval (keyframe_positions keyframe_byte_offsets : list Z)
    (iv : Interval) : Result IntervalLoad :=
  '(start_keyframe_index, end_keyframe_index) <-
      find_keyframe_indices (ival_start iv) (ival_end iv) keyframe_positions ;;
  start_off <- vec_get keyframe_byte_offsets start_keyframe_index ;;
  end_off <- vec_get keyframe_byte_offsets end_keyframe_index ;;
  let start_keyframe_byte_offset := to_u64 start_off in
  let end_keyframe_byte_offset := to_u64 end_off in
  let buffer_size := u64_sub end_keyframe_byte_offset start_keyframe_byte_offset in
  start_keyframe <- vec_get keyframe_positions start_keyframe_index ;;
  end_keyframe <- vec_get keyframe_positions end_keyframe_index ;;
  Ok (mkIntervalLoad (mkReadRequest start_keyframe_byte_offset buffer_size)
                     start_keyframe end_keyframe).

(** Strictly increasing lists, as a check that computes. *)
Fixpoint increasingb (l : list Z) : bool :=
  match l with
  | [] => true
  | x :: rest =>
      match rest with
      | [] => true
      | y :: _ => (x <? y) && increasingb rest
      end
  end.

(** Every element lies in [0, 2^63): a non-negative [i64]. *)
Definition offsets_okb (l : list Z) : bool :=
  forallb (fun x => (0 <=? x) && (x <? 2 ^ 63)) l.

End Keyframes.

(** ** Devices, buffers and the memory interface *)

Inductive DeviceType : Type := CPU | GPU.

Definition device_eqb (a b : DeviceType) : bool :=
  match a, b with
  | CPU, CPU => true
  | GPU, GPU => true
  | _, _ => false
  end.

(** [DecoderEvaluator::DecodeArgs], as [load_video_thread] fills it. *)
Record DecodeArgs : Type := mkDecodeArgs {
  da_warmup_count : Z;
  da_sampling : Sampling;
  da_interval : Interval;
  da_strided_interval : Interval;
  da_strided_stride : Z;
  da_gather_points : list Z;
  da_gather_sequences : list Interval;
  da_start_keyframe : Z;
  da_end_keyframe : Z
}.

(** What a buffer holds. *)
Inductive Payload : Type :=
| Encoded (pos size : Z)      (* the bytes [pos, pos + size) of a video file *)
| Args (a : DecodeArgs)       (* a decode-arguments record *)
| Data (v : Z).               (* a row published by an evaluator *)

(** A buffer remembers the device it was allocated on; [buf_payload] is its
    content. *)
Record Buffer : Type := mkBuffer {
  buf_device_type : DeviceType;
  buf_device_id : Z;
  buf_payload : Payload
}.

(** Calls to [new_buffer], [memcpy_buffer] and [delete_buffer], in program
    order.  [DeleteBuffer t id b] records the device arguments the caller
    passed, which the allocator requires to be those of the allocation. *)
Inductive MemEvent : Type :=
| NewBuffer (t : DeviceType) (id : Z) (size : Z)
| MemcpyBuffer (dst src : Buffer) (size : Z)
| DeleteBuffer (t : DeviceType) (id : Z) (b : Buffer).

(** The buffer obtained by [new_buffer (t, id, size)] followed by
    [memcpy_buffer] from [src]. *)
Definition copy_to (t : DeviceType) (id : Z) (src : Buffer) : Buffer :=
  mkBuffer t id (buf_payload src).

(** The buffers handed to [delete_buffer], and the sources of the copies made
    by [memcpy_buffer], in program order. *)
Fixpoint deleted (m : list MemEvent) : list Buffer :=
  match m with
  | [] => []
  | DeleteBuffer _ _ b :: rest => b :: deleted rest
  | _ :: rest => deleted rest
  end.

Fixpoint copied (m : list MemEvent) : list Buffer :=
  match m with
  | [] => []
  | MemcpyBuffer _ src _ :: rest => src :: copied rest
  | _ :: rest => copied rest
  end.

Record VideoMetadata : Type := mkVideoMetadata {
  md_width : Z;
  md_height : Z;
  md_frames : Z;                          (* i32 *)
  md_keyframe_positions : list Z;         (* i64 *)
  md_keyframe_byte_offsets : list Z       (* i64 *)
}.

Record EvalWorkEntry : Type := mkEvalWorkEntry {
  work_item_index : Z;
  column_names : list string;
  buffer_sizes : list (list Z);
  buffers : list (list Buffer);
  buffer_type : DeviceType;
  buffer_device_id : Z;
  video_decode_item : bool
}.

Fixpoint mapM {A B : Type} (f : A -> Result B) (l : list A) : Result (list B) :=
  match l with
  | [] => Ok []
  | a :: rest =>
      b <- f a ;;
      bs <- mapM f rest ;;
      Ok (b :: bs)
  end.

(** [v[i]] for a signed index converted to [size_t]. *)
Definition vec_get_z {A : Type} (v : list A) (i : Z) : Result A :=
  if i <? 0 then Err OutOfBounds else vec_get v (Z.to_nat i).

(** ** The load worker ([load_video_thread]) *)

Module Load.
Import Keyframes.

(** The positions and offsets the worker searches: those of the metadata
    followed by the frame count and the file size. *)
Definition extended_positions (md : VideoMetadata) : list Z :=
  md_keyframe_positions md ++ [md_frames md].

Definition extended_offsets (md : VideoMetadata) (file_size : Z) : list Z :=
  md_keyframe_byte_offsets md ++ [file_size].

(** The intervals to read and the decode arguments created with them. *)
Definition intervals_and_args (sampling : Sampling) (warmup_count : Z)
    (lw : LoadWorkEntry) : list (Interval * DecodeArgs) :=
  match sampling with
  | All =>
      [(mkInterval (ival_start (lw_interval lw)) (ival_end (lw_interval lw)),
        mkDecodeArgs warmup_count All (lw_interval lw) (mkInterval 0 0) 0 [] [] 0 0)]
  | Strided =>
      [(mkInterval (ival_start (lw_strided_interval lw))
                   (ival_end (lw_strided_interval lw)),
        mkDecodeArgs warmup_count Strided (mkInterval 0 0)
                     (lw_strided_interval lw) (lw_strided_stride lw) [] [] 0 0)]
  | Gather =>
      map (fun point =>
             (mkInterval point (to_i32 (point + 1)),
              mkDecodeArgs warmup_count Gather (mkInterval 0 0) (mkInterval 0 0) 0
                           [point] [] 0 0))
          (lw_gather_points lw)
  | SequenceGather =>
      map (fun iv =>
             (iv,
              mkDecodeArgs warmup_count SequenceGather (mkInterval 0 0)
                           (mkInterval 0 0) 0 [] [iv] 0 0))
          (lw_gather_sequences lw)
  end.

Definition set_keyframes (a : DecodeArgs) (start_keyframe end_keyframe : Z)
    : DecodeArgs :=
  mkDecodeArgs (da_warmup_count a) (da_sampling a) (da_interval a)
               (da_strided_interval a) (da_strided_stride a)
               (da_gather_points a) (da_gather_sequences a)
               start_keyframe end_keyframe.

(** The entry built for one load entry; [sizeof_args] is
    [sizeof (DecoderEvaluator::DecodeArgs)]. *)
Definition load_entry (sampling : Sampling) (warmup_count sizeof_args : Z)
    (keyframe_positions keyframe_byte_offsets : list Z) (lw : LoadWorkEntry)
    : Result EvalWorkEntry :=
  rows <- mapM (fun '(iv, a) =>
                  il <- read_interval keyframe_positions keyframe_byte_offsets iv ;;
                  Ok (mkBuffer CPU 0 (Encoded (read_pos (il_request il))
                                              (read_size (il_request il))),
                      read_size (il_request il),
                      mkBuffer CPU 0 (Args (set_keyframes a (il_start_keyframe il)
                                                          (il_end_keyframe il)))))
               (intervals_and_args sampling warmup_count lw) ;;
  Ok (mkEvalWorkEntry (lw_work_item_index lw)
                      ["video"%string; "video_args"%string]
                      [map (fun r => snd (fst r)) rows;
                       map (fun _ => sizeof_args) rows]
                      [map (fun r => fst (fst r)) rows;
                       map (fun r => snd r) rows]
                      CPU 0 true).

End Load.

(** ** The evaluator chain worker ([evaluate_thread]) *)

Module Engine.

Section Chain.

(** Internal state of an evaluator instance. *)
Variable St : Type.

(** The [Evaluator] interface together with what the worker reads from its
    factory ([get_capabilities], [get_output_names]) and from its config
    ([device_ids[0]]).  [ev_state] is the state of the instance. *)
Record Evaluator : Type := mkEvaluator {
  ev_device_type : DeviceType;
  ev_device_id : Z;
  ev_output_names : list string;
  ev_configure : VideoMetadata -> St -> St;
  ev_reset : St -> St;
  ev_evaluate : St -> list (list Buffer) -> list (list Z) ->
                St * list (list Buffer) * list (list Z);
  ev_state : St
}.

Definition set_state (ev : Evaluator) (s : St) : Evaluator :=
  mkEvaluator (ev_device_type ev) (ev_device_id ev) (ev_output_names ev)
              (ev_configure ev) (ev_reset ev) (ev_evaluate ev) s.

(** Calls made on the evaluators, by position in the group. *)
Inductive EvalCall : Type :=
| CallConfigure (e : nat) (md : VideoMetadata)
| CallReset (e : nat).

Record EvaluateThreadArgs : Type := mkEvaluateThreadArgs {
  warmup_count : Z;
  metadata : list VideoMetadata;
  work_items : list VideoWorkItem;
  last_evaluator_group : bool;
  WORK_ITEM_SIZE : Z            (* the global of that name *)
}.

(** What the worker keeps from one entry to the next. *)
Record EvalThread : Type := mkEvalThread {
  evaluators : list Evaluator;
  last_video_index : Z;         (* int *)
  last_next_item_id : Z         (* int *)
}.

Definition needs_configure (work_item : VideoWorkItem) (th : EvalThread) : bool :=
  negb (video_index work_item =? last_video_index th).

Definition needs_reset (work_item : VideoWorkItem) (th : EvalThread) : bool :=
  negb ((video_index work_item =? last_video_index th) &&
        (item_id work_item =? last_next_item_id th)).

(** The loop that configures and resets every evaluator. *)
Fixpoint prepare_evaluators (cfg rst : bool) (md : VideoMetadata) (e : nat)
    (evs : list Evaluator) : list Evaluator * list EvalCall :=
  match evs with
  | [] => ([], [])
  | ev :: rest =>
      let ev1 := if cfg then set_state ev (ev_configure ev md (ev_state ev)) else ev in
      let ev2 := if rst then set_state ev1 (ev_reset ev1 (ev_state ev1)) else ev1 in
      let '(rest', calls) := prepare_evaluators cfg rst md (S e) rest in
      (ev2 :: rest',
       (if cfg then [CallConfigure e md] else []) ++
       (if rst then [CallReset e] else []) ++ calls)
  end.

(** Names, buffers, sizes and device of the data between two evaluators. *)
Record Stage : Type := mkStage {
  sg_names : list string;
  sg_buffers : list (list Buffer);
  sg_sizes : list (list Z);
  sg_type : DeviceType;
  sg_id : Z
}.

(** Moving the rows of one column to device [(dst_t, dst_id)]; the source is
    released with the device tag [(src_t, src_id)] of the data. *)
Fixpoint migrate_column (dst_t : DeviceType) (dst_id : Z) (src_t : DeviceType)
    (src_id : Z) (bufs : list Buffer) (sizes : list Z)
    : Result (list Buffer * list MemEvent) :=
  match bufs with
  | [] => Ok ([], [])
  | b :: bufs' =>
      match sizes with
      | [] => Err OutOfBounds
      | size :: sizes' =>
          let buffer := copy_to dst_t dst_id b in
          '(moved, evs) <- migrate_column dst_t dst_id src_t src_id bufs' sizes' ;;
          Ok (buffer :: moved,
              NewBuffer dst_t dst_id size :: MemcpyBuffer buffer b size ::
              DeleteBuffer src_t src_id b :: evs)
      end
  end.

Fixpoint migrate_columns (dst_t : DeviceType) (dst_id : Z) (src_t : DeviceType)
    (src_id : Z) (cols : list (list Buffer)) (sizes : list (list Z))
    : Result (list (list Buffer) * list MemEvent) :=
  match cols with
  | [] => Ok ([], [])
  | col :: cols' =>
      match sizes with
      | [] => Err OutOfBounds
      | szs :: sizes' =>
          '(moved, evs) <- migrate_column dst_t dst_id src_t src_id col szs ;;
          '(rest, evs') <- migrate_columns dst_t dst_id src_t src_id cols' sizes' ;;
          Ok (moved :: rest, evs ++ evs')
      end
  end.

Definition len {A : Type} (l : list A) : Z := Z.of_nat (length l).

(** One batch through the evaluators of the group, evaluator [e] first. *)
Fixpoint run_chain (e : nat) (evs : list Evaluator) (video_decode : bool)
    (batch_size : Z) (out : Stage)
    : Result (list Evaluator * Z * Stage * list MemEvent) :=
  match evs with
  | [] => Ok ([], batch_size, out, [])
  | ev :: rest =>
      let device_id := ev_device_id ev in
      let caps_device_type := ev_device_type ev in
      (* swap output -> input *)
      let input_buffers := sg_buffers out in
      let input_sizes := sg_sizes out in
      let input_buffer_type := sg_type out in
      let input_device_id := sg_id out in
      '(input_buffers, input_buffer_type, input_device_id, m1) <-
        (if negb (device_eqb input_buffer_type caps_device_type) ||
            negb (input_device_id =? device_id)
         then
           '(moved, m) <- migrate_columns caps_device_type device_id
                            input_buffer_type input_device_id
                            input_buffers input_sizes ;;
           Ok (moved, caps_device_type, device_id, m)
         else Ok (input_buffers, input_buffer_type, input_device_id, [])) ;;
      let '(st', output_buffers, output_sizes) :=
        ev_evaluate ev (ev_state ev) input_buffers input_sizes in
      _ <- guard (Nat.eqb (length output_buffers) (length output_sizes)) Fatal ;;
      let decode := Nat.eqb e 0 && video_decode in
      _ <- guard (decode ||
                  (forallb (fun col => len col =? batch_size) output_buffers &&
                   forallb (fun col => len col =? batch_size) output_sizes))
                 Fatal ;;
      batch_size' <-
        (if decode
         then col0 <- vec_get output_sizes 0 ;; Ok (len col0)
         else Ok batch_size) ;;
      let m2 :=
        flat_map (fun col => map (DeleteBuffer input_buffer_type input_device_id) col)
                 input_buffers in
      '(rest', final_batch_size, final, m3) <-
        run_chain (S e) rest video_decode batch_size'
                  (mkStage (ev_output_names ev) output_buffers output_sizes
                           caps_device_type device_id) ;;
      Ok (set_state ev st' :: rest', final_batch_size, final, m1 ++ m2 ++ m3)
  end.

(** Number of leading rows of a batch that are warmup rows. *)
Definition warmup_frames (args : EvaluateThreadArgs) (reset : bool)
    (work_item : VideoWorkItem) (batch_size current_input : Z) : Z :=
  if last_evaluator_group args && reset then
    let total_warmup_frames :=
      Z.min (warmup_count args) (rows_from_start work_item) in
    Z.min batch_size (Z.max 0 (total_warmup_frames - current_input))
  else 0.

(** What one output column of a batch contributes: the sizes and buffers kept
    for the output entry, and the memory calls made on the way. *)
Definition keep_column (out : Stage) (last_t : DeviceType) (last_id : Z)
    (warmup batch_size : Z) (i : nat)
    : Result (list Z * list Buffer * list MemEvent) :=
  sizes <- vec_get (sg_sizes out) i ;;
  bufs <- vec_get (sg_buffers out) i ;;
  _ <- guard (Nat.eqb (length sizes) (length bufs)) AssertFailed ;;
  (* delete warmup frame outputs *)
  warm <- (if 0 <? warmup then vec_range bufs 0 warmup else Ok []) ;;
  let m1 := map (DeleteBuffer last_t last_id) warm in
  (* make sure all outputs are in CPU memory *)
  '(bufs', m2) <-
    (if negb (device_eqb (sg_type out) CPU) && (warmup <? batch_size)
     then
       rows <- vec_range bufs warmup batch_size ;;
       szs <- vec_range sizes warmup batch_size ;;
       '(moved, m) <- migrate_column CPU 0 (sg_type out) (sg_id out) rows szs ;;
       Ok (firstn (Z.to_nat warmup) bufs ++ moved ++
           skipn (Z.to_nat batch_size) bufs, m)
     else Ok (bufs, [])) ;;
  (* keep non-warmup frame outputs *)
  kept_sizes <- vec_range sizes warmup (len sizes) ;;
  kept_bufs <- vec_range bufs' warmup (len bufs') ;;
  Ok (kept_sizes, kept_bufs, m1 ++ m2).

Fixpoint keep_columns (out : Stage) (last_t : DeviceType) (last_id : Z)
    (warmup batch_size : Z) (cols : list nat)
    : Result (list (list Z) * list (list Buffer) * list MemEvent) :=
  match cols with
  | [] => Ok ([], [], [])
  | i :: cols' =>
      '(ks, kb, m) <- keep_column out last_t last_id warmup batch_size i ;;
      '(kss, kbs, m') <- keep_columns out last_t last_id warmup batch_size cols' ;;
      Ok (ks :: kss, kb :: kbs, m ++ m')
  end.

(** [acc[i].insert (acc[i].end (), new[i])] for every column. *)
Fixpoint append_columns {A : Type} (acc new : list (list A)) : list (list A) :=
  match acc, new with
  | a :: acc', n :: new' => (a ++ n) :: append_columns acc' new'
  | _, _ => acc
  end.

(** The batched pass over one entry: [while (current_input < total_inputs)].
    [fuel] bounds the number of iterations. *)
Fixpoint batched_pass (fuel : nat) (args : EvaluateThreadArgs)
    (work_entry : EvalWorkEntry) (work_item : VideoWorkItem) (reset : bool)
    (last_t : DeviceType) (last_id : Z) (num_columns : nat)
    (total_inputs current_input : Z) (evs : list Evaluator)
    (acc_sizes : list (list Z)) (acc_buffers : list (list Buffer))
    : Result (list Evaluator * list (list Z) * list (list Buffer) * list MemEvent) :=
  if current_input <? total_inputs then
    match fuel with
    | O => Err OutOfFuel
    | S fuel' =>
        let batch_size := Z.min total_inputs (WORK_ITEM_SIZE args) in
        output_buffers <-
          mapM (fun col => vec_range col current_input (current_input + batch_size))
               (buffers work_entry) ;;
        output_sizes <-
          mapM (fun col => vec_range col current_input (current_input + batch_size))
               (buffer_sizes work_entry) ;;
        let out := mkStage (column_names work_entry) output_buffers output_sizes
                           (buffer_type work_entry) (buffer_device_id work_entry) in
        '(evs', batch_size, out, m1) <-
          run_chain 0 evs (video_decode_item work_entry) batch_size out ;;
        let warmup := warmup_frames args reset work_item batch_size current_input in
        '(kept_sizes, kept_buffers, m2) <-
          keep_columns out last_t last_id warmup batch_size (seq 0 num_columns) ;;
        '(evs'', acc_sizes', acc_buffers', m3) <-
          batched_pass fuel' args work_entry work_item reset last_t last_id
                       num_columns total_inputs (current_input + batch_size) evs'
                       (append_columns acc_sizes kept_sizes)
                       (append_columns acc_buffers kept_buffers) ;;
        Ok (evs'', acc_sizes', acc_buffers', m1 ++ m2 ++ m3)
    end
  else Ok (evs, acc_sizes, acc_buffers, []).

(** What processing one entry produces: the entry pushed downstream, the
    calls made on the evaluators and the memory calls. *)
Record EntryOutcome : Type := mkEntryOutcome {
  oc_thread : EvalThread;
  oc_entry : EvalWorkEntry;
  oc_calls : list EvalCall;
  oc_mem : list MemEvent
}.

(** Lines 442-456 of the loop body: configure and reset the evaluators, then
    record the entry's video and the id expected next. *)
Definition configure_reset (th : EvalThread) (work_item : VideoWorkItem)
    (md : VideoMetadata) : EvalThread * list EvalCall :=
  let cfg := needs_configure work_item th in
  let rst := needs_reset work_item th in
  let '(evs, calls) := prepare_evaluators cfg rst md 0 (evaluators th) in
  (mkEvalThread evs (video_index work_item) (to_i32 (next_item_id work_item)),
   calls).

(** Whether the worker resets on each of the items it handles, in the order
    it handles them; [md_of] stands for the lookup in [args.metadata]. *)
Fixpoint resets_in_order (th : EvalThread) (md_of : VideoWorkItem -> VideoMetadata)
    (items : list VideoWorkItem) : list bool :=
  match items with
  | [] => []
  | work_item :: rest =>
      needs_reset work_item th ::
      resets_in_order (fst (configure_reset th work_item (md_of work_item))) md_of rest
  end.

(** The body of the worker's loop for one entry that is not the sentinel. *)
Definition process_entry (fuel : nat) (args : EvaluateThreadArgs)
    (th : EvalThread) (work_entry : EvalWorkEntry) : Result EntryOutcome :=
  last_ev <- (match rev (evaluators th) with
              | [] => Err AssertFailed
              | ev :: _ => Ok ev
              end) ;;
  let last_evaluator_num_columns := length (ev_output_names last_ev) in
  let last_evaluator_device_id := ev_device_id last_ev in
  let last_evaluator_device_type := ev_device_type last_ev in
  work_item <- vec_get_z (work_items args) (work_item_index work_entry) ;;
  md <- vec_get_z (metadata args) (video_index work_item) ;;
  let rst := needs_reset work_item th in
  let '(th1, calls) := configure_reset th work_item md in
  let total_inputs :=
    match buffers work_entry with
    | [] => 0
    | col0 :: _ => to_i32 (len col0)
    end in
  '(evs', out_sizes, out_buffers, mem) <-
    batched_pass fuel args work_entry work_item rst
                 last_evaluator_device_type last_evaluator_device_id
                 last_evaluator_num_columns total_inputs 0 (evaluators th1)
                 (repeat [] last_evaluator_num_columns)
                 (repeat [] last_evaluator_num_columns) ;;
  Ok (mkEntryOutcome
        (mkEvalThread evs' (last_video_index th1) (last_next_item_id th1))
        (mkEvalWorkEntry (work_item_index work_entry) [] out_sizes out_buffers
                         CPU 0 false)
        calls mem).

(** What the worker assumes of an evaluator: the buffers it publishes are
    allocated on its device, and from columns of one length it publishes
    columns of one length. *)
Definition evaluator_contract (ev : Evaluator) : Prop :=
  forall (st : St) (ins : list (list Buffer)) (szs : list (list Z)),
    let '(_, outs, osz) := ev_evaluate ev st ins szs in
    Forall (Forall (fun b => buf_device_type b = ev_device_type ev)) outs /\
    (forall n : Z,
        Forall (fun col => len col = n) ins ->
        Forall (fun col => len col = n) szs ->
        exists n' : Z,
          Forall (fun col => len col = n') outs /\
          Forall (fun col => len col = n') osz).

(** The worker: entries are popped until the sentinel; every processed entry
    is pushed to the output queue. *)
Fixpoint evaluate_thread (fuel : nat) (args : EvaluateThreadArgs)
    (th : EvalThread) (input_work : list EvalWorkEntry)
    : Result (EvalThread * list EvalWorkEntry * list EvalCall * list MemEvent) :=
  match input_work with
  | [] => Ok (th, [], [], [])
  | work_entry :: rest =>
      if work_item_index work_entry =? -1 then Ok (th, [], [], [])
      else
        oc <- process_entry fuel args th work_entry ;;
        '(th', pushed, calls, mem) <- evaluate_thread fuel args (oc_thread oc) rest ;;
        Ok (th', oc_entry oc :: pushed, oc_calls oc ++ calls, oc_mem oc ++ mem)
  end.

(** The state in which the worker starts. *)
Definition initial_thread (evs : list Evaluator) : EvalThread :=
  mkEvalThread evs (-1) (-1).

Definition on_cpu (b : Buffer) : Prop := buf_device_type b = CPU.

(** All columns of a stage, buffers and sizes, have [n] rows. *)
Definition uniform (n : Z) (out : Stage) : Prop :=
  Forall (fun col => len col = n) (sg_buffers out) /\
  Forall (fun col => len col = n) (sg_sizes out).

(** The buffers of a stage are allocated on the device the stage is tagged
    with. *)
Definition on_device (out : Stage) : Prop :=
  Forall (Forall (fun b => buf_device_type b = sg_type out)) (sg_buffers out).

End Chain.

Arguments mkEvaluator {St}.
Arguments ev_device_type {St}.
Arguments ev_device_id {St}.
Arguments ev_output_names {St}.
Arguments ev_evaluate {St}.
Arguments ev_state {St}.
Arguments evaluators {St}.
Arguments last_video_index {St}.
Arguments last_next_item_id {St}.
Arguments mkEvalThread {St}.
Arguments initial_thread {St}.
Arguments needs_configure {St}.
Arguments needs_reset {St}.
Arguments prepare_evaluators {St}.
Arguments run_chain {St}.
Arguments batched_pass {St}.
Arguments process_entry {St}.
Arguments configure_reset {St}.
Arguments resets_in_order {St}.
Arguments evaluator_contract {St}.
Arguments set_state {St}.
Arguments evaluate_thread {St}.
Arguments oc_thread {St}.
Arguments oc_entry {St}.
Arguments oc_calls {St}.
Arguments oc_mem {St}.

(** The release loop of [save_thread] for one entry: every row of every
    output column is handed to [delete_buffer] with [DeviceType::CPU]. *)
Definition save_release (output_names : list string) (work_entry : EvalWorkEntry)
    : Result (list MemEvent) :=
  let num_frames :=
    match buffers work_entry with
    | [] => 0%nat
    | col0 :: _ => length col0
    end in
  ms <- mapM (fun out_idx =>
                sizes <- vec_get (buffer_sizes work_entry) out_idx ;;
                _ <- guard (Nat.eqb (length sizes) num_frames) Fatal ;;
                bufs <- vec_get (buffers work_entry) out_idx ;;
                _ <- guard (Nat.eqb (length bufs) num_frames) Fatal ;;
                Ok (map (DeleteBuffer CPU (buffer_device_id work_entry)) bufs))
             (seq 0 (length output_names)) ;;
  Ok (concat ms).

End Engine.

(** ** The work planner of [run_job] *)

Module Planner.

(** [i32] addition and subtraction. *)
Definition add32 (a b : Z) : Z := to_i32 (a + b).
Definition sub32 (a b : Z) : Z := to_i32 (a - b).

(** A [LoadWorkEntry] of which only the index has been set. *)
Definition blank_load_entry (index : Z) : LoadWorkEntry :=
  mkLoadWorkEntry index (mkInterval 0 0) (mkInterval 0 0) 0 [] [].

(** The planner appends to two vectors. *)
Record Plan : Type := mkPlan {
  plan_work_items : list VideoWorkItem;
  plan_load_work_items : list LoadWorkEntry
}.

Definition empty_plan : Plan := mkPlan [] [].

(** [work_items.size() - 1] stored in the [i32] field. *)
Definition last_index (work_items : list VideoWorkItem) : Z :=
  to_i32 (Z.of_nat (length work_items) - 1).

(** [Sampling::All]: the [while (allocated_frames < meta.frames())] loop of
    video [i]. *)
Fixpoint all_video (fuel : nat) (work_item_size i frames allocated_frames : Z)
    (p : Plan) : Result Plan :=
  if allocated_frames <? frames then
    match fuel with
    | O => Err OutOfFuel
    | S fuel' =>
        let frames_to_allocate :=
          Z.min work_item_size (sub32 frames allocated_frames) in
        let item :=
          mkVideoWorkItem i allocated_frames
                          (add32 allocated_frames frames_to_allocate)
                          allocated_frames in
        let work_items := plan_work_items p ++ [item] in
        let load_item :=
          mkLoadWorkEntry (last_index work_items)
                          (mkInterval allocated_frames
                                      (add32 allocated_frames frames_to_allocate))
                          (mkInterval 0 0) 0 [] [] in
        all_video fuel' work_item_size i frames
                  (add32 allocated_frames frames_to_allocate)
                  (mkPlan work_items (plan_load_work_items p ++ [load_item]))
    end
  else Ok p.

(** [Sampling::All]: the loop over the videos, video [i] first. *)
Fixpoint all_videos (fuel : nat) (work_item_size : Z) (i : nat)
    (video_metadata : list VideoMetadata) (p : Plan) : Result Plan :=
  match video_metadata with
  | [] => Ok p
  | meta :: rest =>
      p' <- all_video fuel work_item_size (to_i32 (Z.of_nat i)) (md_frames meta) 0 p ;;
      all_videos fuel work_item_size (S i) rest p'
  end.

Definition plan_all (fuel : nat) (work_item_size : Z)
    (video_metadata : list VideoMetadata) : Result Plan :=
  all_videos fuel work_item_size 0 video_metadata empty_plan.

Record SequenceSamples : Type := mkSequenceSamples {
  ss_video_index : Z;           (* i32 *)
  ss_intervals : list Interval
}.

(** [Sampling::SequenceGather]: the [while] loop of one interval.  It returns
    the running [total_frames_in_sequences] with the plan. *)
Fixpoint sequence_interval (fuel : nat) (work_item_size video : Z)
    (iv : Interval) (frames_in_sample allocated_frames total_frames_in_sequences : Z)
    (p : Plan) : Result (Z * Plan) :=
  if allocated_frames <? frames_in_sample then
    match fuel with
    | O => Err OutOfFuel
    | S fuel' =>
        let frames_to_allocate :=
          Z.min work_item_size (sub32 frames_in_sample allocated_frames) in
        let item :=
          mkVideoWorkItem video total_frames_in_sequences
                          (add32 total_frames_in_sequences frames_to_allocate)
                          allocated_frames in
        let work_items := plan_work_items p ++ [item] in
        let load_item :=
          mkLoadWorkEntry (last_index work_items) (mkInterval 0 0)
                          (mkInterval 0 0) 0 []
                          [mkInterval (add32 (ival_start iv) allocated_frames)
                                      (add32 (add32 (ival_start iv) allocated_frames)
                                             frames_to_allocate)] in
        sequence_interval fuel' work_item_size video iv frames_in_sample
                          (add32 allocated_frames frames_to_allocate)
                          (add32 total_frames_in_sequences frames_to_allocate)
                          (mkPlan work_items (plan_load_work_items p ++ [load_item]))
    end
  else Ok (total_frames_in_sequences, p).

(** [work_items.back().next_item_id = -1]. *)
Definition reset_after_last (p : Plan) : Result Plan :=
  match rev (plan_work_items p) with
  | [] => Err OutOfBounds
  | item :: before =>
      Ok (mkPlan (rev before ++
                  [mkVideoWorkItem (video_index item) (item_id item) (-1)
                                   (rows_from_start item)])
                 (plan_load_work_items p))
  end.

(** The loop over the intervals of one [SequenceSamples]. *)
Fixpoint sequence_intervals (fuel : nat) (work_item_size video : Z)
    (intervals : list Interval) (total_frames_in_sequences : Z) (p : Plan)
    : Result Plan :=
  match intervals with
  | [] => Ok p
  | iv :: rest =>
      let frames_in_sample := sub32 (ival_end iv) (ival_start iv) in
      '(total, p1) <- sequence_interval fuel work_item_size video iv
                        frames_in_sample 0 total_frames_in_sequences p ;;
      (* make sure we reset after each gather interval *)
      p2 <- reset_after_last p1 ;;
      sequence_intervals fuel work_item_size video rest total p2
  end.

Fixpoint sequence_samples (fuel : nat) (work_item_size : Z)
    (gather_sequences : list SequenceSamples) (p : Plan) : Result Plan :=
  match gather_sequences with
  | [] => Ok p
  | samples :: rest =>
      p' <- sequence_intervals fuel work_item_size (ss_video_index samples)
              (ss_intervals samples) 0 p ;;
      sequence_samples fuel work_item_size rest p'
  end.

Definition plan_sequence_gather (fuel : nat) (work_item_size : Z)
    (gather_sequences : list SequenceSamples) : Result Plan :=
  sequence_samples fuel work_item_size gather_sequences empty_plan.

(** *** Closed forms

    The lists the loops above build, written with [map] over the chunk
    numbers; the properties section proves that the loops compute them. *)

(** The number of chunks of at most [work_item_size] frames that cover
    [frames] frames. *)
Definition chunk_count (work_item_size frames : Z) : nat :=
  Z.to_nat ((frames + work_item_size - 1) / work_item_size).

(** The size of chunk [k] of a run of [frames] frames. *)
Definition chunk_size (work_item_size frames : Z) (k : nat) : Z :=
  Z.min work_item_size (frames - Z.of_nat k * work_item_size).

(** [All]: item [k] of video [i], which has [frames] frames. *)
Definition all_item (work_item_size i frames : Z) (k : nat) : VideoWorkItem :=
  let id := Z.of_nat k * work_item_size in
  mkVideoWorkItem i id (id + chunk_size work_item_size frames k) id.

Definition video_items (work_item_size i frames : Z) : list VideoWorkItem :=
  map (all_item work_item_size i frames) (seq 0 (chunk_count work_item_size frames)).

(** The items of the videos, video [i] first. *)
Fixpoint all_items_from (work_item_size : Z) (i : nat)
    (video_metadata : list VideoMetadata) : list VideoWorkItem :=
  match video_metadata with
  | [] => []
  | meta :: rest =>
      video_items work_item_size (Z.of_nat i) (md_frames meta) ++
      all_items_from work_item_size (S i) rest
  end.

Definition all_items (work_item_size : Z) (video_metadata : list VideoMetadata)
    : list VideoWorkItem :=
  all_items_from work_item_size 0 video_metadata.

(** [All]: the load entry of the item at position [idx] carries the
    interval [[item_id, next_item_id)]. *)
Definition all_entry (idx : nat) (item : VideoWorkItem) : LoadWorkEntry :=
  mkLoadWorkEntry (Z.of_nat idx) (mkInterval (item_id item) (next_item_id item))
                  (mkInterval 0 0) 0 [] [].

Fixpoint all_entries_from (idx : nat) (items : list VideoWorkItem)
    : list LoadWorkEntry :=
  match items with
  | [] => []
  | item :: rest => all_entry idx item :: all_entries_from (S idx) rest
  end.







(** A video whose frame count is a non-negative [i32] that [fuel] iterations
    of the planner's loop cover. *)
Definition frames_ok (fuel : nat) (meta : VideoMetadata) : bool :=
  (0 <=? md_frames meta) && (md_frames meta <=? i32_max) &&
  (md_frames meta <=? Z.of_nat fuel).






(** Items in which every item that starts an interval
    ([rows_from_start = 0]) follows an item that asks for a reset
    ([next_item_id = -1]); [prev] is the [next_item_id] before the first
    item. *)
Fixpoint separated (prev : Z) (items : list VideoWorkItem) : Prop :=
  match items with
  | [] => True
  | item :: rest =>
      (rows_from_start item = 0 -> prev = -1) /\
      0 <= item_id item /\
      in_i32 (next_item_id item) /\
      separated (next_item_id item) rest
  end.


(** The indices [0, 1, ...] of the entries of a plan. *)
Definition indices (n : nat) : list Z := map Z.of_nat (seq 0 n).

End Planner.

(** ** The intake loops of [run_job]

    The driver threads of the nodes and their save workers run concurrently;
    the model interleaves their steps.  A driver step ends where another
    thread can be observed: after reading [retired_items], and around the
    blocking [MPI_Recv]. *)

Module Driver.

Section Cluster.

(** The globals of these names, and the planned entries. *)
Variable PUS_PER_NODE : Z.
Variable TASKS_IN_QUEUE_PER_PU : Z.
Variable work_items : list VideoWorkItem.
Variable load_work_items : list LoadWorkEntry.

(** What a node's driver shares with its workers. *)
Record Node : Type := mkNode {
  accepted_items : Z;               (* i64 *)
  retired_items : Z;                (* std::atomic<i64> *)
  load_work : list LoadWorkEntry    (* entries pushed so far, oldest first *)
}.

Definition initial_node : Node := mkNode 0 0 [].

(** [i32 local_work = accepted_items - retired_items] and the test
    [local_work < PUS_PER_NODE * TASKS_IN_QUEUE_PER_PU]. *)
Definition local_work (n : Node) : Z :=
  to_i32 (accepted_items n - retired_items n).

Definition below_threshold (n : Node) : bool :=
  local_work n <? PUS_PER_NODE * TASKS_IN_QUEUE_PER_PU.

Definition push_entry (n : Node) (entry : LoadWorkEntry) : Node :=
  mkNode (accepted_items n + 1) (retired_items n) (load_work n ++ [entry]).

(** [args.retired_items++] of a save worker. *)
Definition retire (n : Node) : Node :=
  mkNode (accepted_items n) (retired_items n + 1) (load_work n).

(** Where the master's driver thread stands. *)
Inductive MasterPc : Type :=
| MLoopHead                       (* at the test of the distribution loop *)
| MAccept                         (* the local test passed; about to push *)
| MRecv                           (* in [MPI_Recv] of the distribution loop *)
| MDrainHead (workers_done : Z)   (* at the test of the second loop *)
| MDrainRecv (workers_done : Z)   (* in [MPI_Recv] of the second loop *)
| MExited.

(** Where a worker node's driver thread stands. *)
Inductive WorkerPc : Type :=
| WLoopHead                       (* at the top of [while (true)] *)
| WWaiting                        (* request sent; in [MPI_Recv] *)
| WReply (next_item : Z)          (* the reply has arrived *)
| WExited.                        (* left the loop; draining *)

Record Worker : Type := mkWorker {
  worker_pc : WorkerPc;
  worker_node : Node
}.

Record ClusterState : Type := mkCluster {
  master_pc : MasterPc;
  next_work_item_to_allocate : Z;   (* i32 *)
  master_node : Node;
  workers : list Worker             (* ranks 1 .. num_nodes - 1 *)
}.

Definition num_nodes (c : ClusterState) : Z := 1 + Z.of_nat (length (workers c)).

Definition initial_cluster (peers : nat) : ClusterState :=
  mkCluster MLoopHead 0 initial_node (repeat (mkWorker WLoopHead initial_node) peers).

Definition num_work_items : Z := to_i32 (Z.of_nat (length work_items)).

Fixpoint set_nth {A : Type} (l : list A) (i : nat) (a : A) : list A :=
  match l, i with
  | [], _ => []
  | _ :: rest, O => a :: rest
  | x :: rest, S i' => x :: set_nth rest i' a
  end.

(** A step of the master's driver thread that does not communicate. *)
Definition master_step (c : ClusterState) : option ClusterState :=
  match master_pc c with
  | MLoopHead =>
      if next_work_item_to_allocate c <? num_work_items then
        if below_threshold (master_node c) then
          Some (mkCluster MAccept (next_work_item_to_allocate c)
                          (master_node c) (workers c))
        else if 1 <? num_nodes c then
          Some (mkCluster MRecv (next_work_item_to_allocate c)
                          (master_node c) (workers c))
        else Some c
      else
        Some (mkCluster (MDrainHead 1) (next_work_item_to_allocate c)
                        (master_node c) (workers c))
  | MAccept =>
      match nth_error load_work_items (Z.to_nat (next_work_item_to_allocate c)) with
      | Some entry =>
          Some (mkCluster MLoopHead (next_work_item_to_allocate c + 1)
                          (push_entry (master_node c) entry) (workers c))
      | None => None
      end
  | MDrainHead workers_done =>
      if workers_done <? num_nodes c then
        Some (mkCluster (MDrainRecv workers_done) (next_work_item_to_allocate c)
                        (master_node c) (workers c))
      else
        Some (mkCluster MExited (next_work_item_to_allocate c)
                        (master_node c) (workers c))
  | MRecv | MDrainRecv _ | MExited => None
  end.

(** The master's [MPI_Recv] matches the request of worker [w], and the
    master sends its reply. *)
Definition master_serve (w : nat) (c : ClusterState) : option ClusterState :=
  match nth_error (workers c) w with
  | Some (mkWorker WWaiting node) =>
      match master_pc c with
      | MRecv =>
          let next_item := next_work_item_to_allocate c in
          Some (mkCluster MLoopHead (next_work_item_to_allocate c + 1)
                          (master_node c)
                          (set_nth (workers c) w (mkWorker (WReply next_item) node)))
      | MDrainRecv workers_done =>
          let next_item := -1 in
          Some (mkCluster (MDrainHead (workers_done + 1))
                          (next_work_item_to_allocate c) (master_node c)
                          (set_nth (workers c) w (mkWorker (WReply next_item) node)))
      | _ => None
      end
  | _ => None
  end.

(** A step of the driver thread of a worker node. *)
Definition worker_local_step (wk : Worker) : option Worker :=
  match worker_pc wk with
  | WLoopHead =>
      if below_threshold (worker_node wk)
      then Some (mkWorker WWaiting (worker_node wk))
      else Some wk
  | WReply next_item =>
      if next_item =? -1 then Some (mkWorker WExited (worker_node wk))
      else Some (mkWorker WLoopHead
                          (push_entry (worker_node wk) (Planner.blank_load_entry next_item)))
  | WWaiting | WExited => None
  end.

Definition worker_step (w : nat) (c : ClusterState) : option ClusterState :=
  match nth_error (workers c) w with
  | Some wk =>
      match worker_local_step wk with
      | Some wk' =>
          Some (mkCluster (master_pc c) (next_work_item_to_allocate c)
                          (master_node c) (set_nth (workers c) w wk'))
      | None => None
      end
  | None => None
  end.

(** A save worker of a node retires an item it was handed: the master's
    node is node [0], worker [w] is node [S w]. *)
Definition can_retire (n : Node) : bool := retired_items n <? accepted_items n.

Definition retire_step (node : nat) (c : ClusterState) : option ClusterState :=
  match node with
  | O =>
      if can_retire (master_node c)
      then Some (mkCluster (master_pc c) (next_work_item_to_allocate c)
                           (retire (master_node c)) (workers c))
      else None
  | S w =>
      match nth_error (workers c) w with
      | Some wk =>
          if can_retire (worker_node wk)
          then Some (mkCluster (master_pc c) (next_work_item_to_allocate c)
                               (master_node c)
                               (set_nth (workers c) w
                                        (mkWorker (worker_pc wk) (retire (worker_node wk)))))
          else None
      | None => None
      end
  end.

Inductive Action : Type :=
| MasterStep
| MasterServe (w : nat)
| WorkerStep (w : nat)
| Retire (node : nat).

Definition step (a : Action) (c : ClusterState) : option ClusterState :=
  match a with
  | MasterStep => master_step c
  | MasterServe w => master_serve w c
  | WorkerStep w => worker_step w c
  | Retire node => retire_step node c
  end.

(** A schedule, first action first. *)
Fixpoint run (schedule : list Action) (c : ClusterState) : option ClusterState :=
  match schedule with
  | [] => Some c
  | a :: rest =>
      match step a c with
      | Some c' => run rest c'
      | None => None
      end
  end.

Definition reachable (peers : nat) (c : ClusterState) : Prop :=
  exists schedule, run schedule (initial_cluster peers) = Some c.

(** The nodes of a cluster, the master's first. *)
Definition nodes (c : ClusterState) : list Node :=
  master_node c :: map worker_node (workers c).

(** A worker that has been sent [-1]. *)
Definition got_stop (wk : Worker) : bool :=
  match worker_pc wk with
  | WReply next_item => next_item =? -1
  | WExited => true
  | _ => false
  end.

Definition stopped_workers (c : ClusterState) : Z :=
  Z.of_nat (length (filter got_stop (workers c))).

(** *** Invariants of the intake loops *)

(** A node has retired no more than it accepted, and holds no more than the
    threshold. *)
Definition node_ok (n : Node) : Prop :=
  0 <= retired_items n <= accepted_items n /\
  accepted_items n - retired_items n <= PUS_PER_NODE * TASKS_IN_QUEUE_PER_PU.

Definition open (n : Node) : Prop :=
  accepted_items n - retired_items n < PUS_PER_NODE * TASKS_IN_QUEUE_PER_PU.

Definition worker_ok (wk : Worker) : Prop :=
  node_ok (worker_node wk) /\
  match worker_pc wk with
  | WWaiting | WReply _ => open (worker_node wk)
  | _ => True
  end.

Definition gate_inv (c : ClusterState) : Prop :=
  node_ok (master_node c) /\
  (master_pc c = MAccept -> open (master_node c)) /\
  Forall worker_ok (workers c).

(** What holds of the exchange between the master and its [peers] workers:
    while the master distributes, no worker has been sent [-1]; in its second
    loop [workers_done] counts itself and the workers that have. *)
Definition protocol_inv (peers : nat) (c : ClusterState) : Prop :=
  length (workers c) = peers /\
  0 <= next_work_item_to_allocate c /\
  match master_pc c with
  | MLoopHead => stopped_workers c = 0
  | MAccept | MRecv =>
      next_work_item_to_allocate c < num_work_items /\ stopped_workers c = 0
  | MDrainHead workers_done | MDrainRecv workers_done =>
      num_work_items <= next_work_item_to_allocate c /\
      workers_done = 1 + stopped_workers c
  | MExited =>
      num_work_items <= next_work_item_to_allocate c /\
      stopped_workers c = Z.of_nat peers
  end.

End Cluster.

End Driver.

(** ** Scenarios: a small pipeline to run the workers on *)

Module Scenario.
Import Engine Planner Load.

(** An evaluator that publishes one column: for every row of its first input
    column a row with the same content, allocated on its own device. *)
Definition copy_evaluator (t : DeviceType) (id : Z) : Evaluator unit :=
  mkEvaluator t id ["frame"%string] (fun _ s => s) (fun s => s)
    (fun s ins szs =>
       (s, [map (copy_to t id) (hd [] ins)], [map (fun _ => 1) (hd [] ins)]))
    tt.

(** Modelled from the spec: the decoder evaluator
    ([scanner/evaluators/video/decoder_evaluator.h] is not among the
    sources).  From one encoded blob and its decode arguments it publishes
    one row per frame of the interval ("one encoded blob -> many decoded
    frames"); a freshly reset decoder first publishes the warmup rows ("an
    early output row from a freshly reset evaluator chain"), which are the
    [min (warmup_count, start)] frames before the interval.  Its state tells
    whether it has been reset since it last decoded. *)
Definition stand_in_decoder (t : DeviceType) (id : Z) : Evaluator bool :=
  mkEvaluator t id ["frame"%string] (fun _ s => s) (fun _ => true)
    (fun fresh ins szs =>
       match ins with
       | _ :: [b] :: _ =>
           match buf_payload b with
           | Args a =>
               let s := ival_start (da_interval a) in
               let e := ival_end (da_interval a) in
               let first := if fresh then s - Z.min (da_warmup_count a) s else s in
               let frames :=
                 map (fun k => first + Z.of_nat k) (seq 0 (Z.to_nat (e - first))) in
               (false, [map (fun f => mkBuffer t id (Data f)) frames],
                [map (fun _ => 1) frames])
           | _ => (false, [[]], [[]])
           end
       | _ => (false, [[]], [[]])
       end)
    true.

(** Scenario S5: one video of 40 frames with keyframes at frames 0 and 20,
    [warmup = 8], [WORK_ITEM_SIZE = 16]. *)
Definition s5_video : VideoMetadata := mkVideoMetadata 640 480 40 [0; 20] [0; 5000].

Definition s5_args (last_group : bool) (p : Plan) : EvaluateThreadArgs :=
  mkEvaluateThreadArgs 8 [s5_video] (plan_work_items p) last_group 16.

Definition s5_plan : Result Plan := plan_all 40 16 [s5_video].

(** The entries the load worker pushes for the plan. *)
Definition s5_loaded (p : Plan) : Result (list EvalWorkEntry) :=
  mapM (load_entry All 8 64 (extended_positions s5_video)
                   (extended_offsets s5_video 9000))
       (plan_load_work_items p).

(** The contents of the rows of the first column of the entries handed to
    the save worker. *)
Definition saved_rows (pushed : list EvalWorkEntry) : list Payload :=
  flat_map (fun entry => map buf_payload (hd [] (buffers entry))) pushed.

(** One worker with a single factory group handles the whole plan in
    order. *)
Definition s5_one_worker : Result (list Payload) :=
  p <- s5_plan ;;
  entries <- s5_loaded p ;;
  '(_, pushed, _, _) <-
    evaluate_thread 4 (s5_args true p) (initial_thread [stand_in_decoder CPU 0])
                    entries ;;
  Ok (saved_rows pushed).

(** Every entry is handled by a worker of its own, which therefore resets. *)
Definition s5_worker_per_item : Result (list Payload) :=
  p <- s5_plan ;;
  entries <- s5_loaded p ;;
  pushed <- mapM (fun entry =>
                    oc <- process_entry 4 (s5_args true p)
                            (initial_thread [stand_in_decoder CPU 0]) entry ;;
                    Ok (oc_entry oc))
                 entries ;;
  Ok (saved_rows pushed).

(** A chain of two factory groups, the decoder and a copy evaluator; the
    workers of both groups start on the second item of the plan. *)
Definition s5_second_item_first_group : Result EvalWorkEntry :=
  p <- s5_plan ;;
  entries <- s5_loaded p ;;
  entry <- vec_get entries 1 ;;
  oc <- process_entry 4 (s5_args false p)
          (initial_thread [stand_in_decoder CPU 0]) entry ;;
  Ok (oc_entry oc).

Definition s5_second_item_last_group : Result EvalWorkEntry :=
  p <- s5_plan ;;
  forwarded <- s5_second_item_first_group ;;
  oc <- process_entry 4 (s5_args true p)
          (initial_thread [copy_evaluator CPU 0]) forwarded ;;
  Ok (oc_entry oc).

(** A cluster of a master and one worker node with one processing unit and
    two tasks per unit, and a plan of one item. *)
Definition one_item : list VideoWorkItem := [mkVideoWorkItem 0 0 16 0].

Definition one_entry : list LoadWorkEntry := all_entries_from 0 one_item.

(** The master takes the item, finds the plan exhausted and enters its
    second loop; the worker asks for work, is sent [-1] and leaves. *)
Definition drain_schedule : list Driver.Action :=
  [Driver.MasterStep; Driver.MasterStep; Driver.MasterStep; Driver.MasterStep;
   Driver.WorkerStep 0; Driver.MasterServe 0; Driver.MasterStep;
   Driver.WorkerStep 0].

Definition drained_cluster : Driver.ClusterState :=
  Driver.mkCluster Driver.MExited 1
    (Driver.mkNode 1 0 one_entry)
    [Driver.mkWorker Driver.WExited Driver.initial_node].

(** The rows [first], [first + 1], ... as contents. *)
Definition data_rows (first : Z) (count : nat) : list Payload :=
  map (fun k => Data (first + Z.of_nat k)) (seq 0 count).

End Scenario.

(** ** The planner for [Strided] and [Gather] sampling *)

Module Sampled.
Import Planner.

(** [i32] multiplication. *)
Definition mul32 (a b : Z) : Z := to_i32 (a * b).

(** [a / b] on [i32], the quotient truncated towards zero.  The source's
    division is undefined for [b = 0]; [Z.quot] is 0 there, and the
    properties of the strided plan are stated for a stride of at least 1. *)
Definition div32 (a b : Z) : Z := to_i32 (Z.quot a b).

(** [Sampling::Strided]: the [while (allocated_frames < meta.frames())] loop
    of video [i]. *)
Fixpoint strided_video (fuel : nat) (work_item_size stride i frames allocated_frames : Z)
    (p : Plan) : Result Plan :=
  if allocated_frames <? frames then
    match fuel with
    | O => Err OutOfFuel
    | S fuel' =>
        let frames_to_allocate :=
          Z.min (mul32 work_item_size stride) (sub32 frames allocated_frames) in
        let item :=
          mkVideoWorkItem i allocated_frames
                          (add32 allocated_frames frames_to_allocate)
                          (div32 allocated_frames stride) in
        let work_items := plan_work_items p ++ [item] in
        let load_item :=
          mkLoadWorkEntry (last_index work_items) (mkInterval 0 0)
                          (mkInterval allocated_frames
                                      (add32 allocated_frames frames_to_allocate))
                          stride [] [] in
        strided_video fuel' work_item_size stride i frames
                      (add32 allocated_frames frames_to_allocate)
                      (mkPlan work_items (plan_load_work_items p ++ [load_item]))
    end
  else Ok p.

Fixpoint strided_videos (fuel : nat) (work_item_size stride : Z) (i : nat)
    (video_metadata : list VideoMetadata) (p : Plan) : Result Plan :=
  match video_metadata with
  | [] => Ok p
  | meta :: rest =>
      p' <- strided_video fuel work_item_size stride (to_i32 (Z.of_nat i))
                          (md_frames meta) 0 p ;;
      strided_videos fuel work_item_size stride (S i) rest p'
  end.

Definition plan_strided (fuel : nat) (work_item_size stride : Z)
    (video_metadata : list VideoMetadata) : Result Plan :=
  strided_videos fuel work_item_size stride 0 video_metadata empty_plan.

Record PointSamples : Type := mkPointSamples {
  ps_video_index : Z;           (* i32 *)
  ps_frames : list Z            (* i32 *)
}.

(** [Sampling::Gather]: the [while (allocated_frames < frames_in_sample)]
    loop of one [PointSamples]; the points of an entry are the range
    [[frames.begin() + allocated_frames,
      frames.begin() + allocated_frames + frames_to_allocate)]. *)
Fixpoint gather_sample (fuel : nat) (work_item_size video : Z) (frames : list Z)
    (frames_in_sample allocated_frames : Z) (p : Plan) : Result Plan :=
  if allocated_frames <? frames_in_sample then
    match fuel with
    | O => Err OutOfFuel
    | S fuel' =>
        let frames_to_allocate :=
          Z.min work_item_size (sub32 frames_in_sample allocated_frames) in
        let item :=
          mkVideoWorkItem video allocated_frames
                          (add32 allocated_frames frames_to_allocate)
                          allocated_frames in
        let work_items := plan_work_items p ++ [item] in
        points <- vec_range frames allocated_frames
                            (allocated_frames + frames_to_allocate) ;;
        let load_item :=
          mkLoadWorkEntry (last_index work_items) (mkInterval 0 0)
                          (mkInterval 0 0) 0 points [] in
        gather_sample fuel' work_item_size video frames frames_in_sample
                      (add32 allocated_frames frames_to_allocate)
                      (mkPlan work_items (plan_load_work_items p ++ [load_item]))
    end
  else Ok p.

Fixpoint gather_samples (fuel : nat) (work_item_size : Z)
    (gather_points : list PointSamples) (p : Plan) : Result Plan :=
  match gather_points with
  | [] => Ok p
  | samples :: rest =>
      let frames_in_sample := to_i32 (Z.of_nat (length (ps_frames samples))) in
      p' <- gather_sample fuel work_item_size (ps_video_index samples)
                          (ps_frames samples) frames_in_sample 0 p ;;
      gather_samples fuel work_item_size rest p'
  end.

Definition plan_gather (fuel : nat) (work_item_size : Z)
    (gather_points : list PointSamples) : Result Plan :=
  gather_samples fuel work_item_size gather_points empty_plan.

(** *** Closed forms *)

(** [Strided]: item [k] of video [i]: a chunk of [work_item_size * stride]
    frames, which yields [work_item_size] rows. *)
Definition strided_item (work_item_size stride i frames : Z) (k : nat)
    : VideoWorkItem :=
  let id := Z.of_nat k * (work_item_size * stride) in
  mkVideoWorkItem i id (id + chunk_size (work_item_size * stride) frames k)
                  (Z.of_nat k * work_item_size).

Definition strided_video_items (work_item_size stride i frames : Z)
    : list VideoWorkItem :=
  map (strided_item work_item_size stride i frames)
      (seq 0 (chunk_count (work_item_size * stride) frames)).

Fixpoint strided_items_from (work_item_size stride : Z) (i : nat)
    (video_metadata : list VideoMetadata) : list VideoWorkItem :=
  match video_metadata with
  | [] => []
  | meta :: rest =>
      strided_video_items work_item_size stride (Z.of_nat i) (md_frames meta) ++
      strided_items_from work_item_size stride (S i) rest
  end.

(** [Strided]: the load entry of the item at position [idx]. *)
Definition strided_entry (stride : Z) (idx : nat) (item : VideoWorkItem)
    : LoadWorkEntry :=
  mkLoadWorkEntry (Z.of_nat idx) (mkInterval 0 0)
                  (mkInterval (item_id item) (next_item_id item)) stride [] [].

Fixpoint strided_entries_from (stride : Z) (idx : nat) (items : list VideoWorkItem)
    : list LoadWorkEntry :=
  match items with
  | [] => []
  | item :: rest =>
      strided_entry stride idx item :: strided_entries_from stride (S idx) rest
  end.

(** [Gather]: the items of the samples; a sample of [n] points is cut like
    a video of [n] frames. *)
Definition gather_items (work_item_size : Z) (gather_points : list PointSamples)
    : list VideoWorkItem :=
  flat_map (fun samples =>
              video_items work_item_size (ps_video_index samples)
                          (Z.of_nat (length (ps_frames samples))))
           gather_points.

(** A sample whose points can be counted in an [i32] and that [fuel]
    iterations cover. *)
Definition points_ok (fuel : nat) (samples : PointSamples) : bool :=
  (Z.of_nat (length (ps_frames samples)) <=? i32_max) &&
  (length (ps_frames samples) <=? fuel)%nat.

(** The entries of a plan carry their positions. *)
Definition indexed (p : Plan) : Prop :=
  map lw_work_item_index (plan_load_work_items p) =
  indices (length (plan_work_items p)).

(** The points of the entries of a plan, in order. *)
Definition points_of (p : Plan) : list Z :=
  concat (map lw_gather_points (plan_load_work_items p)).

(** Every entry holds at least one and at most [W] points. *)
Definition chunked (W : Z) (p : Plan) : Prop :=
  Forall (fun e => 0 < Z.of_nat (length (lw_gather_points e)) <= W)
         (plan_load_work_items p).

End Sampled.

(** ** The factory groups of [run_job] *)

Module Groups.

Section Factories.

(** An evaluator factory, and [get_capabilities ().can_overlap] of it. *)
Variable Factory : Type.
Variable can_overlap : Factory -> bool.

(** [factory_groups.back().push_back (f)]. *)
Definition push_back_last (groups : list (list Factory)) (f : Factory)
    : Result (list (list Factory)) :=
  match rev groups with
  | [] => Err OutOfBounds
  | g :: before => Ok (rev before ++ [g ++ [f]])
  end.

(** The groups of evaluators that share a thread: an overlapping first
    evaluator and an overlapping last evaluator get threads of their own. *)
Definition factory_groups (evaluator_factories : list Factory)
    : Result (list (list Factory)) :=
  let size := Z.of_nat (length evaluator_factories) in
  front <- vec_get evaluator_factories 0 ;;
  groups <-
    (if can_overlap front then
       main_factories <- vec_range evaluator_factories 1 (size - 1) ;;
       Ok [[front]; main_factories]
     else
       main_factories <- vec_range evaluator_factories 0 (size - 1) ;;
       Ok [main_factories]) ;;
  back <- vec_get evaluator_factories (length evaluator_factories - 1) ;;
  if (1 <? size) && can_overlap back then Ok (groups ++ [[back]])
  else push_back_last groups back.

End Factories.

Arguments factory_groups {Factory}.
Arguments push_back_last {Factory}.

End Groups.

(** ** The loop of the load worker *)

Module LoadWorker.
Import Load.

Record LoadThreadArgs : Type := mkLoadThreadArgs {
  la_sampling : Sampling;
  la_warmup_count : Z;
  la_video_paths : list string;
  la_metadata : list VideoMetadata;
  la_work_items : list VideoWorkItem
}.

(** What the worker keeps from one entry to the next: the path of the video
    it has open and the searched lists of that video. *)
Record LoadThread : Type := mkLoadThread {
  last_video_path : string;
  keyframe_positions : list Z;
  keyframe_byte_offsets : list Z
}.

Definition initial_load_thread : LoadThread := mkLoadThread EmptyString [] [].

(** Lines 221-239: the lists are rebuilt only when the path differs from the
    one of the previous entry.  [file_size_of] stands for [get_size] of the
    file opened at a path. *)
Definition open_video (file_size_of : string -> Z) (th : LoadThread)
    (video_path : string) (md : VideoMetadata) : LoadThread :=
  if String.eqb video_path (last_video_path th) then
    mkLoadThread video_path (keyframe_positions th) (keyframe_byte_offsets th)
  else
    mkLoadThread video_path (extended_positions md)
                 (extended_offsets md (file_size_of video_path)).

(** The worker: entries are popped until the sentinel; for each one the
    entry built by [load_entry] is pushed. *)
Fixpoint load_video_thread (args : LoadThreadArgs) (file_size_of : string -> Z)
    (sizeof_args : Z) (th : LoadThread) (load_work : list LoadWorkEntry)
    : Result (LoadThread * list EvalWorkEntry) :=
  match load_work with
  | [] => Ok (th, [])
  | load_work_entry :: rest =>
      if lw_work_item_index load_work_entry =? -1 then Ok (th, [])
      else
        work_item <- vec_get_z (la_work_items args)
                               (lw_work_item_index load_work_entry) ;;
        video_path <- vec_get_z (la_video_paths args) (video_index work_item) ;;
        md <- vec_get_z (la_metadata args) (video_index work_item) ;;
        let th1 := open_video file_size_of th video_path md in
        eval_work_entry <-
          load_entry (la_sampling args) (la_warmup_count args) sizeof_args
                     (keyframe_positions th1) (keyframe_byte_offsets th1)
                     load_work_entry ;;
        '(th', pushed) <- load_video_thread args file_size_of sizeof_args th1 rest ;;
        Ok (th', eval_work_entry :: pushed)
  end.

(** The same entry built from the metadata of the entry's video, without
    looking at what an earlier entry left. *)
Definition load_fresh (args : LoadThreadArgs) (file_size_of : string -> Z)
    (sizeof_args : Z) (load_work_entry : LoadWorkEntry) : Result EvalWorkEntry :=
  work_item <- vec_get_z (la_work_items args) (lw_work_item_index load_work_entry) ;;
  video_path <- vec_get_z (la_video_paths args) (video_index work_item) ;;
  md <- vec_get_z (la_metadata args) (video_index work_item) ;;
  load_entry (la_sampling args) (la_warmup_count args) sizeof_args
             (extended_positions md)
             (extended_offsets md (file_size_of video_path))
             load_work_entry.

(** The entries before the sentinel. *)
Fixpoint before_sentinel (load_work : list LoadWorkEntry) : list LoadWorkEntry :=
  match load_work with
  | [] => []
  | e :: rest =>
      if lw_work_item_index e =? -1 then [] else e :: before_sentinel rest
  end.

(** The rows of a loaded entry: for every interval the encoded buffer, its
    size and the buffer of the decode arguments. *)
Definition loaded_rows (e : EvalWorkEntry) : list (Buffer * Z * Buffer) :=
  combine (combine (nth 0 (buffers e) []) (nth 0 (buffer_sizes e) []))
          (nth 1 (buffers e) []).

(** A row that fits its interval: the bytes read lie within the file, the
    decode arguments are those created for the interval with the keyframes
    filled in, and the keyframes enclose the interval. *)
Definition row_ok (file_size : Z) (ia : Interval * DecodeArgs)
    (row : Buffer * Z * Buffer) : Prop :=
  exists pos size start_keyframe end_keyframe,
    row = (mkBuffer CPU 0 (Encoded pos size), size,
           mkBuffer CPU 0 (Args (set_keyframes (snd ia) start_keyframe end_keyframe))) /\
    0 <= pos /\ 0 < size /\ pos + size <= file_size /\
    start_keyframe <= ival_start (fst ia) /\ ival_end (fst ia) <= end_keyframe.

(** The lists the worker holds are those of the video at the path it
    remembers; [metadata_of] is the metadata stored for a path. *)
Definition coherent (metadata_of : string -> VideoMetadata)
    (file_size_of : string -> Z) (th : LoadThread) : Prop :=
  last_video_path th = EmptyString \/
  (keyframe_positions th = extended_positions (metadata_of (last_video_path th)) /\
   keyframe_byte_offsets th =
     extended_offsets (metadata_of (last_video_path th))
                      (file_size_of (last_video_path th))).

(** Two videos, of 40 and of 16 frames, stored at two paths, and the [All]
    plan of both in chunks of 16; the queue holds the four entries of the
    plan and the sentinel. *)
Definition second_video : VideoMetadata := mkVideoMetadata 640 480 16 [0] [0].

Definition stored_metadata (path : string) : VideoMetadata :=
  if String.eqb path "a.mp4" then Scenario.s5_video else second_video.

Definition stored_size (path : string) : Z :=
  if String.eqb path "a.mp4" then 9000 else 3000.

Definition two_videos : LoadThreadArgs :=
  mkLoadThreadArgs All 8 ["a.mp4"%string; "b.mp4"%string]
                   [Scenario.s5_video; second_video]
                   (Planner.all_items 16 [Scenario.s5_video; second_video]).

Definition two_videos_queue : list LoadWorkEntry :=
  Planner.all_entries_from 0 (la_work_items two_videos) ++
  [Planner.blank_load_entry (-1)].

End LoadWorker.

(** ** The indices handed out by the intake loops *)

Module Intake.
Import Driver.

(** The indices of the entries pushed to a node's load queue, oldest
    first. *)
Definition pushed (n : Node) : list Z := map lw_work_item_index (load_work n).

(** The index a worker node's driver holds in a reply it has not yet acted
    on. *)
Definition in_flight (wk : Worker) : list Z :=
  match worker_pc wk with
  | WReply next_item => if next_item =? -1 then [] else [next_item]
  | _ => []
  end.

Definition worker_issued (wk : Worker) : list Z :=
  pushed (worker_node wk) ++ in_flight wk.

(** Every index the master has handed out: to its own queue, or to a worker
    node, where it is on the queue or still in the reply. *)
Definition issued (c : ClusterState) : list Z :=
  pushed (master_node c) ++ flat_map worker_issued (workers c).

(** The entries of a plan carry their positions. *)
Definition positioned (load_work_items : list LoadWorkEntry) : Prop :=
  forall (i : nat) (entry : LoadWorkEntry),
    nth_error load_work_items i = Some entry ->
    lw_work_item_index entry = Z.of_nat i.

(** An entry of which only the index is set. *)
Definition blank (entry : LoadWorkEntry) : Prop :=
  entry = Planner.blank_load_entry (lw_work_item_index entry).

(** What the intake loops keep: the counter does not pass the number of
    items, and the indices handed out so far are
    [0 .. next_work_item_to_allocate - 1], each once. *)
Definition issue_inv (work_items : list VideoWorkItem) (c : ClusterState) : Prop :=
  next_work_item_to_allocate c <= Z.max 0 (num_work_items work_items) /\
  Permutation (issued c) (Planner.indices (Z.to_nat (next_work_item_to_allocate c))).

(** The queues of the worker nodes hold blank entries. *)
Definition blank_inv (c : ClusterState) : Prop :=
  Forall (fun wk => Forall blank (load_work (worker_node wk))) (workers c).

(** A cluster of a master and one worker node that take one task each, and
    a plan of two items: the master takes the first item and hands the second
    to the worker node; the save worker of that node retires it, and the
    drivers leave their loops. *)
Definition two_items : list VideoWorkItem :=
  [mkVideoWorkItem 0 0 16 0; mkVideoWorkItem 0 16 32 16].

Definition two_entries : list LoadWorkEntry := Planner.all_entries_from 0 two_items.

Definition shared_schedule : list Action :=
  [MasterStep; MasterStep; MasterStep; WorkerStep 0; MasterServe 0; WorkerStep 0;
   MasterStep; MasterStep; Retire 1; WorkerStep 0; MasterServe 0; MasterStep;
   WorkerStep 0].

Definition shared_cluster : ClusterState :=
  mkCluster MExited 2
    (mkNode 1 0 [mkLoadWorkEntry 0 (mkInterval 0 16) (mkInterval 0 0) 0 [] []])
    [mkWorker WExited (mkNode 1 1 [Planner.blank_load_entry 1])].

End Intake.

(** ** What the keyframe search returns, on any list *)

Module Bracket.

(** [k1] precedes the first position after index 0 that exceeds
    [start_frame]; [k2], which is not 0, is the first index from [k1] on whose
    position reaches [end_frame]. *)
Definition bracket (start_frame end_frame : Z) (keyframe_positions : list Z)
    (k1 k2 : nat) : Prop :=
  (S k1 < length keyframe_positions)%nat /\
  start_frame < nth (S k1) keyframe_positions 0 /\
  (forall j, (1 <= j <= k1)%nat -> nth j keyframe_positions 0 <= start_frame) /\
  (k1 <= k2 < length keyframe_positions)%nat /\
  (0 < k2)%nat /\
  end_frame <= nth k2 keyframe_positions 0 /\
  (forall j, (k1 <= j < k2)%nat -> nth j keyframe_positions 0 < end_frame).

End Bracket.

(** ** The queues between the workers *)

Module Pipeline.
Import Engine.

(** The entries a worker handles: those before the sentinel. *)
Fixpoint before_sentinel (input_work : list EvalWorkEntry) : list EvalWorkEntry :=
  match input_work with
  | [] => []
  | work_entry :: rest =>
      if work_item_index work_entry =? -1 then []
      else work_entry :: before_sentinel rest
  end.

(** [columns] columns of [rows] rows each. *)
Definition rectangular {A : Type} (columns : nat) (rows : Z) (cols : list (list A))
    : Prop :=
  length cols = columns /\ Forall (fun col => len col = rows) cols.

(** An evaluator that publishes its columns without rows, whatever it is
    given. *)
Definition publishes_nothing {St : Type} (ev : Evaluator St) : Prop :=
  forall (st : St) (ins : list (list Buffer)) (szs : list (list Z)),
    let '(_, outs, osz) := ev_evaluate ev st ins szs in
    outs = repeat [] (length (ev_output_names ev)) /\
    osz = repeat [] (length (ev_output_names ev)).

(** A decoder that finds no frame in what it is given. *)
Definition silent_decoder (t : DeviceType) (id : Z) : Evaluator unit :=
  mkEvaluator t id ["frame"%string] (fun _ s => s) (fun s => s)
              (fun s _ _ => (s, [[]], [[]])) tt.

(** The warmup rows dropped over the batches of an entry, given the sizes
    the batches come out with: [current_input] advances by the size of each
    batch. *)
Fixpoint dropped_rows (args : EvaluateThreadArgs) (reset : bool)
    (work_item : VideoWorkItem) (batches : list Z) (current_input : Z) : Z :=
  match batches with
  | [] => 0
  | batch_size :: rest =>
      warmup_frames args reset work_item batch_size current_input +
      dropped_rows args reset work_item rest (current_input + batch_size)
  end.

(** The rows of the batches. *)
Definition batch_rows (batches : list Z) : Z := fold_right Z.add 0 batches.

(** Whether frame [f] of video [i] lies in the frames of a work item. *)
Definition covers (i f : Z) (item : VideoWorkItem) : bool :=
  (video_index item =? i) && (item_id item <=? f) && (f <? next_item_id item).

End Pipeline.

(** ** The save worker ([save_thread]) *)

Module Save.
Import Engine.

(** Conversion of a [size_t] to [i64]. *)
Definition to_i64 (x : Z) : Z := (x + 2 ^ 63) mod 2 ^ 64 - 2 ^ 63.

(** What is written to an output file, in order. *)
Inductive Written : Type :=
| WriteSize (buffer_size : Z)                     (* [write (file, buffer_size)] *)
| WriteData (buffer : Buffer) (buffer_size : Z).  (* [write (file, buffer, size)] *)

(** The bytes a write adds to the file: an [i64] takes 8. *)
Definition written_bytes (w : Written) : Z :=
  match w with
  | WriteSize _ => 8
  | WriteData _ buffer_size => buffer_size
  end.

(** The file of one output column of one work item; the path is made of the
    column name and the index of the work item. *)
Record OutputFile : Type := mkOutputFile {
  of_column : string;
  of_work_item_index : Z;
  of_content : list Written
}.

(** The storage backend as the loop over the output columns meets it.
    [make_write_file] tells whether the backend, after the retries of
    [EXP_BACKOFF], makes the file of a column and a work item; when it does
    not, [exit_on_error] ends the process.  [write] is defined outside this
    source file and is called for its effect; [write_returns] tells whether
    its call number [k] on a file returns.  The result of [save] is not
    looked at. *)
Record Storage : Type := mkStorage {
  make_write_file : string -> Z -> bool;
  write_returns : string -> Z -> nat -> bool
}.

(** A backend that makes every file and takes every write. *)
Definition sound_storage : Storage :=
  mkStorage (fun _ _ => true) (fun _ _ _ => true).

(** The body of the loop over the output columns. *)
Definition save_column (storage : Storage) (output_names : list string)
    (work_entry : EvalWorkEntry) (num_frames : nat) (out_idx : nat)
    : Result (OutputFile * list MemEvent) :=
  name <- vec_get output_names out_idx ;;
  _ <- guard (make_write_file storage name (work_item_index work_entry)) Fatal ;;
  sizes <- vec_get (buffer_sizes work_entry) out_idx ;;
  _ <- guard (Nat.eqb (length sizes) num_frames) Fatal ;;
  bufs <- vec_get (buffers work_entry) out_idx ;;
  _ <- guard (Nat.eqb (length bufs) num_frames) Fatal ;;
  (* write out all output sizes first *)
  header <- mapM (fun i => buffer_size <- vec_get sizes i ;;
                           _ <- guard (write_returns storage name
                                         (work_item_index work_entry) i) Fatal ;;
                           Ok (WriteSize (to_i64 buffer_size)))
                 (seq 0 num_frames) ;;
  (* write actual output data *)
  data <- mapM (fun i => buffer_size <- vec_get sizes i ;;
                         buffer <- vec_get bufs i ;;
                         _ <- guard (write_returns storage name
                                       (work_item_index work_entry)
                                       (num_frames + i)) Fatal ;;
                         Ok (WriteData buffer (to_i64 buffer_size)))
               (seq 0 num_frames) ;;
  released <- mapM (fun i => vec_get bufs i) (seq 0 num_frames) ;;
  Ok (mkOutputFile name (work_item_index work_entry) (header ++ data),
      map (DeleteBuffer CPU (buffer_device_id work_entry)) released).

Definition save_entry (storage : Storage) (output_names : list string)
    (work_entry : EvalWorkEntry) : Result (list OutputFile * list MemEvent) :=
  let num_frames :=
    match buffers work_entry with
    | [] => 0%nat
    | col0 :: _ => length col0
    end in
  saved <- mapM (save_column storage output_names work_entry num_frames)
                (seq 0 (length output_names)) ;;
  Ok (map fst saved, concat (map snd saved)).

(** [sa_storage] stands for the storage backend made from
    [args.storage_config], as it answers for the files of a video path. *)
Record SaveThreadArgs : Type := mkSaveThreadArgs {
  sa_video_paths : list string;
  sa_metadata : list VideoMetadata;
  sa_work_items : list VideoWorkItem;
  sa_output_names : list string;
  sa_storage : string -> Storage
}.

(** The worker: entries are popped until the sentinel; every entry saved
    adds one to [retired_items]. *)
Fixpoint save_thread (args : SaveThreadArgs) (input_work : list EvalWorkEntry)
    (retired_items : Z) : Result (Z * list OutputFile * list MemEvent) :=
  match input_work with
  | [] => Ok (retired_items, [], [])
  | work_entry :: rest =>
      if work_item_index work_entry =? -1 then Ok (retired_items, [], [])
      else
        work_item <- vec_get_z (sa_work_items args) (work_item_index work_entry) ;;
        video_path <- vec_get_z (sa_video_paths args) (video_index work_item) ;;
        _ <- vec_get_z (sa_metadata args) (video_index work_item) ;;
        '(files, mem) <- save_entry (sa_storage args video_path)
                                    (sa_output_names args) work_entry ;;
        '(retired, files', mem') <- save_thread args rest (retired_items + 1) ;;
        Ok (retired, files ++ files', mem ++ mem')
  end.

(** [num_frames] of an entry: the rows of its first column. *)
Definition num_frames (work_entry : EvalWorkEntry) : nat :=
  match buffers work_entry with
  | [] => 0%nat
  | col0 :: _ => length col0
  end.

(** The byte at which the write number [k] of a file starts. *)
Definition offset_of (content : list Written) (k : nat) : Z :=
  fold_right Z.add 0 (map written_bytes (firstn k content)).

Definition sum (l : list Z) : Z := fold_right Z.add 0 l.

End Save.

(** ** The stages of one node, run to completion

    [run_job] ends the stages in order: it pushes the sentinel of a stage
    once the entries are in its queue and the stage before it has been joined.
    With one load worker, one processing unit and one save worker the queue of
    every stage is therefore what the stage before it pushed, followed by the
    sentinel. *)

Module Node.
Import Engine.

(** [EvalWorkEntry entry; entry.work_item_index = -1]. *)
Definition eval_sentinel : EvalWorkEntry :=
  mkEvalWorkEntry (-1) [] [] [] CPU 0 false.

(** [LoadWorkEntry entry; entry.work_item_index = -1]. *)
Definition load_sentinel : LoadWorkEntry := Planner.blank_load_entry (-1).

Section Stages.

Variable St : Type.

(** The evaluate workers of a processing unit, group 0 first, each with its
    arguments. *)
Fixpoint run_groups (fuel : nat)
    (groups : list (EvaluateThreadArgs * EvalThread St))
    (queue : list EvalWorkEntry) : Result (list EvalWorkEntry) :=
  match groups with
  | [] => Ok queue
  | (args, th) :: rest =>
      '(_, pushed, _, _) <- evaluate_thread fuel args th (queue ++ [eval_sentinel]) ;;
      run_groups fuel rest pushed
  end.

(** The entries in [load_work] go through the load worker, the evaluate
    workers and the save worker. *)
Definition run_node (fuel : nat) (load_args : LoadWorker.LoadThreadArgs)
    (file_size_of : string -> Z) (sizeof_args : Z)
    (groups : list (EvaluateThreadArgs * EvalThread St))
    (save_args : Save.SaveThreadArgs) (load_work : list LoadWorkEntry)
    : Result (Z * list Save.OutputFile * list MemEvent) :=
  '(_, loaded) <- LoadWorker.load_video_thread load_args file_size_of sizeof_args
                    LoadWorker.initial_load_thread (load_work ++ [load_sentinel]) ;;
  evaluated <- run_groups fuel groups loaded ;;
  Save.save_thread save_args (evaluated ++ [eval_sentinel]) 0.

End Stages.

Arguments run_groups {St}.
Arguments run_node {St}.

(** The two videos of [LoadWorker.two_videos] on a node whose chain has two
    factory groups of one copy evaluator each, the second on a GPU; one
    column is saved. *)
Definition two_groups : list (EvaluateThreadArgs * EvalThread unit) :=
  let args := fun last_group =>
    mkEvaluateThreadArgs 8 (LoadWorker.la_metadata LoadWorker.two_videos)
                         (LoadWorker.la_work_items LoadWorker.two_videos)
                         last_group 16 in
  [(args false, initial_thread [Scenario.copy_evaluator CPU 0]);
   (args true, initial_thread [Scenario.copy_evaluator GPU 1])].

Definition two_videos_save : Save.SaveThreadArgs :=
  Save.mkSaveThreadArgs (LoadWorker.la_video_paths LoadWorker.two_videos)
                        (LoadWorker.la_metadata LoadWorker.two_videos)
                        (LoadWorker.la_work_items LoadWorker.two_videos)
                        ["frame"%string] (fun _ => Save.sound_storage).

Definition two_videos_entries : list LoadWorkEntry :=
  Planner.all_entries_from 0 (LoadWorker.la_work_items LoadWorker.two_videos).

End Node.

(** ** The batches of an entry

    The loop over the batches of an entry (lines 476-626) has two parts: the
    evaluators of the group run on a slice of the entry (lines 477-583), and
    the rows they publish are trimmed and kept (lines 584-624).  What follows
    names the first part, so that the second can be stated against it. *)

Module Batches.
Import Engine.

(** What the evaluators publish for one batch. *)
Record Batch : Type := mkBatch {
  bt_current_input : Z;      (* [current_input] when the batch starts *)
  bt_batch_size : Z;         (* [batch_size] once the evaluators have run *)
  bt_out : Stage;            (* the output of the last evaluator *)
  bt_mem : list MemEvent     (* the memory calls of lines 519-582 *)
}.

(** [work_entry.buffers.empty () ? 0 : work_entry.buffers[0].size ()], in an
    [i32]. *)
Definition total_inputs (work_entry : EvalWorkEntry) : Z :=
  match buffers work_entry with
  | [] => 0
  | col0 :: _ => to_i32 (len col0)
  end.

Section Trace.

Variable St : Type.

(** The batches of an entry, in order: the slices of lines 488-502, the
    evaluators of lines 506-583 and the step of line 625. *)
Fixpoint chain_batches (fuel : nat) (args : EvaluateThreadArgs)
    (work_entry : EvalWorkEntry) (total_inputs current_input : Z)
    (evs : list (Evaluator St)) : Result (list Batch) :=
  if current_input <? total_inputs then
    match fuel with
    | O => Err OutOfFuel
    | S fuel' =>
        let batch_size := Z.min total_inputs (WORK_ITEM_SIZE args) in
        output_buffers <-
          mapM (fun col => vec_range col current_input (current_input + batch_size))
               (buffers work_entry) ;;
        output_sizes <-
          mapM (fun col => vec_range col current_input (current_input + batch_size))
               (buffer_sizes work_entry) ;;
        let out := mkStage (column_names work_entry) output_buffers output_sizes
                           (buffer_type work_entry) (buffer_device_id work_entry) in
        '(evs', batch_size, out, m1) <-
          run_chain 0 evs (video_decode_item work_entry) batch_size out ;;
        rest <- chain_batches fuel' args work_entry total_inputs
                              (current_input + batch_size) evs' ;;
        Ok (mkBatch current_input batch_size out m1 :: rest)
    end
  else Ok [].

End Trace.

Arguments chain_batches {St}.

(** Column [i] of the columns of a stage. *)
Definition column {A : Type} (cols : list (list A)) (i : nat) : list A :=
  nth i cols [].

(** Whether rows of a batch are copied to CPU memory (line 606), [warmup]
    leading rows being dropped. *)
Definition copies_out (b : Batch) (warmup : Z) : bool :=
  negb (device_eqb (sg_type (bt_out b)) CPU) && (warmup <? bt_batch_size b).

(** The rows [warmup .. batch_size - 1] of a column, which lines 607-615
    copy. *)
Definition copied_rows (b : Batch) (warmup : Z) (bufs : list Buffer) : list Buffer :=
  if copies_out b warmup
  then firstn (Z.to_nat (bt_batch_size b - warmup)) (skipn (Z.to_nat warmup) bufs)
  else [].

(** The rows of a column that lines 599-615 hand to [delete_buffer]: the
    [warmup] leading rows, then the rows that were copied. *)
Definition released_rows (b : Batch) (warmup : Z) (bufs : list Buffer) : list Buffer :=
  firstn (Z.to_nat warmup) bufs ++ copied_rows b warmup bufs.

(** The rows of a column that lines 621-623 append to the output entry. *)
Definition kept_rows (b : Batch) (warmup : Z) (bufs : list Buffer) : list Buffer :=
  if copies_out b warmup
  then map (copy_to CPU 0) (copied_rows b warmup bufs) ++
       skipn (Z.to_nat (bt_batch_size b)) bufs
  else skipn (Z.to_nat warmup) bufs.

(** The rows of the batches [bs], column by column for [columns] columns,
    where batch [b] contributes [rows b] of its column. *)
Definition by_column {A : Type} (columns : nat) (bs : list Batch)
    (rows : Batch -> nat -> list A) : list (list A) :=
  map (fun i => flat_map (fun b => rows b i) bs) (seq 0 columns).

(** The rows of the batches [bs], batch by batch: before the rows of a batch
    come those its evaluators handled. *)
Definition by_batch (columns : nat) (bs : list Batch)
    (chain : Batch -> list Buffer) (rows : Batch -> nat -> list Buffer)
    : list Buffer :=
  flat_map (fun b => chain b ++ flat_map (rows b) (seq 0 columns)) bs.

End Batches.

(** ** Resets seen by the evaluators *)

Module Resets.
Import Engine Batches.







End Resets.

(** * Properties *)

(** ** Machine integers *)

Module MachineIntFacts.

Lemma to_i32_id (x : Z) : in_i32 x -> to_i32 x = x.
Proof.
  unfold in_i32, i32_min, i32_max, to_i32. intros H.
  rewrite Z.mod_small; lia.
Qed.

Lemma to_i32_range (x : Z) : in_i32 (to_i32 x).
Proof.
  unfold in_i32, i32_min, i32_max, to_i32.
  pose proof (Z.mod_pos_bound (x + 2 ^ 31) (2 ^ 32) ltac:(lia)). lia.
Qed.

Lemma to_u64_id (x : Z) : 0 <= x < 2 ^ 63 -> to_u64 x = x.
Proof. unfold to_u64. intros H. apply Z.mod_small. lia. Qed.

Lemma u64_sub_id (a b : Z) : 0 <= b <= a -> a < 2 ^ 64 -> u64_sub a b = a - b.
Proof. unfold u64_sub. intros H1 H2. apply Z.mod_small. lia. Qed.

End MachineIntFacts.
Import MachineIntFacts.

(** ** The keyframe bracket *)

Module KeyframeFacts.
Import Keyframes.

Lemma increasingb_cons (x : Z) (l : list Z) :
  increasingb (x :: l) = true -> increasingb l = true.
Proof.
  destruct l as [|y l]; [reflexivity|].
  cbn [increasingb]. intros H. apply andb_true_iff in H. tauto.
Qed.

Lemma increasingb_head (x : Z) (l : list Z) (j : nat) :
  increasingb (x :: l) = true -> (j < length l)%nat -> x < nth j l 0.
Proof.
  revert x j. induction l as [|y l IH]; intros x j H Hj; [simpl in Hj; lia|].
  cbn [increasingb] in H. apply andb_true_iff in H. destruct H as [Hxy Hl].
  apply Z.ltb_lt in Hxy.
  destruct j as [|j]; [exact Hxy|].
  simpl in Hj. cbn [nth].
  specialize (IH y j Hl ltac:(lia)). lia.
Qed.

Lemma increasingb_nth (l : list Z) (i j : nat) :
  increasingb l = true -> (i < j < length l)%nat -> nth i l 0 < nth j l 0.
Proof.
  revert i j. induction l as [|x l IH]; intros i j H Hij; [simpl in Hij; lia|].
  destruct j as [|j]; [lia|]. simpl in Hij.
  destruct i as [|i].
  - cbn [nth]. apply increasingb_head; [exact H | lia].
  - cbn [nth]. apply IH; [eapply increasingb_cons; exact H | lia].
Qed.

Lemma increasingb_nth_le (l : list Z) (i j : nat) :
  increasingb l = true -> (i <= j < length l)%nat -> nth i l 0 <= nth j l 0.
Proof.
  intros H Hij. destruct (Nat.eq_dec i j) as [->|Hne]; [lia|].
  pose proof (increasingb_nth l i j H ltac:(lia)). lia.
Qed.

Lemma existsb_nth (p : Z -> bool) (l : list Z) :
  existsb p l = true -> exists j, (j < length l)%nat /\ p (nth j l 0) = true.
Proof.
  induction l as [|x l IH]; [discriminate|].
  cbn [existsb]. intros H. apply orb_true_iff in H. destruct H as [H|H].
  - exists 0%nat. simpl. split; [lia | exact H].
  - destruct (IH H) as [j [Hj Hp]]. exists (S j). simpl. split; [lia | exact Hp].
Qed.

(** The first loop returns the index before the first position above
    [start_frame]. *)
Lemma find_start_found (s : Z) (l : list Z) (i j : nat) :
  (j < length l)%nat -> s < nth j l 0 ->
  exists m, (m <= j)%nat /\ find_start s l i = Some (i + m - 1)%nat /\
            s < nth m l 0 /\ forall m', (m' < m)%nat -> nth m' l 0 <= s.
Proof.
  revert i j. induction l as [|k l IH]; intros i j Hj Hs; [simpl in Hj; lia|].
  cbn [find_start]. destruct (s <? k) eqn:Hk.
  - apply Z.ltb_lt in Hk. exists 0%nat. repeat split; try lia.
    + f_equal. lia.
    + exact Hk.
  - apply Z.ltb_ge in Hk. destruct j as [|j]; [simpl in Hs; lia|].
    simpl in Hj. cbn [nth] in Hs.
    destruct (IH (S i) j ltac:(lia) Hs) as [m [Hm [Hf [Hgt Hle]]]].
    exists (S m). repeat split; try lia.
    + rewrite Hf. f_equal. lia.
    + exact Hgt.
    + intros m' Hm'. destruct m' as [|m']; [exact Hk|].
      cbn [nth]. apply Hle. lia.
Qed.

(** The second loop returns the first index whose position reaches
    [end_frame]. *)
Lemma find_end_found (e : Z) (l : list Z) (i j : nat) :
  (j < length l)%nat -> e <= nth j l 0 ->
  exists m, (m <= j)%nat /\ find_end e l i = (i + m)%nat /\
            e <= nth m l 0 /\ forall m', (m' < m)%nat -> nth m' l 0 < e.
Proof.
  revert i j. induction l as [|k l IH]; intros i j Hj He; [simpl in Hj; lia|].
  cbn [find_end]. destruct (e <=? k) eqn:Hk.
  - apply Z.leb_le in Hk. exists 0%nat. repeat split; try lia. exact Hk.
  - apply Z.leb_gt in Hk. destruct j as [|j]; [simpl in He; lia|].
    simpl in Hj. cbn [nth] in He.
    destruct (IH (S i) j ltac:(lia) He) as [m [Hm [Hf [Hge Hlt]]]].
    exists (S m). repeat split; try lia.
    + exact Hge.
    + intros m' Hm'. destruct m' as [|m']; [exact Hk|].
      cbn [nth]. apply Hlt. lia.
Qed.

Lemma nth_skipn_Z (l : list Z) (n m : nat) :
  nth m (skipn n l) 0 = nth (n + m) l 0.
Proof.
  revert l. induction n as [|n IH]; intros l; [reflexivity|].
  destruct l as [|x l]; [destruct m; reflexivity|].
  cbn [skipn]. rewrite IH. reflexivity.
Qed.

Lemma offsets_okb_nth (l : list Z) (i : nat) :
  offsets_okb l = true -> (i < length l)%nat -> 0 <= nth i l 0 < 2 ^ 63.
Proof.
  unfold offsets_okb. intros H Hi.
  rewrite forallb_forall in H.
  specialize (H (nth i l 0) (nth_In l 0 Hi)).
  apply andb_true_iff in H. destruct H as [H1 H2].
  apply Z.leb_le in H1. apply Z.ltb_lt in H2. lia.
Qed.

Lemma vec_get_nth (l : list Z) (i : nat) :
  (i < length l)%nat -> vec_get l i = Ok (nth i l 0).
Proof.
  intros Hi. unfold vec_get.
  rewrite (nth_error_nth' l 0 Hi). reflexivity.
Qed.

(** The search on a list whose first position does not exceed [s]. *)
Lemma find_keyframe_indices_bracket (kp : list Z) (s e : Z) :
  s < e ->
  increasingb kp = true ->
  nth 0 kp 0 <= s ->
  existsb (Z.leb e) kp = true ->
  exists k1 k2,
    find_keyframe_indices s e kp = Ok (k1, k2) /\
    (k1 < k2 < length kp)%nat /\
    nth k1 kp 0 <= s /\
    (forall j, (j < length kp)%nat -> nth j kp 0 <= s -> (j <= k1)%nat) /\
    e <= nth k2 kp 0 /\
    (forall j, (k1 < j < length kp)%nat -> e <= nth j kp 0 -> (k2 <= j)%nat).
Proof.
  intros Hse Hinc H0 Hex.
  destruct (existsb_nth _ _ Hex) as [j [Hj Hje]]. apply Z.leb_le in Hje.
  destruct kp as [|k0 t]; [simpl in Hj; lia|].
  cbn [nth] in H0.
  destruct j as [|j]; [cbn [nth] in Hje; lia|].
  simpl in Hj. cbn [nth] in Hje.
  destruct (find_start_found s t 1 j ltac:(lia) ltac:(lia))
    as [m [Hm [Hfs [Hgt Hle]]]].
  assert (Hk1 : nth m (k0 :: t) 0 <= s).
  { destruct m as [|m]; [exact H0|]. cbn [nth]. apply Hle. lia. }
  assert (Hk1max : forall i, (i < length (k0 :: t))%nat ->
                             nth i (k0 :: t) 0 <= s -> (i <= m)%nat).
  { intros i Hi His.
    destruct (Nat.le_gt_cases i m) as [Hle'|Hgt']; [exact Hle'|].
    pose proof (increasingb_nth_le (k0 :: t) (S m) i Hinc ltac:(lia)) as Hmono.
    change (nth (S m) (k0 :: t) 0) with (nth m t 0) in Hmono. lia. }
  assert (Hjm : (m < S j)%nat) by lia.
  destruct (find_end_found e (skipn m (k0 :: t)) m (S j - m))
    as [d [Hd [Hfe [Hge Hlt]]]].
  { rewrite length_skipn. cbn [length]. lia. }
  { rewrite nth_skipn_Z. replace (m + (S j - m))%nat with (S j) by lia.
    exact Hje. }
  rewrite nth_skipn_Z in Hge.
  assert (Hdpos : (0 < d)%nat).
  { destruct d as [|d]; [|lia]. rewrite Nat.add_0_r in Hge. lia. }
  exists m, (m + d)%nat.
  unfold find_keyframe_indices. cbn [skipn].
  rewrite Hfs. replace (1 + m - 1)%nat with m by lia.
  rewrite Hfe.
  destruct (Nat.eqb (m + d) 0) eqn:Hz; [apply Nat.eqb_eq in Hz; lia|].
  repeat split.
  - lia.
  - simpl. lia.
  - exact Hk1.
  - exact Hk1max.
  - exact Hge.
  - intros i Hi Hie.
    destruct (Nat.le_gt_cases (m + d) i) as [Hle'|Hgt']; [exact Hle'|].
    specialize (Hlt (i - m)%nat ltac:(lia)).
    rewrite nth_skipn_Z in Hlt. replace (m + (i - m))%nat with i in Hlt by lia.
    lia.
Qed.

(** C1, as amended.  For an interval [s, e) with [0 <= s < e] and a strictly
    increasing keyframe position list that contains a position above [s] and a
    position not below [e], and whose first position does not exceed [s] (it
    is 0 in the data model), [find_keyframe_indices] returns [(k1, k2)] where
    [k1] is the largest index with [kp[k1] <= s] and [k2] the smallest index
    above [k1] with [kp[k2] >= e]; with a byte-offset list of the same
    length, increasing and of non-negative [i64] values, the read issued for
    the interval starts at [bo[k1]] and has size [bo[k2] - bo[k1]]: the byte
    range is exactly [[bo[k1], bo[k2])]. *)
Theorem keyframe_bracket_read (kp bo : list Z) (s e : Z) :
  0 <= s < e ->
  increasingb kp = true ->
  existsb (Z.ltb s) kp = true ->
  existsb (Z.leb e) kp = true ->
  nth 0 kp 0 <= s ->
  length bo = length kp ->
  increasingb bo = true ->
  offsets_okb bo = true ->
  exists k1 k2,
    find_keyframe_indices s e kp = Ok (k1, k2) /\
    (k1 < k2 < length kp)%nat /\
    nth k1 kp 0 <= s /\
    (forall j, (j < length kp)%nat -> nth j kp 0 <= s -> (j <= k1)%nat) /\
    e <= nth k2 kp 0 /\
    (forall j, (k1 < j < length kp)%nat -> e <= nth j kp 0 -> (k2 <= j)%nat) /\
    read_interval kp bo (mkInterval s e) =
      Ok (mkIntervalLoad
            (mkReadRequest (nth k1 bo 0) (nth k2 bo 0 - nth k1 bo 0))
            (nth k1 kp 0) (nth k2 kp 0)).
Proof.
  intros Hse Hinc _ Hex H0 Hlen Hbinc Hbok.
  destruct (find_keyframe_indices_bracket kp s e ltac:(lia) Hinc H0 Hex)
    as [k1 [k2 [Hf [Hk [H1 [H2 [H3 H4]]]]]]].
  exists k1, k2. repeat split; try assumption; try lia.
  unfold read_interval. cbn [ival_start ival_end]. rewrite Hf. cbn [bind].
  rewrite (vec_get_nth bo k1) by lia. cbn [bind].
  rewrite (vec_get_nth bo k2) by lia. cbn [bind].
  pose proof (offsets_okb_nth bo k1 Hbok ltac:(lia)) as Hb1.
  pose proof (offsets_okb_nth bo k2 Hbok ltac:(lia)) as Hb2.
  pose proof (increasingb_nth bo k1 k2 Hbinc ltac:(lia)) as Hb12.
  rewrite !to_u64_id by lia.
  rewrite u64_sub_id by lia.
  rewrite (vec_get_nth kp k1) by lia. cbn [bind].
  rewrite (vec_get_nth kp k2) by lia. cbn [bind].
  reflexivity.
Qed.

(** An instance: keyframes at frames 0, 12 and 24 of a 30-frame video. *)
Lemma keyframe_bracket_read_witness :
  exists k1 k2,
    find_keyframe_indices 13 20 [0; 12; 24; 30] = Ok (k1, k2) /\
    (k1 < k2 < length [0; 12; 24; 30])%nat /\
    nth k1 [0; 12; 24; 30] 0 <= 13 /\
    (forall j, (j < length [0; 12; 24; 30])%nat ->
               nth j [0; 12; 24; 30] 0 <= 13 -> (j <= k1)%nat) /\
    20 <= nth k2 [0; 12; 24; 30] 0 /\
    (forall j, (k1 < j < length [0; 12; 24; 30])%nat ->
               20 <= nth j [0; 12; 24; 30] 0 -> (k2 <= j)%nat) /\
    read_interval [0; 12; 24; 30] [0; 1000; 2500; 4000] (mkInterval 13 20) =
      Ok (mkIntervalLoad
            (mkReadRequest (nth k1 [0; 1000; 2500; 4000] 0)
                           (nth k2 [0; 1000; 2500; 4000] 0 -
                            nth k1 [0; 1000; 2500; 4000] 0))
            (nth k1 [0; 12; 24; 30] 0) (nth k2 [0; 12; 24; 30] 0)).
Proof.
  apply (keyframe_bracket_read [0; 12; 24; 30] [0; 1000; 2500; 4000] 13 20);
    try reflexivity; simpl; lia.
Defined.

(** C1, as stated, fails when the first keyframe position is above [s]: on
    the increasing list [5; 10] and the interval [2, 3) every hypothesis of
    the claim holds, no index has a position [<= 2], and the search stops on
    its second assertion. *)
Lemma keyframe_bracket_first_position_above_start :
  0 <= 2 < 3 /\
  increasingb [5; 10] = true /\
  existsb (Z.ltb 2) [5; 10] = true /\
  existsb (Z.leb 3) [5; 10] = true /\
  find_keyframe_indices 2 3 [5; 10] = Err AssertFailed /\
  ~ (exists k1 k2,
       find_keyframe_indices 2 3 [5; 10] = Ok (k1, k2) /\
       nth k1 [5; 10] 0 <= 2).
Proof.
  repeat split; try reflexivity; try lia.
  intros [k1 [k2 [H _]]]. vm_compute in H. discriminate.
Qed.

End KeyframeFacts.

(** ** The evaluator chain worker *)

Module EngineFacts.
Import Engine.

Ltac bind_inv H x :=
  match type of H with
  | bind ?r _ = Ok _ =>
      let E := fresh "E" in
      destruct r as [x|] eqn:E; cbn [bind] in H; [|discriminate H]
  end.

Ltac bind_inv_eq H x E :=
  match type of H with
  | bind ?r _ = Ok _ =>
      destruct r as [x|] eqn:E; cbn [bind] in H; [|discriminate H]
  end.

Lemma guard_ok (b : bool) (f : Failure) (u : unit) : guard b f = Ok u -> b = true.
Proof. destruct b; [reflexivity | discriminate]. Qed.

Lemma vec_get_ok {A : Type} (v : list A) (i : nat) (a : A) :
  vec_get v i = Ok a -> nth_error v i = Some a.
Proof.
  unfold vec_get. destruct (nth_error v i); [intros H; inversion H; reflexivity | discriminate].
Qed.

Lemma vec_range_ok {A : Type} (v : list A) (first last : Z) (r : list A) :
  vec_range v first last = Ok r ->
  0 <= first <= last /\ last <= len v /\
  r = firstn (Z.to_nat (last - first)) (skipn (Z.to_nat first) v).
Proof.
  unfold vec_range, len.
  destruct ((0 <=? first) && (first <=? last) && (last <=? Z.of_nat (length v))) eqn:E;
    [|discriminate].
  apply andb_true_iff in E. destruct E as [E E3].
  apply andb_true_iff in E. destruct E as [E1 E2].
  apply Z.leb_le in E1, E2, E3.
  intros H. inversion H. repeat split; lia.
Qed.

Lemma vec_range_length {A : Type} (v : list A) (first last : Z) (r : list A) :
  vec_range v first last = Ok r -> len r = last - first.
Proof.
  intros H. apply vec_range_ok in H. destruct H as [H1 [H2 ->]].
  unfold len in *. rewrite length_firstn, length_skipn. lia.
Qed.

Lemma vec_range_prefix {A : Type} (v : list A) (n : Z) (r : list A) :
  vec_range v 0 n = Ok r -> r = firstn (Z.to_nat n) v.
Proof.
  intros H. apply vec_range_ok in H. destruct H as [_ [_ ->]].
  rewrite Z.sub_0_r. reflexivity.
Qed.

Lemma vec_range_suffix {A : Type} (v : list A) (n : Z) (r : list A) :
  vec_range v n (len v) = Ok r -> r = skipn (Z.to_nat n) v.
Proof.
  intros H. apply vec_range_ok in H. destruct H as [H1 [_ ->]].
  apply firstn_all2. rewrite length_skipn. unfold len. lia.
Qed.

(** *** Configure and reset *)

Section WithState.
Context {St : Type}.


Lemma prepare_evaluators_length (cfg rst : bool) (md : VideoMetadata)
    (evs : list (Evaluator St)) (e0 : nat) :
  length (fst (prepare_evaluators cfg rst md e0 evs)) = length evs.
Proof.
  revert e0. induction evs as [|ev rest IH]; intros e0; [reflexivity|].
  cbn [prepare_evaluators].
  specialize (IH (S e0)).
  destruct (prepare_evaluators cfg rst md (S e0) rest) as [rest' calls].
  cbn [fst length] in *. rewrite IH. reflexivity.
Qed.

End WithState.

(** *** Warmup trimming *)

Lemma deleted_app (m1 m2 : list MemEvent) : deleted (m1 ++ m2) = deleted m1 ++ deleted m2.
Proof.
  induction m1 as [|ev m1 IH]; [reflexivity|].
  destruct ev; cbn [app deleted]; rewrite IH; reflexivity.
Qed.

Lemma copied_app (m1 m2 : list MemEvent) : copied (m1 ++ m2) = copied m1 ++ copied m2.
Proof.
  induction m1 as [|ev m1 IH]; [reflexivity|].
  destruct ev; cbn [app copied]; rewrite IH; reflexivity.
Qed.

Lemma deleted_map_delete (t : DeviceType) (id : Z) (l : list Buffer) :
  deleted (map (DeleteBuffer t id) l) = l.
Proof. induction l as [|b l IH]; [reflexivity|]. cbn. rewrite IH. reflexivity. Qed.

Lemma copied_map_delete (t : DeviceType) (id : Z) (l : list Buffer) :
  copied (map (DeleteBuffer t id) l) = [].
Proof. induction l as [|b l IH]; [reflexivity|]. cbn. exact IH. Qed.

(** Migrating a column copies every row to the target device and releases
    the source rows, in order. *)
Lemma migrate_column_ok (dst_t : DeviceType) (dst_id : Z) (src_t : DeviceType)
    (src_id : Z) (bufs : list Buffer) (sizes : list Z)
    (moved : list Buffer) (m : list MemEvent) :
  migrate_column dst_t dst_id src_t src_id bufs sizes = Ok (moved, m) ->
  moved = map (copy_to dst_t dst_id) bufs /\ deleted m = bufs /\ copied m = bufs.
Proof.
  revert sizes moved m. induction bufs as [|b bufs IH]; intros sizes moved m H.
  - cbn in H. inversion H. repeat split.
  - cbn [migrate_column] in H. destruct sizes as [|size sizes]; [discriminate|].
    bind_inv H a. destruct a as [moved' m']. inversion H. subst.
    destruct (IH _ _ _ E) as [-> [Hd Hc]].
    cbn. rewrite Hd, Hc. repeat split.
Qed.

Lemma split_three {A : Type} (l : list A) (a b : nat) :
  (a <= b)%nat ->
  firstn a l ++ firstn (b - a) (skipn a l) ++ skipn b l = l.
Proof.
  intros Hab.
  replace (skipn b l) with (skipn (b - a) (skipn a l)).
  - rewrite firstn_skipn. apply firstn_skipn.
  - rewrite skipn_skipn. f_equal. lia.
Qed.

Lemma in_firstn {A : Type} (n : nat) (l : list A) (x : A) :
  In x (firstn n l) -> In x l.
Proof.
  intros H. rewrite <- (firstn_skipn n l). apply in_or_app. left. exact H.
Qed.

Lemma in_skipn {A : Type} (n : nat) (l : list A) (x : A) :
  In x (skipn n l) -> In x l.
Proof.
  intros H. rewrite <- (firstn_skipn n l). apply in_or_app. right. exact H.
Qed.

Lemma map_payload_copy_to (t : DeviceType) (id : Z) (l : list Buffer) :
  map buf_payload (map (copy_to t id) l) = map buf_payload l.
Proof. rewrite map_map. reflexivity. Qed.

(** What [keep_column] does with a count [w] of leading rows to drop. *)
Lemma keep_column_ok (out : Stage) (last_t : DeviceType) (last_id : Z)
    (w batch_size : Z) (i : nat)
    (ks : list Z) (kb : list Buffer) (m : list MemEvent) :
  keep_column out last_t last_id w batch_size i = Ok (ks, kb, m) ->
  exists sizes bufs,
    nth_error (sg_sizes out) i = Some sizes /\
    nth_error (sg_buffers out) i = Some bufs /\
    0 <= w <= len bufs /\
    deleted m = firstn (Z.to_nat w) bufs ++ copied m /\
    incl (copied m) (skipn (Z.to_nat w) bufs) /\
    ks = skipn (Z.to_nat w) sizes /\
    map buf_payload kb = map buf_payload (skipn (Z.to_nat w) bufs).
Proof.
  unfold keep_column. intros H.
  bind_inv H sizes. apply vec_get_ok in E.
  bind_inv H bufs. apply vec_get_ok in E0.
  bind_inv H u. apply guard_ok, Nat.eqb_eq in E1.
  bind_inv H warm.
  bind_inv H p. destruct p as [bufs' m2].
  bind_inv H kept_sizes.
  bind_inv H kept_bufs.
  inversion H. subst ks kb m. clear H.
  exists sizes, bufs. split; [exact E|]. split; [exact E0|].
  pose proof (vec_range_ok _ _ _ _ E4) as [Hw1 [_ _]].
  apply vec_range_suffix in E4. subst kept_sizes.
  assert (Hwlen : 0 <= w <= len bufs).
  { unfold len in *. rewrite <- E1. lia. }
  assert (Hwarm : warm = firstn (Z.to_nat w) bufs).
  { destruct (0 <? w) eqn:Hpos.
    - apply vec_range_prefix in E2. exact E2.
    - apply Z.ltb_ge in Hpos. inversion E2.
      replace w with 0 by lia. reflexivity. }
  subst warm.
  rewrite deleted_app, copied_app, deleted_map_delete, copied_map_delete.
  cbn [app].
  destruct (negb (device_eqb (sg_type out) CPU) && (w <? batch_size)) eqn:Hmig.
  - bind_inv_eq E3 rows Er.
    bind_inv_eq E3 szs Es.
    bind_inv_eq E3 p Em. destruct p as [moved mm]. inversion E3. subst bufs' m2. clear E3.
    destruct (migrate_column_ok _ _ _ _ _ _ _ _ Em) as [-> [Hd Hc]].
    pose proof (vec_range_ok _ _ _ _ Er) as [Hr1 [Hr2 Hrows]].
    rewrite Hd, Hc.
    assert (Hsplit : firstn (Z.to_nat w) bufs ++ rows ++ skipn (Z.to_nat batch_size) bufs = bufs).
    { rewrite Hrows. rewrite Z2Nat.inj_sub by lia. apply split_three. lia. }
    split; [exact Hwlen|]. split; [reflexivity|]. split.
    + rewrite Hrows. intros b Hb. apply in_firstn in Hb. exact Hb.
    + split; [reflexivity|].
      apply vec_range_suffix in E5. subst kept_bufs.
      rewrite <- !skipn_map. f_equal.
      rewrite !map_app, map_payload_copy_to, <- !map_app, Hsplit. reflexivity.
  - inversion E3. subst bufs' m2. clear E3.
    apply vec_range_suffix in E5. subst kept_bufs.
    cbn [deleted copied]. rewrite app_nil_r.
    split; [exact Hwlen|]. split; [reflexivity|]. split; [intros b []|].
    split; reflexivity.
Qed.

Lemma vec_get_some {A : Type} (v : list A) (i : nat) (a : A) :
  nth_error v i = Some a -> vec_get v i = Ok a.
Proof. unfold vec_get. intros ->. reflexivity. Qed.

Lemma vec_range_in_bounds {A : Type} (v : list A) (first last : Z) :
  0 <= first <= last -> last <= len v ->
  vec_range v first last =
  Ok (firstn (Z.to_nat (last - first)) (skipn (Z.to_nat first) v)).
Proof.
  intros H1 H2. unfold vec_range, len in *.
  rewrite (proj2 (Z.leb_le 0 first)) by lia.
  rewrite (proj2 (Z.leb_le first last)) by lia.
  rewrite (proj2 (Z.leb_le last _)) by lia.
  reflexivity.
Qed.

Lemma migrate_column_returns (dst_t : DeviceType) (dst_id : Z) (src_t : DeviceType)
    (src_id : Z) (bufs : list Buffer) :
  forall sizes : list Z,
    (length bufs <= length sizes)%nat ->
    exists moved m,
      migrate_column dst_t dst_id src_t src_id bufs sizes = Ok (moved, m).
Proof.
  induction bufs as [|b bufs IH]; intros sizes Hlen.
  - exists [], []. reflexivity.
  - destruct sizes as [|size sizes]; [cbn in Hlen; lia|].
    cbn [length] in Hlen.
    destruct (IH sizes ltac:(lia)) as [moved [m Hrun]].
    cbn [migrate_column]. rewrite Hrun. cbn [bind].
    eexists. eexists. reflexivity.
Qed.

(** On a column of [batch_size] rows, as the worker has validated it,
    [keep_column] returns. *)
Lemma keep_column_returns (out : Stage) (last_t : DeviceType) (last_id : Z)
    (w batch_size : Z) (i : nat) (sizes : list Z) (bufs : list Buffer) :
  nth_error (sg_sizes out) i = Some sizes ->
  nth_error (sg_buffers out) i = Some bufs ->
  len sizes = batch_size -> len bufs = batch_size ->
  0 <= w <= batch_size ->
  exists ks kb m, keep_column out last_t last_id w batch_size i = Ok (ks, kb, m).
Proof.
  intros Hs Hb Hls Hlb Hw. unfold keep_column.
  rewrite (vec_get_some _ _ _ Hs), (vec_get_some _ _ _ Hb). cbn [bind].
  assert (Hlen : length sizes = length bufs) by (unfold len in *; lia).
  rewrite (proj2 (Nat.eqb_eq _ _) Hlen). cbn [guard bind].
  assert (Hwarm : exists warm,
             (if 0 <? w then vec_range bufs 0 w else Ok []) = Ok warm).
  { destruct (0 <? w); [|eexists; reflexivity].
    rewrite vec_range_in_bounds by lia. eexists. reflexivity. }
  destruct Hwarm as [warm ->]. cbn [bind].
  assert (Hmig : exists bufs' m2,
             (if negb (device_eqb (sg_type out) CPU) && (w <? batch_size)
              then
                rows <- vec_range bufs w batch_size ;;
                szs <- vec_range sizes w batch_size ;;
                '(moved, m) <- migrate_column CPU 0 (sg_type out) (sg_id out) rows szs ;;
                Ok (firstn (Z.to_nat w) bufs ++ moved ++
                    skipn (Z.to_nat batch_size) bufs, m)
              else Ok (bufs, [])) = Ok (bufs', m2) /\
             w <= len bufs').
  { destruct (negb (device_eqb (sg_type out) CPU) && (w <? batch_size)).
    - rewrite !vec_range_in_bounds by lia. cbn [bind].
      destruct (migrate_column_returns CPU 0 (sg_type out) (sg_id out)
                  (firstn (Z.to_nat (batch_size - w)) (skipn (Z.to_nat w) bufs))
                  (firstn (Z.to_nat (batch_size - w)) (skipn (Z.to_nat w) sizes)))
        as [moved [m Hrun]].
      { rewrite !length_firstn, !length_skipn. lia. }
      rewrite Hrun. cbn [bind]. eexists. eexists. split; [reflexivity|].
      unfold len in *. rewrite length_app, length_firstn. lia.
    - eexists. eexists. split; [reflexivity | lia]. }
  destruct Hmig as [bufs' [m2 [-> Hw']]]. cbn [bind].
  rewrite (vec_range_in_bounds sizes) by lia. cbn [bind].
  rewrite (vec_range_in_bounds bufs') by lia. cbn [bind].
  eexists. eexists. eexists. reflexivity.
Qed.

(** *** Entries pushed downstream live in CPU memory *)

Lemma device_eqb_eq (a b : DeviceType) : device_eqb a b = true <-> a = b.
Proof. destruct a, b; cbn; split; intros H; try reflexivity; discriminate. Qed.

Lemma mapM_vec_range_len {A : Type} (cols out : list (list A)) (first last : Z) :
  mapM (fun col => vec_range col first last) cols = Ok out ->
  Forall (fun col => len col = last - first) out.
Proof.
  revert out. induction cols as [|col cols IH]; intros out H.
  - inversion H. constructor.
  - cbn [mapM] in H. bind_inv H r. bind_inv H rs. inversion H. subst out.
    constructor; [eapply vec_range_length; exact E | apply IH; reflexivity].
Qed.

Lemma migrate_columns_ok (dst_t : DeviceType) (dst_id : Z) (src_t : DeviceType)
    (src_id : Z) (cols : list (list Buffer)) (sizes : list (list Z))
    (moved : list (list Buffer)) (m : list MemEvent) :
  migrate_columns dst_t dst_id src_t src_id cols sizes = Ok (moved, m) ->
  moved = map (map (copy_to dst_t dst_id)) cols.
Proof.
  revert sizes moved m. induction cols as [|col cols IH]; intros sizes moved m H.
  - inversion H. reflexivity.
  - cbn [migrate_columns] in H. destruct sizes as [|szs sizes]; [discriminate|].
    bind_inv H p. destruct p as [mv ev1].
    bind_inv H q. destruct q as [rest ev2]. inversion H. subst.
    apply migrate_column_ok in E. destruct E as [-> _].
    rewrite (IH _ _ _ E0). reflexivity.
Qed.

Lemma Forall_len_map_copy (t : DeviceType) (id n : Z) (cols : list (list Buffer)) :
  Forall (fun col => len col = n) cols ->
  Forall (fun col => len col = n) (map (map (copy_to t id)) cols).
Proof.
  intros H. apply Forall_map. eapply Forall_impl; [|exact H].
  intros col Hc. unfold len in *. rewrite length_map. exact Hc.
Qed.

Lemma forallb_len {A : Type} (n : Z) (cols : list (list A)) :
  forallb (fun col => len col =? n) cols = true ->
  Forall (fun col => len col = n) cols.
Proof.
  intros H. apply Forall_forall. intros col Hin.
  rewrite forallb_forall in H. apply Z.eqb_eq. apply H. exact Hin.
Qed.

Section Contracts.
Context {St : Type}.

Lemma contract_set_state (ev : Evaluator St) (s : St) :
  evaluator_contract ev -> evaluator_contract (set_state ev s).
Proof. intros H. exact H. Qed.

Lemma prepare_evaluators_contract (cfg rst : bool) (md : VideoMetadata)
    (evs : list (Evaluator St)) (e0 : nat) :
  Forall evaluator_contract evs ->
  Forall evaluator_contract (fst (prepare_evaluators cfg rst md e0 evs)).
Proof.
  revert e0. induction evs as [|ev rest IH]; intros e0 H; [constructor|].
  inversion H as [|? ? Hev Hrest]. subst.
  cbn [prepare_evaluators]. specialize (IH (S e0) Hrest).
  destruct (prepare_evaluators cfg rst md (S e0) rest) as [rest' calls].
  cbn [fst] in *. constructor; [|exact IH].
  destruct cfg, rst; exact Hev.
Qed.

(** One batch through the chain: the columns stay of one length, and what
    the last evaluator published is on its device. *)
Lemma run_chain_ok (evs : list (Evaluator St)) :
  forall (e : nat) (video_decode : bool) (batch_size : Z) (out : Stage)
         (evs' : list (Evaluator St)) (batch_size' : Z) (final : Stage)
         (m : list MemEvent),
    Forall evaluator_contract evs ->
    uniform batch_size out ->
    run_chain e evs video_decode batch_size out = Ok (evs', batch_size', final, m) ->
    uniform batch_size' final /\
    Forall evaluator_contract evs' /\
    length evs' = length evs /\
    ((evs = [] -> on_device out) -> on_device final).
Proof.
  induction evs as [|ev rest IH]; intros e vd bs out evs' bs' final m Hc Hu H.
  - cbn in H. inversion H. subst. repeat split; try assumption; try constructor.
    + apply Hu.
    + apply Hu.
    + intros Hd. apply Hd. reflexivity.
  - inversion Hc as [|? ? Hev Hrest]. subst.
    cbn [run_chain] in H. cbv zeta in H.
    bind_inv H p. destruct p as [[[in_buffers in_type] in_id] m1].
    assert (Hin : Forall (fun col => len col = bs) in_buffers).
    { destruct (negb (device_eqb (sg_type out) (ev_device_type ev))
                || negb (sg_id out =? ev_device_id ev)).
      - bind_inv E q. destruct q as [moved mm].
        apply migrate_columns_ok in E0. inversion E. subst.
        apply Forall_len_map_copy. apply Hu.
      - inversion E. subst. apply Hu. }
    pose proof (Hev (ev_state ev) in_buffers (sg_sizes out)) as Hcontract.
    destruct (ev_evaluate ev (ev_state ev) in_buffers (sg_sizes out))
      as [[st' output_buffers] output_sizes].
    destruct Hcontract as [Hdev Hlen].
    bind_inv H u1. apply guard_ok in E0.
    bind_inv H u2. apply guard_ok in E1.
    bind_inv H bsz.
    bind_inv H q. destruct q as [[[rest' fbs] fin] m3].
    inversion H. subst evs' bs' final m. clear H.
    assert (Hu' : uniform bsz (mkStage (ev_output_names ev) output_buffers
                                       output_sizes (ev_device_type ev)
                                       (ev_device_id ev))).
    { unfold uniform. cbn [sg_buffers sg_sizes].
      destruct (Nat.eqb e 0 && vd) eqn:Hdecode.
      - bind_inv E2 col0. inversion E2. subst bsz.
        destruct (Hlen bs Hin (proj2 Hu)) as [n' [Hb Hs]].
        apply vec_get_ok in E4. apply nth_error_In in E4.
        rewrite Forall_forall in Hs. rewrite (Hs col0 E4).
        split; [exact Hb | apply Forall_forall; exact Hs].
      - inversion E2. subst bsz. cbn [orb] in E1.
        apply andb_true_iff in E1. destruct E1 as [Hb Hs].
        split; apply forallb_len; assumption. }
    destruct (IH _ _ _ _ _ _ _ _ Hrest Hu' E3) as [Hfu [Hfc [Hfl Hfd]]].
    split; [exact Hfu|]. split.
    + constructor; [apply contract_set_state; exact Hev | exact Hfc].
    + split; [cbn [length]; rewrite Hfl; reflexivity|].
      intros _. apply Hfd. intros _. exact Hdev.
Qed.

End Contracts.

Lemma keep_column_cpu (out : Stage) (last_t : DeviceType) (last_id : Z)
    (w batch_size : Z) (i : nat)
    (ks : list Z) (kb : list Buffer) (m : list MemEvent) :
  on_device out ->
  uniform batch_size out ->
  keep_column out last_t last_id w batch_size i = Ok (ks, kb, m) ->
  Forall on_cpu kb.
Proof.
  intros Hdev [Hub Hus]. unfold keep_column. intros H.
  bind_inv H sizes. apply vec_get_ok in E.
  bind_inv H bufs. apply vec_get_ok in E0.
  bind_inv H u.
  bind_inv H warm.
  bind_inv H p. destruct p as [bufs' m2].
  bind_inv H kept_sizes.
  bind_inv H kept_bufs.
  inversion H. subst ks kb m. clear H.
  assert (Hbufs_dev : Forall (fun b => buf_device_type b = sg_type out) bufs).
  { unfold on_device in Hdev. rewrite Forall_forall in Hdev.
    apply Hdev. eapply nth_error_In. exact E0. }
  assert (Hbufs_len : len bufs = batch_size).
  { rewrite Forall_forall in Hub. apply Hub. eapply nth_error_In. exact E0. }
  pose proof (vec_range_ok _ _ _ _ E5) as [Hw _].
  apply vec_range_suffix in E5. subst kept_bufs.
  destruct (device_eqb (sg_type out) CPU) eqn:Hcpu.
  - apply device_eqb_eq in Hcpu. cbn [negb andb] in E3. inversion E3. subst bufs'.
    apply Forall_forall. intros b Hb. apply in_skipn in Hb.
    rewrite Forall_forall in Hbufs_dev. unfold on_cpu.
    rewrite (Hbufs_dev b Hb). exact Hcpu.
  - cbn [negb andb] in E3. destruct (w <? batch_size) eqn:Hlt.
    + apply Z.ltb_lt in Hlt.
      bind_inv_eq E3 rows Er. bind_inv_eq E3 szs Es.
      bind_inv_eq E3 q Em. destruct q as [moved mm]. inversion E3. subst bufs' m2.
      apply migrate_column_ok in Em. destruct Em as [-> _].
      rewrite skipn_app.
      rewrite (skipn_all2 (firstn (Z.to_nat w) bufs))
        by (rewrite length_firstn; lia).
      rewrite length_firstn.
      unfold len in Hbufs_len.
      replace (Z.to_nat w - Nat.min (Z.to_nat w) (length bufs))%nat with 0%nat by lia.
      cbn [app skipn].
      rewrite (skipn_all2 bufs) by lia. rewrite app_nil_r.
      apply Forall_map. apply Forall_forall. intros b _. reflexivity.
    + apply Z.ltb_ge in Hlt. inversion E3. subst bufs'.
      unfold len in *.
      rewrite skipn_all2 by lia. constructor.
Qed.

Lemma keep_columns_cpu (out : Stage) (last_t : DeviceType) (last_id : Z)
    (w batch_size : Z) (cols : list nat) :
  on_device out ->
  uniform batch_size out ->
  forall kss kbs m,
    keep_columns out last_t last_id w batch_size cols = Ok (kss, kbs, m) ->
    Forall (Forall on_cpu) kbs.
Proof.
  intros Hdev Hu. induction cols as [|i cols IH]; intros kss kbs m H.
  - inversion H. constructor.
  - cbn [keep_columns] in H.
    bind_inv H p. destruct p as [[ks kb] m1].
    bind_inv H q. destruct q as [[kss' kbs'] m2]. inversion H. subst.
    constructor.
    + eapply keep_column_cpu; eassumption.
    + eapply IH. reflexivity.
Qed.

Lemma append_columns_cpu (acc new : list (list Buffer)) :
  Forall (Forall on_cpu) acc -> Forall (Forall on_cpu) new ->
  Forall (Forall on_cpu) (append_columns acc new).
Proof.
  revert new. induction acc as [|a acc IH]; intros new Ha Hn; [constructor|].
  destruct new as [|n new]; [exact Ha|].
  inversion Ha. inversion Hn. subst. cbn [append_columns].
  constructor; [apply Forall_app; split; assumption | apply IH; assumption].
Qed.

Section Pushed.
Context {St : Type}.

Lemma batched_pass_cpu (fuel : nat) (args : EvaluateThreadArgs)
    (work_entry : EvalWorkEntry) (work_item : VideoWorkItem) (reset : bool)
    (last_t : DeviceType) (last_id : Z) (num_columns : nat) (total_inputs : Z) :
  forall (current_input : Z) (evs : list (Evaluator St))
         (acc_sizes : list (list Z)) (acc_buffers : list (list Buffer))
         evs' out_sizes out_buffers m,
    evs <> [] ->
    Forall evaluator_contract evs ->
    Forall (Forall on_cpu) acc_buffers ->
    batched_pass fuel args work_entry work_item reset last_t last_id num_columns
                 total_inputs current_input evs acc_sizes acc_buffers
      = Ok (evs', out_sizes, out_buffers, m) ->
    Forall (Forall on_cpu) out_buffers.
Proof.
  induction fuel as [|fuel IH];
    intros current_input evs acc_sizes acc_buffers evs' out_sizes out_buffers m
           Hne Hc Hacc H.
  - cbn [batched_pass] in H.
    destruct (current_input <? total_inputs); [discriminate|].
    inversion H. subst. exact Hacc.
  - cbn [batched_pass] in H.
    destruct (current_input <? total_inputs); [|inversion H; subst; exact Hacc].
    cbv zeta in H.
    bind_inv H output_buffers. bind_inv H output_sizes.
    bind_inv H p. destruct p as [[[evs1 bs1] out1] m1].
    bind_inv H q. destruct q as [[kss kbs] m2].
    bind_inv H r. destruct r as [[[evs2 as2] ab2] m3].
    inversion H. subst evs' out_sizes out_buffers m. clear H.
    apply mapM_vec_range_len in E, E0.
    replace (current_input + Z.min total_inputs (WORK_ITEM_SIZE args) - current_input)
      with (Z.min total_inputs (WORK_ITEM_SIZE args)) in E, E0 by lia.
    assert (Hu0 : uniform (Z.min total_inputs (WORK_ITEM_SIZE args))
                          (mkStage (column_names work_entry) output_buffers
                                   output_sizes (buffer_type work_entry)
                                   (buffer_device_id work_entry))).
    { split; assumption. }
    destruct (run_chain_ok evs _ _ _ _ _ _ _ _ Hc Hu0 E1)
      as [Hu [Hc1 [Hl1 Hd]]].
    assert (Hdev : on_device out1).
    { apply Hd. intros Hnil. contradiction. }
    assert (Hne1 : evs1 <> []).
    { intros Hnil. subst evs1. destruct evs; [contradiction | discriminate Hl1]. }
    eapply IH; [exact Hne1 | exact Hc1 | | exact E3].
    apply append_columns_cpu; [exact Hacc|].
    eapply keep_columns_cpu; eassumption.
Qed.

Lemma Forall_repeat_nil (n : nat) : Forall (Forall on_cpu) (repeat [] n).
Proof. induction n; cbn; constructor; [constructor | assumption]. Qed.

Lemma save_release_events (output_names : list string) (work_entry : EvalWorkEntry)
    (m : list MemEvent) :
  save_release output_names work_entry = Ok m ->
  forall ev, In ev m ->
    exists b col, ev = DeleteBuffer CPU (buffer_device_id work_entry) b /\
                  In col (buffers work_entry) /\ In b col.
Proof.
  unfold save_release. intros H. bind_inv H ms. inversion H. subst m. clear H.
  revert ms E. generalize (seq 0 (length output_names)).
  intros idxs. induction idxs as [|i idxs IH]; intros ms E ev Hin.
  - inversion E. subst. contradiction.
  - cbn [mapM] in E. bind_inv E evs. bind_inv E rest. inversion E. subst ms.
    cbn [concat] in Hin. apply in_app_or in Hin. destruct Hin as [Hin|Hin].
    + bind_inv E0 sizes. bind_inv E0 u1. bind_inv E0 bufs. bind_inv E0 u2.
      inversion E0. subst evs.
      apply in_map_iff in Hin. destruct Hin as [b [Hev Hb]].
      exists b, bufs. split; [symmetry; exact Hev|]. split; [|exact Hb].
      apply vec_get_ok in E4. eapply nth_error_In. exact E4.
    + eapply IH; [reflexivity | exact Hin].
Qed.

(** C10.  Every entry the worker pushes downstream is tagged
    [buffer_type = CPU] and [buffer_device_id = 0], and every buffer it holds
    is in CPU memory, provided the evaluators keep their contract (what they
    publish is on their declared device, in columns of one length).  Hence
    every [delete_buffer (DeviceType::CPU, ...)] of the save worker is applied
    to a buffer allocated in CPU memory. *)
Theorem pushed_entry_on_cpu (fuel : nat) (args : EvaluateThreadArgs)
    (th : EvalThread St) (work_entry : EvalWorkEntry) (oc : EntryOutcome St) :
  Forall evaluator_contract (evaluators th) ->
  process_entry fuel args th work_entry = Ok oc ->
  buffer_type (oc_entry oc) = CPU /\
  buffer_device_id (oc_entry oc) = 0 /\
  Forall (Forall on_cpu) (buffers (oc_entry oc)) /\
  (forall output_names m,
      save_release output_names (oc_entry oc) = Ok m ->
      forall ev, In ev m ->
        exists id b, ev = DeleteBuffer CPU id b /\ buf_device_type b = CPU).
Proof.
  intros Hc H. unfold process_entry in H.
  bind_inv H last_ev. bind_inv H work_item. bind_inv H md.
  unfold configure_reset in H.
  pose proof (prepare_evaluators_contract (needs_configure work_item th)
                (needs_reset work_item th) md (evaluators th) 0 Hc) as Hc1.
  pose proof (prepare_evaluators_length (needs_configure work_item th)
                (needs_reset work_item th) md (evaluators th) 0) as Hl1.
  destruct (prepare_evaluators (needs_configure work_item th)
              (needs_reset work_item th) md 0 (evaluators th)) as [evs calls].
  cbn [fst evaluators last_video_index last_next_item_id] in *.
  bind_inv H p. destruct p as [[[evs' out_sizes] out_buffers] mem].
  inversion H. subst oc. clear H.
  cbn [oc_entry buffer_type buffer_device_id buffers].
  assert (Hne : evs <> []).
  { intros Hnil. subst evs. destruct (evaluators th); [discriminate E | discriminate Hl1]. }
  assert (Hcpu : Forall (Forall on_cpu) out_buffers).
  { eapply batched_pass_cpu; [exact Hne | exact Hc1 | apply Forall_repeat_nil | exact E2]. }
  split; [reflexivity|]. split; [reflexivity|]. split; [exact Hcpu|].
  intros output_names m Hsave ev Hin.
  destruct (save_release_events _ _ _ Hsave ev Hin) as [b [col [Hev [Hcol Hb]]]].
  cbn [buffer_device_id buffers] in *.
  exists 0, b. split; [exact Hev|].
  rewrite Forall_forall in Hcpu. specialize (Hcpu col Hcol).
  rewrite Forall_forall in Hcpu. apply Hcpu. exact Hb.
Qed.

End Pushed.

End EngineFacts.


(** ** The scenarios *)

Module ScenarioFacts.
Import Engine Planner Load Scenario EngineFacts.

Lemma copy_evaluator_contract (t : DeviceType) (id : Z) :
  evaluator_contract (copy_evaluator t id).
Proof.
  intros st ins szs. cbn. split.
  - constructor; [|constructor].
    apply Forall_map. apply Forall_forall. intros b _. reflexivity.
  - intros n _ _. exists (len (hd [] ins)).
    split; (constructor; [|constructor]); unfold len; rewrite length_map; reflexivity.
Qed.

(** The planner on scenario S5. *)
Lemma s5_plan_items :
  exists p,
    s5_plan = Ok p /\
    plan_work_items p =
      [mkVideoWorkItem 0 0 16 0; mkVideoWorkItem 0 16 32 16;
       mkVideoWorkItem 0 32 40 32] /\
    map lw_interval (plan_load_work_items p) =
      [mkInterval 0 16; mkInterval 16 32; mkInterval 32 40].
Proof. eexists. split; [vm_compute; reflexivity|]. split; reflexivity. Qed.

(** With the decoder stand-in, a single worker that handles the plan in
    order hands rows 0..39 to the save worker, and so do workers that each
    start on one item. *)
Example s5_one_worker_saves_every_row : s5_one_worker = Ok (data_rows 0 40).
Proof. vm_compute. reflexivity. Qed.

Example s5_worker_per_item_saves_every_row : s5_worker_per_item = Ok (data_rows 0 40).
Proof. vm_compute. reflexivity. Qed.

(** With two factory groups, the first group forwards the second item with
    its 8 warmup rows, 24 rows in all, and the last group fails on it. *)
Example s5_forwarded_entry :
  (exists entry,
      s5_second_item_first_group = Ok entry /\
      map (map buf_payload) (buffers entry) = [data_rows 8 24]) /\
  s5_second_item_last_group = Err OutOfBounds.
Proof. split; [eexists; split|]; vm_compute; reflexivity. Qed.

(** C3, as stated, fails: the first work item of S5 has
    [rows_from_start = 0], so in the last factory group, after a reset, the
    count of warmup rows of its batch is 0, and of the 16 rows 0..15 published
    for it none is handed to [delete_buffer]: all, rows 0..7 among them, are
    kept for the save worker. *)
Lemma s5_first_rows_are_kept :
  exists p,
    s5_plan = Ok p /\
    nth_error (plan_work_items p) 0 = Some (mkVideoWorkItem 0 0 16 0) /\
    warmup_frames (s5_args true p) true (mkVideoWorkItem 0 0 16 0) 16 0 = 0 /\
    warmup_frames (s5_args true p) true (mkVideoWorkItem 0 0 16 0) 16 0 <> 8 /\
    keep_column
      (mkStage ["frame"%string] [map (mkBuffer CPU 0) (data_rows 0 16)]
               [repeat 1 16] CPU 0)
      CPU 0
      (warmup_frames (s5_args true p) true (mkVideoWorkItem 0 0 16 0) 16 0)
      16 0
    = Ok (repeat 1 16, map (mkBuffer CPU 0) (data_rows 0 16), []).
Proof.
  eexists. split; [vm_compute; reflexivity|].
  split; [reflexivity|]. split; [reflexivity|].
  split; [vm_compute; discriminate | vm_compute; reflexivity].
Qed.

(** C9 fails on the source.  An entry of 24 rows reaches a worker with
    [WORK_ITEM_SIZE = 16]: [batch_size] is [min (24, 16) = 16] for every
    batch, the slice [0, 16) of the first batch lies within the column, the
    slice [16, 32) of the second does not, and the worker runs past the end
    of the vectors. *)
Theorem second_batch_slice_out_of_bounds :
  let rows := map (mkBuffer CPU 0) (data_rows 8 24) in
  let work_entry :=
    mkEvalWorkEntry 1 ["frame"%string] [repeat 1 24] [rows] CPU 0 false in
  let args :=
    mkEvaluateThreadArgs 8 [s5_video]
      [mkVideoWorkItem 0 0 16 0; mkVideoWorkItem 0 16 32 16;
       mkVideoWorkItem 0 32 40 32] true 16 in
  len rows = 24 /\
  Z.min 24 (WORK_ITEM_SIZE args) = 16 /\
  vec_range rows 0 (0 + 16) = Ok (firstn 16 rows) /\
  vec_range rows 16 (16 + 16) = Err OutOfBounds /\
  process_entry 4 args (initial_thread [copy_evaluator CPU 0]) work_entry
    = Err OutOfBounds.
Proof.
  cbv zeta. repeat split; vm_compute; reflexivity.
Qed.

(** A GPU evaluator on an entry of two rows. *)
Lemma pushed_entry_on_cpu_witness :
  match process_entry 3
          (mkEvaluateThreadArgs 0 [s5_video] [mkVideoWorkItem 0 0 2 0] true 16)
          (initial_thread [copy_evaluator GPU 1])
          (mkEvalWorkEntry 0 ["frame"%string] [[1; 1]]
                           [[mkBuffer CPU 0 (Data 0); mkBuffer CPU 0 (Data 1)]]
                           CPU 0 false)
  with
  | Ok oc =>
      buffer_type (oc_entry oc) = CPU /\
      buffer_device_id (oc_entry oc) = 0 /\
      Forall (Forall on_cpu) (buffers (oc_entry oc)) /\
      (forall output_names m,
          save_release output_names (oc_entry oc) = Ok m ->
          forall ev, In ev m ->
            exists id b, ev = DeleteBuffer CPU id b /\ buf_device_type b = CPU)
  | Err _ => False
  end.
Proof.
  destruct (process_entry 3
              (mkEvaluateThreadArgs 0 [s5_video] [mkVideoWorkItem 0 0 2 0] true 16)
              (initial_thread [copy_evaluator GPU 1])
              (mkEvalWorkEntry 0 ["frame"%string] [[1; 1]]
                               [[mkBuffer CPU 0 (Data 0); mkBuffer CPU 0 (Data 1)]]
                               CPU 0 false)) as [oc|f] eqn:E.
  - apply (pushed_entry_on_cpu 3 _ (initial_thread [copy_evaluator GPU 1]) _ oc
             (Forall_cons _ (copy_evaluator_contract GPU 1) (Forall_nil _)) E).
  - vm_compute in E. discriminate E.
Defined.

End ScenarioFacts.

(** ** The work planner *)

Module PlannerFacts.
Import Planner.

Lemma add32_id (a b : Z) : in_i32 (a + b) -> add32 a b = a + b.
Proof. apply to_i32_id. Qed.

Lemma sub32_id (a b : Z) : in_i32 (a - b) -> sub32 a b = a - b.
Proof. apply to_i32_id. Qed.

Lemma in_i32_nonneg (x : Z) : 0 <= x <= i32_max -> in_i32 x.
Proof. unfold in_i32, i32_min, i32_max. lia. Qed.

(** [chunk_count] is the least number of chunks that cover the frames. *)
Lemma chunk_count_bounds (W F : Z) :
  0 < W -> 0 <= F ->
  F <= Z.of_nat (chunk_count W F) * W /\
  (Z.of_nat (chunk_count W F) - 1) * W < F.
Proof.
  intros HW HF. unfold chunk_count.
  assert (Hq : 0 <= (F + W - 1) / W) by (apply Z.div_pos; lia).
  rewrite Z2Nat.id by exact Hq.
  pose proof (Z.div_mod (F + W - 1) W ltac:(lia)) as Hdm.
  pose proof (Z.mod_pos_bound (F + W - 1) W HW) as Hr.
  set (q := (F + W - 1) / W) in *. set (r := (F + W - 1) mod W) in *.
  split; nia.
Qed.

Lemma chunk_count_le (W F : Z) (fuel : nat) :
  0 < W -> 0 <= F <= Z.of_nat fuel -> (chunk_count W F <= fuel)%nat.
Proof.
  intros HW HF.
  destruct (chunk_count_bounds W F HW ltac:(lia)) as [_ H].
  nia.
Qed.

Lemma chunk_size_bounds (W F : Z) (k : nat) :
  0 < W -> Z.of_nat k * W < F -> 0 < chunk_size W F k <= W.
Proof. unfold chunk_size. lia. Qed.

Lemma plan_eta (p : Plan) : mkPlan (plan_work_items p) (plan_load_work_items p) = p.
Proof. destruct p. reflexivity. Qed.

(** *** [All] sampling *)

Section AllSampling.

Variable W : Z.
Hypothesis W_range : 0 < W <= i32_max.

(** The loop of one video, entered with [j] chunks done and [S n'] to do. *)
Lemma all_video_items (i F : Z) (HF : 0 <= F <= i32_max) :
  forall (n' j fuel : nat) (p : Plan),
    Z.of_nat j * W < F ->
    F <= Z.of_nat (j + S n') * W ->
    Z.of_nat (j + n') * W < F ->
    (S n' <= fuel)%nat ->
    exists lw',
      all_video fuel W i F (Z.of_nat j * W) p =
      Ok (mkPlan (plan_work_items p ++ map (all_item W i F) (seq j (S n'))) lw').
Proof.
  unfold i32_max in *.
  induction n' as [|n' IH]; intros j fuel p Hlt Hcover Hprev Hfuel;
    (destruct fuel as [|fuel]; [lia|]);
    cbn [all_video]; cbv zeta;
    (destruct (Z.of_nat j * W <? F) eqn:Hcond; [|apply Z.ltb_ge in Hcond; lia]);
    rewrite sub32_id by (unfold in_i32, i32_min, i32_max; lia).
  - (* the last chunk *)
    assert (Hfta : Z.min W (F - Z.of_nat j * W) = F - Z.of_nat j * W) by lia.
    rewrite add32_id by (unfold in_i32, i32_min, i32_max; lia).
    rewrite Hfta.
    replace (Z.of_nat j * W + (F - Z.of_nat j * W)) with F by lia.
    eexists.
    destruct fuel; cbn [all_video]; rewrite Z.ltb_irrefl.
    + cbn [seq map plan_work_items]. unfold all_item, chunk_size. rewrite Hfta.
      replace (Z.of_nat j * W + (F - Z.of_nat j * W)) with F by lia.
      reflexivity.
    + cbn [seq map plan_work_items]. unfold all_item, chunk_size. rewrite Hfta.
      replace (Z.of_nat j * W + (F - Z.of_nat j * W)) with F by lia.
      reflexivity.
  - (* a full chunk, more to come *)
    assert (Hfta : Z.min W (F - Z.of_nat j * W) = W) by lia.
    rewrite add32_id by (unfold in_i32, i32_min, i32_max; lia).
    rewrite Hfta.
    replace (Z.of_nat j * W + W) with (Z.of_nat (S j) * W) by lia.
    match goal with
    | |- exists lw', all_video _ _ _ _ _ ?p1 = _ =>
        destruct (IH (S j) fuel p1) as [lw' Hrun]; try lia
    end.
    exists lw'. rewrite Hrun. cbn [plan_work_items].
    rewrite <- app_assoc. cbn [app seq map].
    unfold all_item at 3, chunk_size. rewrite Hfta.
    replace (Z.of_nat j * W + W) with (Z.of_nat (S j) * W) by lia.
    reflexivity.
Qed.

(** The loop of one video, from its start. *)
Lemma all_video_from_start (i F : Z) (fuel : nat) (p : Plan) :
  0 <= F <= i32_max ->
  F <= Z.of_nat fuel ->
  exists lw',
    all_video fuel W i F 0 p =
    Ok (mkPlan (plan_work_items p ++ video_items W i F) lw').
Proof.
  intros HF Hfuel. unfold video_items.
  destruct (chunk_count_bounds W F ltac:(lia) ltac:(lia)) as [Hc1 Hc2].
  pose proof (chunk_count_le W F fuel ltac:(lia) ltac:(lia)) as Hcf.
  destruct (chunk_count W F) as [|n'] eqn:Hn.
  - exists (plan_load_work_items p).
    assert (F = 0) by lia. subst F.
    destruct fuel; cbn [all_video]; cbn [Z.ltb Z.compare seq map];
      rewrite app_nil_r, plan_eta; reflexivity.
  - apply (all_video_items i F HF n' 0%nat fuel p); cbn [Z.of_nat Nat.add]; lia.
Qed.

(** The number of items only grows. *)
Lemma all_video_length (i F : Z) :
  forall (fuel : nat) (a : Z) (p p' : Plan),
    all_video fuel W i F a p = Ok p' ->
    (length (plan_work_items p) <= length (plan_work_items p'))%nat.
Proof.
  induction fuel as [|fuel IH]; intros a p p' H; cbn [all_video] in H;
    destruct (a <? F); try discriminate; try (inversion H; subst; lia).
  cbv zeta in H. apply IH in H. cbn [plan_work_items] in H.
  rewrite length_app in H. cbn [length] in H. lia.
Qed.

Lemma all_entries_from_app (idx : nat) (items : list VideoWorkItem)
    (item : VideoWorkItem) :
  all_entries_from idx (items ++ [item]) =
  all_entries_from idx items ++ [all_entry (idx + length items) item].
Proof.
  revert idx. induction items as [|x items IH]; intros idx.
  - cbn. rewrite Nat.add_0_r. reflexivity.
  - cbn [app all_entries_from length]. rewrite IH.
    replace (S idx + length items)%nat with (idx + S (length items))%nat by lia.
    reflexivity.
Qed.

(** Every load entry carries its position and the interval of its item. *)
Lemma all_video_entries (i F : Z) :
  forall (fuel : nat) (a : Z) (p p' : Plan),
    all_video fuel W i F a p = Ok p' ->
    Z.of_nat (length (plan_work_items p')) <= i32_max ->
    plan_load_work_items p = all_entries_from 0 (plan_work_items p) ->
    plan_load_work_items p' = all_entries_from 0 (plan_work_items p').
Proof.
  induction fuel as [|fuel IH]; intros a p p' H Hmax Hp; cbn [all_video] in H;
    destruct (a <? F); try discriminate; try (inversion H; subst; exact Hp).
  cbv zeta in H.
  pose proof (all_video_length _ _ _ _ _ _ H) as Hlen.
  cbn [plan_work_items] in Hlen. rewrite length_app in Hlen. cbn [length] in Hlen.
  apply IH in H; [exact H | exact Hmax |].
  cbn [plan_work_items plan_load_work_items].
  rewrite all_entries_from_app, Hp. f_equal. f_equal.
  unfold all_entry, last_index. cbn [item_id next_item_id Nat.add].
  rewrite length_app. cbn [length].
  rewrite to_i32_id by (unfold in_i32, i32_min, i32_max in *; lia).
  f_equal. lia.
Qed.

Lemma all_videos_length (fuel : nat) :
  forall (videos : list VideoMetadata) (i : nat) (p p' : Plan),
    all_videos fuel W i videos p = Ok p' ->
    (length (plan_work_items p) <= length (plan_work_items p'))%nat.
Proof.
  induction videos as [|meta rest IH]; intros i p p' H; cbn [all_videos] in H.
  - inversion H. lia.
  - destruct (all_video fuel W (to_i32 (Z.of_nat i)) (md_frames meta) 0 p)
      as [p1|] eqn:E; cbn [bind] in H; [|discriminate].
    apply all_video_length in E. apply IH in H. lia.
Qed.

Lemma all_videos_entries (fuel : nat) :
  forall (videos : list VideoMetadata) (i : nat) (p p' : Plan),
    all_videos fuel W i videos p = Ok p' ->
    Z.of_nat (length (plan_work_items p')) <= i32_max ->
    plan_load_work_items p = all_entries_from 0 (plan_work_items p) ->
    plan_load_work_items p' = all_entries_from 0 (plan_work_items p').
Proof.
  induction videos as [|meta rest IH]; intros i p p' H Hmax Hp; cbn [all_videos] in H.
  - inversion H. subst. exact Hp.
  - destruct (all_video fuel W (to_i32 (Z.of_nat i)) (md_frames meta) 0 p)
      as [p1|] eqn:E; cbn [bind] in H; [|discriminate].
    pose proof (all_videos_length _ _ _ _ _ H) as Hlen.
    eapply IH; [exact H | exact Hmax |].
    eapply all_video_entries; [exact E | lia | exact Hp].
Qed.

Lemma all_videos_items (fuel : nat) :
  forall (videos : list VideoMetadata) (i : nat) (p : Plan),
    forallb (frames_ok fuel) videos = true ->
    Z.of_nat (i + length videos) <= i32_max ->
    exists p',
      all_videos fuel W i videos p = Ok p' /\
      plan_work_items p' = plan_work_items p ++ all_items_from W i videos.
Proof.
  induction videos as [|meta rest IH]; intros i p Hok Hmax.
  - exists p. cbn. rewrite app_nil_r. split; reflexivity.
  - cbn [forallb] in Hok. apply andb_true_iff in Hok. destruct Hok as [Hm Hrest].
    unfold frames_ok in Hm.
    apply andb_true_iff in Hm. destruct Hm as [Hm Hm3].
    apply andb_true_iff in Hm. destruct Hm as [Hm1 Hm2].
    apply Z.leb_le in Hm1, Hm2, Hm3.
    cbn [all_videos all_items_from length] in *.
    rewrite to_i32_id by (unfold in_i32, i32_min, i32_max in *; lia).
    destruct (all_video_from_start (Z.of_nat i) (md_frames meta) fuel p
                ltac:(lia) Hm3) as [lw' Hrun].
    rewrite Hrun. cbn [bind].
    destruct (IH (S i) (mkPlan (plan_work_items p ++
                                video_items W (Z.of_nat i) (md_frames meta)) lw')
                 Hrest ltac:(lia)) as [p' [Hrun' Hitems]].
    exists p'. split; [exact Hrun'|].
    rewrite Hitems. cbn [plan_work_items]. rewrite app_assoc. reflexivity.
Qed.

Lemma all_items_from_chunks :
  forall (videos : list VideoMetadata) (i : nat),
    forallb (fun meta => 0 <=? md_frames meta) videos = true ->
    Forall (fun item =>
              0 < next_item_id item - item_id item <= W /\
              rows_from_start item = item_id item)
           (all_items_from W i videos).
Proof.
  induction videos as [|meta rest IH]; intros i Hok; [constructor|].
  cbn [forallb] in Hok. apply andb_true_iff in Hok. destruct Hok as [Hm Hrest].
  apply Z.leb_le in Hm.
  cbn [all_items_from]. apply Forall_app. split; [|apply IH; exact Hrest].
  unfold video_items. apply Forall_map. apply Forall_forall. intros k Hk.
  apply in_seq in Hk.
  destruct (chunk_count_bounds W (md_frames meta) ltac:(lia) Hm) as [_ Hc].
  assert (Hkw : Z.of_nat k * W < md_frames meta) by nia.
  pose proof (chunk_size_bounds W (md_frames meta) k ltac:(lia) Hkw).
  unfold all_item. cbn [item_id next_item_id rows_from_start]. split; [lia | reflexivity].
Qed.

End AllSampling.

(** C6.  For [All] sampling the planner cuts every video into consecutive
    chunks of at most [WORK_ITEM_SIZE] frames: item [k] of video [i] has
    [item_id = k * WORK_ITEM_SIZE], [next_item_id = item_id + chunk_size] and
    [rows_from_start = item_id] (this is [all_item]); the load entry at the
    position of an item carries that position and the interval
    [[item_id, next_item_id)].  Frame counts, the number of videos and the
    number of items are taken within [i32], and [fuel] covers the longest
    video. *)
Theorem plan_all_chunks (fuel : nat) (W : Z) (videos : list VideoMetadata) :
  0 < W <= i32_max ->
  forallb (frames_ok fuel) videos = true ->
  Z.of_nat (length videos) <= i32_max ->
  Z.of_nat (length (all_items W videos)) <= i32_max ->
  exists p,
    plan_all fuel W videos = Ok p /\
    plan_work_items p = all_items W videos /\
    plan_load_work_items p = all_entries_from 0 (plan_work_items p) /\
    Forall (fun item =>
              0 < next_item_id item - item_id item <= W /\
              rows_from_start item = item_id item)
           (plan_work_items p).
Proof.
  intros HW Hok Hvideos Hitems. unfold plan_all, all_items in *.
  assert (Hcount : Z.of_nat (0 + length videos) <= i32_max) by exact Hvideos.
  destruct (all_videos_items W HW fuel videos 0 empty_plan Hok Hcount)
    as [p [Hrun Hp]].
  cbn [empty_plan plan_work_items app] in Hp.
  exists p. split; [exact Hrun|]. split; [exact Hp|]. split.
  - eapply (all_videos_entries W); [exact Hrun | rewrite Hp; exact Hitems | reflexivity].
  - rewrite Hp. apply (all_items_from_chunks W HW).
    rewrite forallb_forall in Hok. apply forallb_forall. intros meta Hin.
    specialize (Hok meta Hin). unfold frames_ok in Hok.
    apply andb_true_iff in Hok. destruct Hok as [Hok _].
    apply andb_true_iff in Hok. destruct Hok as [Hok _]. exact Hok.
Qed.

(** Two videos, of 40 and of 16 frames, in chunks of 16. *)
Lemma plan_all_chunks_witness :
  exists p,
    plan_all 40 16 [mkVideoMetadata 640 480 40 [0; 20] [0; 5000];
                    mkVideoMetadata 640 480 16 [0] [0]] = Ok p /\
    plan_work_items p =
      all_items 16 [mkVideoMetadata 640 480 40 [0; 20] [0; 5000];
                    mkVideoMetadata 640 480 16 [0] [0]] /\
    plan_load_work_items p = all_entries_from 0 (plan_work_items p) /\
    Forall (fun item =>
              0 < next_item_id item - item_id item <= 16 /\
              rows_from_start item = item_id item)
           (plan_work_items p).
Proof.
  apply (plan_all_chunks 40 16 [mkVideoMetadata 640 480 40 [0; 20] [0; 5000];
                                mkVideoMetadata 640 480 16 [0] [0]]).
  - unfold i32_max. lia.
  - reflexivity.
  - unfold i32_max. simpl. lia.
  - unfold i32_max. vm_compute. discriminate.
Defined.

(** *** [SequenceGather] sampling *)

Lemma indices_S (n : nat) : indices (S n) = indices n ++ [Z.of_nat n].
Proof. unfold indices. rewrite seq_S, map_app. reflexivity. Qed.

Section SequenceSampling.

Variable W : Z.
Hypothesis W_range : 0 < W <= i32_max.







(** *** Every interval starts after a request for a reset *)







End SequenceSampling.


(** A worker that takes the items in this order resets on every item that
    starts an interval. *)
Lemma resets_at_interval_starts {St : Type}
    (md_of : VideoWorkItem -> VideoMetadata) :
  forall (items : list VideoWorkItem) (th : Engine.EvalThread St)
         (idx : nat) (item : VideoWorkItem),
    separated (Engine.last_next_item_id th) items ->
    nth_error items idx = Some item ->
    rows_from_start item = 0 ->
    nth_error (Engine.resets_in_order th md_of items) idx = Some true.
Proof.
  induction items as [|x rest IH]; intros th idx item Hsep Hnth Hstart.
  - destruct idx; discriminate Hnth.
  - cbn [separated] in Hsep. destruct Hsep as [Hprev [Hid [Hnext Hrest]]].
    destruct idx as [|idx]; cbn [nth_error Engine.resets_in_order] in *.
    + inversion Hnth. subst x. f_equal.
      unfold Engine.needs_reset. rewrite (Hprev Hstart).
      replace (item_id item =? -1) with false by (symmetry; apply Z.eqb_neq; lia).
      rewrite andb_false_r. reflexivity.
    + apply (IH _ idx item); [|exact Hnth | exact Hstart].
      unfold Engine.configure_reset.
      destruct (Engine.prepare_evaluators (Engine.needs_configure x th)
                  (Engine.needs_reset x th) (md_of x) 0 (Engine.evaluators th)).
      cbn [fst Engine.last_next_item_id].
      rewrite to_i32_id by exact Hnext. exact Hrest.
Qed.

End PlannerFacts.

(** ** The intake loops *)

Module DriverFacts.
Import Driver.

Lemma nth_error_set_nth_eq {A : Type} (l : list A) (i : nat) (x y : A) :
  nth_error l i = Some x -> nth_error (set_nth l i y) i = Some y.
Proof.
  revert i. induction l as [|a l IH]; intros i H; destruct i; try discriminate.
  - reflexivity.
  - cbn in *. apply IH. exact H.
Qed.

Lemma length_set_nth {A : Type} (l : list A) (i : nat) (y : A) :
  length (set_nth l i y) = length l.
Proof.
  revert i. induction l as [|a l IH]; intros i; destruct i; cbn; try reflexivity.
  rewrite IH. reflexivity.
Qed.

Lemma Forall_set_nth {A : Type} (P : A -> Prop) (l : list A) (i : nat) (y : A) :
  Forall P l -> P y -> Forall P (set_nth l i y).
Proof.
  revert i. induction l as [|a l IH]; intros i Hl Hy; destruct i; cbn;
    try constructor; inversion Hl; subst; try assumption.
  apply IH; assumption.
Qed.

Lemma Forall_nth_error {A : Type} (P : A -> Prop) (l : list A) (i : nat) (x : A) :
  Forall P l -> nth_error l i = Some x -> P x.
Proof.
  intros Hl Hx. rewrite Forall_forall in Hl. apply Hl.
  eapply nth_error_In. exact Hx.
Qed.

Lemma filter_set_nth_same {A : Type} (f : A -> bool) (l : list A) (i : nat) (x y : A) :
  nth_error l i = Some x -> f y = f x ->
  length (filter f (set_nth l i y)) = length (filter f l).
Proof.
  revert i. induction l as [|a l IH]; intros i Hx Hf; destruct i; try discriminate.
  - cbn in *. inversion Hx. subst a. rewrite Hf. destruct (f x); reflexivity.
  - cbn in *. destruct (f a); cbn; rewrite (IH i Hx Hf); reflexivity.
Qed.

Lemma filter_set_nth_gain {A : Type} (f : A -> bool) (l : list A) (i : nat) (x y : A) :
  nth_error l i = Some x -> f x = false -> f y = true ->
  length (filter f (set_nth l i y)) = S (length (filter f l)).
Proof.
  revert i. induction l as [|a l IH]; intros i Hx Hfx Hfy; destruct i; try discriminate.
  - cbn in *. inversion Hx. subst a. rewrite Hfx, Hfy. reflexivity.
  - cbn in *. destruct (f a); cbn; rewrite (IH i Hx Hfx Hfy); reflexivity.
Qed.

Lemma filter_length_bound {A : Type} (f : A -> bool) (l : list A) :
  (length (filter f l) <= length l)%nat.
Proof.
  induction l as [|a l IH]; [cbn; lia|].
  cbn. destruct (f a); cbn; lia.
Qed.

Lemma filter_all {A : Type} (f : A -> bool) (l : list A) :
  length (filter f l) = length l -> Forall (fun x => f x = true) l.
Proof.
  induction l as [|a l IH]; intros H; [constructor|].
  cbn in H. destruct (f a) eqn:E.
  - cbn in H. constructor; [exact E | apply IH; lia].
  - pose proof (filter_length_bound f l). lia.
Qed.

Lemma filter_repeat_none {A : Type} (f : A -> bool) (x : A) (n : nat) :
  f x = false -> filter f (repeat x n) = [].
Proof.
  intros H. induction n as [|n IH]; [reflexivity|].
  cbn. rewrite H. exact IH.
Qed.

Section Cluster.

Variable PUS_PER_NODE : Z.
Variable TASKS_IN_QUEUE_PER_PU : Z.
Variable work_items : list VideoWorkItem.
Variable load_work_items : list LoadWorkEntry.

Local Abbreviation threshold := (PUS_PER_NODE * TASKS_IN_QUEUE_PER_PU).
Local Abbreviation below := (below_threshold PUS_PER_NODE TASKS_IN_QUEUE_PER_PU).
Local Abbreviation mstep :=
  (master_step PUS_PER_NODE TASKS_IN_QUEUE_PER_PU work_items load_work_items).
Local Abbreviation wlocal := (worker_local_step PUS_PER_NODE TASKS_IN_QUEUE_PER_PU).
Local Abbreviation wstep := (worker_step PUS_PER_NODE TASKS_IN_QUEUE_PER_PU).
Local Abbreviation cstep :=
  (step PUS_PER_NODE TASKS_IN_QUEUE_PER_PU work_items load_work_items).
Local Abbreviation crun :=
  (run PUS_PER_NODE TASKS_IN_QUEUE_PER_PU work_items load_work_items).
Local Abbreviation creachable :=
  (reachable PUS_PER_NODE TASKS_IN_QUEUE_PER_PU work_items load_work_items).
Local Abbreviation total := (num_work_items work_items).
Local Abbreviation node_ok := (Driver.node_ok PUS_PER_NODE TASKS_IN_QUEUE_PER_PU).
Local Abbreviation open := (Driver.open PUS_PER_NODE TASKS_IN_QUEUE_PER_PU).
Local Abbreviation worker_ok := (Driver.worker_ok PUS_PER_NODE TASKS_IN_QUEUE_PER_PU).
Local Abbreviation gate_inv := (Driver.gate_inv PUS_PER_NODE TASKS_IN_QUEUE_PER_PU).
Local Abbreviation protocol_inv := (Driver.protocol_inv work_items).

(** *** The gate *)

Section Gate.

(** The threshold is a count that fits an [i32]. *)
Hypothesis threshold_range : 0 <= threshold <= i32_max.

Lemma below_open (n : Node) : node_ok n -> below n = true -> open n.
Proof.
  unfold node_ok, below_threshold, local_work, open. intros [H1 H2] H.
  apply Z.ltb_lt in H.
  rewrite to_i32_id in H by (unfold in_i32, i32_min, i32_max in *; lia).
  exact H.
Qed.

Lemma push_ok (n : Node) (entry : LoadWorkEntry) :
  node_ok n -> open n -> node_ok (push_entry n entry).
Proof. unfold node_ok, open, push_entry. cbn. lia. Qed.

Lemma retire_ok (n : Node) : node_ok n -> can_retire n = true -> node_ok (retire n).
Proof.
  unfold node_ok, can_retire, retire. cbn. intros H Hc. apply Z.ltb_lt in Hc. lia.
Qed.

Lemma retire_open (n : Node) : open n -> open (retire n).
Proof. unfold open, retire. cbn. lia. Qed.

Lemma gate_inv_initial (peers : nat) : gate_inv (initial_cluster peers).
Proof.
  unfold gate_inv, initial_cluster. cbn [master_node master_pc workers].
  split; [|split].
  - unfold node_ok, initial_node. cbn. lia.
  - discriminate.
  - apply Forall_forall. intros wk Hwk. apply repeat_spec in Hwk. subst wk.
    unfold worker_ok, node_ok, initial_node. cbn. lia.
Qed.

Lemma worker_local_step_ok (wk wk' : Worker) :
  worker_ok wk -> wlocal wk = Some wk' -> worker_ok wk'.
Proof.
  unfold worker_ok, worker_local_step. intros [Hn Hpc] H.
  destruct (worker_pc wk) as [| |r|] eqn:Epc; try discriminate.
  - destruct (below (worker_node wk)) eqn:Eb; inversion H; subst wk'; cbn.
    + split; [exact Hn | apply below_open; assumption].
    + rewrite Epc. split; [exact Hn | exact I].
  - destruct (r =? -1); inversion H; subst wk'; cbn.
    + split; [exact Hn | exact I].
    + split; [apply push_ok; assumption | exact I].
Qed.

Lemma gate_inv_step (a : Action) (c c' : ClusterState) :
  gate_inv c -> cstep a c = Some c' -> gate_inv c'.
Proof.
  intros [Hm [Hacc Hws]] H. destruct a as [|w|w|node]; cbn [step] in H.
  - (* the master's thread *)
    unfold master_step in H. destruct (master_pc c) eqn:Epc; try discriminate.
    + destruct (next_work_item_to_allocate c <? total).
      * destruct (below (master_node c)) eqn:Eb.
        -- inversion H. subst c'. unfold gate_inv. cbn.
           split; [exact Hm|]. split; [intros _; apply below_open; assumption | exact Hws].
        -- destruct (1 <? num_nodes c); inversion H; subst c'; unfold gate_inv; cbn.
           ++ split; [exact Hm|]. split; [discriminate | exact Hws].
           ++ rewrite Epc. split; [exact Hm|]. split; [discriminate | exact Hws].
      * inversion H. subst c'. unfold gate_inv. cbn.
        split; [exact Hm|]. split; [discriminate | exact Hws].
    + destruct (nth_error load_work_items (Z.to_nat (next_work_item_to_allocate c)));
        [|discriminate].
      inversion H. subst c'. unfold gate_inv. cbn.
      split; [apply push_ok; [exact Hm | apply Hacc; reflexivity]|].
      split; [discriminate | exact Hws].
    + destruct (workers_done <? num_nodes c); inversion H; subst c';
        unfold gate_inv; cbn; (split; [exact Hm|]; split; [discriminate | exact Hws]).
  - (* a reply of the master *)
    unfold master_serve in H.
    destruct (nth_error (workers c) w) as [[pc node]|] eqn:Ew; [|discriminate].
    destruct pc; try discriminate.
    pose proof (Forall_nth_error _ _ _ _ Hws Ew) as [Hn Hopen]. cbn in Hn, Hopen.
    destruct (master_pc c) eqn:Epc; try discriminate; inversion H; subst c';
      unfold gate_inv; cbn;
      (split; [exact Hm|]; split; [discriminate|];
       apply Forall_set_nth; [exact Hws | split; cbn; assumption]).
  - (* the thread of a worker node *)
    unfold worker_step in H.
    destruct (nth_error (workers c) w) as [wk|] eqn:Ew; [|discriminate].
    destruct (wlocal wk) as [wk'|] eqn:El; [|discriminate].
    inversion H. subst c'. unfold gate_inv. cbn.
    split; [exact Hm|]. split; [exact Hacc|].
    apply Forall_set_nth; [exact Hws|].
    eapply worker_local_step_ok; [|exact El].
    eapply Forall_nth_error; eassumption.
  - (* a save worker *)
    unfold retire_step in H. destruct node as [|w].
    + destruct (can_retire (master_node c)) eqn:Ec; [|discriminate].
      inversion H. subst c'. unfold gate_inv. cbn.
      split; [apply retire_ok; assumption|].
      split; [intros Hpc; apply retire_open; apply Hacc; exact Hpc | exact Hws].
    + destruct (nth_error (workers c) w) as [wk|] eqn:Ew; [|discriminate].
      destruct (can_retire (worker_node wk)) eqn:Ec; [|discriminate].
      inversion H. subst c'. unfold gate_inv. cbn.
      split; [exact Hm|]. split; [exact Hacc|].
      apply Forall_set_nth; [exact Hws|].
      pose proof (Forall_nth_error _ _ _ _ Hws Ew) as [Hn Hopen].
      split; cbn; [apply retire_ok; assumption|].
      destruct (worker_pc wk); try exact I; apply retire_open; exact Hopen.
Qed.

Lemma gate_inv_run (schedule : list Action) :
  forall c c', gate_inv c -> crun schedule c = Some c' -> gate_inv c'.
Proof.
  induction schedule as [|a rest IH]; intros c c' Hc H; cbn [run] in H.
  - inversion H. subst. exact Hc.
  - destruct (cstep a c) as [c1|] eqn:E; [|discriminate].
    eapply IH; [|exact H]. eapply gate_inv_step; eassumption.
Qed.

Lemma gate_inv_reachable (peers : nat) (c : ClusterState) :
  creachable peers c -> gate_inv c.
Proof.
  intros [schedule H]. eapply gate_inv_run; [apply gate_inv_initial | exact H].
Qed.

(** C7.  On every node the driver accepts a work item into the load queue
    only in a state in which [accepted_items - retired_items] is below
    [PUS_PER_NODE * TASKS_IN_QUEUE_PER_PU], whatever the save workers retired
    since the driver made its test; hence in every state the cluster reaches,
    [accepted_items - retired_items] of no node exceeds that threshold.  The
    threshold is taken to be a count that fits an [i32]. *)
Theorem intake_gate (peers : nat) (c : ClusterState) :
  creachable peers c ->
  (forall n, In n (nodes c) -> accepted_items n - retired_items n <= threshold) /\
  (forall c',
      mstep c = Some c' ->
      accepted_items (master_node c') <> accepted_items (master_node c) ->
      accepted_items (master_node c) - retired_items (master_node c) < threshold /\
      exists entry, master_node c' = push_entry (master_node c) entry) /\
  (forall w wk wk',
      nth_error (workers c) w = Some wk ->
      wlocal wk = Some wk' ->
      accepted_items (worker_node wk') <> accepted_items (worker_node wk) ->
      accepted_items (worker_node wk) - retired_items (worker_node wk) < threshold /\
      exists entry, worker_node wk' = push_entry (worker_node wk) entry).
Proof.
  intros Hreach. destruct (gate_inv_reachable peers c Hreach) as [Hm [Hacc Hws]].
  split; [|split].
  - intros n Hn. unfold nodes in Hn. destruct Hn as [<-|Hn].
    + apply Hm.
    + apply in_map_iff in Hn. destruct Hn as [wk [<- Hwk]].
      rewrite Forall_forall in Hws. apply (Hws wk Hwk).
  - intros c' Hstep Hchg. unfold master_step in Hstep.
    destruct (master_pc c) eqn:Epc; try discriminate.
    + destruct (next_work_item_to_allocate c <? total).
      * destruct (below (master_node c)).
        -- inversion Hstep. subst c'. cbn in Hchg. contradiction.
        -- destruct (1 <? num_nodes c); inversion Hstep; subst c'; cbn in Hchg;
             contradiction.
      * inversion Hstep. subst c'. cbn in Hchg. contradiction.
    + destruct (nth_error load_work_items (Z.to_nat (next_work_item_to_allocate c)))
        as [entry|]; [|discriminate].
      inversion Hstep. subst c'. cbn [master_node].
      split; [apply Hacc; reflexivity | exists entry; reflexivity].
    + destruct (workers_done <? num_nodes c); inversion Hstep; subst c';
        cbn in Hchg; contradiction.
  - intros w wk wk' Hw Hstep Hchg.
    pose proof (Forall_nth_error _ _ _ _ Hws Hw) as [Hn Hopen].
    unfold worker_local_step in Hstep.
    destruct (worker_pc wk) as [| |r|] eqn:Epc; try discriminate.
    + destruct (below (worker_node wk)); inversion Hstep; subst wk';
        cbn in Hchg; contradiction.
    + destruct (r =? -1); inversion Hstep; subst wk'.
      * cbn in Hchg. contradiction.
      * cbn [worker_node]. split; [exact Hopen | eexists; reflexivity].
Qed.

End Gate.

(** *** The exchange between the master and the workers *)

Lemma worker_local_step_stop (wk wk' : Worker) :
  wlocal wk = Some wk' -> got_stop wk' = got_stop wk.
Proof.
  unfold worker_local_step, got_stop. intros H.
  destruct (worker_pc wk) as [| |r|] eqn:Epc; try discriminate.
  - destruct (below (worker_node wk)); inversion H; subst wk'; cbn;
      [reflexivity | rewrite Epc; reflexivity].
  - destruct (r =? -1) eqn:Er; inversion H; subst wk'; reflexivity.
Qed.

Lemma stopped_bound (c : ClusterState) :
  0 <= stopped_workers c <= Z.of_nat (length (workers c)).
Proof.
  unfold stopped_workers.
  pose proof (filter_length_bound got_stop (workers c)). lia.
Qed.

Lemma protocol_inv_initial (peers : nat) : protocol_inv peers (initial_cluster peers).
Proof.
  unfold Driver.protocol_inv, initial_cluster, stopped_workers.
  cbn [workers master_pc next_work_item_to_allocate].
  rewrite repeat_length, filter_repeat_none by reflexivity.
  cbn. repeat split; lia.
Qed.

Lemma protocol_inv_step (peers : nat) (a : Action) (c c' : ClusterState) :
  protocol_inv peers c -> cstep a c = Some c' -> protocol_inv peers c'.
Proof.
  intros [Hlen [Hnext Hpc]] H.
  pose proof (stopped_bound c) as Hbound.
  destruct a as [|w|w|node]; cbn [step] in H.
  - unfold master_step in H. destruct (master_pc c) eqn:Epc; try discriminate.
    + destruct (next_work_item_to_allocate c <? total) eqn:Elt.
      * apply Z.ltb_lt in Elt.
        destruct (below (master_node c)).
        -- inversion H. subst c'. unfold Driver.protocol_inv, stopped_workers in *.
           cbn. repeat split; assumption.
        -- destruct (1 <? num_nodes c); inversion H; subst c';
             unfold Driver.protocol_inv, stopped_workers in *; cbn [master_pc next_work_item_to_allocate workers master_node].
           ++ repeat split; assumption.
           ++ rewrite Epc. repeat split; assumption.
      * apply Z.ltb_ge in Elt. inversion H. subst c'.
        unfold Driver.protocol_inv, stopped_workers in *. cbn [master_pc next_work_item_to_allocate workers master_node].
        repeat split; try assumption. lia.
    + destruct (nth_error load_work_items (Z.to_nat (next_work_item_to_allocate c)));
        [|discriminate].
      inversion H. subst c'. unfold Driver.protocol_inv, stopped_workers in *. cbn [master_pc next_work_item_to_allocate workers master_node].
      destruct Hpc as [_ Hs]. repeat split; try assumption. lia.
    + destruct Hpc as [Htot Hd].
      destruct (workers_done <? num_nodes c) eqn:Ed; inversion H; subst c';
        unfold Driver.protocol_inv, stopped_workers, num_nodes in *; cbn [master_pc next_work_item_to_allocate workers master_node].
      * repeat split; assumption.
      * apply Z.ltb_ge in Ed. repeat split; try assumption. lia.
  - unfold master_serve in H.
    destruct (nth_error (workers c) w) as [[pc node]|] eqn:Ew; [|discriminate].
    destruct pc; try discriminate.
    destruct (master_pc c) eqn:Epc; try discriminate; inversion H; subst c';
      unfold Driver.protocol_inv, stopped_workers in *; cbn [master_pc next_work_item_to_allocate workers master_node];
      rewrite length_set_nth.
    + destruct Hpc as [Hlt Hs].
      rewrite (filter_set_nth_same got_stop _ _ _ _ Ew).
      * repeat split; try assumption. lia.
      * unfold got_stop. cbn [worker_pc].
        apply Z.eqb_neq. lia.
    + destruct Hpc as [Htot Hd].
      rewrite (filter_set_nth_gain got_stop _ _ _ _ Ew); try reflexivity.
      repeat split; try assumption. lia.
  - unfold worker_step in H.
    destruct (nth_error (workers c) w) as [wk|] eqn:Ew; [|discriminate].
    destruct (wlocal wk) as [wk'|] eqn:El; [|discriminate].
    inversion H. subst c'. unfold Driver.protocol_inv, stopped_workers in *. cbn [master_pc next_work_item_to_allocate workers master_node].
    rewrite length_set_nth.
    rewrite (filter_set_nth_same got_stop _ _ _ _ Ew)
      by (eapply worker_local_step_stop; exact El).
    repeat split; assumption.
  - unfold retire_step in H. destruct node as [|w].
    + destruct (can_retire (master_node c)); [|discriminate].
      inversion H. subst c'. unfold Driver.protocol_inv, stopped_workers in *. cbn [master_pc next_work_item_to_allocate workers master_node].
      repeat split; assumption.
    + destruct (nth_error (workers c) w) as [wk|] eqn:Ew; [|discriminate].
      destruct (can_retire (worker_node wk)); [|discriminate].
      inversion H. subst c'. unfold Driver.protocol_inv, stopped_workers in *. cbn [master_pc next_work_item_to_allocate workers master_node].
      rewrite length_set_nth.
      rewrite (filter_set_nth_same got_stop _ _ _ _ Ew) by reflexivity.
      repeat split; assumption.
Qed.

Lemma protocol_inv_run (peers : nat) (schedule : list Action) :
  forall c c', protocol_inv peers c -> crun schedule c = Some c' ->
               protocol_inv peers c'.
Proof.
  induction schedule as [|a rest IH]; intros c c' Hc H; cbn [run] in H.
  - inversion H. subst. exact Hc.
  - destruct (cstep a c) as [c1|] eqn:E; [|discriminate].
    eapply IH; [|exact H]. eapply protocol_inv_step; eassumption.
Qed.

(** C8.  While indices remain the master answers a request with the next
    index; once it has issued every planned index it answers [-1] to each
    request.  At the test of its second loop it leaves exactly when all its
    peers have been sent [-1], and it is out of the loop only then.  A worker
    that finds [-1] leaves its loop and neither requests nor is served again;
    on any other reply the load queue of its node grows by one entry, put
    last, of which only the index is set, to the reply; [accepted_items] of
    the node grows by one, and the worker is back at the top of its loop. *)
Theorem master_worker_protocol (peers : nat) (c : ClusterState) :
  creachable peers c ->
  (forall w c',
      master_serve w c = Some c' ->
      exists node,
        nth_error (workers c) w = Some (mkWorker WWaiting node) /\
        nth_error (workers c') w =
          Some (mkWorker
                  (WReply (if next_work_item_to_allocate c <? total
                           then next_work_item_to_allocate c else -1))
                  node) /\
        0 <= next_work_item_to_allocate c) /\
  (next_work_item_to_allocate c < total -> stopped_workers c = 0) /\
  (forall workers_done c',
      master_pc c = MDrainHead workers_done ->
      mstep c = Some c' ->
      total <= next_work_item_to_allocate c /\
      (master_pc c' = MExited <-> stopped_workers c = Z.of_nat peers) /\
      (master_pc c' = MExited \/ master_pc c' = MDrainRecv workers_done)) /\
  (master_pc c = MExited ->
   length (workers c) = peers /\
   Forall (fun wk => got_stop wk = true) (workers c)) /\
  (forall w wk c',
      nth_error (workers c) w = Some wk ->
      wstep w c = Some c' ->
      match worker_pc wk with
      | WLoopHead =>
          nth_error (workers c') w =
            Some (if below (worker_node wk)
                  then mkWorker WWaiting (worker_node wk) else wk)
      | WReply next_item =>
          if next_item =? -1
          then nth_error (workers c') w = Some (mkWorker WExited (worker_node wk))
          else
            exists node',
              nth_error (workers c') w = Some (mkWorker WLoopHead node') /\
              load_work node' =
                load_work (worker_node wk) ++
                [mkLoadWorkEntry next_item (mkInterval 0 0) (mkInterval 0 0) 0 [] []] /\
              accepted_items node' = accepted_items (worker_node wk) + 1 /\
              retired_items node' = retired_items (worker_node wk)
      | WWaiting | WExited => False
      end) /\
  (forall w wk,
      nth_error (workers c) w = Some wk ->
      worker_pc wk = WExited ->
      wstep w c = None /\ master_serve w c = None).
Proof.
  intros [schedule Hrun].
  pose proof (protocol_inv_run peers schedule _ _ (protocol_inv_initial peers) Hrun)
    as [Hlen [Hnext Hpc]].
  pose proof (stopped_bound c) as Hbound.
  split; [|split; [|split; [|split; [|split]]]].
  - intros w c' H. unfold master_serve in H.
    destruct (nth_error (workers c) w) as [[pc node]|] eqn:Ew; [|discriminate].
    destruct pc; try discriminate.
    exists node. split; [reflexivity|].
    destruct (master_pc c) eqn:Epc; try discriminate; inversion H; subst c';
      cbn [workers].
    + destruct Hpc as [Hlt _].
      rewrite (proj2 (Z.ltb_lt _ _) Hlt).
      split; [eapply nth_error_set_nth_eq; exact Ew | exact Hnext].
    + destruct Hpc as [Htot _].
      rewrite (proj2 (Z.ltb_ge _ _) Htot).
      split; [eapply nth_error_set_nth_eq; exact Ew | exact Hnext].
  - intros Hlt. destruct (master_pc c); lia.
  - intros workers_done c' Epc H. rewrite Epc in Hpc. destruct Hpc as [Htot Hd].
    unfold master_step in H. rewrite Epc in H. unfold num_nodes in *.
    destruct (workers_done <? 1 + Z.of_nat (length (workers c))) eqn:Ed;
      inversion H; subst c'; cbn [master_pc].
    + apply Z.ltb_lt in Ed. split; [exact Htot|]. split; [|right; reflexivity].
      split; [discriminate | intros Hs; lia].
    + apply Z.ltb_ge in Ed. split; [exact Htot|]. split; [|left; reflexivity].
      split; [intros _; lia | reflexivity].
  - intros Epc. rewrite Epc in Hpc. destruct Hpc as [_ Hs].
    split; [exact Hlen|]. apply filter_all.
    unfold stopped_workers in Hs. lia.
  - intros w wk c' Ew H. unfold worker_step in H. rewrite Ew in H.
    destruct (wlocal wk) as [wk'|] eqn:El; [|discriminate].
    inversion H. subst c'. cbn [workers].
    rewrite (nth_error_set_nth_eq _ _ _ wk' Ew).
    unfold worker_local_step in El.
    destruct (worker_pc wk) as [| |r|]; try discriminate.
    + destruct (below (worker_node wk)); inversion El; reflexivity.
    + destruct (r =? -1); inversion El; [reflexivity|].
      eexists. split; [reflexivity|]. repeat split.
  - intros w wk Ew Epc. split.
    + unfold worker_step. rewrite Ew. unfold worker_local_step. rewrite Epc.
      reflexivity.
    + unfold master_serve. rewrite Ew. destruct wk as [pc node]. cbn in Epc.
      subst pc. reflexivity.
Qed.

End Cluster.

Lemma drained_cluster_reachable :
  reachable 1 2 Scenario.one_item Scenario.one_entry 1 Scenario.drained_cluster.
Proof. exists Scenario.drain_schedule. reflexivity. Qed.

(** The cluster of the scenario, after the master has drained. *)
Lemma intake_gate_witness :
  Forall (fun n => accepted_items n - retired_items n <= 1 * 2)
         (nodes Scenario.drained_cluster).
Proof.
  apply Forall_forall.
  apply (intake_gate 1 2 Scenario.one_item Scenario.one_entry
                     ltac:(unfold i32_max; lia) 1 Scenario.drained_cluster).
  exists Scenario.drain_schedule. reflexivity.
Defined.

(** The cluster of the scenario, after the master has drained; and a
    cluster of a master and one worker with a plan of two items, where the
    worker has been sent index 1 and takes it. *)
Lemma master_worker_protocol_witness :
  (length (workers Scenario.drained_cluster) = 1%nat /\
   Forall (fun wk => got_stop wk = true) (workers Scenario.drained_cluster)) /\
  let c := mkCluster MLoopHead 2
             (mkNode 1 0 [mkLoadWorkEntry 0 (mkInterval 0 16) (mkInterval 0 0) 0 [] []])
             [mkWorker (WReply 1) initial_node] in
  match worker_step 1 1 0 c with
  | Some c' =>
      exists node',
        nth_error (workers c') 0 = Some (mkWorker WLoopHead node') /\
        load_work node' =
          [] ++ [mkLoadWorkEntry 1 (mkInterval 0 0) (mkInterval 0 0) 0 [] []] /\
        accepted_items node' = 0 + 1 /\
        retired_items node' = 0
  | None => False
  end.
Proof.
  split.
  - apply (master_worker_protocol 1 2 Scenario.one_item Scenario.one_entry 1
                                  Scenario.drained_cluster).
    + exists Scenario.drain_schedule. reflexivity.
    + reflexivity.
  - cbv zeta.
    destruct (worker_step 1 1 0
                (mkCluster MLoopHead 2
                   (mkNode 1 0 [mkLoadWorkEntry 0 (mkInterval 0 16) (mkInterval 0 0)
                                                0 [] []])
                   [mkWorker (WReply 1) initial_node])) as [c'|] eqn:E;
      [|discriminate E].
    assert (Hreach : reachable 1 1 Intake.two_items Intake.two_entries 1
                       (mkCluster MLoopHead 2
                          (mkNode 1 0 [mkLoadWorkEntry 0 (mkInterval 0 16)
                                                       (mkInterval 0 0) 0 [] []])
                          [mkWorker (WReply 1) initial_node])).
    { exists [MasterStep; MasterStep; MasterStep; WorkerStep 0; MasterServe 0].
      reflexivity. }
    destruct (master_worker_protocol 1 1 Intake.two_items Intake.two_entries 1 _
                                     Hreach) as [_ [_ [_ [_ [H _]]]]].
    exact (H 0%nat (mkWorker (WReply 1) initial_node) c' eq_refl E).
Defined.

End DriverFacts.

(** ** The planner for [Strided] and [Gather] sampling *)

Module SampledFacts.
Import Planner Sampled MachineIntFacts PlannerFacts.

Section StridedSampling.

Variable W : Z.
Variable stride : Z.
Hypothesis W_pos : 0 < W.
Hypothesis stride_pos : 0 < stride.
Hypothesis chunk_range : W * stride <= i32_max.

Lemma mul32_chunk : mul32 W stride = W * stride.
Proof.
  unfold mul32. apply to_i32_id. unfold in_i32, i32_min, i32_max in *. nia.
Qed.

Lemma div32_chunk (j : nat) :
  Z.of_nat j * (W * stride) <= i32_max ->
  div32 (Z.of_nat j * (W * stride)) stride = Z.of_nat j * W.
Proof.
  intros Hj. unfold div32.
  replace (Z.of_nat j * (W * stride)) with (Z.of_nat j * W * stride) by ring.
  rewrite Z.quot_mul by lia.
  apply to_i32_id. unfold in_i32, i32_min, i32_max in *. nia.
Qed.

(** The loop of one video, entered with [j] chunks done and [S n'] to do. *)
Lemma strided_video_chunks (i F : Z) (HF : 0 <= F <= i32_max) :
  forall (n' j fuel : nat) (p : Plan),
    Z.of_nat j * (W * stride) < F ->
    F <= Z.of_nat (j + S n') * (W * stride) ->
    Z.of_nat (j + n') * (W * stride) < F ->
    (S n' <= fuel)%nat ->
    exists lw',
      strided_video fuel W stride i F (Z.of_nat j * (W * stride)) p =
      Ok (mkPlan (plan_work_items p ++
                  map (strided_item W stride i F) (seq j (S n'))) lw').
Proof.
  assert (HWs : 0 < W * stride) by nia.
  pose proof mul32_chunk as Hmul. pose proof div32_chunk as Hdiv.
  set (Ws := W * stride) in *.
  induction n' as [|n' IH]; intros j fuel p Hlt Hcover Hprev Hfuel;
    (destruct fuel as [|fuel]; [lia|]);
    cbn [strided_video]; cbv zeta;
    (destruct (Z.of_nat j * Ws <? F) eqn:Hcond; [|apply Z.ltb_ge in Hcond; lia]);
    rewrite Hmul;
    rewrite sub32_id by (unfold in_i32, i32_min, i32_max in *; lia);
    rewrite (Hdiv j) by lia.
  - (* the last chunk *)
    assert (Hfta : Z.min Ws (F - Z.of_nat j * Ws) = F - Z.of_nat j * Ws) by lia.
    rewrite add32_id by (unfold in_i32, i32_min, i32_max in *; lia).
    rewrite Hfta.
    replace (Z.of_nat j * Ws + (F - Z.of_nat j * Ws)) with F by lia.
    eexists.
    destruct fuel; cbn [strided_video]; rewrite Z.ltb_irrefl;
      cbn [seq map plan_work_items]; unfold strided_item, chunk_size; fold Ws;
      rewrite Hfta;
      replace (Z.of_nat j * Ws + (F - Z.of_nat j * Ws)) with F by lia;
      reflexivity.
  - (* a full chunk, more to come *)
    assert (Hfta : Z.min Ws (F - Z.of_nat j * Ws) = Ws) by lia.
    rewrite add32_id by (unfold in_i32, i32_min, i32_max in *; lia).
    rewrite Hfta.
    replace (Z.of_nat j * Ws + Ws) with (Z.of_nat (S j) * Ws) by lia.
    match goal with
    | |- exists lw', strided_video _ _ _ _ _ _ ?p1 = _ =>
        destruct (IH (S j) fuel p1) as [lw' Hrun]; try lia
    end.
    exists lw'. rewrite Hrun. cbn [plan_work_items].
    rewrite <- app_assoc. cbn [app seq map].
    unfold strided_item at 3, chunk_size. fold Ws. rewrite Hfta.
    replace (Z.of_nat j * Ws + Ws) with (Z.of_nat (S j) * Ws) by lia.
    reflexivity.
Qed.

Lemma strided_video_from_start (i F : Z) (fuel : nat) (p : Plan) :
  0 <= F <= i32_max ->
  F <= Z.of_nat fuel ->
  exists lw',
    strided_video fuel W stride i F 0 p =
    Ok (mkPlan (plan_work_items p ++ strided_video_items W stride i F) lw').
Proof.
  intros HF Hfuel. unfold strided_video_items.
  assert (HWs : 0 < W * stride) by nia.
  destruct (chunk_count_bounds (W * stride) F ltac:(lia) ltac:(lia)) as [Hc1 Hc2].
  pose proof (chunk_count_le (W * stride) F fuel ltac:(lia) ltac:(lia)) as Hcf.
  destruct (chunk_count (W * stride) F) as [|n'] eqn:Hn.
  - exists (plan_load_work_items p).
    assert (F = 0) by lia. subst F.
    destruct fuel; cbn [strided_video]; cbn [Z.ltb Z.compare seq map];
      rewrite app_nil_r, plan_eta; reflexivity.
  - apply (strided_video_chunks i F HF n' 0%nat fuel p); cbn [Z.of_nat Nat.add]; lia.
Qed.

(** The number of items only grows. *)
Lemma strided_video_length (i F : Z) :
  forall (fuel : nat) (a : Z) (p p' : Plan),
    strided_video fuel W stride i F a p = Ok p' ->
    (length (plan_work_items p) <= length (plan_work_items p'))%nat.
Proof.
  induction fuel as [|fuel IH]; intros a p p' H; cbn [strided_video] in H;
    destruct (a <? F); try discriminate; try (inversion H; subst; lia).
  cbv zeta in H. apply IH in H. cbn [plan_work_items] in H.
  rewrite length_app in H. cbn [length] in H. lia.
Qed.

Lemma strided_entries_from_app (idx : nat) (items : list VideoWorkItem)
    (item : VideoWorkItem) :
  strided_entries_from stride idx (items ++ [item]) =
  strided_entries_from stride idx items ++
  [strided_entry stride (idx + length items) item].
Proof.
  revert idx. induction items as [|x items IH]; intros idx.
  - cbn. rewrite Nat.add_0_r. reflexivity.
  - cbn [app strided_entries_from length]. rewrite IH.
    replace (S idx + length items)%nat with (idx + S (length items))%nat by lia.
    reflexivity.
Qed.

(** Every load entry carries its position, the stride and the interval of
    its item. *)
Lemma strided_video_entries (i F : Z) :
  forall (fuel : nat) (a : Z) (p p' : Plan),
    strided_video fuel W stride i F a p = Ok p' ->
    Z.of_nat (length (plan_work_items p')) <= i32_max ->
    plan_load_work_items p = strided_entries_from stride 0 (plan_work_items p) ->
    plan_load_work_items p' = strided_entries_from stride 0 (plan_work_items p').
Proof.
  induction fuel as [|fuel IH]; intros a p p' H Hmax Hp; cbn [strided_video] in H;
    destruct (a <? F); try discriminate; try (inversion H; subst; exact Hp).
  cbv zeta in H.
  pose proof (strided_video_length _ _ _ _ _ _ H) as Hlen.
  cbn [plan_work_items] in Hlen. rewrite length_app in Hlen. cbn [length] in Hlen.
  apply IH in H; [exact H | exact Hmax |].
  cbn [plan_work_items plan_load_work_items].
  rewrite strided_entries_from_app, Hp. f_equal. f_equal.
  unfold strided_entry, last_index. cbn [item_id next_item_id Nat.add].
  rewrite length_app. cbn [length].
  rewrite to_i32_id by (unfold in_i32, i32_min, i32_max in *; lia).
  f_equal. lia.
Qed.

Lemma strided_videos_length (fuel : nat) :
  forall (videos : list VideoMetadata) (i : nat) (p p' : Plan),
    strided_videos fuel W stride i videos p = Ok p' ->
    (length (plan_work_items p) <= length (plan_work_items p'))%nat.
Proof.
  induction videos as [|meta rest IH]; intros i p p' H; cbn [strided_videos] in H.
  - inversion H. lia.
  - destruct (strided_video fuel W stride (to_i32 (Z.of_nat i)) (md_frames meta) 0 p)
      as [p1|] eqn:E; cbn [bind] in H; [|discriminate].
    apply strided_video_length in E. apply IH in H. lia.
Qed.

Lemma strided_videos_entries (fuel : nat) :
  forall (videos : list VideoMetadata) (i : nat) (p p' : Plan),
    strided_videos fuel W stride i videos p = Ok p' ->
    Z.of_nat (length (plan_work_items p')) <= i32_max ->
    plan_load_work_items p = strided_entries_from stride 0 (plan_work_items p) ->
    plan_load_work_items p' = strided_entries_from stride 0 (plan_work_items p').
Proof.
  induction videos as [|meta rest IH]; intros i p p' H Hmax Hp;
    cbn [strided_videos] in H.
  - inversion H. subst. exact Hp.
  - destruct (strided_video fuel W stride (to_i32 (Z.of_nat i)) (md_frames meta) 0 p)
      as [p1|] eqn:E; cbn [bind] in H; [|discriminate].
    pose proof (strided_videos_length _ _ _ _ _ H) as Hlen.
    eapply IH; [exact H | exact Hmax |].
    eapply strided_video_entries; [exact E | lia | exact Hp].
Qed.

Lemma strided_videos_items (fuel : nat) :
  forall (videos : list VideoMetadata) (i : nat) (p : Plan),
    forallb (frames_ok fuel) videos = true ->
    Z.of_nat (i + length videos) <= i32_max ->
    exists p',
      strided_videos fuel W stride i videos p = Ok p' /\
      plan_work_items p' = plan_work_items p ++ strided_items_from W stride i videos.
Proof.
  induction videos as [|meta rest IH]; intros i p Hok Hmax.
  - exists p. cbn. rewrite app_nil_r. split; reflexivity.
  - cbn [forallb] in Hok. apply andb_true_iff in Hok. destruct Hok as [Hm Hrest].
    unfold frames_ok in Hm.
    apply andb_true_iff in Hm. destruct Hm as [Hm Hm3].
    apply andb_true_iff in Hm. destruct Hm as [Hm1 Hm2].
    apply Z.leb_le in Hm1, Hm2, Hm3.
    cbn [strided_videos strided_items_from length] in *.
    rewrite to_i32_id by (unfold in_i32, i32_min, i32_max in *; lia).
    destruct (strided_video_from_start (Z.of_nat i) (md_frames meta) fuel p
                ltac:(lia) Hm3) as [lw' Hrun].
    rewrite Hrun. cbn [bind].
    destruct (IH (S i) (mkPlan (plan_work_items p ++
                                strided_video_items W stride (Z.of_nat i)
                                                    (md_frames meta)) lw')
                 Hrest ltac:(lia)) as [p' [Hrun' Hitems]].
    exists p'. split; [exact Hrun'|].
    rewrite Hitems. cbn [plan_work_items]. rewrite app_assoc. reflexivity.
Qed.

(** A chunk holds at most [W * stride] frames, and the rows before an item
    are one for every [stride] frames before it. *)
Lemma strided_items_from_chunks :
  forall (videos : list VideoMetadata) (i : nat),
    forallb (fun meta => 0 <=? md_frames meta) videos = true ->
    Forall (fun item =>
              0 < next_item_id item - item_id item <= W * stride /\
              item_id item = rows_from_start item * stride)
           (strided_items_from W stride i videos).
Proof.
  assert (HWs : 0 < W * stride) by nia.
  induction videos as [|meta rest IH]; intros i Hok; [constructor|].
  cbn [forallb] in Hok. apply andb_true_iff in Hok. destruct Hok as [Hm Hrest].
  apply Z.leb_le in Hm.
  cbn [strided_items_from]. apply Forall_app. split; [|apply IH; exact Hrest].
  unfold strided_video_items. apply Forall_map. apply Forall_forall. intros k Hk.
  apply in_seq in Hk.
  destruct (chunk_count_bounds (W * stride) (md_frames meta) HWs Hm) as [_ Hc].
  assert (Hkw : Z.of_nat k * (W * stride) < md_frames meta) by nia.
  pose proof (chunk_size_bounds (W * stride) (md_frames meta) k HWs Hkw).
  unfold strided_item. cbn [item_id next_item_id rows_from_start].
  split; [lia | ring].
Qed.

End StridedSampling.

(** X1.  For [Strided] sampling the planner cuts every video into
    consecutive chunks of at most [WORK_ITEM_SIZE * stride] frames: item [k]
    of a video starts at frame [k * WORK_ITEM_SIZE * stride] and has
    [rows_from_start = k * WORK_ITEM_SIZE] (this is [strided_item]), so that
    [item_id = rows_from_start * stride]; the load entry at the position of
    an item carries that position, the stride and the interval
    [[item_id, next_item_id)].  The stride is at least 1, a chunk, the frame
    counts, the number of videos and the number of items are within [i32],
    and [fuel] covers the longest video. *)
Theorem plan_strided_chunks (fuel : nat) (W stride : Z)
    (videos : list VideoMetadata) :
  0 < W -> 0 < stride -> W * stride <= i32_max ->
  forallb (frames_ok fuel) videos = true ->
  Z.of_nat (length videos) <= i32_max ->
  Z.of_nat (length (strided_items_from W stride 0 videos)) <= i32_max ->
  exists p,
    plan_strided fuel W stride videos = Ok p /\
    plan_work_items p = strided_items_from W stride 0 videos /\
    plan_load_work_items p = strided_entries_from stride 0 (plan_work_items p) /\
    Forall (fun item =>
              0 < next_item_id item - item_id item <= W * stride /\
              item_id item = rows_from_start item * stride)
           (plan_work_items p).
Proof.
  intros HW Hs HWs Hok Hvideos Hitems. unfold plan_strided.
  assert (Hcount : Z.of_nat (0 + length videos) <= i32_max) by exact Hvideos.
  destruct (strided_videos_items W stride HW Hs HWs fuel videos 0 empty_plan
                                 Hok Hcount) as [p [Hrun Hp]].
  cbn [empty_plan plan_work_items app] in Hp.
  exists p. split; [exact Hrun|]. split; [exact Hp|]. split.
  - eapply (strided_videos_entries W stride);
      [exact Hrun | rewrite Hp; exact Hitems | reflexivity].
  - rewrite Hp. apply (strided_items_from_chunks W stride HW Hs).
    rewrite forallb_forall in Hok. apply forallb_forall. intros meta Hin.
    specialize (Hok meta Hin). unfold frames_ok in Hok.
    apply andb_true_iff in Hok. destruct Hok as [Hok _].
    apply andb_true_iff in Hok. destruct Hok as [Hok _]. exact Hok.
Qed.

(** Two videos, of 100 and of 24 frames, every third frame in chunks of 8
    rows. *)
Lemma plan_strided_chunks_witness :
  exists p,
    plan_strided 100 8 3 [mkVideoMetadata 640 480 100 [0; 50] [0; 5000];
                          mkVideoMetadata 640 480 24 [0] [0]] = Ok p /\
    plan_work_items p =
      strided_items_from 8 3 0 [mkVideoMetadata 640 480 100 [0; 50] [0; 5000];
                                mkVideoMetadata 640 480 24 [0] [0]] /\
    plan_load_work_items p = strided_entries_from 3 0 (plan_work_items p) /\
    Forall (fun item =>
              0 < next_item_id item - item_id item <= 8 * 3 /\
              item_id item = rows_from_start item * 3)
           (plan_work_items p).
Proof.
  apply (plan_strided_chunks 100 8 3 [mkVideoMetadata 640 480 100 [0; 50] [0; 5000];
                                      mkVideoMetadata 640 480 24 [0] [0]]).
  - lia.
  - lia.
  - unfold i32_max. lia.
  - reflexivity.
  - unfold i32_max. simpl. lia.
  - unfold i32_max. vm_compute. discriminate.
Defined.

Section GatherSampling.

Variable W : Z.
Hypothesis W_pos : 0 < W.

(** The loop of one sample, entered with [j] chunks done and [S n'] to
    do. *)
Lemma gather_sample_chunks (v : Z) (frames : list Z)
    (HF : Z.of_nat (length frames) <= i32_max) :
  forall (n' j fuel : nat) (p : Plan),
    Z.of_nat j * W < Z.of_nat (length frames) ->
    Z.of_nat (length frames) <= Z.of_nat (j + S n') * W ->
    Z.of_nat (j + n') * W < Z.of_nat (length frames) ->
    (S n' <= fuel)%nat ->
    exists lw',
      gather_sample fuel W v frames (Z.of_nat (length frames)) (Z.of_nat j * W) p =
      Ok (mkPlan (plan_work_items p ++
                  map (all_item W v (Z.of_nat (length frames))) (seq j (S n'))) lw').
Proof.
  set (F := Z.of_nat (length frames)) in *.
  unfold i32_max in *.
  induction n' as [|n' IH]; intros j fuel p Hlt Hcover Hprev Hfuel;
    (destruct fuel as [|fuel]; [lia|]);
    cbn [gather_sample]; cbv zeta;
    (destruct (Z.of_nat j * W <? F) eqn:Hcond; [|apply Z.ltb_ge in Hcond; lia]);
    rewrite sub32_id by (unfold in_i32, i32_min, i32_max; lia).
  - (* the last chunk *)
    assert (Hfta : Z.min W (F - Z.of_nat j * W) = F - Z.of_nat j * W) by lia.
    rewrite add32_id by (unfold in_i32, i32_min, i32_max; lia).
    rewrite Hfta.
    replace (Z.of_nat j * W + (F - Z.of_nat j * W)) with F by lia.
    unfold vec_range. fold F.
    replace ((0 <=? Z.of_nat j * W) && (Z.of_nat j * W <=? F) && (F <=? F))
      with true by (symmetry; rewrite !andb_true_iff, !Z.leb_le; lia).
    cbn [bind].
    eexists.
    destruct fuel; cbn [gather_sample]; rewrite Z.ltb_irrefl;
      cbn [seq map plan_work_items]; unfold all_item, chunk_size; rewrite Hfta;
      replace (Z.of_nat j * W + (F - Z.of_nat j * W)) with F by lia;
      reflexivity.
  - (* a full chunk, more to come *)
    assert (Hfta : Z.min W (F - Z.of_nat j * W) = W) by lia.
    rewrite add32_id by (unfold in_i32, i32_min, i32_max; lia).
    rewrite Hfta.
    unfold vec_range. fold F.
    replace ((0 <=? Z.of_nat j * W) && (Z.of_nat j * W <=? Z.of_nat j * W + W) &&
             (Z.of_nat j * W + W <=? F))
      with true by (symmetry; rewrite !andb_true_iff, !Z.leb_le; lia).
    cbn [bind].
    replace (Z.of_nat j * W + W) with (Z.of_nat (S j) * W) by lia.
    match goal with
    | |- exists lw', gather_sample _ _ _ _ _ _ ?p1 = _ =>
        destruct (IH (S j) fuel p1) as [lw' Hrun]; try lia
    end.
    exists lw'. rewrite Hrun. cbn [plan_work_items].
    rewrite <- app_assoc. cbn [app seq map].
    unfold all_item at 3, chunk_size. rewrite Hfta.
    replace (Z.of_nat j * W + W) with (Z.of_nat (S j) * W) by lia.
    reflexivity.
Qed.

Lemma gather_sample_from_start (v : Z) (frames : list Z) (fuel : nat) (p : Plan) :
  Z.of_nat (length frames) <= i32_max ->
  (length frames <= fuel)%nat ->
  exists lw',
    gather_sample fuel W v frames (Z.of_nat (length frames)) 0 p =
    Ok (mkPlan (plan_work_items p ++ video_items W v (Z.of_nat (length frames))) lw').
Proof.
  intros HF Hfuel. unfold video_items.
  destruct (chunk_count_bounds W (Z.of_nat (length frames)) ltac:(lia) ltac:(lia))
    as [Hc1 Hc2].
  pose proof (chunk_count_le W (Z.of_nat (length frames)) fuel ltac:(lia) ltac:(lia))
    as Hcf.
  destruct (chunk_count W (Z.of_nat (length frames))) as [|n'] eqn:Hn.
  - exists (plan_load_work_items p).
    assert (Hz : Z.of_nat (length frames) = 0) by lia. rewrite Hz.
    destruct fuel; cbn [gather_sample]; cbn [Z.ltb Z.compare seq map];
      rewrite app_nil_r, plan_eta; reflexivity.
  - apply (gather_sample_chunks v frames HF n' 0%nat fuel p);
      cbn [Z.of_nat Nat.add]; lia.
Qed.

End GatherSampling.

Lemma gather_sample_length (W v : Z) (frames : list Z) (F : Z) :
  forall (fuel : nat) (a : Z) (p p' : Plan),
    gather_sample fuel W v frames F a p = Ok p' ->
    (length (plan_work_items p) <= length (plan_work_items p'))%nat.
Proof.
  induction fuel as [|fuel IH]; intros a p p' H; cbn [gather_sample] in H;
    destruct (a <? F); try discriminate; try (inversion H; subst; lia).
  cbv zeta in H.
  destruct (vec_range frames a (a + Z.min W (sub32 F a))) as [points|];
    cbn [bind] in H; [|discriminate].
  apply IH in H. cbn [plan_work_items] in H.
  rewrite length_app in H. cbn [length] in H. lia.
Qed.

Lemma gather_sample_indexed (W v : Z) (frames : list Z) (F : Z) :
  forall (fuel : nat) (a : Z) (p p' : Plan),
    gather_sample fuel W v frames F a p = Ok p' ->
    Z.of_nat (length (plan_work_items p')) <= i32_max ->
    indexed p -> indexed p'.
Proof.
  induction fuel as [|fuel IH]; intros a p p' H Hmax Hp; cbn [gather_sample] in H;
    destruct (a <? F); try discriminate; try (inversion H; subst; exact Hp).
  cbv zeta in H.
  destruct (vec_range frames a (a + Z.min W (sub32 F a))) as [points|];
    cbn [bind] in H; [|discriminate].
  pose proof (gather_sample_length _ _ _ _ _ _ _ _ H) as Hlen.
  cbn [plan_work_items] in Hlen. rewrite length_app in Hlen. cbn [length] in Hlen.
  apply IH in H; [exact H | exact Hmax |].
  unfold indexed in *. cbn [plan_work_items plan_load_work_items].
  rewrite map_app, Hp, length_app. cbn [length map lw_work_item_index].
  rewrite Nat.add_1_r, indices_S. f_equal. f_equal.
  unfold last_index. rewrite length_app. cbn [length].
  rewrite to_i32_id by (unfold in_i32, i32_min, i32_max in *; lia).
  lia.
Qed.

Lemma gather_sample_points (W v : Z) (frames : list Z)
    (HF : Z.of_nat (length frames) <= i32_max) :
  forall (fuel : nat) (a : Z) (p p' : Plan),
    gather_sample fuel W v frames (Z.of_nat (length frames)) a p = Ok p' ->
    0 <= a ->
    points_of p' = points_of p ++ skipn (Z.to_nat a) frames.
Proof.
  induction fuel as [|fuel IH]; intros a p p' H Ha; cbn [gather_sample] in H;
    destruct (a <? Z.of_nat (length frames)) eqn:Hcond; try discriminate;
    try (apply Z.ltb_ge in Hcond; inversion H; subst p';
         rewrite skipn_all2 by lia; rewrite app_nil_r; reflexivity).
  - cbv zeta in H. apply Z.ltb_lt in Hcond.
    rewrite sub32_id in H by (unfold in_i32, i32_min, i32_max in *; lia).
    unfold vec_range in H.
    destruct ((0 <=? a) &&
              (a <=? a + Z.min W (Z.of_nat (length frames) - a)) &&
              (a + Z.min W (Z.of_nat (length frames) - a) <=?
               Z.of_nat (length frames))) eqn:Hc;
      cbn [bind] in H; [|discriminate].
    apply andb_true_iff in Hc. destruct Hc as [Hc Hc3].
    apply andb_true_iff in Hc. destruct Hc as [_ Hc2].
    apply Z.leb_le in Hc2, Hc3.
    set (fta := Z.min W (Z.of_nat (length frames) - a)) in *.
    rewrite add32_id in H by (unfold in_i32, i32_min, i32_max in *; lia).
    apply IH in H; [|lia].
    rewrite H. unfold points_of. cbn [plan_load_work_items].
    rewrite map_app, concat_app. cbn [map concat lw_gather_points].
    rewrite app_nil_r, <- app_assoc. f_equal.
    replace (a + fta - a) with fta by lia.
    replace (Z.to_nat (a + fta)) with (Z.to_nat fta + Z.to_nat a)%nat by lia.
    rewrite <- skipn_skipn. apply firstn_skipn.
Qed.

Lemma gather_sample_chunked (W v : Z) (frames : list Z) (HW : 0 < W)
    (HF : Z.of_nat (length frames) <= i32_max) :
  forall (fuel : nat) (a : Z) (p p' : Plan),
    gather_sample fuel W v frames (Z.of_nat (length frames)) a p = Ok p' ->
    0 <= a ->
    chunked W p -> chunked W p'.
Proof.
  induction fuel as [|fuel IH]; intros a p p' H Ha Hp; cbn [gather_sample] in H;
    destruct (a <? Z.of_nat (length frames)) eqn:Hcond; try discriminate;
    try (inversion H; subst p'; exact Hp).
  - cbv zeta in H. apply Z.ltb_lt in Hcond.
    rewrite sub32_id in H by (unfold in_i32, i32_min, i32_max in *; lia).
    set (fta := Z.min W (Z.of_nat (length frames) - a)) in *.
    destruct (vec_range frames a (a + fta)) as [points|] eqn:Hr;
      cbn [bind] in H; [|discriminate].
    rewrite add32_id in H by (unfold in_i32, i32_min, i32_max in *; lia).
    apply IH in H; [exact H | lia |].
    unfold chunked in *. cbn [plan_load_work_items].
    apply Forall_app. split; [exact Hp|].
    constructor; [|constructor]. cbn [lw_gather_points].
    unfold vec_range in Hr.
    destruct ((0 <=? a) && (a <=? a + fta) &&
              (a + fta <=? Z.of_nat (length frames))); [|discriminate].
    inversion Hr. rewrite length_firstn, length_skipn. lia.
Qed.

Lemma gather_samples_length (fuel : nat) (W : Z) :
  forall (samples : list PointSamples) (p p' : Plan),
    gather_samples fuel W samples p = Ok p' ->
    (length (plan_work_items p) <= length (plan_work_items p'))%nat.
Proof.
  induction samples as [|sm rest IH]; intros p p' H; cbn [gather_samples] in H.
  - inversion H. lia.
  - cbv zeta in H.
    match type of H with
    | bind ?r _ = _ => destruct r as [p1|] eqn:E; cbn [bind] in H; [|discriminate]
    end.
    apply gather_sample_length in E. apply IH in H. lia.
Qed.

(** The loop over the samples. *)
Lemma gather_samples_plan (fuel : nat) (W : Z) (HW : 0 < W) :
  forall (samples : list PointSamples) (p : Plan),
    forallb (points_ok fuel) samples = true ->
    exists p',
      gather_samples fuel W samples p = Ok p' /\
      plan_work_items p' = plan_work_items p ++ gather_items W samples /\
      points_of p' = points_of p ++ flat_map ps_frames samples /\
      (chunked W p -> chunked W p') /\
      (Z.of_nat (length (plan_work_items p')) <= i32_max -> indexed p -> indexed p').
Proof.
  induction samples as [|sm rest IH]; intros p Hok.
  - exists p. cbn. rewrite !app_nil_r. repeat split; auto.
  - cbn [forallb] in Hok. apply andb_true_iff in Hok. destruct Hok as [Hm Hrest].
    unfold points_ok in Hm. apply andb_true_iff in Hm. destruct Hm as [Hm1 Hm2].
    apply Z.leb_le in Hm1. apply Nat.leb_le in Hm2.
    cbn [gather_samples]. cbv zeta.
    rewrite to_i32_id by (unfold in_i32, i32_min, i32_max in *; lia).
    destruct (gather_sample_from_start W HW (ps_video_index sm) (ps_frames sm)
                                       fuel p Hm1 Hm2) as [lw' Hrun].
    rewrite Hrun. cbn [bind].
    destruct (IH (mkPlan (plan_work_items p ++
                          video_items W (ps_video_index sm)
                                      (Z.of_nat (length (ps_frames sm)))) lw')
                 Hrest) as [p' [Hrun' [Hitems [Hpoints [Hchunked Hindexed]]]]].
    exists p'. split; [exact Hrun'|].
    pose proof (gather_samples_length _ _ _ _ _ Hrun') as Hlen.
    split; [|split; [|split]].
    + rewrite Hitems. cbn [plan_work_items gather_items flat_map].
      rewrite app_assoc. reflexivity.
    + rewrite Hpoints.
      rewrite (gather_sample_points W _ _ Hm1 _ _ _ _ Hrun) by lia.
      cbn [Z.to_nat skipn flat_map]. rewrite app_assoc. reflexivity.
    + intros Hp. apply Hchunked.
      exact (gather_sample_chunked W _ _ HW Hm1 _ _ _ _ Hrun ltac:(lia) Hp).
    + intros Hmax Hp. apply Hindexed; [exact Hmax|].
      apply (gather_sample_indexed _ _ _ _ _ _ _ _ Hrun); [lia | exact Hp].
Qed.

(** X2.  For [Gather] sampling the planner cuts the points of every sample,
    in the order given and with repetitions kept, into entries of at most
    [WORK_ITEM_SIZE] points: the points of the load entries, taken together,
    are the points of the samples; the items of a sample of [n] points are
    those of a video of [n] frames under [All] sampling, with the sample's
    video index; and the entries carry their positions.  The number of points
    of a sample and the number of items are within [i32], and [fuel] covers
    the longest sample. *)
Theorem plan_gather_points (fuel : nat) (W : Z) (samples : list PointSamples) :
  0 < W ->
  forallb (points_ok fuel) samples = true ->
  Z.of_nat (length (gather_items W samples)) <= i32_max ->
  exists p,
    plan_gather fuel W samples = Ok p /\
    plan_work_items p = gather_items W samples /\
    map lw_work_item_index (plan_load_work_items p) =
      indices (length (plan_work_items p)) /\
    concat (map lw_gather_points (plan_load_work_items p)) =
      flat_map ps_frames samples /\
    Forall (fun e => 0 < Z.of_nat (length (lw_gather_points e)) <= W)
           (plan_load_work_items p).
Proof.
  intros HW Hok Hitems. unfold plan_gather.
  destruct (gather_samples_plan fuel W HW samples empty_plan Hok)
    as [p [Hrun [Hp [Hpoints [Hchunked Hindexed]]]]].
  cbn [empty_plan plan_work_items app] in Hp.
  exists p. split; [exact Hrun|]. split; [exact Hp|]. split; [|split].
  - apply Hindexed; [rewrite Hp; exact Hitems | reflexivity].
  - exact Hpoints.
  - apply Hchunked. constructor.
Qed.

(** Five points of video 1, one of them twice, and one point of video 0, in
    entries of at most two points. *)
Lemma plan_gather_points_witness :
  exists p,
    plan_gather 5 2 [mkPointSamples 1 [7; 3; 3; 90; 12]; mkPointSamples 0 [4]] = Ok p /\
    plan_work_items p =
      gather_items 2 [mkPointSamples 1 [7; 3; 3; 90; 12]; mkPointSamples 0 [4]] /\
    map lw_work_item_index (plan_load_work_items p) =
      indices (length (plan_work_items p)) /\
    concat (map lw_gather_points (plan_load_work_items p)) =
      flat_map ps_frames [mkPointSamples 1 [7; 3; 3; 90; 12]; mkPointSamples 0 [4]] /\
    Forall (fun e => 0 < Z.of_nat (length (lw_gather_points e)) <= 2)
           (plan_load_work_items p).
Proof.
  apply (plan_gather_points 5 2 [mkPointSamples 1 [7; 3; 3; 90; 12];
                                 mkPointSamples 0 [4]]).
  - lia.
  - reflexivity.
  - unfold i32_max. vm_compute. discriminate.
Defined.

End SampledFacts.

(** ** Resets over a plan handled in order *)

Module ResetFacts.
Import Engine Planner MachineIntFacts PlannerFacts.

Section InOrder.

Variable St : Type.
Variable md_of : VideoWorkItem -> VideoMetadata.
Variable W : Z.
Hypothesis W_pos : 0 < W.

Lemma configure_reset_tracks (th : EvalThread St) (item : VideoWorkItem)
    (md : VideoMetadata) :
  last_video_index (fst (configure_reset th item md)) = video_index item /\
  last_next_item_id (fst (configure_reset th item md)) = to_i32 (next_item_id item).
Proof.
  unfold configure_reset.
  destruct (prepare_evaluators (needs_configure item th) (needs_reset item th) md 0
                               (evaluators th)) as [evs calls].
  split; reflexivity.
Qed.

(** The items [j, j + n') of video [i], handled by a worker that has just
    finished item [j - 1] of the video, or that has not yet seen the video
    when [j = 0]. *)
Lemma video_resets (i F : Z) (HF : 0 <= F <= i32_max) (rest : list VideoWorkItem)
    (Hrest : forall th' : EvalThread St,
        last_video_index th' < i + 1 ->
        resets_in_order th' md_of rest = map (fun item => item_id item =? 0) rest) :
  forall (n' j : nat) (th : EvalThread St),
    (j + n' <= chunk_count W F)%nat ->
    last_video_index th < i + 1 ->
    ((0 < n')%nat ->
     (j = 0%nat /\ last_video_index th < i) \/
     ((0 < j)%nat /\ last_video_index th = i /\
      last_next_item_id th = Z.of_nat j * W)) ->
    resets_in_order th md_of (map (all_item W i F) (seq j n') ++ rest) =
    map (fun item => item_id item =? 0) (map (all_item W i F) (seq j n') ++ rest).
Proof.
  destruct (chunk_count_bounds W F W_pos ltac:(lia)) as [_ Hc].
  induction n' as [|n' IH]; intros j th Hn Hlvi Hth.
  - cbn [seq map app]. apply Hrest. exact Hlvi.
  - cbn [seq map app resets_in_order]. f_equal.
    + unfold needs_reset, all_item. cbn [video_index item_id].
      destruct (Hth ltac:(lia)) as [[Hj Hlt] | [Hj [Hv Hnext]]].
      * subst j. cbn [Z.of_nat Z.mul].
        destruct (i =? last_video_index th) eqn:E; [apply Z.eqb_eq in E; lia|].
        reflexivity.
      * rewrite Hv, Hnext, !Z.eqb_refl. cbn [andb negb].
        symmetry. apply Z.eqb_neq. nia.
    + destruct (configure_reset_tracks th (all_item W i F j)
                                       (md_of (all_item W i F j))) as [Hv Hnext].
      apply IH; [lia | rewrite Hv; cbn [all_item video_index]; lia |].
      intros Hmore. right. split; [lia|]. split; [exact Hv|].
      rewrite Hnext. unfold all_item, chunk_size. cbn [next_item_id].
      assert (Hfull : Z.of_nat (S j) * W < F) by nia.
      rewrite Z.min_l by lia.
      rewrite to_i32_id by (unfold in_i32, i32_min, i32_max in *; lia).
      lia.
Qed.

Lemma videos_resets :
  forall (videos : list VideoMetadata) (i : nat) (th : EvalThread St),
    forallb (fun meta => (0 <=? md_frames meta) && (md_frames meta <=? i32_max))
            videos = true ->
    last_video_index th < Z.of_nat i ->
    resets_in_order th md_of (all_items_from W i videos) =
    map (fun item => item_id item =? 0) (all_items_from W i videos).
Proof.
  induction videos as [|meta rest IH]; intros i th Hok Hlvi; [reflexivity|].
  cbn [forallb] in Hok. apply andb_true_iff in Hok. destruct Hok as [Hm Hrest].
  apply andb_true_iff in Hm. destruct Hm as [Hm1 Hm2]. apply Z.leb_le in Hm1, Hm2.
  cbn [all_items_from]. unfold video_items.
  apply video_resets; [lia | | lia | lia |].
  - intros th' Hth'. apply IH; [exact Hrest | lia].
  - intros _. left. split; [reflexivity | exact Hlvi].
Qed.

End InOrder.

(** X3.  A worker that handles the items of an [All] plan in plan order
    resets its evaluators exactly on the first item of every video (the items
    with [item_id = 0]) and on no other item.  [WORK_ITEM_SIZE] is positive
    and the frame counts are non-negative [i32] values. *)
Theorem all_plan_resets_at_video_starts (St : Type) (evs : list (Evaluator St))
    (md_of : VideoWorkItem -> VideoMetadata) (W : Z) (videos : list VideoMetadata) :
  0 < W ->
  forallb (fun meta => (0 <=? md_frames meta) && (md_frames meta <=? i32_max))
          videos = true ->
  resets_in_order (initial_thread evs) md_of (all_items W videos) =
  map (fun item => item_id item =? 0) (all_items W videos).
Proof.
  intros HW Hok. unfold all_items.
  apply videos_resets; [exact HW | exact Hok | cbn; lia].
Qed.

(** Two videos, of 40 and of 16 frames, in chunks of 16: the resets fall on
    the first and on the fourth item. *)
Lemma all_plan_resets_at_video_starts_witness :
  resets_in_order (initial_thread [Scenario.copy_evaluator CPU 0])
                  (fun _ => Scenario.s5_video)
                  (all_items 16 [mkVideoMetadata 640 480 40 [0; 20] [0; 5000];
                                 mkVideoMetadata 640 480 16 [0] [0]]) =
  map (fun item => item_id item =? 0)
      (all_items 16 [mkVideoMetadata 640 480 40 [0; 20] [0; 5000];
                     mkVideoMetadata 640 480 16 [0] [0]]).
Proof.
  apply (all_plan_resets_at_video_starts unit [Scenario.copy_evaluator CPU 0]
           (fun _ => Scenario.s5_video) 16
           [mkVideoMetadata 640 480 40 [0; 20] [0; 5000];
            mkVideoMetadata 640 480 16 [0] [0]]).
  - lia.
  - reflexivity.
Defined.

End ResetFacts.

(** ** The factory groups *)

Module GroupFacts.
Import Groups.

Section Factories.

Variable Factory : Type.
Variable can_overlap : Factory -> bool.

Lemma vec_range_middle (A : Type) (a z : A) (mid : list A) :
  vec_range (a :: mid ++ [z]) 1 (Z.of_nat (length (a :: mid ++ [z])) - 1) = Ok mid.
Proof.
  unfold vec_range. cbn [length]. rewrite length_app. cbn [length].
  replace ((0 <=? 1) && (1 <=? Z.of_nat (S (length mid + 1)) - 1) &&
           (Z.of_nat (S (length mid + 1)) - 1 <=? Z.of_nat (S (length mid + 1))))
    with true by (symmetry; rewrite !andb_true_iff, !Z.leb_le; lia).
  replace (Z.to_nat (Z.of_nat (S (length mid + 1)) - 1 - 1)) with (length mid) by lia.
  change (Z.to_nat 1) with 1%nat. cbn [skipn].
  rewrite firstn_app, firstn_all, Nat.sub_diag. cbn [firstn].
  rewrite app_nil_r. reflexivity.
Qed.

Lemma vec_range_front (A : Type) (a z : A) (mid : list A) :
  vec_range (a :: mid ++ [z]) 0 (Z.of_nat (length (a :: mid ++ [z])) - 1) =
  Ok (a :: mid).
Proof.
  unfold vec_range. cbn [length]. rewrite length_app. cbn [length].
  replace ((0 <=? 0) && (0 <=? Z.of_nat (S (length mid + 1)) - 1) &&
           (Z.of_nat (S (length mid + 1)) - 1 <=? Z.of_nat (S (length mid + 1))))
    with true by (symmetry; rewrite !andb_true_iff, !Z.leb_le; lia).
  replace (Z.to_nat (Z.of_nat (S (length mid + 1)) - 1 - 0))
    with (S (length mid)) by lia.
  change (Z.to_nat 0) with 0%nat. cbn [skipn firstn].
  rewrite firstn_app, firstn_all, Nat.sub_diag. cbn [firstn].
  rewrite app_nil_r. reflexivity.
Qed.

Lemma vec_get_back (A : Type) (a z : A) (mid : list A) :
  vec_get (a :: mid ++ [z]) (length (a :: mid ++ [z]) - 1) = Ok z.
Proof.
  unfold vec_get. cbn [length]. rewrite length_app. cbn [length].
  replace (S (length mid + 1) - 1)%nat with (S (length mid)) by lia.
  cbn [nth_error]. rewrite nth_error_app2 by lia.
  rewrite Nat.sub_diag. reflexivity.
Qed.

(** The groups of a chain of at least two evaluators. *)
Lemma factory_groups_chain (a z : Factory) (mid : list Factory) :
  factory_groups can_overlap (a :: mid ++ [z]) =
  Ok (match can_overlap a, can_overlap z with
      | true, true => [[a]; mid; [z]]
      | true, false => [[a]; mid ++ [z]]
      | false, true => [a :: mid; [z]]
      | false, false => [a :: mid ++ [z]]
      end).
Proof.
  unfold factory_groups.
  rewrite vec_range_middle, vec_range_front, vec_get_back.
  assert (Hsize : (1 <? Z.of_nat (length (a :: mid ++ [z]))) = true).
  { apply Z.ltb_lt. cbn [length]. rewrite length_app. cbn [length]. lia. }
  rewrite Hsize.
  cbn [vec_get nth_error bind andb].
  destruct (can_overlap a), (can_overlap z); reflexivity.
Qed.

(** The groups of a single evaluator. *)
Lemma factory_groups_single (a : Factory) :
  factory_groups can_overlap [a] =
  if can_overlap a then Err OutOfBounds else Ok [[a]].
Proof.
  unfold factory_groups. cbn [vec_get nth_error bind length].
  destruct (can_overlap a); reflexivity.
Qed.

Lemma chain_shape (fs : list Factory) :
  fs = [] \/ (exists a, fs = [a]) \/ (exists a mid z, fs = a :: mid ++ [z]).
Proof.
  destruct fs as [|a fs']; [left; reflexivity|]. right.
  destruct fs' as [|b fs'']; [left; exists a; reflexivity|]. right.
  assert (Hne : b :: fs'' <> []) by discriminate.
  destruct (exists_last Hne) as [mid [z Hz]].
  exists a, mid, z. rewrite Hz. reflexivity.
Qed.

End Factories.

(** X4.  The factory groups are the evaluator chain cut into at most three
    consecutive pieces: taken together, in order, the groups are the chain,
    nothing dropped and nothing repeated; a first evaluator that can overlap is
    a group of its own, and so is a last one. *)
Theorem factory_groups_cover (Factory : Type) (can_overlap : Factory -> bool)
    (fs : list Factory) (gs : list (list Factory)) :
  factory_groups can_overlap fs = Ok gs ->
  concat gs = fs /\
  (1 <= length gs <= 3)%nat /\
  (forall front rest,
      fs = front :: rest -> can_overlap front = true ->
      exists gs', gs = [front] :: gs') /\
  (forall before back,
      fs = before ++ [back] -> can_overlap back = true ->
      exists gs', gs = gs' ++ [[back]]).
Proof.
  intros H.
  destruct (chain_shape Factory fs) as [Hfs | [[a Hfs] | [a [mid [z Hfs]]]]]; subst fs.
  - discriminate.
  - rewrite factory_groups_single in H.
    destruct (can_overlap a) eqn:Ha; [discriminate|]. inversion H. subst gs.
    split; [reflexivity|]. split; [cbn; lia|]. split.
    + intros front rest E Hf. inversion E. subst. congruence.
    + intros before back E Hb.
      destruct before as [|b before].
      * inversion E. subst. congruence.
      * inversion E. destruct before; discriminate.
  - rewrite factory_groups_chain in H. inversion H. subst gs. clear H.
    split; [|split; [|split]].
    + destruct (can_overlap a), (can_overlap z); cbn [concat app];
        rewrite ?app_nil_r; reflexivity.
    + destruct (can_overlap a), (can_overlap z); cbn; lia.
    + intros front rest E Hf. inversion E. subst. rewrite Hf.
      destruct (can_overlap z); eexists; reflexivity.
    + intros before back E Hb.
      change (a :: mid ++ [z]) with ((a :: mid) ++ [z]) in E.
      apply app_inj_tail in E. destruct E as [_ E]. subst back. rewrite Hb.
      destruct (can_overlap a).
      * exists [[a]; mid]. reflexivity.
      * exists [a :: mid]. reflexivity.
Qed.

(** A decoder and an encoder that can overlap around a network that
    cannot. *)
Lemma factory_groups_cover_witness :
  let fs := [("decoder"%string, true); ("net"%string, false);
             ("encoder"%string, true)] in
  let gs := [[("decoder"%string, true)]; [("net"%string, false)];
             [("encoder"%string, true)]] in
  concat gs = fs /\
  (1 <= length gs <= 3)%nat /\
  (forall front rest,
      fs = front :: rest -> snd front = true -> exists gs', gs = [front] :: gs') /\
  (forall before back,
      fs = before ++ [back] -> snd back = true -> exists gs', gs = gs' ++ [[back]]).
Proof.
  exact (factory_groups_cover (string * bool) snd
           [("decoder"%string, true); ("net"%string, false);
            ("encoder"%string, true)]
           [[("decoder"%string, true)]; [("net"%string, false)];
            [("encoder"%string, true)]]
           eq_refl).
Defined.

(** X5.  The grouping is undefined (a vector is read or sliced outside its
    size) exactly for an empty chain and for a chain of a single evaluator
    that can overlap; every other chain is grouped. *)
Theorem factory_groups_undefined (Factory : Type) (can_overlap : Factory -> bool)
    (fs : list Factory) :
  (factory_groups can_overlap fs = Err OutOfBounds <->
   fs = [] \/ exists a, fs = [a] /\ can_overlap a = true) /\
  (forall f, factory_groups can_overlap fs = Err f -> f = OutOfBounds).
Proof.
  destruct (chain_shape Factory fs) as [Hfs | [[a Hfs] | [a [mid [z Hfs]]]]]; subst fs.
  - split; [|intros f H; inversion H; reflexivity].
    split; [intros _; left; reflexivity | intros _; reflexivity].
  - rewrite factory_groups_single.
    destruct (can_overlap a) eqn:Ha.
    + split; [|intros f H; inversion H; reflexivity].
      split; [intros _; right; exists a; split; [reflexivity | exact Ha]
             | intros _; reflexivity].
    + split; [|intros f H; discriminate].
      split; [intros H; discriminate|].
      intros [H | [b [H Hb]]]; [discriminate|].
      inversion H. subst b. congruence.
  - rewrite factory_groups_chain.
    split; [|intros f H; discriminate].
    split; [intros H; discriminate|].
    intros [H | [b [H Hb]]]; [discriminate|].
    inversion H. destruct mid; discriminate.
Qed.

(** X6.  A group without evaluators arises in exactly one case: a chain of
    two evaluators that can both overlap, whose middle group is empty (the
    worker of a group asserts that it has evaluators). *)
Theorem factory_groups_empty_group (Factory : Type) (can_overlap : Factory -> bool)
    (fs : list Factory) (gs : list (list Factory)) :
  factory_groups can_overlap fs = Ok gs ->
  (In [] gs <->
   exists a z, fs = [a; z] /\ can_overlap a = true /\ can_overlap z = true).
Proof.
  intros H.
  destruct (chain_shape Factory fs) as [Hfs | [[a Hfs] | [a [mid [z Hfs]]]]]; subst fs.
  - discriminate.
  - rewrite factory_groups_single in H.
    destruct (can_overlap a) eqn:Ha; [discriminate|]. inversion H. subst gs.
    split.
    + intros [Hin | []]. discriminate.
    + intros [b [y [E _]]]. discriminate.
  - rewrite factory_groups_chain in H. inversion H. subst gs. clear H.
    split.
    + intros Hin.
      destruct (can_overlap a) eqn:Ha, (can_overlap z) eqn:Hz; cbn [In] in Hin.
      * destruct Hin as [Hin | [Hin | [Hin | []]]]; try discriminate.
        subst mid. exists a, z. auto.
      * destruct Hin as [Hin | [Hin | []]]; try discriminate.
        destruct mid; discriminate.
      * destruct Hin as [Hin | [Hin | []]]; discriminate.
      * destruct Hin as [Hin | []]. discriminate.
    + intros [b [y [E [Hb Hy]]]].
      destruct mid as [|m mid].
      * cbn [app] in E. inversion E. subst b y. rewrite Hb, Hy.
        right. left. reflexivity.
      * inversion E. destruct mid; discriminate.
Qed.

(** A decoder and an encoder that can both overlap, and nothing between
    them. *)
Lemma factory_groups_empty_group_witness :
  In [] [[("decoder"%string, true)]; []; [("encoder"%string, true)]] <->
  exists a z : string * bool,
    [("decoder"%string, true); ("encoder"%string, true)] = [a; z] /\
    snd a = true /\ snd z = true.
Proof.
  exact (factory_groups_empty_group (string * bool) snd
           [("decoder"%string, true); ("encoder"%string, true)]
           [[("decoder"%string, true)]; []; [("encoder"%string, true)]]
           eq_refl).
Defined.

End GroupFacts.

(** ** The load worker *)

Module LoadFacts.
Import Keyframes Load LoadWorker KeyframeFacts.

Lemma mapM_Forall2 {A B : Type} (f : A -> Result B) (P : A -> Prop)
    (R : A -> B -> Prop) (l : list A) :
  (forall a, P a -> exists b, f a = Ok b /\ R a b) ->
  Forall P l ->
  exists bs, mapM f l = Ok bs /\ Forall2 R l bs.
Proof.
  intros Hf Hl. induction Hl as [|a l Ha Hl IH].
  - exists []. split; [reflexivity | constructor].
  - destruct (Hf a Ha) as [b [Hb Hr]]. destruct IH as [bs [Hbs Hrs]].
    exists (b :: bs). cbn [mapM]. rewrite Hb, Hbs.
    split; [reflexivity | constructor; assumption].
Qed.

Lemma combine_map {A B C : Type} (f : A -> B) (g : A -> C) (l : list A) :
  combine (map f l) (map g l) = map (fun x => (f x, g x)) l.
Proof. induction l as [|x l IH]; [reflexivity|]. cbn. rewrite IH. reflexivity. Qed.

Lemma nth_last_app (l : list Z) (x : Z) : nth (length l) (l ++ [x]) 0 = x.
Proof. rewrite app_nth2 by lia. rewrite Nat.sub_diag. reflexivity. Qed.

(** The read for an interval of a video, on the lists extended with the
    frame count and the file size. *)
Lemma read_interval_extended (md : VideoMetadata) (file_size : Z) (iv : Interval) :
  hd_error (md_keyframe_positions md) = Some 0 ->
  increasingb (extended_positions md) = true ->
  length (md_keyframe_byte_offsets md) = length (md_keyframe_positions md) ->
  increasingb (extended_offsets md file_size) = true ->
  offsets_okb (extended_offsets md file_size) = true ->
  0 <= ival_start iv < ival_end iv ->
  ival_end iv <= md_frames md ->
  exists il,
    read_interval (extended_positions md) (extended_offsets md file_size) iv = Ok il /\
    0 <= read_pos (il_request il) /\
    0 < read_size (il_request il) /\
    read_pos (il_request il) + read_size (il_request il) <= file_size /\
    il_start_keyframe il <= ival_start iv /\
    ival_end iv <= il_end_keyframe il.
Proof.
  intros Hhd Hinc Hlen Hbinc Hbok Hse He.
  unfold extended_positions, extended_offsets in *.
  set (kp := md_keyframe_positions md ++ [md_frames md]) in *.
  set (bo := md_keyframe_byte_offsets md ++ [file_size]) in *.
  assert (Hlen' : length bo = length kp).
  { unfold bo, kp. rewrite !length_app. cbn [length]. lia. }
  assert (H0 : nth 0 kp 0 <= ival_start iv).
  { unfold kp. destruct (md_keyframe_positions md) as [|k0 t]; [discriminate|].
    cbn [hd_error] in Hhd. inversion Hhd. subst k0. cbn [app nth]. lia. }
  assert (Hex : existsb (Z.leb (ival_end iv)) kp = true).
  { unfold kp. rewrite existsb_app. apply orb_true_iff. right.
    cbn [existsb]. apply orb_true_iff. left. apply Z.leb_le. exact He. }
  destruct (find_keyframe_indices_bracket kp (ival_start iv) (ival_end iv)
              ltac:(lia) Hinc H0 Hex)
    as [k1 [k2 [Hf [Hk [H1 [_ [H3 _]]]]]]].
  pose proof (offsets_okb_nth bo k1 Hbok ltac:(lia)) as Hb1.
  pose proof (offsets_okb_nth bo k2 Hbok ltac:(lia)) as Hb2.
  pose proof (increasingb_nth bo k1 k2 Hbinc ltac:(lia)) as Hb12.
  assert (Hlast : nth k2 bo 0 <= file_size).
  { pose proof (increasingb_nth_le bo k2 (length (md_keyframe_byte_offsets md)) Hbinc)
      as Hle.
    unfold bo at 3 in Hle. rewrite nth_last_app in Hle. apply Hle.
    unfold bo, kp in *. rewrite !length_app in *. cbn [length] in *. lia. }
  eexists. unfold read_interval. rewrite Hf. cbn [bind].
  rewrite (vec_get_nth bo k1) by lia. cbn [bind].
  rewrite (vec_get_nth bo k2) by lia. cbn [bind].
  rewrite !to_u64_id by lia.
  rewrite u64_sub_id by lia.
  rewrite (vec_get_nth kp k1) by lia. cbn [bind].
  rewrite (vec_get_nth kp k2) by lia. cbn [bind].
  split; [reflexivity|].
  cbn [il_request il_start_keyframe il_end_keyframe read_pos read_size].
  lia.
Qed.

(** X7.  For a video whose keyframe positions start at 0 and increase up to
    the frame count, with as many byte offsets, increasing up to the file
    size, the load worker builds an entry for every load entry whose
    intervals lie within the video, whatever the sampling mode: the entry has
    one row per interval; the bytes read for a row lie within the file and
    are not empty; the decode arguments are those created for the interval,
    with a start keyframe at or before the interval's first frame and an end
    keyframe at or after its end. *)
Theorem load_entry_within_video (sampling : Sampling) (warmup_count sizeof_args : Z)
    (md : VideoMetadata) (file_size : Z) (lw : LoadWorkEntry) :
  hd_error (md_keyframe_positions md) = Some 0 ->
  increasingb (extended_positions md) = true ->
  length (md_keyframe_byte_offsets md) = length (md_keyframe_positions md) ->
  increasingb (extended_offsets md file_size) = true ->
  offsets_okb (extended_offsets md file_size) = true ->
  Forall (fun ia => 0 <= ival_start (fst ia) < ival_end (fst ia) /\
                    ival_end (fst ia) <= md_frames md)
         (intervals_and_args sampling warmup_count lw) ->
  exists e,
    load_entry sampling warmup_count sizeof_args (extended_positions md)
               (extended_offsets md file_size) lw = Ok e /\
    work_item_index e = lw_work_item_index lw /\
    buffer_type e = CPU /\
    video_decode_item e = true /\
    length (buffers e) = 2%nat /\
    Forall2 (row_ok file_size) (intervals_and_args sampling warmup_count lw)
            (loaded_rows e).
Proof.
  intros Hhd Hinc Hlen Hbinc Hbok Hivs.
  unfold load_entry.
  match goal with
  | |- exists e, bind (mapM ?f ?l) _ = _ /\ _ =>
      destruct (mapM_Forall2 f
                  (fun ia => 0 <= ival_start (fst ia) < ival_end (fst ia) /\
                             ival_end (fst ia) <= md_frames md)
                  (row_ok file_size) l) as [rows [Hrows Hok]];
        [ | exact Hivs | ]
  end.
  - intros [iv a] [Hse He]. cbn [fst snd] in *.
    destruct (read_interval_extended md file_size iv Hhd Hinc Hlen Hbinc Hbok Hse He)
      as [il [Hil [Hpos [Hsize [Hend [Hs Hk]]]]]].
    rewrite Hil. cbn [bind]. eexists. split; [reflexivity|].
    exists (read_pos (il_request il)), (read_size (il_request il)),
           (il_start_keyframe il), (il_end_keyframe il).
    cbn [fst snd]. repeat split; assumption || lia.
  - rewrite Hrows. cbn [bind]. eexists. split; [reflexivity|].
    cbn [work_item_index buffer_type video_decode_item buffers length].
    repeat split.
    unfold loaded_rows. cbn [buffers buffer_sizes nth].
    rewrite !combine_map.
    rewrite (map_ext _ (fun r => r)), map_id; [exact Hok|].
    intros [[b0 sz] b1]. reflexivity.
Qed.

(** Scenario S5's video (keyframes at frames 0 and 20 of 40, 9000 bytes) and
    the interval [[16, 32)), which straddles the second keyframe. *)
Lemma load_entry_within_video_witness :
  exists e,
    load_entry All 8 64 (extended_positions Scenario.s5_video)
               (extended_offsets Scenario.s5_video 9000)
               (mkLoadWorkEntry 1 (mkInterval 16 32) (mkInterval 0 0) 0 [] []) = Ok e /\
    work_item_index e = 1 /\
    buffer_type e = CPU /\
    video_decode_item e = true /\
    length (buffers e) = 2%nat /\
    Forall2 (row_ok 9000)
            (intervals_and_args All 8
               (mkLoadWorkEntry 1 (mkInterval 16 32) (mkInterval 0 0) 0 [] []))
            (loaded_rows e).
Proof.
  apply (load_entry_within_video All 8 64 Scenario.s5_video 9000
           (mkLoadWorkEntry 1 (mkInterval 16 32) (mkInterval 0 0) 0 [] [])).
  - reflexivity.
  - reflexivity.
  - reflexivity.
  - reflexivity.
  - reflexivity.
  - constructor; [|constructor]. cbn. lia.
Defined.

Lemma vec_get_z_map {A B : Type} (f : A -> B) (l : list A) (i : Z) :
  vec_get_z (map f l) i = (a <- vec_get_z l i ;; Ok (f a)).
Proof.
  unfold vec_get_z, vec_get. destruct (i <? 0); [reflexivity|].
  rewrite nth_error_map. destruct (nth_error l (Z.to_nat i)); reflexivity.
Qed.

Lemma vec_get_z_In {A : Type} (l : list A) (i : Z) (a : A) :
  vec_get_z l i = Ok a -> In a l.
Proof.
  unfold vec_get_z, vec_get. destruct (i <? 0); [discriminate|].
  destruct (nth_error l (Z.to_nat i)) eqn:E; [|discriminate].
  intros H. inversion H. subst. eapply nth_error_In. exact E.
Qed.

(** After [open_video] the worker holds the lists of the video at [path]. *)
Lemma open_video_lists (metadata_of : string -> VideoMetadata)
    (file_size_of : string -> Z) (th : LoadThread) (path : string) :
  coherent metadata_of file_size_of th ->
  path <> EmptyString ->
  let th1 := open_video file_size_of th path (metadata_of path) in
  last_video_path th1 = path /\
  keyframe_positions th1 = extended_positions (metadata_of path) /\
  keyframe_byte_offsets th1 =
    extended_offsets (metadata_of path) (file_size_of path).
Proof.
  intros Hc Hpath. unfold open_video.
  destruct (String.eqb path (last_video_path th)) eqn:E;
    cbn [last_video_path keyframe_positions keyframe_byte_offsets].
  - apply String.eqb_eq in E. subst path.
    destruct Hc as [Hc | [Hkp Hbo]]; [contradiction|].
    split; [reflexivity|]. split; assumption.
  - split; [reflexivity|]. split; reflexivity.
Qed.

Lemma load_video_thread_fresh (args : LoadThreadArgs)
    (metadata_of : string -> VideoMetadata) (file_size_of : string -> Z)
    (sizeof_args : Z) :
  la_metadata args = map metadata_of (la_video_paths args) ->
  ~ In EmptyString (la_video_paths args) ->
  forall (load_work : list LoadWorkEntry) (th : LoadThread),
    coherent metadata_of file_size_of th ->
    ('(_, pushed) <- load_video_thread args file_size_of sizeof_args th load_work ;;
     Ok pushed) =
    mapM (load_fresh args file_size_of sizeof_args) (before_sentinel load_work).
Proof.
  intros Hmd Hpaths.
  induction load_work as [|e rest IH]; intros th Hc; [reflexivity|].
  cbn [load_video_thread before_sentinel].
  destruct (lw_work_item_index e =? -1); [reflexivity|].
  cbn [mapM]. unfold load_fresh at 1.
  destruct (vec_get_z (la_work_items args) (lw_work_item_index e)) as [item|];
    cbn [bind]; [|reflexivity].
  rewrite Hmd, vec_get_z_map.
  destruct (vec_get_z (la_video_paths args) (video_index item)) as [path|] eqn:Ep;
    cbn [bind]; [|reflexivity].
  assert (Hpath : path <> EmptyString).
  { intros ->. apply Hpaths. eapply vec_get_z_In. exact Ep. }
  destruct (open_video_lists metadata_of file_size_of th path Hc Hpath)
    as [Hlast [Hkp Hbo]].
  rewrite Hkp, Hbo.
  destruct (load_entry (la_sampling args) (la_warmup_count args) sizeof_args
                       (extended_positions (metadata_of path))
                       (extended_offsets (metadata_of path) (file_size_of path)) e)
    as [entry|]; cbn [bind]; [|reflexivity].
  rewrite <- (IH (open_video file_size_of th path (metadata_of path))).
  - destruct (load_video_thread args file_size_of sizeof_args
                (open_video file_size_of th path (metadata_of path)) rest)
      as [[th' pushed]|]; reflexivity.
  - right. rewrite Hlast. split; assumption.
Qed.

(** X8.  The load worker rebuilds its keyframe lists only when the path of
    the video changes.  When the metadata handed to it is the one stored for
    each path and no path is empty, this changes nothing: for every queue of
    entries, up to the sentinel, it pushes (or fails on) what building every
    entry from the metadata of the entry's own video gives. *)
Theorem load_video_thread_cache (args : LoadThreadArgs)
    (metadata_of : string -> VideoMetadata) (file_size_of : string -> Z)
    (sizeof_args : Z) (load_work : list LoadWorkEntry) :
  la_metadata args = map metadata_of (la_video_paths args) ->
  ~ In EmptyString (la_video_paths args) ->
  ('(_, pushed) <- load_video_thread args file_size_of sizeof_args
                                     initial_load_thread load_work ;;
   Ok pushed) =
  mapM (load_fresh args file_size_of sizeof_args) (before_sentinel load_work).
Proof.
  intros Hmd Hpaths.
  apply (load_video_thread_fresh args metadata_of file_size_of sizeof_args Hmd Hpaths).
  left. reflexivity.
Qed.

(** The worker on the queue of the two videos: the lists are rebuilt for the
    first and for the fourth entry only. *)
Lemma load_video_thread_cache_witness :
  ('(_, pushed) <- load_video_thread two_videos stored_size 64
                                     initial_load_thread two_videos_queue ;;
   Ok pushed) =
  mapM (load_fresh two_videos stored_size 64) (before_sentinel two_videos_queue).
Proof.
  apply (load_video_thread_cache two_videos stored_metadata stored_size 64
                                 two_videos_queue).
  - reflexivity.
  - intros [H | [H | []]]; discriminate.
Defined.

End LoadFacts.

(** ** The indices handed out by the intake loops *)

Module IntakeFacts.
Import Driver Intake DriverFacts.

Lemma flat_map_set_nth_same {A B : Type} (f : A -> list B) (l : list A) (i : nat)
    (x y : A) :
  nth_error l i = Some x -> f y = f x -> flat_map f (set_nth l i y) = flat_map f l.
Proof.
  revert i. induction l as [|a l IH]; intros i Hx Hf; [destruct i; discriminate|].
  destruct i as [|i]; cbn [nth_error set_nth flat_map] in *.
  - inversion Hx. subst a. rewrite Hf. reflexivity.
  - rewrite (IH i Hx Hf). reflexivity.
Qed.

Lemma flat_map_set_nth_gain {A B : Type} (f : A -> list B) (l : list A) (i : nat)
    (x y : A) (b : B) :
  nth_error l i = Some x -> f y = f x ++ [b] ->
  Permutation (flat_map f (set_nth l i y)) (flat_map f l ++ [b]).
Proof.
  revert i. induction l as [|a l IH]; intros i Hx Hf; [destruct i; discriminate|].
  destruct i as [|i]; cbn [nth_error set_nth flat_map] in *.
  - inversion Hx. subst a. rewrite Hf, <- !app_assoc.
    apply Permutation_app_head. apply Permutation_app_comm.
  - rewrite <- app_assoc. apply Permutation_app_head. exact (IH i Hx Hf).
Qed.

Lemma filter_full {A : Type} (f : A -> bool) (l : list A) :
  length (filter f l) = length l -> Forall (fun a => f a = true) l.
Proof.
  induction l as [|a l IH]; intros H; [constructor|].
  cbn [filter] in H. pose proof (filter_length_bound f l) as Hb.
  destruct (f a) eqn:E; cbn [length] in H; [|lia].
  constructor; [exact E | apply IH; lia].
Qed.

Lemma pushed_push (n : Node) (entry : LoadWorkEntry) :
  pushed (push_entry n entry) = pushed n ++ [lw_work_item_index entry].
Proof. unfold pushed, push_entry. cbn [load_work]. apply map_app. Qed.

Section Cluster.

Variable PUS_PER_NODE : Z.
Variable TASKS_IN_QUEUE_PER_PU : Z.
Variable work_items : list VideoWorkItem.
Variable load_work_items : list LoadWorkEntry.

Local Abbreviation wlocal := (worker_local_step PUS_PER_NODE TASKS_IN_QUEUE_PER_PU).
Local Abbreviation cstep :=
  (step PUS_PER_NODE TASKS_IN_QUEUE_PER_PU work_items load_work_items).
Local Abbreviation crun :=
  (run PUS_PER_NODE TASKS_IN_QUEUE_PER_PU work_items load_work_items).
Local Abbreviation creachable :=
  (reachable PUS_PER_NODE TASKS_IN_QUEUE_PER_PU work_items load_work_items).
Local Abbreviation total := (num_work_items work_items).
Local Abbreviation protocol_inv := (Driver.protocol_inv work_items).

(** A step of a worker node's driver moves an index from the reply to the
    queue, or leaves both alone. *)
Lemma worker_local_step_issued (wk wk' : Worker) :
  wlocal wk = Some wk' -> worker_issued wk' = worker_issued wk.
Proof.
  unfold worker_local_step, worker_issued, in_flight. intros H.
  destruct (worker_pc wk) as [| |r|] eqn:Epc; try discriminate.
  - destruct (below_threshold PUS_PER_NODE TASKS_IN_QUEUE_PER_PU (worker_node wk));
      inversion H; subst wk'; cbn [worker_pc worker_node];
      [reflexivity | rewrite Epc; reflexivity].
  - destruct (r =? -1) eqn:Er; inversion H; subst wk'; cbn [worker_pc worker_node].
    + reflexivity.
    + rewrite pushed_push. cbn [Planner.blank_load_entry lw_work_item_index].
      rewrite app_nil_r. reflexivity.
Qed.

(** The entries a worker node pushes are blank. *)
Lemma worker_local_step_blank (wk wk' : Worker) :
  wlocal wk = Some wk' ->
  Forall blank (load_work (worker_node wk)) ->
  Forall blank (load_work (worker_node wk')).
Proof.
  unfold worker_local_step. intros H Hb.
  destruct (worker_pc wk) as [| |r|] eqn:Epc; try discriminate.
  - destruct (below_threshold PUS_PER_NODE TASKS_IN_QUEUE_PER_PU (worker_node wk));
      inversion H; subst wk'; exact Hb.
  - destruct (r =? -1); inversion H; subst wk'; cbn [worker_node]; [exact Hb|].
    unfold push_entry. cbn [load_work]. apply Forall_app. split; [exact Hb|].
    constructor; [reflexivity | constructor].
Qed.

Lemma blank_inv_step (a : Action) (c c' : ClusterState) :
  blank_inv c -> cstep a c = Some c' -> blank_inv c'.
Proof.
  unfold blank_inv. intros Hblank H.
  destruct a as [|w|w|node]; cbn [step] in H.
  - unfold master_step in H. destruct (master_pc c); try discriminate.
    + destruct (next_work_item_to_allocate c <? total);
        [destruct (below_threshold PUS_PER_NODE TASKS_IN_QUEUE_PER_PU (master_node c));
         [|destruct (1 <? num_nodes c)]|];
        inversion H; subst c'; exact Hblank.
    + destruct (nth_error load_work_items (Z.to_nat (next_work_item_to_allocate c)));
        [|discriminate].
      inversion H. subst c'. exact Hblank.
    + destruct (workers_done <? num_nodes c); inversion H; subst c'; exact Hblank.
  - unfold master_serve in H.
    destruct (nth_error (workers c) w) as [[pc node]|] eqn:Ew; [|discriminate].
    destruct pc; try discriminate.
    pose proof (Forall_nth_error _ _ _ _ Hblank Ew) as Hnode.
    destruct (master_pc c); try discriminate; inversion H; subst c';
      cbn [workers]; apply Forall_set_nth; assumption.
  - unfold worker_step in H.
    destruct (nth_error (workers c) w) as [wk|] eqn:Ew; [|discriminate].
    destruct (wlocal wk) as [wk'|] eqn:El; [|discriminate].
    inversion H. subst c'. cbn [workers].
    apply Forall_set_nth; [exact Hblank|].
    eapply worker_local_step_blank; [exact El|].
    exact (Forall_nth_error _ _ _ _ Hblank Ew).
  - unfold retire_step in H. destruct node as [|w].
    + destruct (can_retire (master_node c)); [|discriminate].
      inversion H. subst c'. exact Hblank.
    + destruct (nth_error (workers c) w) as [wk|] eqn:Ew; [|discriminate].
      destruct (can_retire (worker_node wk)); [|discriminate].
      inversion H. subst c'. cbn [workers].
      apply Forall_set_nth; [exact Hblank|].
      exact (Forall_nth_error _ _ _ _ Hblank Ew).
Qed.

Lemma blank_inv_run (schedule : list Action) :
  forall c c', blank_inv c -> crun schedule c = Some c' -> blank_inv c'.
Proof.
  induction schedule as [|a rest IH]; intros c c' Hc H; cbn [run] in H.
  - inversion H. subst. exact Hc.
  - destruct (cstep a c) as [c1|] eqn:E; [|discriminate].
    eapply IH; [|exact H]. eapply blank_inv_step; eassumption.
Qed.

Lemma blank_inv_reachable (peers : nat) (c : ClusterState) :
  creachable peers c -> blank_inv c.
Proof.
  intros [schedule H]. eapply blank_inv_run; [|exact H].
  unfold blank_inv, initial_cluster. cbn [workers]. clear H.
  induction peers as [|peers IH]; cbn [repeat]; constructor; [constructor | exact IH].
Qed.

Lemma got_stop_issued (ws : list Worker) :
  Forall (fun wk => got_stop wk = true) ws ->
  flat_map worker_issued ws = flat_map pushed (map worker_node ws).
Proof.
  induction 1 as [|wk ws Hwk Hws IH]; [reflexivity|].
  cbn [flat_map map]. rewrite IH. f_equal.
  unfold worker_issued, in_flight, got_stop in *.
  destruct (worker_pc wk) as [| |r|]; try discriminate.
  - rewrite Hwk. apply app_nil_r.
  - apply app_nil_r.
Qed.

Hypothesis plan_positioned : positioned load_work_items.

Local Abbreviation issue_inv := (Intake.issue_inv work_items).

Lemma indices_next (next : Z) :
  0 <= next ->
  Planner.indices (Z.to_nat (next + 1)) = Planner.indices (Z.to_nat next) ++ [next].
Proof.
  intros H. replace (Z.to_nat (next + 1)) with (S (Z.to_nat next)) by lia.
  rewrite PlannerFacts.indices_S. f_equal. f_equal. lia.
Qed.

Lemma issue_inv_initial (peers : nat) : issue_inv (initial_cluster peers).
Proof.
  unfold Intake.issue_inv, initial_cluster, issued.
  cbn [next_work_item_to_allocate master_node workers].
  split; [lia|].
  cbn [Z.to_nat Planner.indices seq map pushed initial_node load_work app].
  induction peers as [|peers IH]; [constructor|].
  cbn [repeat flat_map]. exact IH.
Qed.

Lemma issue_inv_step (peers : nat) (a : Action) (c c' : ClusterState) :
  protocol_inv peers c -> issue_inv c -> cstep a c = Some c' -> issue_inv c'.
Proof.
  intros [Hlen [Hnext Hpc]] [Hmax Hperm] H.
  destruct a as [|w|w|node]; cbn [step] in H.
  - unfold master_step in H. destruct (master_pc c) eqn:Epc; try discriminate.
    + destruct (next_work_item_to_allocate c <? total);
        [destruct (below_threshold PUS_PER_NODE TASKS_IN_QUEUE_PER_PU (master_node c));
         [|destruct (1 <? num_nodes c)]|];
        inversion H; subst c'; unfold Intake.issue_inv, issued;
        cbn [next_work_item_to_allocate master_node workers];
        (split; [exact Hmax | exact Hperm]).
    + destruct (nth_error load_work_items (Z.to_nat (next_work_item_to_allocate c)))
        as [entry|] eqn:Ee; [|discriminate].
      inversion H. subst c'. unfold Intake.issue_inv, issued in *.
      cbn [next_work_item_to_allocate master_node workers].
      destruct Hpc as [Hlt _].
      split; [lia|].
      rewrite pushed_push, (plan_positioned _ _ Ee), Z2Nat.id by lia.
      rewrite indices_next by lia.
      rewrite <- app_assoc.
      eapply Permutation_trans;
        [apply Permutation_app_head; apply Permutation_app_comm|].
      rewrite app_assoc. apply Permutation_app_tail. exact Hperm.
    + destruct (workers_done <? num_nodes c); inversion H; subst c';
        unfold Intake.issue_inv, issued;
        cbn [next_work_item_to_allocate master_node workers];
        (split; [exact Hmax | exact Hperm]).
  - unfold master_serve in H.
    destruct (nth_error (workers c) w) as [[pc node]|] eqn:Ew; [|discriminate].
    destruct pc; try discriminate.
    destruct (master_pc c) eqn:Epc; try discriminate; inversion H; subst c';
      unfold Intake.issue_inv, issued in *;
      cbn [next_work_item_to_allocate master_node workers].
    + destruct Hpc as [Hlt _].
      split; [lia|].
      rewrite indices_next by lia.
      eapply Permutation_trans;
        [apply Permutation_app_head;
         apply (flat_map_set_nth_gain worker_issued _ _ _ _
                                      (next_work_item_to_allocate c) Ew)|].
      * unfold worker_issued, in_flight. cbn [worker_pc worker_node].
        destruct (next_work_item_to_allocate c =? -1) eqn:En;
          [apply Z.eqb_eq in En; lia|].
        rewrite app_nil_r. reflexivity.
      * rewrite app_assoc. apply Permutation_app_tail. exact Hperm.
    + split; [exact Hmax|].
      rewrite (flat_map_set_nth_same worker_issued _ _ _ _ Ew); [exact Hperm|].
      reflexivity.
  - unfold worker_step in H.
    destruct (nth_error (workers c) w) as [wk|] eqn:Ew; [|discriminate].
    destruct (wlocal wk) as [wk'|] eqn:El; [|discriminate].
    inversion H. subst c'. unfold Intake.issue_inv, issued in *.
    cbn [next_work_item_to_allocate master_node workers].
    split; [exact Hmax|].
    rewrite (flat_map_set_nth_same worker_issued _ _ _ _ Ew); [exact Hperm|].
    apply worker_local_step_issued. exact El.
  - unfold retire_step in H. destruct node as [|w].
    + destruct (can_retire (master_node c)); [|discriminate].
      inversion H. subst c'. unfold Intake.issue_inv, issued in *.
      cbn [next_work_item_to_allocate master_node workers].
      split; [exact Hmax | exact Hperm].
    + destruct (nth_error (workers c) w) as [wk|] eqn:Ew; [|discriminate].
      destruct (can_retire (worker_node wk)); [|discriminate].
      inversion H. subst c'. unfold Intake.issue_inv, issued in *.
      cbn [next_work_item_to_allocate master_node workers].
      split; [exact Hmax|].
      rewrite (flat_map_set_nth_same worker_issued _ _ _ _ Ew); [exact Hperm|].
      reflexivity.
Qed.

Lemma issue_inv_run (peers : nat) (schedule : list Action) :
  forall c c', protocol_inv peers c -> issue_inv c -> crun schedule c = Some c' ->
               protocol_inv peers c' /\ issue_inv c'.
Proof.
  induction schedule as [|a rest IH]; intros c c' Hp Hc H; cbn [run] in H.
  - inversion H. subst. split; assumption.
  - destruct (cstep a c) as [c1|] eqn:E; [|discriminate].
    eapply IH; [| |exact H].
    + eapply protocol_inv_step; eassumption.
    + eapply issue_inv_step; eassumption.
Qed.

Lemma issue_inv_reachable (peers : nat) (c : ClusterState) :
  creachable peers c -> protocol_inv peers c /\ issue_inv c.
Proof.
  intros [schedule H].
  eapply issue_inv_run; [| |exact H].
  - apply protocol_inv_initial.
  - apply issue_inv_initial.
Qed.

(** X9.  The intake loops hand out every planned index exactly once.  At
    any moment the indices on the load queues of the nodes together with those
    in replies a worker node has not yet acted on are
    [0 .. next_work_item_to_allocate - 1], without repetition, and the counter
    never passes the number of items; once the master has left its loops, the
    load queues of the nodes hold, between them, each index of the plan once.
    The entries of the plan carry their positions and the items can be counted
    in an [i32]. *)
Theorem every_index_issued_once (peers : nat) (c : ClusterState) :
  Z.of_nat (length work_items) <= i32_max ->
  creachable peers c ->
  Permutation (issued c)
              (Planner.indices (Z.to_nat (next_work_item_to_allocate c))) /\
  0 <= next_work_item_to_allocate c <= Z.of_nat (length work_items) /\
  (master_pc c = MExited ->
   Permutation (flat_map pushed (nodes c)) (Planner.indices (length work_items))).
Proof.
  intros Hcount Hreach.
  destruct (issue_inv_reachable peers c Hreach) as [[Hlen [Hnext Hpc]] [Hmax Hperm]].
  assert (Htotal : total = Z.of_nat (length work_items)).
  { unfold num_work_items. apply to_i32_id.
    unfold in_i32, i32_min, i32_max in *. lia. }
  rewrite Htotal in *.
  split; [exact Hperm|]. split; [lia|].
  intros Hexit. rewrite Hexit in Hpc. destruct Hpc as [Hall Hstopped].
  assert (Hn : next_work_item_to_allocate c = Z.of_nat (length work_items)) by lia.
  rewrite Hn, Nat2Z.id in Hperm.
  unfold issued in Hperm. unfold nodes. cbn [flat_map].
  rewrite <- got_stop_issued; [exact Hperm|].
  apply filter_full. unfold stopped_workers in Hstopped. lia.
Qed.

(** X10.  A worker node pushes entries of which only the index is set: the
    interval, the stride, the points and the sequences of the planned entry
    are not looked up.  Under [Gather] and [SequenceGather] sampling the load
    worker therefore builds, for every entry of a worker node, an entry
    without rows. *)
Theorem worker_node_entries_blank (peers : nat) (c : ClusterState) :
  creachable peers c ->
  Forall (fun wk =>
            Forall (fun entry =>
                      blank entry /\
                      forall (sampling : Sampling) (warmup_count sizeof_args : Z)
                             (kp bo : list Z),
                        sampling = Gather \/ sampling = SequenceGather ->
                        Load.load_entry sampling warmup_count sizeof_args kp bo entry =
                        Ok (mkEvalWorkEntry (lw_work_item_index entry)
                              ["video"%string; "video_args"%string]
                              [[]; []] [[]; []] CPU 0 true))
                   (load_work (worker_node wk)))
         (workers c).
Proof.
  intros Hreach. pose proof (blank_inv_reachable peers c Hreach) as Hblank.
  unfold blank_inv in Hblank.
  eapply Forall_impl; [|exact Hblank]. intros wk Hwk. cbn beta in Hwk.
  eapply Forall_impl; [|exact Hwk]. intros entry Hentry. cbn beta in Hentry.
  split; [exact Hentry|].
  intros sampling warmup_count sizeof_args kp bo Hs.
  rewrite Hentry. destruct Hs as [-> | ->]; reflexivity.
Qed.

End Cluster.

Lemma shared_cluster_reachable :
  reachable 1 1 two_items two_entries 1 shared_cluster.
Proof. exists shared_schedule. reflexivity. Qed.

Lemma two_entries_positioned : positioned two_entries.
Proof.
  intros i entry H. destruct i as [|[|i]]; cbn in H.
  - inversion H. reflexivity.
  - inversion H. reflexivity.
  - destruct i; discriminate.
Qed.

(** The cluster in which the master took item 0 and the worker node item
    1. *)
Lemma every_index_issued_once_witness :
  Permutation (issued shared_cluster)
              (Planner.indices (Z.to_nat (next_work_item_to_allocate shared_cluster))) /\
  0 <= next_work_item_to_allocate shared_cluster <= Z.of_nat (length two_items) /\
  (master_pc shared_cluster = MExited ->
   Permutation (flat_map pushed (nodes shared_cluster))
               (Planner.indices (length two_items))).
Proof.
  apply (every_index_issued_once 1 1 two_items two_entries two_entries_positioned
                                 1 shared_cluster).
  - unfold i32_max. cbn. lia.
  - exact shared_cluster_reachable.
Defined.

Lemma worker_node_entries_blank_witness :
  Forall (fun wk =>
            Forall (fun entry =>
                      blank entry /\
                      forall (sampling : Sampling) (warmup_count sizeof_args : Z)
                             (kp bo : list Z),
                        sampling = Gather \/ sampling = SequenceGather ->
                        Load.load_entry sampling warmup_count sizeof_args kp bo entry =
                        Ok (mkEvalWorkEntry (lw_work_item_index entry)
                              ["video"%string; "video_args"%string]
                              [[]; []] [[]; []] CPU 0 true))
                   (load_work (worker_node wk)))
         (workers shared_cluster).
Proof.
  exact (worker_node_entries_blank 1 1 two_items two_entries 1 shared_cluster
                                   shared_cluster_reachable).
Defined.

End IntakeFacts.

(** ** The keyframe search on any list *)

Module BracketFacts.
Import Keyframes Bracket KeyframeFacts.

Lemma find_start_some (s : Z) (l : list Z) :
  forall (i r : nat),
    find_start s l i = Some r ->
    exists m, (m < length l)%nat /\ r = (i + m - 1)%nat /\
              s < nth m l 0 /\ forall m', (m' < m)%nat -> nth m' l 0 <= s.
Proof.
  induction l as [|k l IH]; intros i r H; [discriminate|].
  cbn [find_start] in H. destruct (s <? k) eqn:Hk.
  - apply Z.ltb_lt in Hk. inversion H. exists 0%nat. cbn [length nth].
    repeat split; try lia.
  - apply Z.ltb_ge in Hk. destruct (IH _ _ H) as [m [Hm [Hr [Hgt Hle]]]].
    exists (S m). cbn [length nth]. repeat split; try lia.
    intros m' Hm'. destruct m' as [|m']; [exact Hk | apply Hle; lia].
Qed.

Lemma find_end_result (e : Z) (l : list Z) :
  forall i : nat,
    (exists m, (m < length l)%nat /\ find_end e l i = (i + m)%nat /\
               e <= nth m l 0 /\ forall m', (m' < m)%nat -> nth m' l 0 < e) \/
    (find_end e l i = 0%nat /\ forall m, (m < length l)%nat -> nth m l 0 < e).
Proof.
  induction l as [|k l IH]; intros i.
  - right. split; [reflexivity|]. intros m Hm. simpl in Hm. lia.
  - cbn [find_end]. destruct (e <=? k) eqn:Hk.
    + apply Z.leb_le in Hk. left. exists 0%nat. cbn [length nth].
      repeat split; try lia.
    + apply Z.leb_gt in Hk.
      destruct (IH (S i)) as [[m [Hm [Hf [Hge Hlt]]]] | [Hf Hall]].
      * left. exists (S m). cbn [length nth]. repeat split; try lia.
        intros m' Hm'. destruct m' as [|m']; [exact Hk | apply Hlt; lia].
      * right. split; [exact Hf|].
        intros m Hm. destruct m as [|m]; [exact Hk|].
        cbn [nth]. apply Hall. simpl in Hm. lia.
Qed.

(** X11.  On any list of positions, sorted or not, [find_keyframe_indices]
    returns [(k1, k2)] exactly when [k1 + 1] is the first index from 1 on whose
    position exceeds the start frame and [k2], which must not be 0, is the
    first index from [k1] on whose position reaches the end frame; in every
    other case one of its two assertions fails.  In particular [k2] can be
    [k1], which makes the read empty. *)
Theorem find_keyframe_indices_spec (s e : Z) (kp : list Z) :
  (forall k1 k2,
      find_keyframe_indices s e kp = Ok (k1, k2) <-> bracket s e kp k1 k2) /\
  (forall f, find_keyframe_indices s e kp = Err f -> f = AssertFailed).
Proof.
  split.
  - intros k1 k2. unfold find_keyframe_indices, bracket. split.
    + intros H.
      destruct (find_start s (skipn 1 kp) 1) as [r|] eqn:Hfs; [|discriminate].
      destruct (find_start_some _ _ _ _ Hfs) as [m [Hm [Hr [Hgt Hle]]]].
      rewrite length_skipn in Hm. rewrite nth_skipn_Z in Hgt.
      assert (Hrm : r = m) by lia. clear Hr. subst r.
      destruct (Nat.eqb (find_end e (skipn m kp) m) 0) eqn:Hz; [discriminate|].
      apply Nat.eqb_neq in Hz. inversion H. subst k1 k2. clear H.
      destruct (find_end_result e (skipn m kp) m)
        as [[d [Hd [Hfe [Hge Hlt]]]] | [Hfe _]]; [|lia].
      rewrite length_skipn in Hd. rewrite nth_skipn_Z in Hge.
      rewrite Hfe in *.
      split; [lia|]. split; [exact Hgt|]. split.
      { intros j Hj. specialize (Hle (j - 1)%nat ltac:(lia)).
        rewrite nth_skipn_Z in Hle.
        replace (1 + (j - 1))%nat with j in Hle by lia. exact Hle. }
      split; [lia|]. split; [lia|]. split; [exact Hge|].
      intros j Hj. specialize (Hlt (j - m)%nat ltac:(lia)).
      rewrite nth_skipn_Z in Hlt.
      replace (m + (j - m))%nat with j in Hlt by lia. exact Hlt.
    + intros [Hk1 [Hgt [Hle [Hk2 [Hpos [Hge Hlt]]]]]].
      destruct (find_start_found s (skipn 1 kp) 1 k1) as [m [Hm [Hfs [Hmgt _]]]].
      { rewrite length_skipn. lia. }
      { rewrite nth_skipn_Z. exact Hgt. }
      rewrite nth_skipn_Z in Hmgt.
      assert (Hmk : m = k1).
      { destruct (Nat.eq_dec m k1) as [Heq|Hne]; [exact Heq|].
        specialize (Hle (S m) ltac:(lia)). cbn [Nat.add] in Hmgt. lia. }
      subst m. rewrite Hfs. replace (1 + k1 - 1)%nat with k1 by lia.
      destruct (find_end_found e (skipn k1 kp) k1 (k2 - k1))
        as [d [Hd [Hfe [Hdge _]]]].
      { rewrite length_skipn. lia. }
      { rewrite nth_skipn_Z. replace (k1 + (k2 - k1))%nat with k2 by lia.
        exact Hge. }
      rewrite nth_skipn_Z in Hdge.
      assert (Hdk : (k1 + d)%nat = k2).
      { destruct (Nat.eq_dec (k1 + d) k2) as [Heq|Hne]; [exact Heq|].
        specialize (Hlt (k1 + d)%nat ltac:(lia)). lia. }
      rewrite Hfe, Hdk.
      destruct (Nat.eqb k2 0) eqn:Hz; [apply Nat.eqb_eq in Hz; lia|].
      reflexivity.
  - intros f H. unfold find_keyframe_indices in H.
    destruct (find_start s (skipn 1 kp) 1) as [r|]; [|inversion H; reflexivity].
    destruct (Nat.eqb (find_end e (skipn r kp) r) 0);
      [inversion H; reflexivity | discriminate].
Qed.

End BracketFacts.

(** ** From the evaluate worker to the save worker *)

Module WorkerFacts.
Import Engine Pipeline EngineFacts.

Lemma keep_column_len (out : Stage) (last_t : DeviceType) (last_id : Z)
    (w batch_size : Z) (i : nat)
    (ks : list Z) (kb : list Buffer) (m : list MemEvent) :
  uniform batch_size out ->
  keep_column out last_t last_id w batch_size i = Ok (ks, kb, m) ->
  len ks = batch_size - w /\ len kb = batch_size - w.
Proof.
  intros [Hub Hus] H.
  destruct (keep_column_ok _ _ _ _ _ _ _ _ _ H)
    as [sizes [bufs [Hs [Hb [Hw [_ [_ [Hks Hkb]]]]]]]].
  rewrite Forall_forall in Hub, Hus.
  pose proof (Hub bufs (nth_error_In _ _ Hb)) as Hlb.
  pose proof (Hus sizes (nth_error_In _ _ Hs)) as Hls.
  apply (f_equal (@length Payload)) in Hkb. rewrite !length_map in Hkb.
  unfold len in *. subst ks. rewrite Hkb, !length_skipn. lia.
Qed.

Lemma keep_columns_len (out : Stage) (last_t : DeviceType) (last_id : Z)
    (w batch_size : Z) (cols : list nat) :
  uniform batch_size out ->
  forall kss kbs m,
    keep_columns out last_t last_id w batch_size cols = Ok (kss, kbs, m) ->
    rectangular (length cols) (batch_size - w) kss /\
    rectangular (length cols) (batch_size - w) kbs.
Proof.
  intros Hu. induction cols as [|i cols IH]; intros kss kbs m H.
  - inversion H. split; split; constructor.
  - cbn [keep_columns] in H.
    bind_inv H p. destruct p as [[ks kb] m1].
    bind_inv H q. destruct q as [[kss' kbs'] m2]. inversion H. subst.
    destruct (keep_column_len _ _ _ _ _ _ _ _ _ Hu E) as [Hks Hkb].
    destruct (IH _ _ _ eq_refl) as [[Hl1 Hf1] [Hl2 Hf2]].
    split; split; cbn [length]; try lia; constructor; assumption.
Qed.

Lemma append_columns_len {A : Type} (n : nat) (L K : Z) :
  forall acc new : list (list A),
    rectangular n L acc -> rectangular n K new ->
    rectangular n (L + K) (append_columns acc new).
Proof.
  induction n as [|n IH]; intros acc new [Hla Hfa] [Hln Hfn].
  - destruct acc; [|discriminate]. split; [reflexivity | constructor].
  - destruct acc as [|a acc]; [discriminate|].
    destruct new as [|b new]; [discriminate|].
    inversion Hfa. inversion Hfn. subst.
    destruct (IH acc new) as [Hl Hf].
    { split; [cbn [length] in Hla; lia | assumption]. }
    { split; [cbn [length] in Hln; lia | assumption]. }
    cbn [append_columns]. split; [cbn [length]; lia|].
    constructor; [|exact Hf].
    unfold len in *. rewrite length_app. lia.
Qed.

Section Shape.
Context {St : Type}.

(** The batched pass keeps the output entry rectangular. *)
Lemma batched_pass_rectangular (fuel : nat) (args : EvaluateThreadArgs)
    (work_entry : EvalWorkEntry) (work_item : VideoWorkItem) (reset : bool)
    (last_t : DeviceType) (last_id : Z) (num_columns : nat) (total_inputs : Z) :
  forall (current_input : Z) (evs : list (Evaluator St))
         (acc_sizes : list (list Z)) (acc_buffers : list (list Buffer)) (L : Z)
         evs' out_sizes out_buffers m,
    Forall evaluator_contract evs ->
    rectangular num_columns L acc_sizes ->
    rectangular num_columns L acc_buffers ->
    batched_pass fuel args work_entry work_item reset last_t last_id num_columns
                 total_inputs current_input evs acc_sizes acc_buffers
      = Ok (evs', out_sizes, out_buffers, m) ->
    exists L',
      rectangular num_columns L' out_sizes /\
      rectangular num_columns L' out_buffers.
Proof.
  induction fuel as [|fuel IH];
    intros current_input evs acc_sizes acc_buffers L evs' out_sizes out_buffers m
           Hc Hs Hb H.
  - cbn [batched_pass] in H.
    destruct (current_input <? total_inputs); [discriminate|].
    inversion H. subst. exists L. split; assumption.
  - cbn [batched_pass] in H.
    destruct (current_input <? total_inputs);
      [|inversion H; subst; exists L; split; assumption].
    cbv zeta in H.
    bind_inv H output_buffers. bind_inv H output_sizes.
    bind_inv H p. destruct p as [[[evs1 bs1] out1] m1].
    bind_inv H q. destruct q as [[kss kbs] m2].
    bind_inv H r. destruct r as [[[evs2 as2] ab2] m3].
    inversion H. subst evs' out_sizes out_buffers m. clear H.
    apply mapM_vec_range_len in E, E0.
    replace (current_input + Z.min total_inputs (WORK_ITEM_SIZE args) - current_input)
      with (Z.min total_inputs (WORK_ITEM_SIZE args)) in E, E0 by lia.
    assert (Hu0 : uniform (Z.min total_inputs (WORK_ITEM_SIZE args))
                          (mkStage (column_names work_entry) output_buffers
                                   output_sizes (buffer_type work_entry)
                                   (buffer_device_id work_entry))).
    { split; assumption. }
    destruct (run_chain_ok evs _ _ _ _ _ _ _ _ Hc Hu0 E1) as [Hu [Hc1 _]].
    destruct (keep_columns_len _ _ _ _ _ _ Hu _ _ _ E2) as [Hks Hkb].
    rewrite length_seq in Hks, Hkb.
    eapply (IH _ _ _ _ _ _ _ _ _ Hc1); [| |exact E3].
    + eapply append_columns_len; eassumption.
    + eapply append_columns_len; eassumption.
Qed.

End Shape.

Lemma deleted_release (id : Z) (cols : list (list Buffer)) :
  deleted (concat (map (map (DeleteBuffer CPU id)) cols)) = concat cols.
Proof.
  induction cols as [|col cols IH]; [reflexivity|].
  cbn [map concat]. rewrite deleted_app, deleted_map_delete, IH. reflexivity.
Qed.

(** The loop of the save worker over columns that all have [rows] rows. *)
Lemma save_columns (id : Z) (rows : nat) :
  forall (sufB : list (list Buffer)) (sufS : list (list Z))
         (preB : list (list Buffer)) (preS : list (list Z)),
    length preB = length preS ->
    length sufB = length sufS ->
    Forall (fun col => length col = rows) sufB ->
    Forall (fun col => length col = rows) sufS ->
    mapM (fun out_idx =>
            sizes <- vec_get (preS ++ sufS) out_idx ;;
            _ <- guard (Nat.eqb (length sizes) rows) Fatal ;;
            bufs <- vec_get (preB ++ sufB) out_idx ;;
            _ <- guard (Nat.eqb (length bufs) rows) Fatal ;;
            Ok (map (DeleteBuffer CPU id) bufs))
         (seq (length preB) (length sufB)) =
    Ok (map (map (DeleteBuffer CPU id)) sufB).
Proof.
  induction sufB as [|b sufB IH]; intros sufS preB preS Hpre Hsuf HB HS;
    [reflexivity|].
  destruct sufS as [|sz sufS]; [discriminate|].
  apply Forall_cons_iff in HB. destruct HB as [Hb HB].
  apply Forall_cons_iff in HS. destruct HS as [Hsz HS].
  cbn [length seq mapM].
  unfold vec_get at 1 2.
  rewrite Hpre at 1. rewrite nth_error_app2 by lia. rewrite Nat.sub_diag.
  rewrite nth_error_app2 by lia. rewrite Nat.sub_diag.
  cbn [nth_error bind]. unfold guard. rewrite Hb, Hsz, !Nat.eqb_refl. cbn [bind].
  specialize (IH sufS (preB ++ [b]) (preS ++ [sz])).
  rewrite !length_app in IH. cbn [length] in IH.
  rewrite <- !app_assoc in IH. cbn [app] in IH.
  replace (length preB + 1)%nat with (S (length preB)) in IH by lia.
  unfold guard in IH.
  rewrite IH; [reflexivity | lia | cbn [length] in Hsuf; lia | assumption | assumption].
Qed.

Lemma save_release_rectangular (output_names : list string)
    (work_entry : EvalWorkEntry) (L : Z) :
  rectangular (length output_names) L (buffer_sizes work_entry) ->
  rectangular (length output_names) L (buffers work_entry) ->
  exists m,
    save_release output_names work_entry = Ok m /\
    deleted m = concat (buffers work_entry).
Proof.
  intros [HlS HfS] [HlB HfB]. unfold save_release.
  set (rows := match buffers work_entry with
               | [] => 0%nat
               | col0 :: _ => length col0
               end).
  assert (HB : Forall (fun col => length col = rows) (buffers work_entry)).
  { subst rows. destruct (buffers work_entry) as [|col0 cols]; [constructor|].
    inversion HfB. subst. apply Forall_forall. intros col Hin.
    rewrite Forall_forall in HfB. specialize (HfB col Hin).
    unfold len in *. lia. }
  assert (HS : Forall (fun col => length col = rows) (buffer_sizes work_entry)).
  { subst rows. destruct (buffers work_entry) as [|col0 cols].
    - cbn [length] in HlB. rewrite <- HlB in HlS.
      destruct (buffer_sizes work_entry); [constructor | discriminate].
    - inversion HfB. subst. apply Forall_forall. intros col Hin.
      rewrite Forall_forall in HfS. specialize (HfS col Hin).
      unfold len in *. lia. }
  pose proof (save_columns (buffer_device_id work_entry) rows
                (buffers work_entry) (buffer_sizes work_entry) [] []
                eq_refl ltac:(lia) HB HS) as Hcols.
  cbn [app length] in Hcols. rewrite HlB in Hcols.
  rewrite Hcols. cbn [bind]. eexists. split; [reflexivity|].
  apply deleted_release.
Qed.

Section Saved.
Context {St : Type}.

(** X12.  An entry pushed by the worker of the last group is accepted by
    the save worker: when the evaluators keep their contract, the entry has
    one column per output name of the last evaluator, sizes and buffers of all
    columns have the same number of rows, so neither length check of the save
    worker fires, and the save worker releases every buffer of the entry,
    each once and in order. *)
Theorem pushed_entry_is_saved (fuel : nat) (args : EvaluateThreadArgs)
    (th : EvalThread St) (work_entry : EvalWorkEntry) (oc : EntryOutcome St)
    (before : list (Evaluator St)) (last_ev : Evaluator St) :
  Forall evaluator_contract (evaluators th) ->
  evaluators th = before ++ [last_ev] ->
  process_entry fuel args th work_entry = Ok oc ->
  length (buffers (oc_entry oc)) = length (ev_output_names last_ev) /\
  length (buffer_sizes (oc_entry oc)) = length (ev_output_names last_ev) /\
  exists m,
    save_release (ev_output_names last_ev) (oc_entry oc) = Ok m /\
    deleted m = concat (buffers (oc_entry oc)).
Proof.
  intros Hc Hev H. unfold process_entry in H.
  rewrite Hev in H at 1. rewrite rev_app_distr in H. cbn [rev app bind] in H.
  bind_inv H work_item. bind_inv H md.
  unfold configure_reset in H.
  pose proof (prepare_evaluators_contract (needs_configure work_item th)
                (needs_reset work_item th) md (evaluators th) 0 Hc) as Hc1.
  destruct (prepare_evaluators (needs_configure work_item th)
              (needs_reset work_item th) md 0 (evaluators th)) as [evs calls].
  cbn [fst evaluators last_video_index last_next_item_id] in *.
  bind_inv H p. destruct p as [[[evs' out_sizes] out_buffers] mem].
  inversion H. subst oc. clear H.
  cbn [oc_entry buffers buffer_sizes].
  assert (Hrect : forall A : Type,
             rectangular (length (ev_output_names last_ev)) 0
                         (repeat (@nil A) (length (ev_output_names last_ev)))).
  { intros A. split; [apply repeat_length|].
    apply Forall_forall. intros col Hin. apply repeat_spec in Hin. subst col.
    reflexivity. }
  destruct (batched_pass_rectangular _ _ _ _ _ _ _ _ _ _ _ _ _ 0 _ _ _ _
              Hc1 (Hrect Z) (Hrect Buffer) E1) as [L' [HS HB]].
  split; [exact (proj1 HB)|]. split; [exact (proj1 HS)|].
  exact (save_release_rectangular (ev_output_names last_ev)
           (mkEvalWorkEntry (work_item_index work_entry) [] out_sizes out_buffers
                            CPU 0 false) L' HS HB).
Qed.

(** X13.  The evaluate worker forwards one entry for every entry it pops
    before the sentinel, in the same order and with the same work item index,
    tagged as CPU data that is not to be decoded; what follows the sentinel is
    not touched. *)
Theorem evaluate_thread_forwards (fuel : nat) (args : EvaluateThreadArgs) :
  forall (input_work : list EvalWorkEntry) (th th' : EvalThread St)
         (pushed : list EvalWorkEntry) (calls : list EvalCall)
         (mem : list MemEvent),
    evaluate_thread fuel args th input_work = Ok (th', pushed, calls, mem) ->
    map work_item_index pushed = map work_item_index (before_sentinel input_work) /\
    Forall (fun e => buffer_type e = CPU /\ buffer_device_id e = 0 /\
                     video_decode_item e = false)
           pushed.
Proof.
  induction input_work as [|work_entry rest IH]; intros th th' pushed calls mem H.
  - inversion H. split; [reflexivity | constructor].
  - cbn [evaluate_thread before_sentinel] in H |- *.
    destruct (work_item_index work_entry =? -1).
    + inversion H. split; [reflexivity | constructor].
    + bind_inv H oc. bind_inv H r. destruct r as [[[th1 pushed1] calls1] mem1].
      inversion H. subst th' pushed calls mem. clear H.
      destruct (IH _ _ _ _ _ E0) as [Hidx Hall].
      assert (Hoc : work_item_index (oc_entry oc) = work_item_index work_entry /\
                    buffer_type (oc_entry oc) = CPU /\
                    buffer_device_id (oc_entry oc) = 0 /\
                    video_decode_item (oc_entry oc) = false).
      { unfold process_entry in E.
        bind_inv E last_ev. bind_inv E work_item. bind_inv E md.
        destruct (configure_reset th work_item md) as [th2 calls2].
        bind_inv E p. destruct p as [[[evs' out_sizes] out_buffers] mem2].
        inversion E. repeat split. }
      destruct Hoc as [Hi Hrest].
      split; [cbn [map]; rewrite Hi, Hidx; reflexivity|].
      constructor; [exact Hrest | exact Hall].
Qed.

End Saved.

(** A GPU evaluator in the last group, on an entry of three rows of which
    the first is a warmup row. *)
Lemma pushed_entry_is_saved_witness :
  match process_entry 3
          (mkEvaluateThreadArgs 1 [Scenario.s5_video] [mkVideoWorkItem 0 16 19 16]
                                true 16)
          (initial_thread [Scenario.copy_evaluator GPU 1])
          (mkEvalWorkEntry 0 ["frame"%string] [[1; 1; 1]]
                           [[mkBuffer CPU 0 (Data 15); mkBuffer CPU 0 (Data 16);
                             mkBuffer CPU 0 (Data 17)]]
                           CPU 0 false)
  with
  | Ok oc =>
      length (buffers (oc_entry oc)) =
        length (ev_output_names (Scenario.copy_evaluator GPU 1)) /\
      length (buffer_sizes (oc_entry oc)) =
        length (ev_output_names (Scenario.copy_evaluator GPU 1)) /\
      exists m,
        save_release (ev_output_names (Scenario.copy_evaluator GPU 1)) (oc_entry oc)
          = Ok m /\
        deleted m = concat (buffers (oc_entry oc))
  | Err _ => False
  end.
Proof.
  destruct (process_entry 3
              (mkEvaluateThreadArgs 1 [Scenario.s5_video]
                                    [mkVideoWorkItem 0 16 19 16] true 16)
              (initial_thread [Scenario.copy_evaluator GPU 1])
              (mkEvalWorkEntry 0 ["frame"%string] [[1; 1; 1]]
                               [[mkBuffer CPU 0 (Data 15); mkBuffer CPU 0 (Data 16);
                                 mkBuffer CPU 0 (Data 17)]]
                               CPU 0 false)) as [oc|f] eqn:E.
  - apply (pushed_entry_is_saved 3 _ (initial_thread [Scenario.copy_evaluator GPU 1])
             _ oc [] (Scenario.copy_evaluator GPU 1)
             (Forall_cons _ (ScenarioFacts.copy_evaluator_contract GPU 1)
                          (Forall_nil _))
             eq_refl E).
  - vm_compute in E. discriminate E.
Defined.

(** Two entries, the sentinel, and an entry behind it. *)
Lemma evaluate_thread_forwards_witness :
  let row := fun index =>
    mkEvalWorkEntry index ["frame"%string] [[1]] [[mkBuffer CPU 0 (Data index)]]
                    CPU 0 false in
  let input_work := [row 1; row 0; row (-1); row 1] in
  match evaluate_thread 3
          (mkEvaluateThreadArgs 0 [Scenario.s5_video]
                                [mkVideoWorkItem 0 0 1 0; mkVideoWorkItem 0 1 2 1]
                                true 16)
          (initial_thread [Scenario.copy_evaluator CPU 0]) input_work
  with
  | Ok (_, pushed, _, _) =>
      map work_item_index pushed =
        map work_item_index (before_sentinel input_work) /\
      Forall (fun e => buffer_type e = CPU /\ buffer_device_id e = 0 /\
                       video_decode_item e = false)
             pushed
  | Err _ => False
  end.
Proof.
  cbv zeta.
  match goal with
  | |- match ?run with _ => _ end =>
      destruct run as [[[[th' pushed] calls] mem]|f] eqn:E
  end.
  - exact (evaluate_thread_forwards 3 _ _ _ th' pushed calls mem E).
  - vm_compute in E. discriminate E.
Defined.

End WorkerFacts.

(** ** The batch loop *)

Module BatchFacts.
Import Engine EngineFacts.

Section Batches.
Context {St : Type}.

(** Outside decoding the evaluators leave the batch size alone. *)
Lemma run_chain_batch_size (evs : list (Evaluator St)) :
  forall (e : nat) (batch_size : Z) (out : Stage) evs' batch_size' final m,
    run_chain e evs false batch_size out = Ok (evs', batch_size', final, m) ->
    batch_size' = batch_size.
Proof.
  induction evs as [|ev rest IH]; intros e bs out evs' bs' final m H.
  - inversion H. reflexivity.
  - cbn [run_chain] in H. cbv zeta in H.
    bind_inv H p. destruct p as [[[in_buffers in_type] in_id] m1].
    destruct (ev_evaluate ev (ev_state ev) in_buffers (sg_sizes out))
      as [[st' output_buffers] output_sizes].
    bind_inv H u1. bind_inv H u2.
    rewrite andb_false_r in H. cbn [bind] in H.
    bind_inv H q. destruct q as [[[rest' fbs] fin] m3].
    inversion H. subst. eapply IH. exact E2.
Qed.

(** The loop on an entry whose first column has [total] rows, entered at a
    multiple of [WORK_ITEM_SIZE] below [total], when [total] is not such a
    multiple: it cannot end. *)
Lemma batched_pass_ragged (args : EvaluateThreadArgs) (work_entry : EvalWorkEntry)
    (work_item : VideoWorkItem) (reset : bool) (last_t : DeviceType) (last_id : Z)
    (num_columns : nat) (col0 : list Buffer) (cols : list (list Buffer)) :
  video_decode_item work_entry = false ->
  buffers work_entry = col0 :: cols ->
  0 < WORK_ITEM_SIZE args < len col0 ->
  len col0 mod WORK_ITEM_SIZE args <> 0 ->
  forall (fuel : nat) (current_input : Z) (evs : list (Evaluator St))
         (acc_sizes : list (list Z)) (acc_buffers : list (list Buffer)),
    0 <= current_input < len col0 ->
    current_input mod WORK_ITEM_SIZE args = 0 ->
    exists f,
      batched_pass fuel args work_entry work_item reset last_t last_id num_columns
                   (len col0) current_input evs acc_sizes acc_buffers = Err f.
Proof.
  intros Hvd Hbufs HW Hmod.
  induction fuel as [|fuel IH]; intros current_input evs acc_sizes acc_buffers Hc Hcm;
    cbn [batched_pass];
    (destruct (current_input <? len col0) eqn:Hlt; [|apply Z.ltb_ge in Hlt; lia]).
  - eexists. reflexivity.
  - cbv zeta. rewrite Hbufs, Hvd. cbn [mapM].
    rewrite Z.min_r by lia.
    destruct (vec_range col0 current_input (current_input + WORK_ITEM_SIZE args))
      as [slice0|f0] eqn:E0; cbn [bind]; [|eexists; reflexivity].
    apply vec_range_ok in E0. destruct E0 as [_ [Hend _]].
    assert (Hnext : (current_input + WORK_ITEM_SIZE args) mod WORK_ITEM_SIZE args = 0).
    { rewrite <- Z.add_mod_idemp_l by lia. rewrite Hcm. cbn [Z.add].
      apply Z.mod_same. lia. }
    assert (Hmore : current_input + WORK_ITEM_SIZE args < len col0).
    { destruct (Z.eq_dec (current_input + WORK_ITEM_SIZE args) (len col0)) as [Heq|Hne];
        [rewrite Heq in Hnext; contradiction | lia]. }
    match goal with
    | |- exists f, bind ?r _ = _ => destruct r as [slices|f1]; cbn [bind];
                                    [|eexists; reflexivity]
    end.
    match goal with
    | |- exists f, bind ?r _ = _ => destruct r as [sizes|f2]; cbn [bind];
                                    [|eexists; reflexivity]
    end.
    match goal with
    | |- exists f, bind ?r _ = _ =>
        destruct r as [[[[evs1 bs1] out1] m1]|f3] eqn:Erun; cbn [bind];
        [|eexists; reflexivity]
    end.
    apply run_chain_batch_size in Erun. subst bs1.
    match goal with
    | |- exists f, bind ?r _ = _ =>
        destruct r as [[[kss kbs] m2]|f4]; cbn [bind]; [|eexists; reflexivity]
    end.
    destruct (IH (current_input + WORK_ITEM_SIZE args) evs1
                 (append_columns acc_sizes kss) (append_columns acc_buffers kbs)
                 ltac:(lia) Hnext) as [f Hf].
    rewrite Hf. cbn [bind]. eexists. reflexivity.
Qed.

(** X14.  An entry that is not a decode item and whose first column has more
    than [WORK_ITEM_SIZE] rows, but not a multiple of [WORK_ITEM_SIZE], is
    never processed: every batch takes [WORK_ITEM_SIZE] rows, so the last one
    is sliced beyond the end of the column (unless an earlier step fails);
    whatever the evaluators and the fuel, no entry is pushed. *)
Theorem ragged_entry_is_never_pushed (fuel : nat) (args : EvaluateThreadArgs)
    (th : EvalThread St) (work_entry : EvalWorkEntry)
    (col0 : list Buffer) (cols : list (list Buffer)) :
  video_decode_item work_entry = false ->
  buffers work_entry = col0 :: cols ->
  len col0 <= i32_max ->
  0 < WORK_ITEM_SIZE args < len col0 ->
  len col0 mod WORK_ITEM_SIZE args <> 0 ->
  exists f, process_entry fuel args th work_entry = Err f.
Proof.
  intros Hvd Hbufs Hmax HW Hmod. unfold process_entry.
  destruct (rev (evaluators th)) as [|last_ev before]; cbn [bind];
    [eexists; reflexivity|].
  destruct (vec_get_z (work_items args) (work_item_index work_entry))
    as [work_item|]; cbn [bind]; [|eexists; reflexivity].
  destruct (vec_get_z (metadata args) (video_index work_item)) as [md|];
    cbn [bind]; [|eexists; reflexivity].
  destruct (configure_reset th work_item md) as [th1 calls].
  rewrite Hbufs.
  rewrite to_i32_id by (unfold in_i32, i32_min, i32_max, len in *; lia).
  destruct (batched_pass_ragged args work_entry work_item (needs_reset work_item th)
              (ev_device_type last_ev) (ev_device_id last_ev)
              (length (ev_output_names last_ev)) col0 cols Hvd Hbufs HW Hmod
              fuel 0 (evaluators th1)
              (repeat [] (length (ev_output_names last_ev)))
              (repeat [] (length (ev_output_names last_ev)))
              ltac:(lia) ltac:(apply Z.mod_0_l; lia)) as [f Hf].
  rewrite Hf. cbn [bind]. eexists. reflexivity.
Qed.

End Batches.

(** An entry of 24 rows handed to a worker with [WORK_ITEM_SIZE = 16]. *)
Lemma ragged_entry_is_never_pushed_witness :
  exists f,
    process_entry 8
      (mkEvaluateThreadArgs 0 [Scenario.s5_video] [mkVideoWorkItem 0 0 24 0] true 16)
      (initial_thread [Scenario.copy_evaluator CPU 0])
      (mkEvalWorkEntry 0 ["frame"%string] [repeat 1 24]
                       [repeat (mkBuffer CPU 0 (Data 0)) 24] CPU 0 false) = Err f.
Proof.
  apply (ragged_entry_is_never_pushed 8
           (mkEvaluateThreadArgs 0 [Scenario.s5_video] [mkVideoWorkItem 0 0 24 0]
                                 true 16)
           (initial_thread [Scenario.copy_evaluator CPU 0])
           (mkEvalWorkEntry 0 ["frame"%string] [repeat 1 24]
                            [repeat (mkBuffer CPU 0 (Data 0)) 24] CPU 0 false)
           (repeat (mkBuffer CPU 0 (Data 0)) 24) []).
  - reflexivity.
  - reflexivity.
  - unfold i32_max. vm_compute. discriminate.
  - vm_compute. split; reflexivity.
  - vm_compute. discriminate.
Defined.

End BatchFacts.

(** ** A decoder that publishes no rows *)

Module SilentFacts.
Import Engine Pipeline EngineFacts.

Lemma mapM_vec_range_returns {A : Type} (total first last : Z) :
  0 <= first <= last -> last <= total ->
  forall cols : list (list A),
    Forall (fun col => len col = total) cols ->
    exists out,
      mapM (fun col => vec_range col first last) cols = Ok out /\
      length out = length cols /\
      Forall (fun col => len col = last - first) out.
Proof.
  intros H1 H2. induction cols as [|col cols IH]; intros Hc.
  - exists []. repeat split. constructor.
  - inversion Hc as [|? ? Hcol Hcols]. subst.
    destruct (IH Hcols) as [out [Hout [Hlen Hall]]].
    cbn [mapM]. rewrite vec_range_in_bounds by lia. cbn [bind]. rewrite Hout.
    cbn [bind]. eexists. split; [reflexivity|]. split; [cbn [length]; lia|].
    constructor; [|exact Hall].
    unfold len in *. rewrite length_firstn, length_skipn. lia.
Qed.

Lemma migrate_columns_returns (dst_t : DeviceType) (dst_id : Z) (src_t : DeviceType)
    (src_id : Z) (n : Z) :
  forall (cols : list (list Buffer)) (sizes : list (list Z)),
    length cols = length sizes ->
    Forall (fun col => len col = n) cols ->
    Forall (fun col => len col = n) sizes ->
    exists moved m, migrate_columns dst_t dst_id src_t src_id cols sizes = Ok (moved, m).
Proof.
  induction cols as [|col cols IH]; intros sizes Hlen Hc Hs.
  - exists [], []. reflexivity.
  - destruct sizes as [|szs sizes]; [discriminate|].
    inversion Hc. inversion Hs. subst.
    destruct (migrate_column_returns dst_t dst_id src_t src_id col szs)
      as [moved [m Hrun]]; [unfold len in *; lia|].
    destruct (IH sizes) as [rest [m' Hrest]];
      [cbn [length] in Hlen; lia | assumption | assumption |].
    cbn [migrate_columns]. rewrite Hrun. cbn [bind]. rewrite Hrest. cbn [bind].
    eexists. eexists. reflexivity.
Qed.

Lemma nth_error_repeat_nil {A : Type} (n i : nat) :
  (i < n)%nat -> nth_error (repeat (@nil A) n) i = Some [].
Proof.
  revert i. induction n as [|n IH]; intros i Hi; [lia|].
  destruct i as [|i]; [reflexivity|]. cbn [repeat nth_error]. apply IH. lia.
Qed.

(** Nothing is kept of a batch without rows. *)
Lemma keep_columns_nothing (names : list string) (t last_t : DeviceType)
    (id last_id : Z) (n : nat) :
  forall idxs : list nat,
    Forall (fun i => (i < n)%nat) idxs ->
    keep_columns (mkStage names (repeat [] n) (repeat [] n) t id) last_t last_id 0 0
                 idxs =
    Ok (repeat [] (length idxs), repeat [] (length idxs), []).
Proof.
  induction idxs as [|i idxs IH]; intros Hi; [reflexivity|].
  inversion Hi. subst. cbn [keep_columns]. rewrite IH by assumption.
  unfold keep_column. cbn [sg_sizes sg_buffers sg_type sg_id].
  unfold vec_get. rewrite !nth_error_repeat_nil by assumption.
  cbn [bind length Nat.eqb guard Z.ltb Z.compare].
  rewrite andb_false_r. cbn [bind]. reflexivity.
Qed.

Lemma append_nothing {A : Type} (n : nat) :
  forall acc : list (list A),
    length acc = n -> append_columns acc (repeat [] n) = acc.
Proof.
  induction n as [|n IH]; intros acc Hlen.
  - destruct acc; [reflexivity | discriminate].
  - destruct acc as [|a acc]; [discriminate|].
    cbn [repeat append_columns]. rewrite app_nil_r, IH; [reflexivity|].
    cbn [length] in Hlen. lia.
Qed.

Lemma warmup_of_nothing (args : EvaluateThreadArgs) (reset : bool)
    (work_item : VideoWorkItem) (current_input : Z) :
  warmup_frames args reset work_item 0 current_input = 0.
Proof.
  unfold warmup_frames. destruct (last_evaluator_group args && reset); lia.
Qed.

Section Silent.
Context {St : Type}.

Lemma publishes_nothing_set_state (ev : Evaluator St) (s : St) :
  publishes_nothing ev -> publishes_nothing (set_state ev s).
Proof. intros H. exact H. Qed.

(** One batch through a group that consists of such a decoder: the batch
    size comes back as 0. *)
Lemma run_chain_silent (ev : Evaluator St) (batch_size : Z) (out : Stage) :
  publishes_nothing ev ->
  (0 < length (ev_output_names ev))%nat ->
  length (sg_buffers out) = length (sg_sizes out) ->
  uniform batch_size out ->
  exists st' m,
    run_chain 0 [ev] true batch_size out =
    Ok ([set_state ev st'], 0,
        mkStage (ev_output_names ev) (repeat [] (length (ev_output_names ev)))
                (repeat [] (length (ev_output_names ev)))
                (ev_device_type ev) (ev_device_id ev), m).
Proof.
  intros Hsilent Hn Hlen [Hub Hus]. cbn [run_chain]. cbv zeta.
  match goal with
  | |- exists st' m, bind ?r _ = _ =>
      assert (Hmig : exists in_buffers in_type in_id m1,
                 r = Ok (in_buffers, in_type, in_id, m1))
  end.
  { destruct (negb (device_eqb (sg_type out) (ev_device_type ev))
              || negb (sg_id out =? ev_device_id ev)).
    - destruct (migrate_columns_returns (ev_device_type ev) (ev_device_id ev)
                  (sg_type out) (sg_id out) batch_size (sg_buffers out) (sg_sizes out)
                  Hlen Hub Hus) as [moved [m Hrun]].
      rewrite Hrun. cbn [bind]. do 4 eexists. reflexivity.
    - do 4 eexists. reflexivity. }
  destruct Hmig as [in_buffers [in_type [in_id [m1 ->]]]]. cbn [bind].
  pose proof (Hsilent (ev_state ev) in_buffers (sg_sizes out)) as Hev.
  destruct (ev_evaluate ev (ev_state ev) in_buffers (sg_sizes out))
    as [[st' outs] osz].
  destruct Hev as [-> ->].
  rewrite !repeat_length, Nat.eqb_refl. cbn [guard bind Nat.eqb andb orb].
  unfold vec_get. rewrite nth_error_repeat_nil by exact Hn. cbn [bind].
  exists st'. eexists. reflexivity.
Qed.

End Silent.

Lemma silent_decoder_publishes_nothing (t : DeviceType) (id : Z) :
  publishes_nothing (silent_decoder t id).
Proof. intros st ins szs. split; reflexivity. Qed.

End SilentFacts.

(** ** The release of the input rows *)

Module ReleaseFacts.
Import Engine EngineFacts.

Lemma migrate_column_releases (dst_t : DeviceType) (dst_id : Z) (src_t : DeviceType)
    (src_id : Z) (bufs : list Buffer) :
  forall (sizes : list Z) (moved : list Buffer) (m : list MemEvent),
    migrate_column dst_t dst_id src_t src_id bufs sizes = Ok (moved, m) ->
    forall b, In b bufs -> In (DeleteBuffer src_t src_id b) m.
Proof.
  induction bufs as [|b0 bufs IH]; intros sizes moved m H b Hb; [contradiction|].
  cbn [migrate_column] in H. destruct sizes as [|size sizes]; [discriminate|].
  bind_inv H a. destruct a as [moved' m']. inversion H. subst.
  destruct Hb as [-> | Hb].
  - right. right. left. reflexivity.
  - right. right. right. eapply IH; eassumption.
Qed.

Lemma migrate_columns_releases (dst_t : DeviceType) (dst_id : Z) (src_t : DeviceType)
    (src_id : Z) (cols : list (list Buffer)) :
  forall (sizes : list (list Z)) (moved : list (list Buffer)) (m : list MemEvent),
    migrate_columns dst_t dst_id src_t src_id cols sizes = Ok (moved, m) ->
    forall col b, In col cols -> In b col -> In (DeleteBuffer src_t src_id b) m.
Proof.
  induction cols as [|col0 cols IH]; intros sizes moved m H col b Hcol Hb;
    [contradiction|].
  cbn [migrate_columns] in H. destruct sizes as [|szs sizes]; [discriminate|].
  bind_inv H p. destruct p as [mv ev1].
  bind_inv H q. destruct q as [rest ev2]. inversion H. subst.
  apply in_or_app. destruct Hcol as [-> | Hcol].
  - left. eapply migrate_column_releases; eassumption.
  - right. eapply IH; eassumption.
Qed.

Lemma mapM_vec_range_whole {A : Type} (total : Z) :
  forall cols out : list (list A),
    Forall (fun col => len col = total) cols ->
    mapM (fun col => vec_range col 0 (0 + total)) cols = Ok out ->
    out = cols.
Proof.
  induction cols as [|col cols IH]; intros out Hc H.
  - inversion H. reflexivity.
  - inversion Hc as [|? ? Hcol Hcols]. subst.
    cbn [mapM] in H. bind_inv H r. bind_inv H rs. inversion H. subst out.
    rewrite (IH rs Hcols eq_refl).
    apply vec_range_prefix in E. subst r.
    unfold len. rewrite Z.add_0_l, Nat2Z.id, firstn_all. reflexivity.
Qed.

Section Release.
Context {St : Type}.

(** The first evaluator of a group releases the rows it was given, under the
    device tag of the data: before it runs when they are copied to its device,
    after it ran otherwise. *)
Lemma run_chain_releases_inputs (ev : Evaluator St) (rest : list (Evaluator St))
    (e : nat) (video_decode : bool) (batch_size : Z) (out : Stage)
    evs' batch_size' final m :
  run_chain e (ev :: rest) video_decode batch_size out
    = Ok (evs', batch_size', final, m) ->
  forall col b, In col (sg_buffers out) -> In b col ->
                In (DeleteBuffer (sg_type out) (sg_id out) b) m.
Proof.
  intros H col b Hcol Hb. cbn [run_chain] in H. cbv zeta in H.
  bind_inv H p. destruct p as [[[in_buffers in_type] in_id] m1].
  destruct (ev_evaluate ev (ev_state ev) in_buffers (sg_sizes out))
    as [[st' output_buffers] output_sizes].
  bind_inv H u1. bind_inv H u2. bind_inv H bsz.
  bind_inv H q. destruct q as [[[rest' fbs] fin] m3].
  inversion H. subst evs' batch_size' final m. clear H.
  destruct (negb (device_eqb (sg_type out) (ev_device_type ev))
            || negb (sg_id out =? ev_device_id ev)).
  - bind_inv E r. destruct r as [moved mm]. inversion E. subst.
    apply in_or_app. left.
    eapply migrate_columns_releases; eassumption.
  - inversion E. subst. apply in_or_app. right. apply in_or_app. left.
    apply in_flat_map. exists col. split; [exact Hcol|].
    apply in_map. exact Hb.
Qed.

(** X16.  Every row of an input entry of at most [WORK_ITEM_SIZE] rows whose
    columns have one length is handed to [delete_buffer] by the worker that
    processes the entry, under the device tag of the entry: no input row is
    leaked. *)
Theorem input_rows_are_released (fuel : nat) (args : EvaluateThreadArgs)
    (th : EvalThread St) (work_entry : EvalWorkEntry) (oc : EntryOutcome St)
    (col0 : list Buffer) (cols : list (list Buffer)) :
  buffers work_entry = col0 :: cols ->
  Forall (fun col => len col = len col0) cols ->
  len col0 <= WORK_ITEM_SIZE args ->
  len col0 <= i32_max ->
  process_entry fuel args th work_entry = Ok oc ->
  Forall (Forall (fun b =>
                    In (DeleteBuffer (buffer_type work_entry)
                                     (buffer_device_id work_entry) b)
                       (oc_mem oc)))
         (buffers work_entry).
Proof.
  intros Hbufs Hcols HW Hmax H.
  apply Forall_forall. intros col Hcol. apply Forall_forall. intros b Hb.
  unfold process_entry in H.
  bind_inv H last_ev. bind_inv H work_item. bind_inv H md.
  unfold configure_reset in H.
  pose proof (prepare_evaluators_length (needs_configure work_item th)
                (needs_reset work_item th) md (evaluators th) 0) as Hl1.
  destruct (prepare_evaluators (needs_configure work_item th)
              (needs_reset work_item th) md 0 (evaluators th)) as [evs calls].
  cbn [fst evaluators last_video_index last_next_item_id] in *.
  bind_inv H p. destruct p as [[[evs' out_sizes] out_buffers] mem].
  inversion H. subst oc. clear H. cbn [oc_mem].
  assert (Hall : Forall (fun c => len c = len col0) (buffers work_entry)).
  { rewrite Hbufs. constructor; [reflexivity | exact Hcols]. }
  assert (Hpos : 0 < len col0).
  { rewrite Forall_forall in Hall. specialize (Hall col Hcol).
    destruct col; [contradiction|]. unfold len in *. cbn [length] in Hall. lia. }
  rewrite Hbufs in E2.
  rewrite to_i32_id in E2 by (unfold in_i32, i32_min, i32_max in *; lia).
  destruct evs as [|ev rest].
  { destruct (evaluators th); [discriminate E | discriminate Hl1]. }
  destruct fuel as [|fuel]; cbn [batched_pass] in E2;
    (destruct (0 <? len col0) eqn:Hlt; [|apply Z.ltb_ge in Hlt; lia]);
    [discriminate|].
  cbv zeta in E2. rewrite Z.min_l in E2 by lia.
  bind_inv E2 output_buffers. bind_inv E2 output_sizes.
  bind_inv E2 q. destruct q as [[[evs1 bs1] out1] m1].
  bind_inv E2 r. destruct r as [[kss kbs] m2].
  bind_inv E2 t. destruct t as [[[evs2 as2] ab2] m3].
  inversion E2. subst. clear E2.
  apply (mapM_vec_range_whole (len col0) _ _ Hall) in E3. subst output_buffers.
  apply in_or_app. left.
  apply (run_chain_releases_inputs _ _ _ _ _ _ _ _ _ _ E5 col b Hcol Hb).
Qed.

End Release.

(** Two rows in CPU memory handed to a GPU evaluator. *)
Lemma input_rows_are_released_witness :
  let work_entry :=
    mkEvalWorkEntry 0 ["frame"%string] [[1; 1]]
                    [[mkBuffer CPU 0 (Data 0); mkBuffer CPU 0 (Data 1)]]
                    CPU 0 false in
  match process_entry 3
          (mkEvaluateThreadArgs 0 [Scenario.s5_video] [mkVideoWorkItem 0 0 2 0]
                                true 16)
          (initial_thread [Scenario.copy_evaluator GPU 1]) work_entry
  with
  | Ok oc =>
      Forall (Forall (fun b => In (DeleteBuffer CPU 0 b) (oc_mem oc)))
             (buffers work_entry)
  | Err _ => False
  end.
Proof.
  cbv zeta.
  match goal with
  | |- match ?run with _ => _ end => destruct run as [oc|f] eqn:E
  end.
  - apply (input_rows_are_released 3 _ _
             (mkEvalWorkEntry 0 ["frame"%string] [[1; 1]]
                              [[mkBuffer CPU 0 (Data 0); mkBuffer CPU 0 (Data 1)]]
                              CPU 0 false)
             oc [mkBuffer CPU 0 (Data 0); mkBuffer CPU 0 (Data 1)] [] eq_refl
             (Forall_nil _)) in E.
    + exact E.
    + cbn. lia.
    + unfold i32_max. cbn. lia.
  - vm_compute in E. discriminate E.
Defined.

End ReleaseFacts.

(** ** Warmup rows over the batches of an entry *)

Module WarmupFacts.
Import Engine Pipeline.

Lemma batch_rows_nonneg (batches : list Z) :
  Forall (fun b => 0 <= b) batches -> 0 <= batch_rows batches.
Proof.
  induction 1 as [|b batches Hb Hall IH]; cbn [batch_rows fold_right]; [lia|].
  unfold batch_rows in IH. lia.
Qed.

Lemma dropped_rows_from (args : EvaluateThreadArgs) (work_item : VideoWorkItem)
    (batches : list Z) :
  last_evaluator_group args = true ->
  Forall (fun b => 0 <= b) batches ->
  forall current_input : Z,
    dropped_rows args true work_item batches current_input =
    Z.min (Z.max 0 (Z.min (warmup_count args) (rows_from_start work_item)
                    - current_input))
          (batch_rows batches).
Proof.
  intros Hlast Hall. induction Hall as [|b batches Hb Hall IH]; intros current_input.
  - cbn [dropped_rows batch_rows fold_right]. lia.
  - cbn [dropped_rows batch_rows fold_right]. rewrite IH.
    pose proof (batch_rows_nonneg batches Hall) as Hs. unfold batch_rows in *.
    unfold warmup_frames. rewrite Hlast. cbn [andb]. lia.
Qed.

Lemma dropped_rows_none (args : EvaluateThreadArgs) (reset : bool)
    (work_item : VideoWorkItem) (batches : list Z) :
  last_evaluator_group args && reset = false ->
  forall current_input : Z,
    dropped_rows args reset work_item batches current_input = 0.
Proof.
  intros Hcond. induction batches as [|b batches IH]; intros current_input;
    cbn [dropped_rows]; [reflexivity|].
  rewrite IH. unfold warmup_frames. rewrite Hcond. reflexivity.
Qed.

(** X17.  However the rows of an entry come out in batches, the worker of
    the last group drops, after a reset, the first
    [min (warmup_count, rows_from_start)] rows of the entry in all (every row
    when the entry has fewer), and in every other case none. *)
Theorem dropped_rows_total (args : EvaluateThreadArgs) (reset : bool)
    (work_item : VideoWorkItem) (batches : list Z) :
  Forall (fun b => 0 <= b) batches ->
  dropped_rows args reset work_item batches 0 =
  if last_evaluator_group args && reset
  then Z.min (Z.max 0 (Z.min (warmup_count args) (rows_from_start work_item)))
             (batch_rows batches)
  else 0.
Proof.
  intros Hall.
  destruct (last_evaluator_group args && reset) eqn:Hcond.
  - apply andb_true_iff in Hcond. destruct Hcond as [Hlast ->].
    rewrite (dropped_rows_from args work_item batches Hlast Hall 0).
    rewrite Z.sub_0_r. reflexivity.
  - apply dropped_rows_none. exact Hcond.
Qed.

(** Batches of 3, 4 and 5 rows of an item that starts 16 rows into its
    video, with a warmup of 8: 3, 4 and 1 rows are dropped. *)
Lemma dropped_rows_total_witness :
  dropped_rows (mkEvaluateThreadArgs 8 [] [] true 16) true
               (mkVideoWorkItem 0 16 28 16) [3; 4; 5] 0 =
  if last_evaluator_group (mkEvaluateThreadArgs 8 [] [] true 16) && true
  then Z.min (Z.max 0 (Z.min (warmup_count (mkEvaluateThreadArgs 8 [] [] true 16))
                             (rows_from_start (mkVideoWorkItem 0 16 28 16))))
             (batch_rows [3; 4; 5])
  else 0.
Proof.
  apply (dropped_rows_total (mkEvaluateThreadArgs 8 [] [] true 16) true
                            (mkVideoWorkItem 0 16 28 16) [3; 4; 5]).
  repeat constructor; lia.
Defined.

End WarmupFacts.

(** ** Edge cases of the planner and of the worker *)

Module EdgeFacts.
Import Engine Planner EngineFacts.

Lemma all_video_stuck (i F : Z) :
  0 < F <= i32_max ->
  forall (fuel : nat) (p : Plan), all_video fuel 0 i F 0 p = Err OutOfFuel.
Proof.
  intros HF. induction fuel as [|fuel IH]; intros p; cbn [all_video];
    (destruct (0 <? F) eqn:Hlt; [|apply Z.ltb_ge in Hlt; lia]);
    [reflexivity|].
  cbv zeta. unfold sub32, add32. rewrite Z.sub_0_r.
  rewrite (MachineIntFacts.to_i32_id F)
    by (unfold in_i32, i32_min, i32_max in *; lia).
  rewrite Z.min_l by lia. cbn [Z.add].
  change (to_i32 0) with 0. apply IH.
Qed.

(** X18.  With a work item size of 0 the planner allocates no frame per
    iteration and never leaves the loop of the first video that has frames:
    no plan is produced, whatever the fuel. *)
Theorem zero_work_item_size_never_plans (meta : VideoMetadata)
    (rest : list VideoMetadata) :
  0 < md_frames meta <= i32_max ->
  forall fuel : nat, plan_all fuel 0 (meta :: rest) = Err OutOfFuel.
Proof.
  intros HF fuel. unfold plan_all. cbn [all_videos].
  change (to_i32 (Z.of_nat 0)) with 0.
  rewrite (all_video_stuck 0 (md_frames meta) HF fuel empty_plan). reflexivity.
Qed.

Lemma zero_work_item_size_never_plans_witness :
  plan_all 1000 0 [Scenario.s5_video] = Err OutOfFuel.
Proof.
  apply (zero_work_item_size_never_plans Scenario.s5_video []).
  unfold i32_max. cbn. lia.
Defined.

(** X19.  A sequence gather whose very first interval is empty
    ([end <= start]) makes the planner reset [next_item_id] of the last work
    item when there is none yet: [work_items.back ()] is taken of an empty
    vector. *)
Theorem empty_first_interval_is_undefined (fuel : nat) (W v : Z) (iv : Interval)
    (intervals : list Interval) (more : list SequenceSamples) :
  sub32 (ival_end iv) (ival_start iv) <= 0 ->
  plan_sequence_gather fuel W (mkSequenceSamples v (iv :: intervals) :: more) =
  Err OutOfBounds.
Proof.
  intros Hempty. unfold plan_sequence_gather.
  cbn [sequence_samples ss_video_index ss_intervals sequence_intervals].
  cbv zeta.
  assert (Hrun : sequence_interval fuel W v iv (sub32 (ival_end iv) (ival_start iv))
                                   0 0 empty_plan = Ok (0, empty_plan)).
  { destruct fuel; cbn [sequence_interval];
      (destruct (0 <? sub32 (ival_end iv) (ival_start iv)) eqn:Hlt;
       [apply Z.ltb_lt in Hlt; lia | reflexivity]). }
  rewrite Hrun. reflexivity.
Qed.

Lemma empty_first_interval_is_undefined_witness :
  plan_sequence_gather 100 16
    [mkSequenceSamples 0 [mkInterval 12 12; mkInterval 0 40]] = Err OutOfBounds.
Proof.
  apply (empty_first_interval_is_undefined 100 16 0 (mkInterval 12 12)
           [mkInterval 0 40] []).
  vm_compute. discriminate.
Defined.

Section Empty.
Context {St : Type}.

(** X20.  An entry without rows (no column, or an empty first column) is
    forwarded as an entry of empty columns, one per output of the last
    evaluator: the evaluators are configured and reset as for any entry, but
    none is run and no memory call is made; no fuel is needed. *)
Theorem entry_without_rows (fuel : nat) (args : EvaluateThreadArgs)
    (th : EvalThread St) (work_entry : EvalWorkEntry)
    (before : list (Evaluator St)) (last_ev : Evaluator St)
    (work_item : VideoWorkItem) (md : VideoMetadata) :
  evaluators th = before ++ [last_ev] ->
  vec_get_z (work_items args) (work_item_index work_entry) = Ok work_item ->
  vec_get_z (metadata args) (video_index work_item) = Ok md ->
  hd [] (buffers work_entry) = [] ->
  exists oc,
    process_entry fuel args th work_entry = Ok oc /\
    work_item_index (oc_entry oc) = work_item_index work_entry /\
    buffers (oc_entry oc) = repeat [] (length (ev_output_names last_ev)) /\
    buffer_sizes (oc_entry oc) = repeat [] (length (ev_output_names last_ev)) /\
    oc_mem oc = [] /\
    oc_calls oc = snd (configure_reset th work_item md) /\
    map ev_state (evaluators (oc_thread oc)) =
      map ev_state (evaluators (fst (configure_reset th work_item md))).
Proof.
  intros Hev Hitem Hmd Hrows.
  assert (Htotal : match buffers work_entry with
                   | [] => 0
                   | col0 :: _ => to_i32 (len col0)
                   end = 0).
  { destruct (buffers work_entry) as [|col0 cols]; [reflexivity|].
    cbn [hd] in Hrows. subst col0. reflexivity. }
  assert (Hrun : process_entry fuel args th work_entry =
                 Ok (mkEntryOutcome St
                       (mkEvalThread
                          (evaluators (fst (configure_reset th work_item md)))
                          (last_video_index (fst (configure_reset th work_item md)))
                          (last_next_item_id (fst (configure_reset th work_item md))))
                       (mkEvalWorkEntry (work_item_index work_entry) []
                          (repeat [] (length (ev_output_names last_ev)))
                          (repeat [] (length (ev_output_names last_ev)))
                          CPU 0 false)
                       (snd (configure_reset th work_item md)) [])).
  { unfold process_entry.
    rewrite Hev at 1. rewrite rev_app_distr. cbn [rev app bind].
    rewrite Hitem. cbn [bind]. rewrite Hmd. cbn [bind].
    destruct (configure_reset th work_item md) as [th1 calls].
    rewrite Htotal.
    destruct fuel; reflexivity. }
  eexists. split; [exact Hrun|]. repeat split.
Qed.

End Empty.

Lemma entry_without_rows_witness :
  exists oc,
    process_entry 0
      (mkEvaluateThreadArgs 8 [Scenario.s5_video] [mkVideoWorkItem 0 0 16 0] true 16)
      (initial_thread [Scenario.copy_evaluator CPU 0])
      (mkEvalWorkEntry 0 ["video"%string; "video_args"%string] [[]; []] [[]; []]
                       CPU 0 true) = Ok oc /\
    work_item_index (oc_entry oc) = 0 /\
    buffers (oc_entry oc) =
      repeat [] (length (ev_output_names (Scenario.copy_evaluator CPU 0))) /\
    buffer_sizes (oc_entry oc) =
      repeat [] (length (ev_output_names (Scenario.copy_evaluator CPU 0))) /\
    oc_mem oc = [] /\
    oc_calls oc =
      snd (configure_reset (initial_thread [Scenario.copy_evaluator CPU 0])
                           (mkVideoWorkItem 0 0 16 0) Scenario.s5_video) /\
    map ev_state (evaluators (oc_thread oc)) =
      map ev_state
          (evaluators (fst (configure_reset
                              (initial_thread [Scenario.copy_evaluator CPU 0])
                              (mkVideoWorkItem 0 0 16 0) Scenario.s5_video))).
Proof.
  apply (entry_without_rows 0
           (mkEvaluateThreadArgs 8 [Scenario.s5_video] [mkVideoWorkItem 0 0 16 0]
                                 true 16)
           (initial_thread [Scenario.copy_evaluator CPU 0])
           (mkEvalWorkEntry 0 ["video"%string; "video_args"%string] [[]; []]
                            [[]; []] CPU 0 true)
           [] (Scenario.copy_evaluator CPU 0)
           (mkVideoWorkItem 0 0 16 0) Scenario.s5_video);
    reflexivity.
Defined.

End EdgeFacts.

(** ** The save worker *)

Module SaveFacts.
Import Engine Pipeline Save EngineFacts.

Lemma mapM_index {A B : Type} (f : nat -> Result B) (g : A -> B) :
  forall (l : list A) (k : nat),
    (forall i a, nth_error l i = Some a -> f (k + i)%nat = Ok (g a)) ->
    mapM f (seq k (length l)) = Ok (map g l).
Proof.
  induction l as [|a l IH]; intros k Hf; [reflexivity|].
  cbn [length seq mapM map].
  rewrite <- (Nat.add_0_r k) at 1. rewrite (Hf 0%nat a eq_refl). cbn [bind].
  rewrite (IH (S k)); [reflexivity|].
  intros i b Hi. replace (S k + i)%nat with (k + S i)%nat by lia.
  apply Hf. exact Hi.
Qed.

Lemma mapM_index_inv {A B : Type} (f : nat -> Result B) (g : A -> B) :
  forall (l : list A) (k : nat) (r : list B),
    (forall i a b, nth_error l i = Some a -> f (k + i)%nat = Ok b -> b = g a) ->
    mapM f (seq k (length l)) = Ok r -> r = map g l.
Proof.
  induction l as [|a l IH]; intros k r Hf H.
  - inversion H. reflexivity.
  - cbn [length seq mapM] in H. bind_inv_eq H b Eb. bind_inv_eq H bs Ebs.
    inversion H. subst r. cbn [map]. f_equal.
    + apply (Hf 0%nat a b eq_refl). rewrite Nat.add_0_r. exact Eb.
    + apply (IH (S k)); [|exact Ebs].
      intros i a' b' Hi Hb. apply (Hf (S i) a' b' Hi).
      replace (k + S i)%nat with (S k + i)%nat by lia. exact Hb.
Qed.

Lemma mapM_ok_each {A B : Type} (f : A -> Result B) :
  forall (l : list A) (bs : list B),
    mapM f l = Ok bs -> forall a, In a l -> exists b, f a = Ok b.
Proof.
  induction l as [|x l IH]; intros bs H a Ha; [contradiction|].
  cbn [mapM] in H. bind_inv H b. bind_inv H rest.
  destruct Ha as [-> | Ha]; [exists b; exact E | exact (IH rest eq_refl a Ha)].
Qed.

Lemma nth_error_combine {A B : Type} (la : list A) (lb : list B) :
  forall (i : nat) (a : A) (b : B),
    nth_error (combine la lb) i = Some (a, b) ->
    nth_error la i = Some a /\ nth_error lb i = Some b.
Proof.
  revert lb. induction la as [|x la IH]; intros lb i a b H.
  - destruct i; discriminate.
  - destruct lb as [|y lb]; [destruct i; discriminate|].
    destruct i as [|i]; cbn [combine nth_error] in *.
    + inversion H. split; reflexivity.
    + apply IH. exact H.
Qed.

Lemma sum_app (l1 l2 : list Z) : sum (l1 ++ l2) = sum l1 + sum l2.
Proof.
  unfold sum. induction l1 as [|x l1 IH]; cbn [app fold_right]; [reflexivity|].
  rewrite IH. ring.
Qed.

Lemma to_i64_id (x : Z) : 0 <= x < 2 ^ 63 -> to_i64 x = x.
Proof. intros H. unfold to_i64. rewrite Z.mod_small; lia. Qed.

Lemma header_bytes (sizes : list Z) :
  sum (map written_bytes (map (fun s => WriteSize (to_i64 s)) sizes)) =
  8 * Z.of_nat (length sizes).
Proof.
  induction sizes as [|s sizes IH]; [reflexivity|].
  cbn [map length]. unfold sum in *. cbn [fold_right written_bytes].
  rewrite IH. lia.
Qed.

Lemma data_bytes (bufs : list Buffer) :
  forall (sizes : list Z) (k : nat),
    length bufs = length sizes ->
    Forall (fun s => 0 <= s < 2 ^ 63) sizes ->
    sum (map written_bytes
             (firstn k (map (fun bs => WriteData (fst bs) (to_i64 (snd bs)))
                            (combine bufs sizes)))) =
    sum (firstn k sizes).
Proof.
  induction bufs as [|b bufs IH]; intros sizes k Hlen Hs.
  - destruct sizes; [|discriminate]. destruct k; reflexivity.
  - destruct sizes as [|s sizes]; [discriminate|].
    inversion Hs. subst.
    destruct k as [|k]; [reflexivity|].
    cbn [combine map firstn]. unfold sum in *. cbn [fold_right written_bytes fst snd].
    rewrite (IH sizes k); [|cbn [length] in Hlen; lia | assumption].
    rewrite to_i64_id by assumption. reflexivity.
Qed.

(** What the body of the loop over the columns writes and releases. *)
Lemma save_column_ok (storage : Storage) (output_names : list string)
    (work_entry : EvalWorkEntry)
    (num_frames out_idx : nat) (file : OutputFile) (m : list MemEvent) :
  save_column storage output_names work_entry num_frames out_idx = Ok (file, m) ->
  exists name sizes bufs,
    nth_error output_names out_idx = Some name /\
    nth_error (buffer_sizes work_entry) out_idx = Some sizes /\
    nth_error (buffers work_entry) out_idx = Some bufs /\
    length sizes = num_frames /\ length bufs = num_frames /\
    file = mkOutputFile name (work_item_index work_entry)
             (map (fun s => WriteSize (to_i64 s)) sizes ++
              map (fun bs => WriteData (fst bs) (to_i64 (snd bs)))
                  (combine bufs sizes)) /\
    m = map (DeleteBuffer CPU (buffer_device_id work_entry)) bufs.
Proof.
  unfold save_column. intros H.
  bind_inv_eq H name E. apply vec_get_ok in E.
  bind_inv_eq H u0 Emade.
  bind_inv_eq H sizes E0. apply vec_get_ok in E0.
  bind_inv_eq H u1 E1. apply guard_ok, Nat.eqb_eq in E1.
  bind_inv_eq H bufs E2. apply vec_get_ok in E2.
  bind_inv_eq H u2 E3. apply guard_ok, Nat.eqb_eq in E3.
  subst num_frames.
  bind_inv_eq H header Eh. bind_inv_eq H data Ed. bind_inv_eq H released Er.
  inversion H. subst file m. clear H.
  apply (mapM_index_inv _ (fun s => WriteSize (to_i64 s)) sizes 0) in Eh.
  2:{ intros i a b Hi Hb. cbn [Nat.add] in Hb. unfold vec_get in Hb.
      rewrite Hi in Hb. cbn [bind] in Hb.
      destruct (guard (write_returns storage name (work_item_index work_entry) i)
                      Fatal); [|discriminate Hb].
      inversion Hb. reflexivity. }
  assert (Hcomb : length (combine bufs sizes) = length sizes).
  { rewrite length_combine. lia. }
  rewrite <- Hcomb in Ed at 1.
  apply (mapM_index_inv _ (fun bs => WriteData (fst bs) (to_i64 (snd bs)))
                        (combine bufs sizes) 0) in Ed.
  2:{ intros i [b sz] w Hi Hw. cbn [Nat.add fst snd] in Hw |- *.
      apply nth_error_combine in Hi. destruct Hi as [Hb Hs].
      unfold vec_get in Hw. rewrite Hs, Hb in Hw. cbn [bind] in Hw.
      destruct (guard (write_returns storage name (work_item_index work_entry)
                                     (length sizes + i)) Fatal);
        [|discriminate Hw].
      inversion Hw. reflexivity. }
  rewrite <- E3 in Er.
  rewrite (mapM_index _ (fun b => b) bufs 0) in Er
    by (intros i a Hi; cbn [Nat.add]; unfold vec_get; rewrite Hi; reflexivity).
  rewrite map_id in Er. inversion Er. subst header data released.
  exists name, sizes, bufs.
  repeat (split; [first [assumption | reflexivity | lia]|]). reflexivity.
Qed.

(** A column is saved only when the storage backend made its file and took
    every write. *)
Lemma save_column_made (storage : Storage) (output_names : list string)
    (work_entry : EvalWorkEntry)
    (num_frames out_idx : nat) (file : OutputFile) (m : list MemEvent) :
  save_column storage output_names work_entry num_frames out_idx = Ok (file, m) ->
  exists name,
    nth_error output_names out_idx = Some name /\
    make_write_file storage name (work_item_index work_entry) = true /\
    forall k, (k < 2 * num_frames)%nat ->
              write_returns storage name (work_item_index work_entry) k = true.
Proof.
  unfold save_column. intros H.
  bind_inv_eq H name E. apply vec_get_ok in E.
  bind_inv_eq H u0 Emade. apply guard_ok in Emade.
  bind_inv_eq H sizes E0. bind_inv_eq H u1 E1.
  bind_inv_eq H bufs E2. bind_inv_eq H u2 E3.
  bind_inv_eq H header Eh. bind_inv_eq H data Ed.
  exists name. split; [exact E|]. split; [exact Emade|].
  intros k Hk. destruct (Nat.lt_ge_cases k num_frames) as [Hlt|Hge].
  - destruct (mapM_ok_each _ _ _ Eh k) as [b Hb]; [apply in_seq; lia|].
    cbn beta in Hb. destruct (vec_get sizes k); [|discriminate Hb].
    cbn [bind] in Hb.
    destruct (write_returns storage name (work_item_index work_entry) k);
      [reflexivity | discriminate Hb].
  - destruct (mapM_ok_each _ _ _ Ed (k - num_frames)%nat) as [b Hb];
      [apply in_seq; lia|].
    cbn beta in Hb. destruct (vec_get sizes (k - num_frames)); [|discriminate Hb].
    cbn [bind] in Hb. destruct (vec_get bufs (k - num_frames)); [|discriminate Hb].
    cbn [bind] in Hb.
    replace (num_frames + (k - num_frames))%nat with k in Hb by lia.
    destruct (write_returns storage name (work_item_index work_entry) k);
      [reflexivity | discriminate Hb].
Qed.

(** X21.  The file the save worker writes for an output column of a work
    item holds the sizes of all rows first and then the rows, in row order,
    and the worker releases the rows of that column, in order.  The sizes being
    below 2^63, row [k] therefore starts at byte
    [8 * num_frames + size_0 + ... + size_(k-1)]: the file can be indexed from
    its header. *)
Theorem output_file_layout (storage : Storage) (output_names : list string)
    (work_entry : EvalWorkEntry)
    (num_frames out_idx : nat) (file : OutputFile) (m : list MemEvent) :
  save_column storage output_names work_entry num_frames out_idx = Ok (file, m) ->
  exists name sizes bufs,
    nth_error output_names out_idx = Some name /\
    nth_error (buffer_sizes work_entry) out_idx = Some sizes /\
    nth_error (buffers work_entry) out_idx = Some bufs /\
    length sizes = num_frames /\ length bufs = num_frames /\
    of_column file = name /\
    of_work_item_index file = work_item_index work_entry /\
    of_content file =
      map (fun s => WriteSize (to_i64 s)) sizes ++
      map (fun bs => WriteData (fst bs) (to_i64 (snd bs))) (combine bufs sizes) /\
    deleted m = bufs /\
    (Forall (fun s => 0 <= s < 2 ^ 63) sizes ->
     forall k, (k <= num_frames)%nat ->
       offset_of (of_content file) (num_frames + k) =
       8 * Z.of_nat num_frames + sum (firstn k sizes)).
Proof.
  intros H.
  destruct (save_column_ok _ _ _ _ _ _ _ H)
    as [name [sizes [bufs [Hn [Hs [Hb [Hls [Hlb [-> ->]]]]]]]]].
  exists name, sizes, bufs. cbn [of_column of_work_item_index of_content].
  repeat (split; [first [assumption | reflexivity]|]).
  split; [apply deleted_map_delete|].
  intros Hsz k Hk. unfold offset_of. subst num_frames.
  rewrite firstn_app, length_map.
  rewrite firstn_all2 by (rewrite length_map; lia).
  replace (length sizes + k - length sizes)%nat with k by lia.
  rewrite map_app.
  fold (sum (map written_bytes (map (fun s => WriteSize (to_i64 s)) sizes) ++
             map written_bytes
                 (firstn k (map (fun bs => WriteData (fst bs) (to_i64 (snd bs)))
                                (combine bufs sizes))))).
  rewrite sum_app, header_bytes, data_bytes by (assumption || lia).
  reflexivity.
Qed.

(** A column of two rows, of 3 and of 5 bytes. *)
Lemma output_file_layout_witness :
  let work_entry :=
    mkEvalWorkEntry 7 [] [[3; 5]]
                    [[mkBuffer CPU 0 (Data 0); mkBuffer CPU 0 (Data 1)]] CPU 0 false in
  match save_column sound_storage ["frame"%string] work_entry 2 0 with
  | Ok (file, m) =>
      exists name sizes bufs,
        nth_error ["frame"%string] 0 = Some name /\
        nth_error (buffer_sizes work_entry) 0 = Some sizes /\
        nth_error (buffers work_entry) 0 = Some bufs /\
        length sizes = 2%nat /\ length bufs = 2%nat /\
        of_column file = name /\
        of_work_item_index file = work_item_index work_entry /\
        of_content file =
          map (fun s => WriteSize (to_i64 s)) sizes ++
          map (fun bs => WriteData (fst bs) (to_i64 (snd bs))) (combine bufs sizes) /\
        deleted m = bufs /\
        (Forall (fun s => 0 <= s < 2 ^ 63) sizes ->
         forall k, (k <= 2)%nat ->
           offset_of (of_content file) (2 + k) = 8 * Z.of_nat 2 + sum (firstn k sizes))
  | Err _ => False
  end.
Proof.
  cbv zeta.
  match goal with
  | |- match ?run with _ => _ end => destruct run as [[file m]|f] eqn:E
  end.
  - exact (output_file_layout _ _ _ _ _ _ _ E).
  - vm_compute in E. discriminate E.
Defined.

(** The columns [j, j + k) of an entry. *)
Lemma save_columns_from (storage : Storage) (output_names : list string)
    (work_entry : EvalWorkEntry) (num_frames : nat) :
  forall (k j : nat) (saved : list (OutputFile * list MemEvent)),
    mapM (save_column storage output_names work_entry num_frames) (seq j k)
      = Ok saved ->
    length saved = k /\
    deleted (concat (map snd saved)) = concat (firstn k (skipn j (buffers work_entry))).
Proof.
  induction k as [|k IH]; intros j saved H.
  - inversion H. split; reflexivity.
  - cbn [seq mapM] in H. bind_inv H p. destruct p as [file m].
    bind_inv H rest. inversion H. subst saved. clear H.
    destruct (save_column_ok _ _ _ _ _ _ _ E)
      as [name [sizes [bufs [_ [_ [Hb [_ [_ [_ ->]]]]]]]]].
    destruct (IH _ _ E0) as [Hlen Hdel].
    split; [cbn [length]; lia|].
    cbn [map snd concat]. rewrite deleted_app, deleted_map_delete, Hdel.
    assert (Hskip : skipn j (buffers work_entry) =
                    bufs :: skipn (S j) (buffers work_entry)).
    { clear -Hb. revert j Hb. induction (buffers work_entry) as [|c l IHl];
        intros j Hb; [destruct j; discriminate|].
      destruct j as [|j]; [inversion Hb; reflexivity|].
      cbn [nth_error] in Hb. cbn [skipn]. rewrite (IHl j Hb).
      destruct l; [destruct j; discriminate | reflexivity]. }
    rewrite Hskip. reflexivity.
Qed.

(** X22.  The save worker saves the entries before the sentinel, in order:
    it adds one to [retired_items] for each of them, writes one file per entry
    and output column, and releases exactly the rows of the first
    [output_names.size ()] columns of every entry, in order. *)
Theorem save_thread_retires (args : SaveThreadArgs) :
  forall (input_work : list EvalWorkEntry) (retired_items retired : Z)
         (files : list OutputFile) (m : list MemEvent),
    save_thread args input_work retired_items = Ok (retired, files, m) ->
    retired = retired_items + Z.of_nat (length (before_sentinel input_work)) /\
    length files =
      (length (sa_output_names args) * length (before_sentinel input_work))%nat /\
    deleted m =
      flat_map (fun e => concat (firstn (length (sa_output_names args)) (buffers e)))
               (before_sentinel input_work).
Proof.
  induction input_work as [|work_entry rest IH]; intros r r' files m H.
  - inversion H. cbn [before_sentinel length flat_map]. repeat split; lia.
  - cbn [save_thread before_sentinel] in H |- *.
    destruct (work_item_index work_entry =? -1).
    + inversion H. cbn [length flat_map]. repeat split; lia.
    + bind_inv H work_item. bind_inv H path. bind_inv H md.
      bind_inv H p. destruct p as [files1 m1].
      bind_inv H q. destruct q as [[r1 files2] m2].
      inversion H. subst r' files m. clear H.
      destruct (IH _ _ _ _ E3) as [Hr [Hf Hd]].
      unfold save_entry in E2. bind_inv E2 saved. inversion E2. subst files1 m1.
      destruct (save_columns_from _ _ _ _ _ _ _ E4) as [Hlen Hdel].
      cbn [skipn] in Hdel.
      split; [cbn [length]; lia|]. split.
      * rewrite length_app, length_map, Hlen, Hf. cbn [length]. lia.
      * rewrite deleted_app, Hdel, Hd. reflexivity.
Qed.
(** Two entries of one column, the sentinel, and an entry behind it. *)
Lemma save_thread_retires_witness :
  let row := fun index =>
    mkEvalWorkEntry index [] [[3]] [[mkBuffer CPU 0 (Data index)]] CPU 0 false in
  let args :=
    mkSaveThreadArgs ["a.mp4"%string] [Scenario.s5_video]
                     [mkVideoWorkItem 0 0 1 0; mkVideoWorkItem 0 1 2 1]
                     ["frame"%string] (fun _ => sound_storage) in
  let input_work := [row 0; row 1; row (-1); row 0] in
  match save_thread args input_work 5 with
  | Ok (retired, files, m) =>
      retired = 5 + Z.of_nat (length (before_sentinel input_work)) /\
      length files =
        (length (sa_output_names args) * length (before_sentinel input_work))%nat /\
      deleted m =
        flat_map (fun e => concat (firstn (length (sa_output_names args)) (buffers e)))
                 (before_sentinel input_work)
  | Err _ => False
  end.
Proof.
  cbv zeta.
  match goal with
  | |- match ?run with _ => _ end => destruct run as [[[retired files] m]|f] eqn:E
  end.
  - exact (save_thread_retires _ _ _ _ _ _ E).
  - vm_compute in E. discriminate E.
Defined.

Lemma mapM_returns {A B : Type} (f : A -> Result B) :
  forall l : list A,
    (forall a, In a l -> exists b, f a = Ok b) -> exists bs, mapM f l = Ok bs.
Proof.
  induction l as [|x l IH]; intros H; [exists []; reflexivity|].
  destruct (H x (or_introl eq_refl)) as [b Hb].
  destruct IH as [bs Hbs]; [intros a Ha; apply H; right; exact Ha|].
  exists (b :: bs). cbn [mapM]. rewrite Hb, Hbs. reflexivity.
Qed.

Lemma mapM_error {A B : Type} (f : A -> Result B) (P : Failure -> Prop) :
  (forall a e, f a = Err e -> P e) ->
  forall (l : list A) (e : Failure), mapM f l = Err e -> P e.
Proof.
  intros Hf. induction l as [|x l IH]; intros e H; [discriminate|].
  cbn [mapM] in H. destruct (f x) as [b|e1] eqn:E; cbn [bind] in H.
  - destruct (mapM f l) as [bs|e2]; cbn [bind] in H; [discriminate|].
    inversion H. subst. apply IH. reflexivity.
  - inversion H. subst. eapply Hf. exact E.
Qed.

Lemma save_column_returns (storage : Storage) (output_names : list string)
    (work_entry : EvalWorkEntry)
    (out_idx : nat) (name : string) (sizes : list Z) (bufs : list Buffer) :
  nth_error output_names out_idx = Some name ->
  make_write_file storage name (work_item_index work_entry) = true ->
  (forall k, (k < 2 * length sizes)%nat ->
             write_returns storage name (work_item_index work_entry) k = true) ->
  nth_error (buffer_sizes work_entry) out_idx = Some sizes ->
  nth_error (buffers work_entry) out_idx = Some bufs ->
  length bufs = length sizes ->
  save_column storage output_names work_entry (length sizes) out_idx =
  Ok (mkOutputFile name (work_item_index work_entry)
        (map (fun s => WriteSize (to_i64 s)) sizes ++
         map (fun bs => WriteData (fst bs) (to_i64 (snd bs))) (combine bufs sizes)),
      map (DeleteBuffer CPU (buffer_device_id work_entry)) bufs).
Proof.
  intros Hn Hmade Hwrite Hs Hb Hlen. unfold save_column, vec_get at 1 2 3.
  rewrite Hn. cbn [bind]. rewrite Hmade. cbn [guard bind].
  rewrite Hs, Hb. cbn [bind]. rewrite Hlen, Nat.eqb_refl. cbn [guard bind].
  rewrite (mapM_index _ (fun s => WriteSize (to_i64 s)) sizes 0).
  2:{ intros i a Hi. cbn [Nat.add]. unfold vec_get. rewrite Hi. cbn [bind].
      rewrite Hwrite; [reflexivity|].
      assert (i < length sizes)%nat
        by (apply nth_error_Some; rewrite Hi; discriminate).
      lia. }
  cbn [bind].
  assert (Hcomb : length (combine bufs sizes) = length sizes).
  { rewrite length_combine. lia. }
  rewrite <- Hcomb at 1.
  rewrite (mapM_index _ (fun bs => WriteData (fst bs) (to_i64 (snd bs)))
                      (combine bufs sizes) 0).
  2:{ intros i [b sz] Hi. cbn [Nat.add fst snd].
      assert (Hlt : (i < length (combine bufs sizes))%nat)
        by (apply nth_error_Some; rewrite Hi; discriminate).
      rewrite Hcomb in Hlt.
      apply nth_error_combine in Hi. destruct Hi as [Hb' Hs'].
      unfold vec_get. rewrite Hs', Hb'. cbn [bind].
      rewrite Hwrite; [reflexivity | lia]. }
  cbn [bind]. rewrite <- Hlen.
  rewrite (mapM_index _ (fun b => b) bufs 0)
    by (intros i a Hi; cbn [Nat.add]; unfold vec_get; rewrite Hi; reflexivity).
  cbn [bind]. rewrite map_id. reflexivity.
Qed.

Lemma save_column_error (storage : Storage) (output_names : list string)
    (work_entry : EvalWorkEntry) (n out_idx : nat) (e : Failure) :
  save_column storage output_names work_entry n out_idx = Err e ->
  e = Fatal \/ e = OutOfBounds.
Proof.
  assert (Hget : forall (A : Type) (l : list A) (i : nat) (e0 : Failure),
             vec_get l i = Err e0 -> e0 = OutOfBounds).
  { intros A l i e0. unfold vec_get. destruct (nth_error l i); [discriminate|].
    intros H. inversion H. reflexivity. }
  assert (Hguard : forall (b : bool) (e0 : Failure),
             guard b Fatal = Err e0 -> e0 = Fatal).
  { intros b e0. destruct b; [discriminate|]. intros H. inversion H. reflexivity. }
  unfold save_column. intros H.
  destruct (vec_get output_names out_idx) as [name|e1] eqn:E1; cbn [bind] in H;
    [|inversion H; subst; right; eapply Hget; exact E1].
  destruct (guard (make_write_file storage name (work_item_index work_entry)) Fatal)
    as [u0|e0] eqn:E0;
    cbn [bind] in H; [|inversion H; subst; left; eapply Hguard; exact E0].
  destruct (vec_get (buffer_sizes work_entry) out_idx) as [sizes|e2] eqn:E2;
    cbn [bind] in H; [|inversion H; subst; right; eapply Hget; exact E2].
  destruct (guard (Nat.eqb (length sizes) n) Fatal) as [u1|e3] eqn:E3;
    cbn [bind] in H; [|inversion H; subst; left; eapply Hguard; exact E3].
  destruct (vec_get (buffers work_entry) out_idx) as [bufs|e4] eqn:E4;
    cbn [bind] in H; [|inversion H; subst; right; eapply Hget; exact E4].
  destruct (guard (Nat.eqb (length bufs) n) Fatal) as [u2|e5] eqn:E5;
    cbn [bind] in H; [|inversion H; subst; left; eapply Hguard; exact E5].
  match type of H with
  | bind ?r _ = _ => destruct r as [header|e6] eqn:E6; cbn [bind] in H
  end.
  2:{ inversion H. subst.
      apply (mapM_error _ (fun e0 => e0 = Fatal \/ e0 = OutOfBounds)) in E6;
        [exact E6|].
      intros i e0 Hi. destruct (vec_get sizes i) eqn:Ev; cbn [bind] in Hi;
        [|inversion Hi; subst; right; eapply Hget; exact Ev].
      destruct (guard (write_returns storage name (work_item_index work_entry) i)
                      Fatal) eqn:Eg; cbn [bind] in Hi;
        [discriminate | inversion Hi; subst; left; eapply Hguard; exact Eg]. }
  match type of H with
  | bind ?r _ = _ => destruct r as [data|e7] eqn:E7; cbn [bind] in H
  end.
  2:{ inversion H. subst.
      apply (mapM_error _ (fun e0 => e0 = Fatal \/ e0 = OutOfBounds)) in E7;
        [exact E7|].
      intros i e0 Hi. destruct (vec_get sizes i) eqn:Ev; cbn [bind] in Hi;
        [|inversion Hi; subst; right; eapply Hget; exact Ev].
      destruct (vec_get bufs i) eqn:Ev'; cbn [bind] in Hi;
        [|inversion Hi; subst; right; eapply Hget; exact Ev'].
      destruct (guard (write_returns storage name (work_item_index work_entry)
                                     (n + i)) Fatal) eqn:Eg; cbn [bind] in Hi;
        [discriminate | inversion Hi; subst; left; eapply Hguard; exact Eg]. }
  match type of H with
  | bind ?r _ = _ => destruct r as [released|e8] eqn:E8; cbn [bind] in H
  end.
  - discriminate.
  - inversion H. subst. right.
    apply (mapM_error _ (fun e0 => e0 = OutOfBounds)) in E8; [exact E8|].
    intros i e0 Hi. eapply Hget. exact Hi.
Qed.

(** X24.  The save worker gets through an entry exactly when, for every
    output column named in [output_names], the storage backend makes the
    file and takes every write to it, and the column exists in the entry,
    sizes and buffers, with as many rows as the entry's first column;
    otherwise it stops in [exit_on_error] or on a [LOG(FATAL)] length check,
    or reads a column that is not there. *)
Theorem save_entry_succeeds_iff (storage : Storage) (output_names : list string)
    (work_entry : EvalWorkEntry) :
  ((exists files m, save_entry storage output_names work_entry = Ok (files, m)) <->
   (forall out_idx, (out_idx < length output_names)%nat ->
      exists name sizes bufs,
        nth_error output_names out_idx = Some name /\
        make_write_file storage name (work_item_index work_entry) = true /\
        (forall k, (k < 2 * num_frames work_entry)%nat ->
           write_returns storage name (work_item_index work_entry) k = true) /\
        nth_error (buffer_sizes work_entry) out_idx = Some sizes /\
        nth_error (buffers work_entry) out_idx = Some bufs /\
        length sizes = num_frames work_entry /\
        length bufs = num_frames work_entry)) /\
  (forall e, save_entry storage output_names work_entry = Err e ->
             e = Fatal \/ e = OutOfBounds).
Proof.
  unfold save_entry. fold (num_frames work_entry). split; [split|].
  - intros [files [m H]] out_idx Hidx.
    bind_inv H saved.
    destruct (mapM_ok_each _ _ _ E out_idx) as [[file m1] Hcol];
      [apply in_seq; lia|].
    destruct (save_column_ok _ _ _ _ _ _ _ Hcol)
      as [name [sizes [bufs [Hn [Hs [Hb [Hls [Hlb _]]]]]]]].
    destruct (save_column_made _ _ _ _ _ _ _ Hcol) as [name' [Hn' [Hmade Hwrite]]].
    rewrite Hn in Hn'. inversion Hn'. subst name'.
    exists name, sizes, bufs. repeat split; assumption.
  - intros Hall.
    destruct (mapM_returns (save_column storage output_names work_entry
                                        (num_frames work_entry))
                           (seq 0 (length output_names))) as [saved Hsaved].
    { intros out_idx Hidx. apply in_seq in Hidx.
      destruct (Hall out_idx ltac:(lia))
        as [name [sizes [bufs [Hn [Hmade [Hwrite [Hs [Hb [Hls Hlb]]]]]]]]].
      rewrite <- Hls in Hwrite.
      pose proof (save_column_returns storage output_names work_entry
                    out_idx name sizes bufs Hn Hmade Hwrite Hs Hb ltac:(lia))
        as Hrun.
      rewrite Hls in Hrun. eexists. exact Hrun. }
    rewrite Hsaved. cbn [bind]. eexists. eexists. reflexivity.
  - intros e H.
    destruct (mapM (save_column storage output_names work_entry
                                (num_frames work_entry))
                   (seq 0 (length output_names))) as [saved|e1] eqn:E;
      cbn [bind] in H; [discriminate|].
    inversion H. subst.
    apply (mapM_error _ (fun e0 => e0 = Fatal \/ e0 = OutOfBounds)) in E; [exact E|].
    intros out_idx e0. apply save_column_error.
Qed.

End SaveFacts.

(** ** Every frame has its work item *)

Module CoverFacts.
Import Planner Pipeline PlannerFacts.

Lemma filter_none {A : Type} (f : A -> bool) (l : list A) :
  Forall (fun a => f a = false) l -> filter f l = [].
Proof.
  induction 1 as [|a l Ha Hl IH]; [reflexivity|].
  cbn [filter]. rewrite Ha. exact IH.
Qed.

Section OneVideo.

Variable W : Z.
Hypothesis W_pos : 0 < W.

(** The items of a video other than [i] do not cover a frame of video
    [i]. *)
Lemma other_video_covers (i j F f : Z) :
  j <> i -> filter (covers i f) (video_items W j F) = [].
Proof.
  intros Hne. apply filter_none. unfold video_items.
  apply Forall_map. apply Forall_forall. intros k _.
  unfold covers, all_item. cbn [video_index].
  destruct (j =? i) eqn:E; [apply Z.eqb_eq in E; contradiction | reflexivity].
Qed.

(** Of the items of video [i], the one with number [f / W] covers frame
    [f], and no other. *)
Lemma video_items_covers (i F f : Z) :
  0 <= f < F ->
  filter (covers i f) (video_items W i F) = [all_item W i F (Z.to_nat (f / W))].
Proof.
  intros Hf. unfold video_items.
  destruct (chunk_count_bounds W F W_pos ltac:(lia)) as [Hc1 Hc2].
  set (n := chunk_count W F) in *.
  set (k0 := Z.to_nat (f / W)).
  assert (Hq : 0 <= f / W) by (apply Z.div_pos; lia).
  assert (Hk0 : Z.of_nat k0 * W <= f < Z.of_nat k0 * W + W).
  { unfold k0. rewrite Z2Nat.id by exact Hq.
    pose proof (Z.div_mod f W ltac:(lia)) as Hdm.
    pose proof (Z.mod_pos_bound f W W_pos) as Hr. nia. }
  assert (Hlt : (k0 < n)%nat) by nia.
  replace n with (k0 + S (n - S k0))%nat by lia.
  rewrite seq_app, map_app, filter_app. cbn [seq map filter Nat.add].
  rewrite (filter_none (covers i f) (map (all_item W i F) (seq 0 k0))).
  2:{ apply Forall_map. apply Forall_forall. intros k Hk. apply in_seq in Hk.
      unfold covers, all_item, chunk_size. cbn [video_index item_id next_item_id].
      rewrite Z.eqb_refl. cbn [andb].
      destruct (f <? Z.of_nat k * W + Z.min W (F - Z.of_nat k * W)) eqn:E;
        [apply Z.ltb_lt in E; nia | apply andb_false_r]. }
  rewrite (filter_none (covers i f)
                       (map (all_item W i F) (seq (S k0) (n - S k0)))).
  2:{ apply Forall_map. apply Forall_forall. intros k Hk. apply in_seq in Hk.
      unfold covers, all_item. cbn [video_index item_id next_item_id].
      rewrite Z.eqb_refl. cbn [andb].
      destruct (Z.of_nat k * W <=? f) eqn:E;
        [apply Z.leb_le in E; nia | reflexivity]. }
  cbn [app].
  assert (Hcov : covers i f (all_item W i F k0) = true).
  { unfold covers, all_item, chunk_size. cbn [video_index item_id next_item_id].
    rewrite Z.eqb_refl. cbn [andb].
    apply andb_true_iff. split; [apply Z.leb_le | apply Z.ltb_lt]; lia. }
  rewrite Hcov. reflexivity.
Qed.

(** The items of the videos from number [j] on do not cover a frame of an
    earlier video. *)
Lemma later_videos_cover (f : Z) :
  forall (videos : list VideoMetadata) (j : nat) (i : Z),
    i < Z.of_nat j ->
    filter (covers i f) (all_items_from W j videos) = [].
Proof.
  induction videos as [|meta rest IH]; intros j i Hi; [reflexivity|].
  cbn [all_items_from]. rewrite filter_app.
  rewrite other_video_covers by lia.
  rewrite (IH (S j) i) by lia. reflexivity.
Qed.

Lemma all_items_from_covers (f : Z) :
  forall (videos : list VideoMetadata) (j i : nat) (meta : VideoMetadata),
    nth_error videos i = Some meta ->
    0 <= f < md_frames meta ->
    filter (covers (Z.of_nat (j + i)) f) (all_items_from W j videos) =
    [all_item W (Z.of_nat (j + i)) (md_frames meta) (Z.to_nat (f / W))].
Proof.
  induction videos as [|m rest IH]; intros j i meta Hi Hf;
    [destruct i; discriminate|].
  cbn [all_items_from]. rewrite filter_app.
  destruct i as [|i]; cbn [nth_error] in Hi.
  - inversion Hi. subst m. rewrite Nat.add_0_r.
    rewrite video_items_covers by exact Hf.
    rewrite later_videos_cover by lia. reflexivity.
  - rewrite other_video_covers by lia.
    replace (j + S i)%nat with (S j + i)%nat by lia.
    rewrite (IH (S j) i meta Hi Hf). reflexivity.
Qed.

End OneVideo.

(** X23.  Under [All] sampling every frame of every video lies in the frames
    [[item_id, next_item_id)] of exactly one work item of the plan: no frame is
    left out and none is planned twice.  Hypotheses as for the plan itself:
    positive work item size, frame counts, number of videos and of items within
    [i32], enough fuel. *)
Theorem every_frame_in_one_item (fuel : nat) (W : Z) (videos : list VideoMetadata) :
  0 < W <= i32_max ->
  forallb (frames_ok fuel) videos = true ->
  Z.of_nat (length videos) <= i32_max ->
  exists p,
    plan_all fuel W videos = Ok p /\
    forall (i : nat) (meta : VideoMetadata) (f : Z),
      nth_error videos i = Some meta ->
      0 <= f < md_frames meta ->
      exists item,
        filter (covers (Z.of_nat i) f) (plan_work_items p) = [item] /\
        item_id item <= f < next_item_id item /\
        next_item_id item <= md_frames meta.
Proof.
  intros HW Hok Hvideos. unfold plan_all.
  assert (Hcount : Z.of_nat (0 + length videos) <= i32_max) by exact Hvideos.
  destruct (all_videos_items W HW fuel videos 0 empty_plan Hok Hcount)
    as [p [Hrun Hp]].
  cbn [empty_plan plan_work_items app] in Hp.
  exists p. split; [exact Hrun|].
  intros i meta f Hi Hf. rewrite Hp.
  pose proof (all_items_from_covers W ltac:(lia) f videos 0 i meta Hi Hf) as Hcov.
  cbn [Nat.add] in Hcov. rewrite Hcov.
  eexists. split; [reflexivity|].
  unfold all_item, chunk_size. cbn [item_id next_item_id].
  assert (Hq : 0 <= f / W) by (apply Z.div_pos; lia).
  rewrite Z2Nat.id by exact Hq.
  pose proof (Z.div_mod f W ltac:(lia)) as Hdm.
  pose proof (Z.mod_pos_bound f W ltac:(lia)) as Hr.
  lia.
Qed.

(** Two videos, of 40 and of 16 frames, in chunks of 16. *)
Lemma every_frame_in_one_item_witness :
  exists p,
    plan_all 40 16 [mkVideoMetadata 640 480 40 [0; 20] [0; 5000];
                    mkVideoMetadata 640 480 16 [0] [0]] = Ok p /\
    forall (i : nat) (meta : VideoMetadata) (f : Z),
      nth_error [mkVideoMetadata 640 480 40 [0; 20] [0; 5000];
                 mkVideoMetadata 640 480 16 [0] [0]] i = Some meta ->
      0 <= f < md_frames meta ->
      exists item,
        filter (covers (Z.of_nat i) f) (plan_work_items p) = [item] /\
        item_id item <= f < next_item_id item /\
        next_item_id item <= md_frames meta.
Proof.
  apply (every_frame_in_one_item 40 16 [mkVideoMetadata 640 480 40 [0; 20] [0; 5000];
                                        mkVideoMetadata 640 480 16 [0] [0]]).
  - unfold i32_max. lia.
  - reflexivity.
  - unfold i32_max. simpl. lia.
Defined.

End CoverFacts.

(** ** The stages of one node *)

Module NodeFacts.
Import Engine EngineFacts Node.

Lemma load_sentinel_stops (load_work : list LoadWorkEntry) :
  Forall (fun e => lw_work_item_index e <> -1) load_work ->
  LoadWorker.before_sentinel (load_work ++ [load_sentinel]) = load_work.
Proof.
  induction 1 as [|e rest He _ IH]; [reflexivity|].
  cbn [app LoadWorker.before_sentinel].
  destruct (Z.eqb_spec (lw_work_item_index e) (-1)) as [Heq|_]; [contradiction|].
  rewrite IH. reflexivity.
Qed.

Lemma eval_sentinel_stops (input_work : list EvalWorkEntry) :
  Forall (fun i => i <> -1) (map work_item_index input_work) ->
  Pipeline.before_sentinel (input_work ++ [eval_sentinel]) = input_work.
Proof.
  induction input_work as [|e rest IH]; intros H; [reflexivity|].
  cbn [map] in H. apply Forall_cons_iff in H. destruct H as [He Hrest].
  cbn [app Pipeline.before_sentinel].
  destruct (Z.eqb_spec (work_item_index e) (-1)) as [Heq|_]; [contradiction|].
  rewrite (IH Hrest). reflexivity.
Qed.

(** The load worker pushes one entry for every entry before the sentinel,
    with its work item index. *)
Lemma load_thread_indices (args : LoadWorker.LoadThreadArgs)
    (file_size_of : string -> Z) (sizeof_args : Z) :
  forall (load_work : list LoadWorkEntry) (th th' : LoadWorker.LoadThread)
         (pushed : list EvalWorkEntry),
    LoadWorker.load_video_thread args file_size_of sizeof_args th load_work
      = Ok (th', pushed) ->
    map work_item_index pushed =
      map lw_work_item_index (LoadWorker.before_sentinel load_work).
Proof.
  induction load_work as [|e rest IH]; intros th th' pushed H.
  - inversion H. reflexivity.
  - cbn [LoadWorker.load_video_thread LoadWorker.before_sentinel] in H |- *.
    destruct (lw_work_item_index e =? -1).
    + inversion H. reflexivity.
    + bind_inv H work_item. bind_inv H video_path. bind_inv H md.
      bind_inv H entry. bind_inv H r. destruct r as [th1 pushed1].
      inversion H. subst th' pushed. clear H.
      cbn [map]. rewrite (IH _ _ _ E3).
      unfold Load.load_entry in E2. bind_inv E2 rows. inversion E2.
      reflexivity.
Qed.

Section Stages.

Variable St : Type.

(** The evaluate worker pushes one entry for every entry before the
    sentinel, with its work item index. *)
Lemma evaluate_thread_indices (fuel : nat) (args : EvaluateThreadArgs) :
  forall (input_work : list EvalWorkEntry) (th th' : EvalThread St)
         (pushed : list EvalWorkEntry) (calls : list EvalCall)
         (mem : list MemEvent),
    evaluate_thread fuel args th input_work = Ok (th', pushed, calls, mem) ->
    map work_item_index pushed =
      map work_item_index (Pipeline.before_sentinel input_work).
Proof.
  induction input_work as [|work_entry rest IH]; intros th th' pushed calls mem H.
  - inversion H. reflexivity.
  - cbn [evaluate_thread Pipeline.before_sentinel] in H |- *.
    destruct (work_item_index work_entry =? -1).
    + inversion H. reflexivity.
    + bind_inv H oc. bind_inv H r. destruct r as [[[th1 pushed1] calls1] mem1].
      inversion H. subst th' pushed calls mem. clear H.
      cbn [map]. rewrite (IH _ _ _ _ _ E0).
      unfold process_entry in E.
      bind_inv E last_ev. bind_inv E work_item. bind_inv E md.
      destruct (configure_reset th work_item md) as [th2 calls2].
      bind_inv E p. destruct p as [[[evs' out_sizes] out_buffers] mem2].
      inversion E. reflexivity.
Qed.

(** The groups of a processing unit hand on the work item indices of the
    queue of the first group. *)
Lemma run_groups_indices (fuel : nat) :
  forall (groups : list (EvaluateThreadArgs * EvalThread St))
         (queue evaluated : list EvalWorkEntry),
    Forall (fun i => i <> -1) (map work_item_index queue) ->
    run_groups fuel groups queue = Ok evaluated ->
    map work_item_index evaluated = map work_item_index queue.
Proof.
  induction groups as [|[args th] rest IH]; intros queue evaluated Hq H.
  - inversion H. reflexivity.
  - cbn [run_groups] in H. bind_inv H r.
    destruct r as [[[th' pushed] calls] mem].
    pose proof (evaluate_thread_indices _ _ _ _ _ _ _ _ E) as Hidx.
    rewrite (eval_sentinel_stops _ Hq) in Hidx.
    rewrite (IH pushed evaluated); [exact Hidx | rewrite Hidx; exact Hq | exact H].
Qed.

End Stages.

(** The save worker writes the files of the entries before the sentinel,
    those of one entry together and named by its work item index. *)
Lemma save_thread_indices (args : Save.SaveThreadArgs) :
  forall (input_work : list EvalWorkEntry) (retired_items retired : Z)
         (files : list Save.OutputFile) (m : list MemEvent),
    Save.save_thread args input_work retired_items = Ok (retired, files, m) ->
    retired = retired_items + Z.of_nat (length (Pipeline.before_sentinel input_work)) /\
    map Save.of_work_item_index files =
      flat_map (fun i => repeat i (length (Save.sa_output_names args)))
               (map work_item_index (Pipeline.before_sentinel input_work)).
Proof.
  induction input_work as [|work_entry rest IH]; intros r r' files m H.
  - inversion H. cbn [Pipeline.before_sentinel length map flat_map]. split; [lia | reflexivity].
  - cbn [Save.save_thread Pipeline.before_sentinel] in H |- *.
    destruct (work_item_index work_entry =? -1).
    + inversion H. cbn [length map flat_map]. split; [lia | reflexivity].
    + bind_inv H work_item. bind_inv H path. bind_inv H md.
      bind_inv H p. destruct p as [files1 m1].
      bind_inv H q. destruct q as [[r1 files2] m2].
      inversion H. subst r' files m. clear H.
      destruct (IH _ _ _ _ E3) as [Hr Hf].
      split; [cbn [length]; lia|].
      cbn [map flat_map]. rewrite map_app, Hf. f_equal.
      unfold Save.save_entry in E2. bind_inv E2 saved. inversion E2.
      subst files1 m1. clear -E4.
      revert saved E4.
      generalize (match buffers work_entry with
                  | [] => 0%nat
                  | col0 :: _ => length col0
                  end).
      intros num_frames. generalize 0%nat.
      induction (length (Save.sa_output_names args)) as [|k IHk];
        intros j saved H.
      * inversion H. reflexivity.
      * cbn [seq mapM] in H. bind_inv H p. destruct p as [file mm].
        bind_inv H rest. inversion H. subst saved. clear H.
        cbn [map fst repeat]. rewrite (IHk _ _ E0). f_equal.
        unfold Save.save_column in E.
        bind_inv E name. bind_inv E made. bind_inv E sizes. bind_inv E g1.
        bind_inv E bufs.
        bind_inv E g2. bind_inv E header. bind_inv E data. bind_inv E released.
        inversion E. reflexivity.
Qed.

(** X25.  On a node with one worker per stage a job that runs to its end
    retires every entry that was put into the load queue, once: the counter of
    retired items ends at the number of entries, and the output files are
    those of the entries in the order of the queue, one per output column,
    each named by the work item index of its entry. *)
Theorem node_retires_every_entry (St : Type) (fuel : nat)
    (load_args : LoadWorker.LoadThreadArgs) (file_size_of : string -> Z)
    (sizeof_args : Z) (groups : list (EvaluateThreadArgs * EvalThread St))
    (save_args : Save.SaveThreadArgs) (load_work : list LoadWorkEntry)
    (retired : Z) (files : list Save.OutputFile) (m : list MemEvent) :
  Forall (fun e => lw_work_item_index e <> -1) load_work ->
  run_node fuel load_args file_size_of sizeof_args groups save_args load_work
    = Ok (retired, files, m) ->
  retired = Z.of_nat (length load_work) /\
  map Save.of_work_item_index files =
    flat_map (fun e => repeat (lw_work_item_index e)
                              (length (Save.sa_output_names save_args)))
             load_work.
Proof.
  intros Hload H. unfold run_node in H.
  bind_inv H r. destruct r as [th loaded]. bind_inv H evaluated.
  pose proof (load_thread_indices _ _ _ _ _ _ _ E) as Hl.
  rewrite (load_sentinel_stops _ Hload) in Hl.
  assert (Hq : Forall (fun i => i <> -1) (map work_item_index loaded)).
  { rewrite Hl. apply Forall_map. exact Hload. }
  pose proof (run_groups_indices St fuel _ _ _ Hq E0) as He.
  destruct (save_thread_indices _ _ _ _ _ _ H) as [Hr Hf].
  rewrite eval_sentinel_stops in Hr, Hf by (rewrite He; exact Hq).
  split.
  - rewrite Hr. rewrite <- (length_map work_item_index evaluated), He, Hl, length_map.
    lia.
  - rewrite Hf, He, Hl. clear. induction load_work as [|e rest IH]; [reflexivity|].
    cbn [map flat_map]. rewrite IH. reflexivity.
Qed.

(** The four entries of the plan of two videos go through both groups. *)
Lemma node_retires_every_entry_witness :
  Forall (fun e => lw_work_item_index e <> -1) two_videos_entries /\
  match run_node 4 LoadWorker.two_videos LoadWorker.stored_size 64 two_groups
                 two_videos_save two_videos_entries
  with
  | Ok (retired, files, _) =>
      retired = Z.of_nat (length two_videos_entries) /\
      map Save.of_work_item_index files =
        flat_map (fun e => repeat (lw_work_item_index e)
                                  (length (Save.sa_output_names two_videos_save)))
                 two_videos_entries
  | Err _ => False
  end.
Proof.
  assert (Hload : Forall (fun e => lw_work_item_index e <> -1) two_videos_entries).
  { repeat constructor; discriminate. }
  split; [exact Hload|].
  destruct (run_node 4 LoadWorker.two_videos LoadWorker.stored_size 64 two_groups
                     two_videos_save two_videos_entries)
    as [[[retired files] m]|f] eqn:E.
  - exact (node_retires_every_entry unit 4 _ _ _ _ _ _ retired files m Hload E).
  - vm_compute in E. discriminate E.
Defined.

End NodeFacts.

(** ** Warmup trimming *)

Module TrimFacts.
Import Engine EngineFacts Batches.

Lemma skipn_prefix {A : Type} (l1 l2 : list A) (n : nat) :
  length l1 = n -> skipn n (l1 ++ l2) = l2.
Proof.
  intros <-. rewrite skipn_app, skipn_all, Nat.sub_diag. reflexivity.
Qed.

Lemma repeat_nil_columns {A : Type} (n : nat) :
  repeat (@nil A) n = map (fun _ => []) (seq 0 n).
Proof.
  generalize 0%nat. induction n as [|n IH]; intros j; [reflexivity|].
  cbn [repeat seq map]. rewrite (IH (S j)). reflexivity.
Qed.

Lemma append_columns_map {A : Type} (f g : nat -> list A) (cols : list nat) :
  append_columns (map f cols) (map g cols) = map (fun i => f i ++ g i) cols.
Proof.
  induction cols as [|i cols IH]; [reflexivity|].
  cbn [map append_columns]. rewrite IH. reflexivity.
Qed.

(** What [keep_column] keeps of a column and hands to [delete_buffer]. *)
Lemma keep_column_exact (b : Batch) (last_t : DeviceType) (last_id : Z)
    (w : Z) (i : nat) (ks : list Z) (kb : list Buffer) (m : list MemEvent) :
  keep_column (bt_out b) last_t last_id w (bt_batch_size b) i = Ok (ks, kb, m) ->
  0 <= w /\
  ks = skipn (Z.to_nat w) (column (sg_sizes (bt_out b)) i) /\
  kb = kept_rows b w (column (sg_buffers (bt_out b)) i) /\
  deleted m = released_rows b w (column (sg_buffers (bt_out b)) i) /\
  copied m = copied_rows b w (column (sg_buffers (bt_out b)) i).
Proof.
  unfold keep_column. intros H.
  bind_inv_eq H sizes Es. apply vec_get_ok in Es.
  bind_inv_eq H bufs Eb. apply vec_get_ok in Eb.
  bind_inv_eq H u Eu. apply guard_ok, Nat.eqb_eq in Eu.
  bind_inv_eq H warm Ew.
  bind_inv_eq H p Ep. destruct p as [bufs' m2].
  bind_inv_eq H kept_sizes Eks.
  bind_inv_eq H kept_bufs Ekb.
  inversion H. subst ks kb m. clear H.
  unfold column. rewrite (nth_error_nth _ _ _ Es), (nth_error_nth _ _ _ Eb).
  pose proof (vec_range_ok _ _ _ _ Eks) as [Hw1 [_ _]].
  apply vec_range_suffix in Eks. subst kept_sizes.
  assert (Hwlen : 0 <= w <= len bufs) by (unfold len in *; lia).
  assert (Hwarm : warm = firstn (Z.to_nat w) bufs).
  { destruct (0 <? w) eqn:Hpos.
    - apply vec_range_prefix in Ew. exact Ew.
    - apply Z.ltb_ge in Hpos. inversion Ew.
      replace w with 0 by lia. reflexivity. }
  subst warm.
  rewrite deleted_app, copied_app, deleted_map_delete, copied_map_delete.
  cbn [app].
  unfold kept_rows, released_rows, copied_rows, copies_out.
  destruct (negb (device_eqb (sg_type (bt_out b)) CPU) && (w <? bt_batch_size b)).
  - bind_inv_eq Ep rows Er.
    bind_inv_eq Ep szs Esz.
    bind_inv_eq Ep p Em. destruct p as [moved mm]. inversion Ep. subst bufs' m2.
    clear Ep.
    destruct (migrate_column_ok _ _ _ _ _ _ _ _ Em) as [-> [Hd Hc]].
    pose proof (vec_range_ok _ _ _ _ Er) as [_ [_ Hrows]].
    apply vec_range_suffix in Ekb. subst kept_bufs.
    rewrite Hd, Hc, <- Hrows.
    split; [lia|]. split; [reflexivity|]. split; [|split; reflexivity].
    apply skipn_prefix. rewrite length_firstn. unfold len in Hwlen. lia.
  - inversion Ep. subst bufs' m2. clear Ep.
    apply vec_range_suffix in Ekb. subst kept_bufs.
    cbn [deleted copied]. rewrite !app_nil_r.
    split; [lia|]. repeat split; reflexivity.
Qed.

Lemma keep_columns_exact (b : Batch) (last_t : DeviceType) (last_id : Z) (w : Z) :
  forall (cols : list nat) kss kbs m,
    keep_columns (bt_out b) last_t last_id w (bt_batch_size b) cols
      = Ok (kss, kbs, m) ->
    kss = map (fun i => skipn (Z.to_nat w) (column (sg_sizes (bt_out b)) i)) cols /\
    kbs = map (fun i => kept_rows b w (column (sg_buffers (bt_out b)) i)) cols /\
    deleted m =
      flat_map (fun i => released_rows b w (column (sg_buffers (bt_out b)) i)) cols /\
    copied m =
      flat_map (fun i => copied_rows b w (column (sg_buffers (bt_out b)) i)) cols.
Proof.
  induction cols as [|i cols IH]; intros kss kbs m H.
  - inversion H. repeat split.
  - cbn [keep_columns] in H.
    bind_inv_eq H p Ep. destruct p as [[ks kb] m1].
    bind_inv_eq H q Erest. destruct q as [[kss' kbs'] m2].
    inversion H. subst kss kbs m. clear H.
    destruct (keep_column_exact _ _ _ _ _ _ _ _ Ep) as [_ [-> [-> [Hd Hc]]]].
    destruct (IH _ _ _ eq_refl) as [-> [-> [Hd' Hc']]].
    cbn [map flat_map]. rewrite deleted_app, copied_app, Hd, Hc, Hd', Hc'.
    repeat split.
Qed.

Section Trace.

Context {St : Type}.

Lemma run_chain_nonneg (evs : list (Evaluator St)) :
  forall (e : nat) (decode : bool) (batch_size : Z) (out : Stage)
         evs' batch_size' final m,
    0 <= batch_size ->
    run_chain e evs decode batch_size out = Ok (evs', batch_size', final, m) ->
    0 <= batch_size'.
Proof.
  induction evs as [|ev rest IH]; intros e decode bs out evs' bs' final m Hbs H.
  - inversion H. subst. exact Hbs.
  - cbn [run_chain] in H. cbv zeta in H.
    bind_inv H p. destruct p as [[[in_buffers in_type] in_id] m1].
    destruct (ev_evaluate ev (ev_state ev) in_buffers (sg_sizes out))
      as [[st' output_buffers] output_sizes].
    bind_inv H u1. bind_inv H u2.
    bind_inv H bs1.
    bind_inv H q. destruct q as [[[rest' fbs] fin] m3].
    inversion H. subst. eapply IH; [|exact E3].
    destruct (Nat.eqb e 0 && decode).
    + bind_inv E2 col0. inversion E2. unfold len. lia.
    + inversion E2. subst. exact Hbs.
Qed.

(** The batched pass keeps, of what the evaluators publish for each batch,
    the rows behind the warmup rows, and hands the warmup rows and the rows
    it copied to [delete_buffer].  [w] is the count of warmup rows of a
    batch. *)
Lemma batched_pass_trims (args : EvaluateThreadArgs) (work_entry : EvalWorkEntry)
    (work_item : VideoWorkItem) (reset : bool) (last_t : DeviceType)
    (last_id : Z) (n : nat) (total : Z) (w : Batch -> Z) :
  (forall b, 0 <= bt_batch_size b -> 0 <= bt_current_input b ->
             w b = warmup_frames args reset work_item (bt_batch_size b)
                                 (bt_current_input b)) ->
  forall (fuel : nat) (current_input : Z) (evs : list (Evaluator St))
         (Fs : nat -> list Z) (Fb : nat -> list Buffer) evs' out_sizes out_buffers m,
    0 <= current_input ->
    (buffers work_entry = [] -> total <= current_input) ->
    batched_pass fuel args work_entry work_item reset last_t last_id n total
                 current_input evs (map Fs (seq 0 n)) (map Fb (seq 0 n))
      = Ok (evs', out_sizes, out_buffers, m) ->
    exists bs,
      chain_batches fuel args work_entry total current_input evs = Ok bs /\
      Forall (fun b => 0 <= w b <= bt_batch_size b) bs /\
      out_sizes =
        map (fun i => Fs i ++
                      flat_map (fun b => skipn (Z.to_nat (w b))
                                               (column (sg_sizes (bt_out b)) i)) bs)
            (seq 0 n) /\
      out_buffers =
        map (fun i => Fb i ++
                      flat_map (fun b => kept_rows b (w b)
                                                   (column (sg_buffers (bt_out b)) i)) bs)
            (seq 0 n) /\
      deleted m =
        by_batch n bs (fun b => deleted (bt_mem b))
                 (fun b i => released_rows b (w b) (column (sg_buffers (bt_out b)) i)) /\
      copied m =
        by_batch n bs (fun b => copied (bt_mem b))
                 (fun b i => copied_rows b (w b) (column (sg_buffers (bt_out b)) i)).
Proof.
  intros Hw.
  induction fuel as [|fuel IH];
    intros cur evs Fs Fb evs' out_sizes out_buffers m Hcur Hempty H.
  - cbn [batched_pass chain_batches] in H |- *.
    destruct (cur <? total); [discriminate|].
    inversion H. subst. exists []. split; [reflexivity|]. split; [constructor|].
    cbn [flat_map by_batch]. repeat split;
      apply map_ext; intros i; rewrite app_nil_r; reflexivity.
  - cbn [batched_pass chain_batches] in H |- *.
    destruct (cur <? total) eqn:Elt.
    + apply Z.ltb_lt in Elt. cbv zeta in H |- *.
      bind_inv_eq H output_buffers Eob.
      bind_inv_eq H output_sizes Eos.
      bind_inv_eq H r Erc. destruct r as [[[evs1 bs1] out] m1].
      bind_inv_eq H k Ek. destruct k as [[kept_sizes kept_buffers] m2].
      bind_inv_eq H q Erest. destruct q as [[[evs2 S2] B2] m3].
      inversion H. subst evs' out_sizes out_buffers m. clear H.
      cbn [bind].
      assert (Hbs0 : 0 <= Z.min total (WORK_ITEM_SIZE args)).
      { destruct (buffers work_entry) as [|col0 cols] eqn:Ebuf.
        - specialize (Hempty eq_refl). lia.
        - cbn [mapM] in Eob. bind_inv_eq Eob c0 Ec0.
          apply vec_range_ok in Ec0. lia. }
      pose proof (run_chain_nonneg _ _ _ _ _ _ _ _ _ Hbs0 Erc) as Hbs1.
      set (b := mkBatch cur bs1 out m1).
      assert (Hwb : warmup_frames args reset work_item bs1 cur = w b).
      { symmetry. apply (Hw b); assumption. }
      rewrite Hwb in Ek.
      destruct (keep_columns_exact b last_t last_id (w b) _ _ _ _ Ek)
        as [-> [-> [Hd2 Hc2]]].
      rewrite !append_columns_map in Erest.
      assert (Hcur' : 0 <= cur + bs1) by lia.
      assert (Hempty' : buffers work_entry = [] -> total <= cur + bs1).
      { intros He. specialize (Hempty He). lia. }
      destruct (IH _ _ _ _ _ _ _ _ Hcur' Hempty' Erest)
        as [bs [Hbs [Hall [-> [-> [Hd3 Hc3]]]]]].
      exists (b :: bs).
      split; [rewrite Erc; cbn [bind]; rewrite Hbs; reflexivity|]. split.
      * constructor; [|exact Hall].
        rewrite <- Hwb. unfold warmup_frames, b. cbn [bt_batch_size].
        destruct (last_evaluator_group args && reset); lia.
      * cbn [flat_map by_batch]. fold (by_batch n bs).
        rewrite !deleted_app, !copied_app, Hd2, Hc2, Hd3, Hc3.
        split; [apply map_ext; intros i; rewrite app_assoc; reflexivity|].
        split; [apply map_ext; intros i; rewrite app_assoc; reflexivity|].
        unfold by_batch. cbn [bt_mem b]. rewrite <- !app_assoc. split; reflexivity.
    + inversion H. subst. exists []. split; [reflexivity|]. split; [constructor|].
      cbn [flat_map by_batch]. repeat split;
        apply map_ext; intros i; rewrite app_nil_r; reflexivity.
Qed.

End Trace.

(** C2.  For an entry that the worker gets through, take the batches of the
    entry as its evaluators publish them.  The count of warmup rows of a
    batch is [min (batch_size, max (0, min (warmup_count, rows_from_start) -
    current_input))] in the last factory group when the entry required a
    reset, and zero in every other case; it lies between 0 and [batch_size].
    Of every output column of every batch the worker keeps, in the entry it
    pushes, the sizes and the rows behind that many leading rows; what it
    hands to [delete_buffer] besides what the evaluators released are, column
    by column, exactly those leading rows, followed by the rows that it
    copied to CPU memory because the last evaluator does not publish there
    (the copies are the rows kept). *)
Theorem warmup_trimming {St : Type} (fuel : nat) (args : EvaluateThreadArgs)
    (th : EvalThread St) (work_entry : EvalWorkEntry) (oc : EntryOutcome St) :
  process_entry fuel args th work_entry = Ok oc ->
  exists work_item md before last_ev bs,
    vec_get_z (work_items args) (work_item_index work_entry) = Ok work_item /\
    vec_get_z (metadata args) (video_index work_item) = Ok md /\
    evaluators th = before ++ [last_ev] /\
    chain_batches fuel args work_entry (total_inputs work_entry) 0
                  (evaluators (fst (configure_reset th work_item md))) = Ok bs /\
    let columns := length (ev_output_names last_ev) in
    let total_warmup := Z.min (warmup_count args) (rows_from_start work_item) in
    let warmup_in_batch := fun b =>
      if last_evaluator_group args && needs_reset work_item th
      then Z.min (bt_batch_size b) (Z.max 0 (total_warmup - bt_current_input b))
      else 0 in
    Forall (fun b => 0 <= warmup_in_batch b <= bt_batch_size b) bs /\
    buffer_sizes (oc_entry oc) =
      by_column columns bs
        (fun b i => skipn (Z.to_nat (warmup_in_batch b))
                          (column (sg_sizes (bt_out b)) i)) /\
    buffers (oc_entry oc) =
      by_column columns bs
        (fun b i => kept_rows b (warmup_in_batch b)
                              (column (sg_buffers (bt_out b)) i)) /\
    deleted (oc_mem oc) =
      by_batch columns bs (fun b => deleted (bt_mem b))
        (fun b i => released_rows b (warmup_in_batch b)
                                  (column (sg_buffers (bt_out b)) i)) /\
    copied (oc_mem oc) =
      by_batch columns bs (fun b => copied (bt_mem b))
        (fun b i => copied_rows b (warmup_in_batch b)
                                (column (sg_buffers (bt_out b)) i)).
Proof.
  intros H. unfold process_entry in H.
  destruct (rev (evaluators th)) as [|last_ev before] eqn:Erev; [discriminate H|].
  cbn [bind] in H.
  bind_inv_eq H work_item Ewi. bind_inv_eq H md Emd.
  destruct (configure_reset th work_item md) as [th1 calls] eqn:Ecr.
  bind_inv_eq H p Ep. destruct p as [[[evs' out_sizes] out_buffers] mem].
  inversion H. subst oc. clear H.
  exists work_item, md, (rev before), last_ev.
  rewrite !repeat_nil_columns in Ep.
  destruct (batched_pass_trims args work_entry work_item (needs_reset work_item th)
              (ev_device_type last_ev) (ev_device_id last_ev)
              (length (ev_output_names last_ev))
              (match buffers work_entry with
               | [] => 0
               | col0 :: _ => to_i32 (len col0)
               end)
              (fun b =>
                 if last_evaluator_group args && needs_reset work_item th
                 then Z.min (bt_batch_size b)
                            (Z.max 0 (Z.min (warmup_count args)
                                            (rows_from_start work_item)
                                      - bt_current_input b))
                 else 0)
              ltac:(intros b _ _; reflexivity)
              fuel 0 (evaluators th1) _ _ _ _ _ _ (Z.le_refl 0)
              ltac:(intros ->; apply Z.le_refl) Ep)
    as [bs [Hbs [Hall [Hs [Hb [Hd Hc]]]]]].
  exists bs. split; [reflexivity|]. split; [exact Emd|].
  split; [rewrite <- (rev_involutive (evaluators th)), Erev; reflexivity|].
  rewrite Ecr. split; [exact Hbs|]. cbv zeta. cbn [oc_entry oc_mem buffer_sizes buffers fst].
  split; [exact Hall|]. split; [exact Hs|]. split; [exact Hb|].
  split; [exact Hd | exact Hc].
Qed.

(** A GPU evaluator in the last group, on an entry of three rows of the item
    that starts at row 16 of its video, of which one is a warmup row. *)
Lemma warmup_trimming_witness :
  let args := mkEvaluateThreadArgs 1 [Scenario.s5_video]
                                   [mkVideoWorkItem 0 16 19 16] true 16 in
  let th := initial_thread [Scenario.copy_evaluator GPU 1] in
  let rows := [mkBuffer CPU 0 (Data 15); mkBuffer CPU 0 (Data 16);
               mkBuffer CPU 0 (Data 17)] in
  let work_entry :=
    mkEvalWorkEntry 0 ["frame"%string] [[1; 1; 1]] [rows] CPU 0 false in
  match process_entry 3 args th work_entry with
  | Ok oc =>
      exists bs,
        chain_batches 3 args work_entry 3 0 [Scenario.copy_evaluator GPU 1] = Ok bs /\
        map bt_batch_size bs = [3] /\
        map (fun b => column (sg_buffers (bt_out b)) 0) bs =
          [map (copy_to GPU 1) rows] /\
        buffer_sizes (oc_entry oc) = [[1; 1]] /\
        buffers (oc_entry oc) = [map (copy_to CPU 0) (skipn 1 rows)] /\
        deleted (oc_mem oc) =
          rows ++ map (copy_to GPU 1) rows ++
          firstn 1 (map (copy_to GPU 1) rows) ++
          skipn 1 (map (copy_to GPU 1) rows)
  | Err _ => False
  end.
Proof.
  cbv zeta.
  match goal with
  | |- match ?run with _ => _ end => destruct run as [oc|f] eqn:E
  end.
  - destruct (warmup_trimming 3 _ _ _ oc E)
      as [work_item [md [before [last_ev [bs [Hwi [Hmd [Hev [Hbs H]]]]]]]]].
    cbv zeta in H. destruct H as [_ [Hs [Hb [Hd _]]]].
    vm_compute in Hwi. inversion Hwi. subst work_item.
    vm_compute in Hmd. inversion Hmd. subst md.
    assert (Hlast : last_ev = Scenario.copy_evaluator GPU 1).
    { destruct before as [|x [|y before]]; inversion Hev; reflexivity. }
    subst last_ev.
    vm_compute in Hbs. inversion Hbs. subst bs.
    exists [mkBatch 0 3
              (mkStage ["frame"%string]
                 [[mkBuffer GPU 1 (Data 15); mkBuffer GPU 1 (Data 16);
                   mkBuffer GPU 1 (Data 17)]]
                 [[1; 1; 1]] GPU 1)
              [NewBuffer GPU 1 1;
               MemcpyBuffer (mkBuffer GPU 1 (Data 15)) (mkBuffer CPU 0 (Data 15)) 1;
               DeleteBuffer CPU 0 (mkBuffer CPU 0 (Data 15));
               NewBuffer GPU 1 1;
               MemcpyBuffer (mkBuffer GPU 1 (Data 16)) (mkBuffer CPU 0 (Data 16)) 1;
               DeleteBuffer CPU 0 (mkBuffer CPU 0 (Data 16));
               NewBuffer GPU 1 1;
               MemcpyBuffer (mkBuffer GPU 1 (Data 17)) (mkBuffer CPU 0 (Data 17)) 1;
               DeleteBuffer CPU 0 (mkBuffer CPU 0 (Data 17));
               DeleteBuffer GPU 1 (mkBuffer GPU 1 (Data 15));
               DeleteBuffer GPU 1 (mkBuffer GPU 1 (Data 16));
               DeleteBuffer GPU 1 (mkBuffer GPU 1 (Data 17))]].
    split; [reflexivity|]. split; [reflexivity|]. split; [reflexivity|].
    split; [rewrite Hs; reflexivity|]. split; [rewrite Hb; reflexivity|].
    rewrite Hd. reflexivity.
  - vm_compute in E. discriminate E.
Defined.

(** C3, as amended.  With [warmup_count = 8], [All] sampling over one video
    of 40 frames and [WORK_ITEM_SIZE = 16], the plan has the items [0, 16),
    [16, 32) and [32, 40) with [rows_from_start] 0, 16 and 32.  Whatever the
    evaluators of a worker publish for an entry of the plan, batch by batch,
    the worker releases as warmup rows no row of an entry of the first item,
    no row in a group that is not the last, and no row of an entry that did
    not require a reset: all published rows are then kept in the entry it
    pushes.  Of an entry of the second or of the third item that required a
    reset, the last group hands the [min (batch_size, max (0, 8 -
    current_input))] leading rows of every column of every batch to
    [delete_buffer], the 8 rows published first when the first batch has
    that many, and keeps the rows behind them. *)
Theorem s5_warmup_release :
  exists p,
    Scenario.s5_plan = Ok p /\
    Planner.plan_work_items p =
      [mkVideoWorkItem 0 0 16 0; mkVideoWorkItem 0 16 32 16;
       mkVideoWorkItem 0 32 40 32] /\
    map lw_interval (Planner.plan_load_work_items p) =
      [mkInterval 0 16; mkInterval 16 32; mkInterval 32 40] /\
    forall (St : Type) (last_group : bool) (fuel : nat) (th : EvalThread St)
           (work_entry : EvalWorkEntry) (oc : EntryOutcome St),
      process_entry fuel (Scenario.s5_args last_group p) th work_entry = Ok oc ->
      exists work_item before last_ev bs,
        vec_get_z (Planner.plan_work_items p) (work_item_index work_entry)
          = Ok work_item /\
        evaluators th = before ++ [last_ev] /\
        chain_batches fuel (Scenario.s5_args last_group p) work_entry
                      (total_inputs work_entry) 0
                      (evaluators (fst (configure_reset th work_item
                                                        Scenario.s5_video)))
          = Ok bs /\
        let columns := length (ev_output_names last_ev) in
        let released := fun b =>
          if last_group && needs_reset work_item th &&
             negb (item_id work_item =? 0)
          then Z.min (bt_batch_size b) (Z.max 0 (8 - bt_current_input b))
          else 0 in
        Forall (fun b => 0 <= released b <= bt_batch_size b) bs /\
        buffer_sizes (oc_entry oc) =
          by_column columns bs
            (fun b i => skipn (Z.to_nat (released b))
                              (column (sg_sizes (bt_out b)) i)) /\
        buffers (oc_entry oc) =
          by_column columns bs
            (fun b i => kept_rows b (released b)
                                  (column (sg_buffers (bt_out b)) i)) /\
        deleted (oc_mem oc) =
          by_batch columns bs (fun b => deleted (bt_mem b))
            (fun b i => released_rows b (released b)
                                      (column (sg_buffers (bt_out b)) i)) /\
        copied (oc_mem oc) =
          by_batch columns bs (fun b => copied (bt_mem b))
            (fun b i => copied_rows b (released b)
                                    (column (sg_buffers (bt_out b)) i)).
Proof.
  destruct ScenarioFacts.s5_plan_items as [p [Hp [Hitems Hloads]]].
  exists p. split; [exact Hp|]. split; [exact Hitems|]. split; [exact Hloads|].
  intros St last_group fuel th work_entry oc H. unfold process_entry in H.
  destruct (rev (evaluators th)) as [|last_ev before] eqn:Erev; [discriminate H|].
  cbn [bind Scenario.s5_args work_items metadata] in H.
  bind_inv_eq H work_item Ewi. bind_inv_eq H md Emd.
  assert (Hin : In work_item
                   [mkVideoWorkItem 0 0 16 0; mkVideoWorkItem 0 16 32 16;
                    mkVideoWorkItem 0 32 40 32]).
  { rewrite <- Hitems. eapply LoadFacts.vec_get_z_In. exact Ewi. }
  assert (Hmd : md = Scenario.s5_video).
  { destruct Hin as [<-|[<-|[<-|[]]]]; vm_compute in Emd; inversion Emd;
      reflexivity. }
  subst md.
  destruct (configure_reset th work_item Scenario.s5_video) as [th1 calls] eqn:Ecr.
  bind_inv_eq H r Er. destruct r as [[[evs' out_sizes] out_buffers] mem].
  inversion H. subst oc. clear H.
  exists work_item, (rev before), last_ev.
  rewrite !repeat_nil_columns in Er.
  assert (Hw : forall b, 0 <= bt_batch_size b -> 0 <= bt_current_input b ->
                (if last_group && needs_reset work_item th &&
                    negb (item_id work_item =? 0)
                 then Z.min (bt_batch_size b) (Z.max 0 (8 - bt_current_input b))
                 else 0) =
                warmup_frames (Scenario.s5_args last_group p)
                              (needs_reset work_item th) work_item
                              (bt_batch_size b) (bt_current_input b)).
  { intros b Hsize Hcur. unfold warmup_frames.
    cbn [Scenario.s5_args last_evaluator_group warmup_count].
    destruct last_group, (needs_reset work_item th); cbn [andb]; try reflexivity.
    destruct Hin as [<-|[<-|[<-|[]]]]; cbn [item_id rows_from_start Z.eqb negb];
      lia. }
  assert (Hempty : buffers work_entry = [] ->
                   match buffers work_entry with
                   | [] => 0
                   | col0 :: _ => to_i32 (len col0)
                   end <= 0).
  { intros ->. apply Z.le_refl. }
  destruct (batched_pass_trims (Scenario.s5_args last_group p) work_entry work_item
              (needs_reset work_item th)
              (ev_device_type last_ev) (ev_device_id last_ev)
              (length (ev_output_names last_ev)) _ _ Hw
              fuel 0 (evaluators th1) _ _ _ _ _ _ (Z.le_refl 0) Hempty Er)
    as [bs [Hbs [Hall [Hs [Hb [Hd Hc]]]]]].
  exists bs. split; [reflexivity|].
  split; [rewrite <- (rev_involutive (evaluators th)), Erev; reflexivity|].
  rewrite Ecr. split; [exact Hbs|]. cbv zeta.
  cbn [oc_entry oc_mem buffer_sizes buffers fst].
  split; [exact Hall|]. split; [exact Hs|]. split; [exact Hb|].
  split; [exact Hd | exact Hc].
Qed.

End TrimFacts.

(** ** Configure and reset on an entry *)

Module PolicyFacts.
Import Engine EngineFacts Batches.

Section WithState.
Context {St : Type}.




End WithState.


End PolicyFacts.

(** ** Resets under [SequenceGather] *)

Module SequenceFacts.
Import Engine Planner EngineFacts Batches Resets.



Section WithState.
Context {St : Type}.



End WithState.




End SequenceFacts.

(** ** A decoder that publishes no rows *)

Module RepeatFacts.
Import Engine EngineFacts Pipeline SilentFacts.

Section Quiet.
Context {St : Type}.

(** One pass of the loop over a decode entry with such a decoder: every row
    of the slice is handed to [delete_buffer], nothing is kept, and the loop
    goes on with [current_input] still 0. *)
Lemma silent_pass (args : EvaluateThreadArgs) (work_entry : EvalWorkEntry)
    (work_item : VideoWorkItem) (reset : bool) (names : list string)
    (t : DeviceType) (id total : Z) (slices : list (list Buffer)) :
  video_decode_item work_entry = true ->
  length (buffers work_entry) = length (buffer_sizes work_entry) ->
  Forall (fun col => len col = total) (buffer_sizes work_entry) ->
  0 < total -> 0 < WORK_ITEM_SIZE args ->
  (0 < length names)%nat ->
  mapM (fun col => vec_range col 0 (Z.min total (WORK_ITEM_SIZE args)))
       (buffers work_entry) = Ok slices ->
  forall ev : Evaluator St,
    publishes_nothing ev ->
    ev_output_names ev = names ->
    exists st' m1,
      Forall (Forall (fun row =>
                        In (DeleteBuffer (buffer_type work_entry)
                                         (buffer_device_id work_entry) row) m1))
             slices /\
      forall (fuel : nat) (acc_sizes : list (list Z))
             (acc_buffers : list (list Buffer)),
        length acc_sizes = length names ->
        length acc_buffers = length names ->
        batched_pass (S fuel) args work_entry work_item reset t id (length names)
                     total 0 [ev] acc_sizes acc_buffers =
        ('(evs, out_sizes, out_buffers, m3) <-
           batched_pass fuel args work_entry work_item reset t id (length names)
                        total 0 [set_state ev st'] acc_sizes acc_buffers ;;
         Ok (evs, out_sizes, out_buffers, m1 ++ m3)).
Proof.
  intros Hvd Hshape Hsizes Htotal HW Hn Hslices ev Hsilent Hnames.
  destruct (mapM_vec_range_returns total 0 (Z.min total (WORK_ITEM_SIZE args))
              ltac:(lia) ltac:(lia) (buffer_sizes work_entry) Hsizes)
    as [szs [Hszs [Hl2 Hu2]]].
  rewrite Z.sub_0_r in Hu2.
  assert (Hl1 : length slices = length (buffers work_entry)).
  { clear -Hslices. revert slices Hslices.
    induction (buffers work_entry) as [|col cols IH]; intros slices H.
    - inversion H. reflexivity.
    - cbn [mapM] in H. bind_inv H c. bind_inv H cs. inversion H. subst.
      cbn [length]. rewrite (IH cs eq_refl). reflexivity. }
  assert (Hu1 : Forall (fun col => len col = Z.min total (WORK_ITEM_SIZE args))
                       slices).
  { pose proof (mapM_vec_range_len _ _ _ _ Hslices) as H.
    eapply Forall_impl; [|exact H]. intros col Hc. cbn beta in Hc. lia. }
  destruct (run_chain_silent ev (Z.min total (WORK_ITEM_SIZE args))
              (mkStage (column_names work_entry) slices szs (buffer_type work_entry)
                       (buffer_device_id work_entry)) Hsilent)
    as [st' [m1 Hrun]].
  { rewrite Hnames. exact Hn. }
  { cbn [sg_buffers sg_sizes]. lia. }
  { split; assumption. }
  exists st', m1. split.
  - apply Forall_forall. intros col Hcol. apply Forall_forall. intros row Hrow.
    exact (ReleaseFacts.run_chain_releases_inputs _ _ _ _ _ _ _ _ _ _ Hrun
             col row Hcol Hrow).
  - intros fuel acc_sizes acc_buffers Has Hab.
    cbn [batched_pass].
    destruct (0 <? total) eqn:Hlt; [|apply Z.ltb_ge in Hlt; lia].
    cbv zeta. cbn [Z.add]. rewrite Hslices, Hszs. cbn [bind]. rewrite Hvd.
    rewrite Hrun. cbn [bind]. rewrite Hnames.
    rewrite warmup_of_nothing.
    rewrite keep_columns_nothing
      by (apply Forall_forall; intros i Hi; apply in_seq in Hi; lia).
    cbn [bind]. rewrite length_seq.
    rewrite !append_nothing by assumption.
    cbn [Z.add app].
    destruct (batched_pass fuel args work_entry work_item reset t id
                           (length names) total 0 [set_state ev st']
                           acc_sizes acc_buffers) as [[[[evs S'] B'] m3]|f];
      reflexivity.
Qed.

(** X15.  When the decoder of a group publishes no rows for a decode entry
    that has rows, [batch_size] is set to [output_sizes[0].size () = 0] and
    [current_input += batch_size] leaves [current_input] at 0.  A pass of the
    loop hands every row of the slice to [delete_buffer] and keeps nothing;
    the loop is then entered again on the same slice, so the next pass gives
    the rows that have been released to the evaluator and to [delete_buffer]
    once more, and leaves the loop where it was when the entry arrived. *)
Theorem silent_decoder_repeats_batch (args : EvaluateThreadArgs)
    (th : EvalThread St) (ev : Evaluator St) (work_entry : EvalWorkEntry)
    (work_item : VideoWorkItem) (md : VideoMetadata) (total : Z) :
  evaluators th = [ev] ->
  publishes_nothing ev ->
  (0 < length (ev_output_names ev))%nat ->
  video_decode_item work_entry = true ->
  vec_get_z (work_items args) (work_item_index work_entry) = Ok work_item ->
  vec_get_z (metadata args) (video_index work_item) = Ok md ->
  length (buffers work_entry) = length (buffer_sizes work_entry) ->
  Forall (fun col => len col = total) (buffers work_entry) ->
  Forall (fun col => len col = total) (buffer_sizes work_entry) ->
  buffers work_entry <> [] ->
  0 < total <= i32_max ->
  0 < WORK_ITEM_SIZE args ->
  let columns := length (ev_output_names ev) in
  let loop := fun fuel evs =>
    batched_pass fuel args work_entry work_item (needs_reset work_item th)
                 (ev_device_type ev) (ev_device_id ev) columns total 0 evs
                 (repeat [] columns) (repeat [] columns) in
  let released := fun m =>
    Forall (Forall (fun row =>
                      In (DeleteBuffer (buffer_type work_entry)
                                       (buffer_device_id work_entry) row) m)) in
  let th1 := fst (configure_reset th work_item md) in
  exists slices evs2 m1 m2,
    mapM (fun col => vec_range col 0 (Z.min total (WORK_ITEM_SIZE args)))
         (buffers work_entry) = Ok slices /\
    slices <> [] /\
    Forall (fun col => 0 < len col) slices /\
    released m1 slices /\
    released m2 slices /\
    (forall fuel,
        loop (S (S fuel)) (evaluators th1) =
        ('(evs, out_sizes, out_buffers, m3) <- loop fuel evs2 ;;
         Ok (evs, out_sizes, out_buffers, m1 ++ m2 ++ m3))) /\
    (forall fuel,
        process_entry fuel args th work_entry =
        ('(evs, out_sizes, out_buffers, mem) <- loop fuel (evaluators th1) ;;
         Ok (mkEntryOutcome _
               (mkEvalThread evs (last_video_index th1) (last_next_item_id th1))
               (mkEvalWorkEntry (work_item_index work_entry) [] out_sizes
                                out_buffers CPU 0 false)
               (snd (configure_reset th work_item md)) mem))).
Proof.
  intros Hev Hsilent Hn Hvd Hitem Hmd Hshape Hbufs Hsizes Hne Htotal HW.
  cbv zeta.
  destruct (mapM_vec_range_returns total 0 (Z.min total (WORK_ITEM_SIZE args))
              ltac:(lia) ltac:(lia) (buffers work_entry) Hbufs)
    as [slices [Hslices [Hl1 Hu1]]].
  rewrite Z.sub_0_r in Hu1.
  assert (Hth1 : exists ev1,
             evaluators (fst (configure_reset th work_item md)) = [ev1] /\
             publishes_nothing ev1 /\ ev_output_names ev1 = ev_output_names ev).
  { unfold configure_reset. rewrite Hev. cbn [prepare_evaluators fst evaluators].
    eexists. split; [reflexivity|].
    destruct (needs_configure work_item th), (needs_reset work_item th);
      split; first [exact Hsilent | reflexivity]. }
  destruct Hth1 as [ev1 [Hev1 [Hsilent1 Hnames1]]].
  destruct (silent_pass args work_entry work_item (needs_reset work_item th)
              (ev_output_names ev) (ev_device_type ev) (ev_device_id ev) total
              slices Hvd Hshape Hsizes ltac:(lia) HW Hn Hslices ev1 Hsilent1 Hnames1)
    as [st1 [m1 [Hrel1 Hpass1]]].
  destruct (silent_pass args work_entry work_item (needs_reset work_item th)
              (ev_output_names ev) (ev_device_type ev) (ev_device_id ev) total
              slices Hvd Hshape Hsizes ltac:(lia) HW Hn Hslices (set_state ev1 st1)
              (publishes_nothing_set_state ev1 st1 Hsilent1) Hnames1)
    as [st2 [m2 [Hrel2 Hpass2]]].
  exists slices, [set_state (set_state ev1 st1) st2], m1, m2.
  split; [exact Hslices|]. split.
  { intros ->. destruct (buffers work_entry); [contradiction | discriminate Hl1]. }
  split.
  { eapply Forall_impl; [|exact Hu1]. intros col Hc. cbn beta in Hc. lia. }
  split; [exact Hrel1|]. split; [exact Hrel2|]. split.
  - intros fuel. rewrite Hev1.
    rewrite Hpass1 by apply repeat_length.
    rewrite Hpass2 by apply repeat_length.
    destruct (batched_pass fuel args work_entry work_item (needs_reset work_item th)
                (ev_device_type ev) (ev_device_id ev) (length (ev_output_names ev))
                total 0 [set_state (set_state ev1 st1) st2]
                (repeat [] (length (ev_output_names ev)))
                (repeat [] (length (ev_output_names ev))))
      as [[[[evs S'] B'] m3]|f]; cbn [bind]; [|reflexivity].
    rewrite app_assoc. reflexivity.
  - intros fuel. unfold process_entry. rewrite Hev. cbn [rev app bind].
    rewrite Hitem. cbn [bind]. rewrite Hmd. cbn [bind].
    destruct (configure_reset th work_item md) as [th1 calls].
    cbn [fst snd].
    assert (Htot : match buffers work_entry with
                   | [] => 0
                   | col0 :: _ => to_i32 (len col0)
                   end = total).
    { destruct (buffers work_entry) as [|col0 cols]; [contradiction|].
      inversion Hbufs. subst.
      apply MachineIntFacts.to_i32_id. unfold in_i32, i32_min, i32_max in *. lia. }
    rewrite Htot. reflexivity.
Qed.

End Quiet.

(** The first entry of scenario S5, handed to a silent decoder on processing
    unit 1. *)
Lemma silent_decoder_repeats_batch_witness :
  let args := mkEvaluateThreadArgs 8 [Scenario.s5_video]
                                   [mkVideoWorkItem 0 0 16 0] true 16 in
  let th := initial_thread [silent_decoder CPU 1] in
  let video := mkBuffer CPU 0 (Encoded 0 5000) in
  let video_args :=
    mkBuffer CPU 0
      (Args (mkDecodeArgs 8 All (mkInterval 0 16) (mkInterval 0 0) 0 [] [] 0 20)) in
  let work_entry :=
    mkEvalWorkEntry 0 ["video"%string; "video_args"%string] [[5000]; [64]]
                    [[video]; [video_args]] CPU 0 true in
  let loop := fun fuel evs =>
    batched_pass fuel args work_entry (mkVideoWorkItem 0 0 16 0) true CPU 1 1 1 0 evs
                 [[]] [[]] in
  exists evs2 m1 m2,
    In (DeleteBuffer CPU 0 video) m1 /\ In (DeleteBuffer CPU 0 video_args) m1 /\
    In (DeleteBuffer CPU 0 video) m2 /\ In (DeleteBuffer CPU 0 video_args) m2 /\
    forall fuel,
      loop (S (S fuel)) [silent_decoder CPU 1] =
      ('(evs, out_sizes, out_buffers, m3) <- loop fuel evs2 ;;
       Ok (evs, out_sizes, out_buffers, m1 ++ m2 ++ m3)).
Proof.
  cbv zeta.
  destruct (silent_decoder_repeats_batch
              (mkEvaluateThreadArgs 8 [Scenario.s5_video] [mkVideoWorkItem 0 0 16 0]
                                    true 16)
              (initial_thread [silent_decoder CPU 1]) (silent_decoder CPU 1)
              (mkEvalWorkEntry 0 ["video"%string; "video_args"%string]
                 [[5000]; [64]]
                 [[mkBuffer CPU 0 (Encoded 0 5000)];
                  [mkBuffer CPU 0
                     (Args (mkDecodeArgs 8 All (mkInterval 0 16) (mkInterval 0 0)
                                         0 [] [] 0 20))]]
                 CPU 0 true)
              (mkVideoWorkItem 0 0 16 0) Scenario.s5_video 1)
    as [slices [evs2 [m1 [m2 [Hslices [_ [_ [Hr1 [Hr2 [Hloop _]]]]]]]]]].
  - reflexivity.
  - apply silent_decoder_publishes_nothing.
  - cbn. lia.
  - reflexivity.
  - reflexivity.
  - reflexivity.
  - reflexivity.
  - repeat constructor.
  - repeat constructor.
  - discriminate.
  - unfold i32_max. lia.
  - cbn. lia.
  - vm_compute in Hslices. inversion Hslices. subst slices.
    exists evs2, m1, m2.
    inversion Hr1 as [|c1 l1 Hv1 Ht1]. subst.
    inversion Ht1 as [|c2 l2 Ha1 _]. subst.
    inversion Hr2 as [|c3 l3 Hv2 Ht2]. subst.
    inversion Ht2 as [|c4 l4 Ha2 _]. subst.
    inversion Hv1. inversion Ha1. inversion Hv2. inversion Ha2. subst.
    repeat (split; [assumption|]).
    intros fuel. exact (Hloop fuel).
Defined.

End RepeatFacts.
